(* ===== verification/_CoqProject ===== *)
-Q . S2P
Prelude.v
Python.v
Logging.v
Config.v
Containers.v
Codec.v
AudioIO.v
Transport.v
Client.v
Protocol.v
Retry.v
Lifecycle.v
SendLoop.v
Keepalive.v
Frame.v
System.v
Threads.v
Order.v
Program.v
Spec.v
Pacer.v
Dispatcher.v
Atomic.v
