(* ===== verification/Prelude.v ===== *)
(** * A verification development for the duplex OPUS audio client

    The program verified here is [src/main.py]: a Python client that
    captures microphone audio, compresses it frame by frame with OPUS and
    sends it over a WebSocket, and that plays the audio frames the peer
    sends back.  It is one file with three classes, a retry loop and an
    entry block:

    - [OpusCodec] (lines 33-67) wraps the encoder and the decoder of
      [opuslib]; [encode] and [decode] turn an [OpusError] into [None].
    - [AudioIO] (lines 69-127) owns the PyAudio streams, the bounded
      capture queue ([queue.Queue(maxsize=30)]) filled by the capture
      callback, and the playback buffer ([deque(maxlen=30)]).
    - [AudioClient] (lines 129-256) owns the WebSocket application.  Its
      callbacks [_on_open], [_on_message], [_on_error] and [_on_close] are
      run by the transport; [_on_open] starts two threads, the paced send
      loop [_send_loop] and the keepalive loop [_keepalive]; [run] retries
      [run_forever] with a capped exponential back-off.
    - The entry block (lines 258-264) builds a client, runs it, and cleans
      up on [KeyboardInterrupt].

    ** Files of the development, in dependency order

    - [Prelude] (this file): the tactics, hint databases and list lemmas
      the components share, in particular [lastn] (the last [n] elements of
      a list), the reference definition of a bounded buffer.
    - [Python]: the fragment of the Python run time the program relies on:
      byte strings, truthiness, the exceptions raised or caught in
      [src/main.py] with the tests of the [except] clauses, JSON values,
      the observable effects (log records, frames sent, blocks played,
      sleeps, threads started), and the monad [M] in which every method is
      written, with its laws.
    - [Logging]: Module [Logging]: the call of [logging.basicConfig] and
      the logger (lines 25-31), and which records a configuration writes
      to which stream.
    - [Config]: the global configuration (lines 18-23).
    - [Containers]: Modules [Queue] ([queue.Queue]: [put], [put_nowait],
      [get_nowait]) and [Deque] ([collections.deque]: [append], [extend],
      [clear]), as the standard library documents them.
    - [Codec]: the class [OpusLib] (the calls of [opuslib] that are made)
      and Module [OpusCodec] ([__init__], [encode], [decode]).
    - [AudioIO]: Module [Stream] (a PyAudio stream as a state machine) and
      Module [AudioIO] ([__init__], [_init_streams], [_input_callback],
      [get_input_frame], [play_output], [release]); [run_io] runs a
      schedule of these calls.
    - [Transport]: Module [WebSocketApp] ([send], [close] over the state of
      the socket), the callbacks as [ws_event], the class [JsonLib]
      ([json.loads]).
    - [Client]: Module [AudioClient]: the attributes as a record, the
      constructor and every callback ([_on_open], [_on_message],
      [_handle_audio], [_handle_control], [_on_error], [_on_close],
      [_cleanup]); [dispatch] and [run_events] run the callbacks of a
      sequence of events.
    - [Protocol]: Module [Protocol]: the control messages as a typing
      judgment on the values of [json.loads], with its checker, and the
      wire format of section 6 of spec.md.
    - [Retry]: Module [Main]: [run] (lines 237-256) as [run_loop] over an
      environment that says how each call of [run_forever] goes, and the
      entry block [main] with its handler [finish] (lines 258-264).
    - [Lifecycle]: Module [ConnectionLifecycle]: the state machine of
      section 4.3 of spec.md as a labelled transition relation [step]
      with its function [next], and [labels_of], the transitions that
      the effects of [run] are.
    - [SendLoop]: Module [SendLoop]: [_send_loop] (lines 167-185) as a
      step function between the points at which another thread can run
      (the test of the loop, the sleep, and the calls [get_input_frame],
      [encode] and [ws.send], each a step of its own under the handler of
      the [try]); [transmit] and [iteration] are the same lines as one
      call.
    - [Keepalive]: Module [Keepalive]: [_keepalive] (lines 187-194) in the
      same way.
    - [Frame]: the receive side of the client ([recv]: decoder, playback
      buffer, streams, [is_running]) and the equivalence [≈ᵣ] of clients
      that agree on it.
    - [System]: Module [System]: the client, the clock and the threads
      started so far; [step] is one action of PortAudio, of the transport,
      of a thread, or time passing, and [run] executes a schedule.  The
      file has the invariant of the system and the pacing of the two kinds
      of thread.
    - [Threads]: what a thread does when it is given its steps (it spins,
      sends, breaks), that the loops end once [is_running] is cleared,
      and what becomes of the capture queue when no send thread runs.
    - [Order]: the order of the frames on the wire, with one send thread
      and with two.
    - [Program]: Module [Program]: the whole program, that is [System]
      with the main thread at a control point of [run] or of the entry,
      from the constructor ([boot]) to the end of the process; a callback
      is enabled only while the main thread is inside [run_forever]; a
      keyboard interrupt ([interrupt]) takes the main thread out of [run]
      to the handler of the entry ([handle]); the process is [over] when
      the main thread has ended, the threads being daemon threads;
      [view] is what a schedule is for the main thread, [replay] the main
      thread alone, [script] the view that an environment of [Retry]
      gives, [main_rank] the actions the main thread has left.
    - [Spec]: Module [BoundedFrameQueue]: the drop-on-overflow queue of
      section 4.1 of spec.md as an abstract machine, and [queue_abs], the
      abstract queue that the capture queue of [AudioIO] stands for.
    - [Pacer]: Module [FramePacer]: the pacer of section 4.2 of spec.md
      as an abstract machine over the codec boundary and the queue of
      [Spec] ([wait], [cycle], [run]), and [pacer_abs], the pacer that a
      send thread stands for.
    - [Dispatcher]: Module [InboundDispatcher]: the dispatcher of section
      4.4 of spec.md as an abstract machine over a decoder and a parser
      ([dispatch], [run]), and [dispatcher_abs], the dispatcher that a
      client stands for.
    - [Atomic]: Module [Fine]: [System] with [_on_close] (lines 224-235)
      as three actions of the transport's thread ([lower]: the flag and
      the record of line 227; [release]: line 232; [close]: lines
      233-235), between which the threads, PortAudio, the network and
      the clock run; a part that raises ends the callback.  [sim] is the
      state of [System] that a state of [Fine] stands for.

    ** How the code is modelled

    A method [def f(self, x)] of a class with state [S] is a definition
    [f : X -> M S R]: a function from the state before the call to the
    result (a value or the exception that escapes), the state after the
    call, and the list of effects performed, oldest first.  An exception
    keeps the state and the effects reached when it was raised.
    [try ... except] is [try_except] with the boolean test of the [except]
    clause; [if v := e:] is a test of [truthy].  A method of an attribute
    ([self.audio.play_output(...)]) is run by [zoom] on the attribute's
    field.  Integers are [Z] (Python integers are unbounded), lengths are
    [nat], byte strings are [list byte], time is [Q] in seconds (the
    rounding of floating point numbers is not modelled).

    A call that can wait is a partial function: the capture callback's
    [put] on a full queue, and the step of a sleeping thread before its
    time, are [None].  In [System] PortAudio runs the capture callback
    only while the input stream is active.  The libraries are interfaces ([OpusLib], [JsonLib],
    with the instances [toy_opus] and [toy_json] to run the definitions on
    concrete inputs) or state machines ([Stream], [WebSocketApp], [Queue],
    [Deque]) with the documented behaviour of the calls the program makes;
    in particular [stop_stream] returns at once on a stream that is not
    running, stopped or closed, [close] does nothing on a closed stream,
    and [write] raises [OSError] unless the stream is active.

    Concurrency is by explicit schedules.  [run_io] sequences the calls
    made on an [AudioIO], [run_events] the callbacks of the transport, and
    [System.run] the actions of all threads, and [Program.run] those of
    all threads and of the main thread in [run] and in the entry.  What
    is atomic in [System] is what the libraries make atomic (an
    operation of the queue, a call of the codec, a [ws.send]), and a
    callback as a whole.  A send thread can therefore be overtaken
    between taking a block and sending its packet, and the theorems on
    the order of the frames are stated for a sole send thread.  That a
    callback is one action loses nothing: [_on_open], [_on_message] and
    [_on_error] write one thing at most that a thread or PortAudio
    reads, and for [_on_close], which writes three, [Atomic] proves it.
    Two threads inside the codec or inside [ws.send] at once are not
    modelled.

    ** Bounds and fuel

    [Main.run_loop] has fuel, and [Main.run] gives it [max_retries] = 5:
    [run_terminates] proves that this is enough whatever the transport
    does, so [None] (out of fuel) never is the result of [run].  The two
    thread loops run as long as [is_running] is set; they are not run to
    completion but stepped, the theorems about them hold for every finite
    schedule, and [threads_stop] bounds the steps that a thread takes
    once the flag is cleared (six for a send thread, three for a
    keepalive thread).  The main thread of [Program] is stepped too, and
    [program_main_terminates] bounds its own actions by eighteen along
    every schedule, a bound that a schedule reaches.  [SendLoop.burst]
    has fuel for the steps of one iteration; three are enough (lemma
    [send_burst_iteration]).
    Nothing else is bounded: queues, buffers and traces have the sizes
    the code gives them.

    ** What the theorems show

    - [Logging]: every record the program logs is written to the
      standard output and none to the standard error.
    - [Codec]: [encode] and [decode] return [None] exactly when the library
      raised [OpusError], log exactly then, and never let it escape; the
      constructor returns exactly when the four calls of the library do.
    - [AudioIO]: the invariant (bounded queue and buffer, streams closed
      exactly after [release]) along every schedule; the queue is first-in
      first-out and loses nothing; the capture callback waits on a full
      queue; the playback buffer holds the last 30 bytes; playback happens
      exactly on an active stream; [release] never raises and is
      idempotent.
    - [Client]: the exceptions that escape [_handle_control]; the effect of
      a stop directive; the invariant along every sequence of callbacks;
      playback in delivery order; nothing is played after a close; two
      threads are started per open; [is_running] after a sequence; the
      constructor; the clean-up never raises and is idempotent (a
      second one, which the code does not guard against, changes nothing
      and logs the release again); no callback touches the capture
      queue, the encoder or [ping_interval].
    - [Protocol]: the shape of the values that [_handle_control] takes
      without raising, read off the handler, with its checker (lemmas,
      not a claim of their own: they restate the theorem on the
      exceptions of [_handle_control] in [Client]), beside the wire
      format of the specification: a message of that format need not
      have the shape, and the handler raises on it.
    - [Retry]: [run] terminates; the pauses are the first [k] of 2, 4, 8,
      16, 30 seconds for [k] failures in a row; how [run] ends; the budget
      is never given back; on an interrupt the entry cleans up, logs the
      interrupt and ends normally, whether or not a close event had
      released the resources before; on exhaustion it ends normally
      too.
    - [Lifecycle]: the invariant of the abstract machine (by induction on
      its runs); [next] is [step]; for transports that never open the
      connection, [run] is a run of the machine exactly while fewer than
      five attempts have failed, and at the fifth failure the code sleeps
      once more where the machine gives up; a concrete run in which the
      connection opens and is lost shows the budget that the machine
      resets and the code does not.
    - [SendLoop], [Keepalive]: what one iteration of the send loop does
      to the queue, the encoder and the wire; a failed ping changes
      nothing.  That the steps of a thread that runs alone are the
      iteration taken as one call is a lemma that ties the two
      presentations of lines 171-185 together.
    - [System]: the invariant of the system; the sends of one send thread
      are a period or more apart along every schedule, and so are the
      pings of one keepalive thread, [ping_interval] apart (both by one
      lemma on a potential, [system_run_paced_by], which [Program] uses
      too); [n] frames of one thread take [n - 1] periods or more;
      lateness is never made up.
    - [Threads]: an iteration with nothing to send has no suspension
      point; a queued block is sent as soon as the period has elapsed,
      when the thread is given its steps; a send that the socket refuses
      ends the thread; a sleeping keepalive thread pings once more after
      a close; once [is_running] is cleared every thread ends within a
      bounded number of its steps, and sends at most one more frame;
      while no send thread is alive the captured blocks pile up in the
      queue, and the capture callback stops returning when it is full;
      once the devices are released nothing is captured any more.
    - [Order]: from capture to the wire, with a sole send thread: along
      every schedule the audio frames sent are, in capture order and
      without repetition, packets of the captured blocks, and all of
      them while the socket is connected.  With two send threads, from
      every state in which both are about to take a block, a schedule of
      the two alone puts the packet of the second block on the wire
      before the packet of the first, encodes the second block before
      the first, and sends the two frames at the same instant; an open,
      an error and an open reach such a state from the start of the
      program.
    - [Frame]: the callbacks see the receive side only ([dispatch] and
      [run_events] are [Proper] for [≈ᵣ]), and no step of a thread, no
      capture and no change of the socket alters it.
    - [Program]: the composition of [Retry] with [System].  Every
      schedule of the program, seen from the main thread, is a run of the
      main thread alone on a client with the same receive side (a step
      simulation); the main thread alone, on the script of an
      environment, is [Main.run_loop] followed by [Main.finish]; hence
      the main thread ends in the program as [Main.main] ends, with the
      same effects, whatever the other threads do.  The main thread ends
      within eighteen actions of its own.  Pacing holds in the whole
      program, by the lemma on a potential that [System] uses.  After
      [run] has ended no thread is told to stop: [is_running] keeps its
      value to the end of the process, and a keepalive thread that is
      alive stays alive.
    - [Spec]: the capture queue implements [BoundedFrameQueue] on the
      schedules along which nothing overflows, and completes no other
      schedule.
    - [Pacer]: one iteration of the send loop is one cycle of
      [FramePacer]: the sleep is the wait, and on a block and a packet
      that are not empty the iteration leaves the queue, the wire and the
      thread as the cycle says, except that the thread has ended where
      the cycle drops a frame that the transport refused; the abstract
      pacer itself never makes up for a cycle that is late.
    - [Dispatcher]: the callbacks of a sequence of messages are a run of
      [InboundDispatcher] on the messages that are regular (frames that
      decode to a block that is not empty or are refused by the decoder,
      texts that are control messages or are refused by the parser),
      while the output stream is active: the same blocks reach the
      device in arrival order, and a stop directive leaves the buffer
      empty.
    - [Atomic]: the close callback is atomic.  Every run of [Fine] that
      ends outside the callback is matched by a run of [System] of the
      same actions in another order, with the callback as one action in
      the place of its first part: the same final state, the same
      effects of every thread at the same times, the same records of
      the callbacks (a simulation in which the steps that have read the
      lowered flag wait for the callback to end, and every other step of
      the window is taken before it); a callback that has begun can
      always end; hence the sends of a send thread are paced along every
      run of [Fine] too.  A concrete run sends a packet after the
      callback has begun; the same actions in the same order are no run
      of [System].

    ** What is not modelled

    The OPUS compression itself, PortAudio and the WebSocket protocol
    (handshake, framing, the library's own ping and reconnection) are
    libraries the program only calls.  The time stamp of a log record is
    a parameter of [Logging.format_record]; the text of the messages is
    the constructor of the record.  [stop_stream] returns at once: that
    PortAudio may wait in it for a capture callback that is still inside
    [put] is not modelled.  A [KeyboardInterrupt] is modelled
    where [run_forever] raises it, at the test of the loop of [run] and
    in its sleep; an interrupt inside a callback, inside the handler of
    the entry or during the constructor is not.  The handler of the
    entry runs [_cleanup] as one action: the threads between its two
    statements are not modelled there (they are in [Atomic], for the
    callback).  The threads of [System]
    take steps as long as a schedule gives them some; in [Program] they
    end with the process.  The components of the specification
    ([BoundedFrameQueue], [FramePacer], [ConnectionLifecycle],
    [InboundDispatcher]) are abstract machines written from spec.md and
    related to the code where the two agree; where the code departs from
    the specification the theorems state what the code does.  The
    refinement of [ConnectionLifecycle] is proved for transports that
    never open the connection; for the others the budget that the
    machine resets and the code does not is shown on a concrete run. *)

From Stdlib Require Import ZArith Lia.
From stdpp Require Import base tactics option list numbers.

(** ** Hint databases *)

(** [py] collects the lemmas that decide the common side conditions of the
    components (lengths, bounds); [pyrw] is its rewrite database. *)
Create HintDb py discriminated.
Create Rewrite HintDb pyrw.

(** ** Tactics *)

(** [case_scrut] finds a [match] (or [if]) in the goal and cases on its
    scrutinee, keeping the equation. *)
Ltac case_scrut :=
  match goal with
  | |- context [match ?x with _ => _ end] =>
      lazymatch x with
      | context [match _ with _ => _ end] => fail
      | _ => let E := fresh "E" in destruct x eqn:E
      end
  end.

(** [case_scrut_in H] does the same for a [match] of the hypothesis [H]. *)
Ltac case_scrut_in H :=
  match type of H with
  | context [match ?x with _ => _ end] =>
      lazymatch x with
      | context [match _ with _ => _ end] => fail
      | _ => let E := fresh "E" in destruct x eqn:E
      end
  end.

(** [destruct_pairs] splits every hypothesis that equates two pairs. *)
Ltac destruct_pairs :=
  repeat match goal with
  | H : (_, _) = (_, _) |- _ => inv H
  end.

(** ** Lists that [omap] produces *)

Section omap_inv.
Context {A B : Type} (f : A → option B).
Implicit Types (l : list A) (ys : list B).

(** The element that gave the head, after elements that gave nothing. *)
Lemma omap_cons_inv l y ys :
  omap f l = y :: ys →
  ∃ l1 x l2, l = l1 ++ x :: l2 ∧ omap f l1 = [] ∧ f x = Some y ∧
             omap f l2 = ys.
Proof.
  induction l as [|x l IH]; [done|]. cbn [omap list_omap].
  destruct (f x) as [y'|] eqn:Hx.
  - intros [= -> <-]. by exists [], x, l.
  - intros (l1 & x' & l2 & -> & Hl1 & Hx' & Hl2)%IH.
    exists (x :: l1), x', l2. split_and!; try done.
    cbn [omap list_omap]. by rewrite Hx.
Qed.

Lemma omap_app_inv l ys1 ys2 :
  omap f l = ys1 ++ ys2 →
  ∃ l1 l2, l = l1 ++ l2 ∧ omap f l1 = ys1 ∧ omap f l2 = ys2.
Proof.
  revert l. induction ys1 as [|y ys1 IH]; intros l; [by exists [], l|].
  intros (l1 & x & l2 & -> & Hl1 & Hx & Hl2)%omap_cons_inv.
  destruct (IH _ Hl2) as (l21 & l22 & -> & <- & <-).
  exists (l1 ++ x :: l21), l22. rewrite <- app_assoc. split_and!; try done.
  rewrite omap_app, Hl1. cbn [omap list_omap]. by rewrite Hx.
Qed.

End omap_inv.

(** ** The last [n] elements of a list *)

Section lastn.
Context {A : Type}.
Implicit Types (l k : list A) (n : nat).

(** [lastn n l] keeps the [n] most recent elements of [l] when the most
    recent element is the last one. *)
Definition lastn (n : nat) (l : list A) : list A :=
  drop (length l - n) l.

Lemma length_lastn n l : length (lastn n l) = min n (length l).
Proof. unfold lastn. rewrite length_drop. lia. Qed.

Lemma lastn_le_length n l : length (lastn n l) ≤ n.
Proof. rewrite length_lastn. lia. Qed.

Lemma lastn_all n l : length l ≤ n → lastn n l = l.
Proof.
  intros Hle. unfold lastn.
  replace (length l - n) with 0 by lia. apply drop_0.
Qed.

Lemma lastn_0 l : lastn 0 l = [].
Proof. unfold lastn. rewrite Nat.sub_0_r. apply drop_all. Qed.

Lemma lastn_nil n : lastn n [] = [].
Proof. reflexivity. Qed.

Lemma lastn_suffix n l : lastn n l `suffix_of` l.
Proof. unfold lastn. apply suffix_drop. Qed.

(** The new elements alone fill the buffer once there are [n] of them. *)
Lemma lastn_app_ge n l k : n ≤ length k → lastn n (l ++ k) = lastn n k.
Proof.
  intros Hn. unfold lastn. rewrite length_app.
  rewrite drop_app_ge by lia. f_equal. lia.
Qed.

(** Appending to the kept suffix and trimming again is trimming the whole:
    the elements dropped earlier would be dropped anyway. *)
Lemma lastn_app_lastn n l k : lastn n (lastn n l ++ k) = lastn n (l ++ k).
Proof.
  destruct (decide (length l ≤ n)) as [Hle|Hgt].
  - by rewrite (lastn_all n l).
  - rewrite <- (take_drop (length l - n) l) at 2.
    rewrite <- app_assoc. rewrite (lastn_app_ge n (take _ l)); [done|].
    rewrite length_app, length_drop. lia.
Qed.

(** One step of trimming: a list one element too long loses its head. *)
Lemma lastn_trim_step n l :
  length l ≤ S n →
  (if decide (n < length l) then drop 1 l else l) = lastn n l.
Proof.
  intros Hle. case_decide.
  - unfold lastn. f_equal. lia.
  - symmetry. apply lastn_all. lia.
Qed.

Lemma lastn_snoc n l x :
  lastn (S n) (l ++ [x]) = lastn n l ++ [x].
Proof.
  unfold lastn. rewrite length_app. simpl.
  rewrite drop_app_le by lia. f_equal. f_equal. lia.
Qed.

Lemma elem_of_lastn n l x : x ∈ lastn n l → x ∈ l.
Proof. intros Hx. exact (elem_of_suffix _ _ _ Hx (lastn_suffix n l)). Qed.

End lastn.

#[export] Hint Resolve lastn_le_length lastn_suffix : py.
#[export] Hint Rewrite @length_lastn @lastn_0 @lastn_nil : pyrw.

(** ** Folding a state along a list of inputs *)

Section fold.
Context {St In : Type} (step : St → In → St).

(** An invariant of every step is an invariant of the run. *)
Lemma foldl_invariant (P : St → Prop) (s : St) (ins : list In) :
  P s → (∀ s i, P s → P (step s i)) → P (foldl step s ins).
Proof.
  intros Hs Hstep. revert s Hs.
  induction ins as [|i ins IH]; intros s Hs; simpl; auto.
Qed.

Lemma foldl_snoc (s : St) (ins : list In) (i : In) :
  foldl step s (ins ++ [i]) = step (foldl step s ins) i.
Proof. by rewrite foldl_app. Qed.

End fold.

(** ** Integers *)

Lemma Z_of_nat_length_nonneg {A} (l : list A) : (0 ≤ Z.of_nat (length l))%Z.
Proof. lia. Qed.

#[export] Hint Resolve Z_of_nat_length_nonneg : py.
