(* ===== verification/Python.v ===== *)
(** * The fragment of the Python run time that [src/main.py] relies on

    Byte strings and truthiness, the exceptions the program raises or
    catches together with the tests of its [except] clauses, JSON values,
    the observable effects of the program, and the monad [M] in which the
    methods of the three classes are written.  Nothing here is specific to
    one class. *)

From Stdlib Require Export ZArith QArith Lia.
From Stdlib Require Export Strings.Byte.
From stdpp Require Export base tactics option list numbers strings.
From S2P Require Import Prelude.

(** ** Values *)

(** A Python [bytes] object. *)
Abbreviation bytes := (list byte).

#[export] Instance byte_eq_dec : EqDecision byte := Byte.byte_eq_dec.

(** Truthiness, as [if x:] and [if v := e:] test it. *)
Class Truthy (A : Type) := truthy : A → bool.
#[global] Hint Mode Truthy ! : typeclass_instances.

(** A byte string is true when it is not empty. *)
#[export] Instance bytes_truthy : Truthy bytes :=
  λ b, match b with [] => false | _ :: _ => true end.

(** [None] is false; a value that is not [None] has its own truth value. *)
#[export] Instance option_truthy `{Truthy A} : Truthy (option A) :=
  λ o, match o with None => false | Some a => truthy a end.

(** ** Exceptions *)

(** The exceptions that a call made by [src/main.py] can raise.
    [KeyboardInterrupt] derives from [BaseException] only; the others
    derive from [Exception]. *)
Inductive exn : Type :=
| OpusError                 (* opuslib.OpusError *)
| QueueEmpty                (* queue.Empty *)
| QueueFull                 (* queue.Full *)
| OSError                   (* raised by PyAudio on a stream that cannot be used *)
| JSONDecodeError           (* json.JSONDecodeError, a ValueError *)
| KeyError (key : string)   (* d[key] on a dict without key *)
| AttributeError            (* x.get on a value that is not a dict *)
| TypeError
| RecursionError            (* raised by json.loads on input nested too deep *)
| WebSocketException        (* websocket.WebSocketException and its subclasses *)
| KeyboardInterrupt.

#[export] Instance exn_eq_dec : EqDecision exn.
Proof. solve_decision. Defined.

(** The tests of the [except] clauses of [src/main.py]. *)
Definition is_OpusError (e : exn) : bool :=
  match e with OpusError => true | _ => false end.
Definition is_Empty (e : exn) : bool :=
  match e with QueueEmpty => true | _ => false end.
Definition is_OSError (e : exn) : bool :=
  match e with OSError => true | _ => false end.
Definition is_JSONDecodeError (e : exn) : bool :=
  match e with JSONDecodeError => true | _ => false end.
Definition is_KeyboardInterrupt (e : exn) : bool :=
  match e with KeyboardInterrupt => true | _ => false end.
(** [except Exception] catches everything but [KeyboardInterrupt]. *)
Definition is_Exception (e : exn) : bool :=
  negb (is_KeyboardInterrupt e).

(** ** JSON values, as [json.loads] returns them *)

(** An object is a [dict]; its pairs are kept in insertion order and
    [dict_get] returns the first pair with the key, so a parser that meets
    a key twice puts the later pair first. *)
#[warnings="-register-all"]
Inductive json : Type :=
| JNull
| JBool (b : bool)
| JInt (n : Z)
| JFloat (q : Q)
| JStr (s : string)
| JArr (l : list json)
| JObj (m : list (string * json)).

Fixpoint dict_get (k : string) (m : list (string * json)) : option json :=
  match m with
  | [] => None
  | (k', v) :: m' => if decide (k' = k) then Some v else dict_get k m'
  end.

(** [v == s] for a string literal [s]: true only for the same string. *)
Definition json_eq_str (v : json) (s : string) : bool :=
  match v with JStr s' => bool_decide (s' = s) | _ => false end.

(** ** Observable effects *)

Inductive level : Type := INFO | WARNING | ERROR.

(** One constructor per logging call of [src/main.py], with the values its
    message is formatted from. *)
Inductive log_msg : Type :=
| CodecInitOk                         (* line 48 *)
| CodecInitFailed (e : exn)           (* line 50 *)
| EncodeFailed (e : exn)              (* line 58 *)
| DecodeFailed (e : exn)              (* line 66 *)
| AudioInitOk                         (* line 97 *)
| PlayFailed (e : exn)                (* line 118 *)
| AudioReleased                       (* line 127 *)
| Connected (url : string)            (* line 156 *)
| SendFailed (e : exn)                (* line 184 *)
| PingFailed (e : exn)                (* line 194 *)
| ControlMessage (data : json)        (* line 212 *)
| BadControl (message : string)       (* line 217 *)
| ConnError (error : exn)             (* line 221 *)
| ConnClosed (code : option Z) (reason : option string) (* line 227 *)
| ResourcesReleased                   (* line 235 *)
| ConnException (e : exn)             (* line 250 *)
| RetryIn (delay : Z)                 (* line 253 *)
| MaxRetries                          (* line 256 *)
| UserInterrupt.                      (* line 264 *)

(** What [ws.send] is given: bytes or a string, and the frame's opcode. *)
Inductive opcode : Type := OPCODE_TEXT | OPCODE_BINARY | OPCODE_PING.
Inductive payload : Type := PBytes (b : bytes) | PStr (s : string).

Inductive thread_name : Type := SendThread | KeepaliveThread.

#[export] Instance level_eq_dec : EqDecision level.
Proof. solve_decision. Defined.
#[export] Instance opcode_eq_dec : EqDecision opcode.
Proof. solve_decision. Defined.
#[export] Instance thread_name_eq_dec : EqDecision thread_name.
Proof. solve_decision. Defined.

(** The effects a method has on the world outside the program's
    variables, in the order they happen. *)
Inductive event : Type :=
| Log (l : level) (m : log_msg)         (* a record handed to the logger *)
| Sent (data : payload) (op : opcode)   (* a frame accepted by ws.send *)
| Played (pcm : bytes)                  (* a block accepted by output_stream.write *)
| Slept (seconds : Q)                   (* time.sleep returned *)
| Started (t : thread_name).            (* Thread.start returned *)

Abbreviation trace := (list event).

(** The records logged at a level, in order. *)
Definition logged (l : level) (t : trace) : list log_msg :=
  omap (λ ev, match ev with
              | Log l' m => if decide (l' = l) then Some m else None
              | _ => None
              end) t.

(** The frames sent, in order. *)
Definition sent (t : trace) : list (payload * opcode) :=
  omap (λ ev, match ev with Sent d op => Some (d, op) | _ => None end) t.

(** The blocks played, in order. *)
Definition played (t : trace) : list bytes :=
  omap (λ ev, match ev with Played pcm => Some pcm | _ => None end) t.

(** The threads started, in order. *)
Definition started (t : trace) : list thread_name :=
  omap (λ ev, match ev with Started n => Some n | _ => None end) t.

(** The pauses taken, in order. *)
Definition slept (t : trace) : list Q :=
  omap (λ ev, match ev with Slept q => Some q | _ => None end) t.

(** ** Results and the monad of methods *)

(** A call returns a value or raises. *)
Inductive res (A : Type) : Type :=
| Ret (a : A)
| Raise (e : exn).
Arguments Ret {A} a.
Arguments Raise {A} e.

(** [data.get(key)]: only a dict has the method; a missing key gives
    [None]. *)
Definition py_get (data : json) (key : string) : res json :=
  match data with
  | JObj m => Ret (default JNull (dict_get key m))
  | _ => Raise AttributeError
  end.

(** [data[key]] for a string [key]: [KeyError] on a dict without the key,
    [TypeError] on a value that is not a dict. *)
Definition py_getitem (data : json) (key : string) : res json :=
  match data with
  | JObj m =>
      match dict_get key m with
      | Some v => Ret v
      | None => Raise (KeyError key)
      end
  | _ => Raise TypeError
  end.

(** A method over a state [S]: from the state before the call to the
    result, the state after it, and the effects performed.  A raised
    exception keeps the state reached and the effects performed so far. *)
Definition M (S A : Type) : Type := S → res A * S * trace.

Section monad.
Context {S : Type}.

Definition ret {A} (a : A) : M S A := λ s, (Ret a, s, []).

Definition raise {A} (e : exn) : M S A := λ s, (Raise e, s, []).

Definition bind {A B} (m : M S A) (k : A → M S B) : M S B :=
  λ s, match m s with
       | (Ret a, s1, t1) => let '(r, s2, t2) := k a s1 in (r, s2, t1 ++ t2)
       | (Raise e, s1, t1) => (Raise e, s1, t1)
       end.

(** [try: m except E as e: h e], where [catches] is the test of [E]. *)
Definition try_except {A} (m : M S A) (catches : exn → bool)
    (h : exn → M S A) : M S A :=
  λ s, match m s with
       | (Raise e, s1, t1) =>
           if catches e
           then let '(r, s2, t2) := h e s1 in (r, s2, t1 ++ t2)
           else (Raise e, s1, t1)
       | (Ret a, s1, t1) => (Ret a, s1, t1)
       end.

Definition get : M S S := λ s, (Ret s, s, []).
Definition gets {A} (f : S → A) : M S A := λ s, (Ret (f s), s, []).
Definition put (s : S) : M S unit := λ _, (Ret tt, s, []).
Definition modify (f : S → S) : M S unit := λ s, (Ret tt, f s, []).
Definition emit (ev : event) : M S unit := λ s, (Ret tt, s, [ev]).

(** [time.sleep(seconds)] *)
Definition sleep (seconds : Q) : M S unit := emit (Slept seconds).

(** The three logging calls. *)
Definition logger_info (m : log_msg) : M S unit := emit (Log INFO m).
Definition logger_warning (m : log_msg) : M S unit := emit (Log WARNING m).
Definition logger_error (m : log_msg) : M S unit := emit (Log ERROR m).

(** A value that is already a result, as a method. *)
Definition lift_res {A} (r : res A) : M S A := λ s, (r, s, []).

End monad.

(** [zoom] runs a method of an attribute: [g] reads the attribute off the
    enclosing object and [p] stores it back. *)
Definition zoom {S T A} (g : S → T) (p : T → S → S) (m : M T A) : M S A :=
  λ s, let '(r, t, tr) := m (g s) in (r, p t s, tr).

(** [zoom_opt] runs a method of an attribute that may be [None]; [none] is
    what happens then. *)
Definition zoom_opt {S T A} (g : S → option T) (p : option T → S → S)
    (m : M T A) (none : M S A) : M S A :=
  λ s, match g s with
       | Some t => let '(r, t', tr) := m t in (r, p (Some t') s, tr)
       | None => none s
       end.

(** A constructor: [body] is run on the new object, which is the result
    when [body] returns. *)
Definition construct {S} (self : S) (body : M S unit) : M unit S :=
  λ _, let '(r, s, tr) := body self in
       (match r with Ret _ => Ret s | Raise e => Raise e end, (), tr).

(** The three components of a finished call. *)
Definition result_of {S A} (x : res A * S * trace) : res A := x.1.1.
Definition state_of {S A} (x : res A * S * trace) : S := x.1.2.
Definition trace_of {S A} (x : res A * S * trace) : trace := x.2.
Arguments result_of {_ _} !_ /.
Arguments state_of {_ _} !_ /.
Arguments trace_of {_ _} !_ /.

(** The exception a call raised, if it raised. *)
Definition exn_of {A} (r : res A) : option exn :=
  match r with Ret _ => None | Raise e => Some e end.

(** A call returned (it did not raise). *)
Definition returns {A} (r : res A) : bool :=
  match r with Ret _ => true | Raise _ => false end.

Declare Scope py_scope.
Delimit Scope py_scope with py.
Bind Scope py_scope with M.

Notation "x <- m ;; k" := (bind m (λ x, k))
  (at level 100, m at next level, right associativity) : py_scope.
Notation "m ;; k" := (bind m (λ _, k))
  (at level 100, right associativity) : py_scope.

Open Scope py_scope.

(** ** Tactics for running methods *)

(** [munfold] exposes the state transformer under the monad's operations. *)
Ltac munfold :=
  unfold bind, ret, raise, try_except, get, gets, put, modify, sleep, emit,
    logger_info, logger_warning, logger_error, lift_res, zoom, zoom_opt,
    construct, result_of, state_of, trace_of in *.

(** [mrun] runs a method as far as the state allows and cases on what
    blocks the run. *)
Ltac mrun := munfold; simpl in *; repeat (case_scrut; simpl in *; simplify_eq).

(** ** Equality of methods and the monad laws *)

(** Two methods are equal when they agree on every state. *)
#[export] Instance M_equiv {S A} : Equiv (M S A) := λ m1 m2, ∀ s, m1 s = m2 s.

#[export] Instance M_equivalence {S A} : Equivalence (≡@{M S A}).
Proof.
  split.
  - by intros m s.
  - by intros m1 m2 H s.
  - intros m1 m2 m3 H1 H2 s. by rewrite H1.
Qed.

#[export] Instance bind_proper {S A B} :
  Proper ((≡) ==> pointwise_relation A (≡) ==> (≡)) (@bind S A B).
Proof.
  intros m1 m2 Hm k1 k2 Hk s. unfold bind. rewrite Hm.
  destruct (m2 s) as [[[a|e] s1] t1]; [|done]. by rewrite Hk.
Qed.

#[export] Instance try_except_proper {S A} :
  Proper ((≡) ==> (=) ==> pointwise_relation exn (≡) ==> (≡)) (@try_except S A).
Proof.
  intros m1 m2 Hm c ? <- h1 h2 Hh s. unfold try_except. rewrite Hm.
  destruct (m2 s) as [[[a|e] s1] t1]; [done|].
  destruct (c e); [|done]. by rewrite Hh.
Qed.

Section laws.
Context {S : Type}.

Lemma bind_ret_l {A B} (a : A) (k : A → M S B) : bind (ret a) k ≡ k a.
Proof. intros s. unfold bind, ret. by destruct (k a s) as [[r s2] t2]. Qed.

Lemma bind_ret_r {A} (m : M S A) : bind m ret ≡ m.
Proof.
  intros s. unfold bind, ret.
  destruct (m s) as [[[a|e] s1] t1]; [|done]. by rewrite app_nil_r.
Qed.

Lemma bind_assoc {A B C} (m : M S A) (k : A → M S B) (h : B → M S C) :
  bind (bind m k) h ≡ bind m (λ a, bind (k a) h).
Proof.
  intros s. unfold bind.
  destruct (m s) as [[[a|e] s1] t1]; [|done].
  destruct (k a s1) as [[[b|e] s2] t2]; [|done].
  destruct (h b s2) as [[r s3] t3]. by rewrite app_assoc.
Qed.

Lemma bind_raise {A B} (e : exn) (k : A → M S B) : bind (raise e) k ≡ raise e.
Proof. done. Qed.

Lemma try_except_ret {A} (a : A) c (h : exn → M S A) :
  try_except (ret a) c h ≡ ret a.
Proof. done. Qed.

Lemma try_except_raise {A} (e : exn) c (h : exn → M S A) :
  try_except (raise e) c h ≡ if c e then h e else raise e.
Proof.
  intros s. unfold try_except, raise. destruct (c e); [|done].
  by destruct (h e s) as [[r s2] t2].
Qed.

(** A handler is not run, and nothing is caught, when the body returns. *)
Lemma try_except_returns {A} (m : M S A) c h s :
  returns (m s).1.1 = true → try_except m c h s = m s.
Proof. unfold try_except. by destruct (m s) as [[[a|e] s1] t1]. Qed.

(** What is caught does not escape. *)
Lemma try_except_catches {A} (m : M S A) c (h : exn → M S A) s e :
  (try_except m c h s).1.1 = Raise e →
  (m s).1.1 = Raise e ∧ c e = false ∨
  ∃ e', (m s).1.1 = Raise e' ∧ c e' = true ∧ (h e' (m s).1.2).1.1 = Raise e.
Proof.
  unfold try_except. destruct (m s) as [[[a|e'] s1] t1]; simpl; [done|].
  destruct (c e') eqn:Hc; simpl.
  - destruct (h e' s1) as [[r s2] t2] eqn:Hh; simpl. intros ->.
    right. exists e'. by rewrite Hh.
  - intros [= ->]. by left.
Qed.

End laws.

Lemma zoom_ret {S T A} (g : S → T) (p : T → S → S) (a : A) s :
  p (g s) s = s → zoom g p (ret a) s = ret a s.
Proof. unfold zoom, ret. by intros ->. Qed.

Lemma zoom_bind {S T A B} (g : S → T) (p : T → S → S)
    (m : M T A) (k : A → M T B) :
  (∀ t s, g (p t s) = t) → (∀ t t' s, p t' (p t s) = p t' s) →
  zoom g p (bind m k) ≡ bind (zoom g p m) (λ a, zoom g p (k a)).
Proof.
  intros Hgp Hpp s. unfold zoom, bind.
  destruct (m (g s)) as [[[a|e] t1] tr1]; [|done].
  rewrite Hgp. destruct (k a t1) as [[r t2] tr2]. by rewrite Hpp.
Qed.

(** ** JSON *)

Lemma json_eq_str_true v s : json_eq_str v s = true ↔ v = JStr s.
Proof.
  destruct v; simpl; try (split; [done|by intros [=]]).
  rewrite bool_decide_eq_true. split; [by intros ->|by intros [= ->]].
Qed.

Lemma py_get_Ret data key v :
  py_get data key = Ret v ↔
  ∃ m, data = JObj m ∧ v = default JNull (dict_get key m).
Proof.
  destruct data; simpl; try (split; [done|by intros (? & [=] & _)]).
  split; [intros [= <-]; by eexists|by intros (? & [= <-] & ->)].
Qed.

(** ** Traces *)

Lemma logged_app l t1 t2 : logged l (t1 ++ t2) = logged l t1 ++ logged l t2.
Proof. apply omap_app. Qed.
Lemma sent_app t1 t2 : sent (t1 ++ t2) = sent t1 ++ sent t2.
Proof. apply omap_app. Qed.
Lemma played_app t1 t2 : played (t1 ++ t2) = played t1 ++ played t2.
Proof. apply omap_app. Qed.
Lemma started_app t1 t2 : started (t1 ++ t2) = started t1 ++ started t2.
Proof. apply omap_app. Qed.

Lemma slept_app t1 t2 : slept (t1 ++ t2) = slept t1 ++ slept t2.
Proof. apply omap_app. Qed.

#[export] Hint Rewrite logged_app sent_app played_app started_app slept_app
  : pyrw.
