(* ===== verification/Logging.v ===== *)
(** * The logging configuration (lines 25-31)

    [logging.basicConfig] gives the root logger a level, a format and one
    handler; [logger] is a child of the root without a level of its own.
    The records the program hands to [logger] are the [Log] events of its
    traces; this file says which of them a configuration lets through, to
    which stream, and in which form. *)

From Stdlib Require Import ZArith.
From stdpp Require Import base list strings.
From S2P Require Import Prelude Python.

Module Logging.

(** The numeric value and the name of a level, as the [logging] module
    defines them. *)
Definition levelno (l : level) : Z :=
  match l with INFO => 20 | WARNING => 30 | ERROR => 40 end.

Definition levelname (l : level) : string :=
  match l with INFO => "INFO" | WARNING => "WARNING" | ERROR => "ERROR" end.

Inductive stream : Type := Stdout | Stderr.

#[export] Instance stream_eq_dec : EqDecision stream.
Proof. solve_decision. Defined.

(** The keyword arguments of [logging.basicConfig]. *)
Record config : Type := mk_config {
  format : string;
  root_level : Z;
  handlers : list stream;
}.

(** Lines 26-30. *)
Definition basicConfig : config :=
  mk_config "%(asctime)s [%(levelname)s] %(message)s" (levelno INFO) [Stdout].

(** Line 31. *)
Definition logger_name : string := "AudioWSClient".

(** [logger.isEnabledFor(l)]: the level of the root decides for a logger
    that has none. *)
Definition isEnabledFor (cfg : config) (l : level) : bool :=
  bool_decide (root_level cfg ≤ levelno l)%Z.

(** The records that reach a stream: those that pass the level, when a
    handler of the configuration writes to the stream. *)
Definition written (cfg : config) (st : stream) (t : trace)
    : list (level * log_msg) :=
  omap (λ ev, match ev with
              | Log l m =>
                  if isEnabledFor cfg l && bool_decide (st ∈ handlers cfg)
                  then Some (l, m) else None
              | _ => None
              end) t.

(** A record as a handler writes it with the format of line 27: the time,
    the name of the level in brackets, the message. *)
Definition format_record (asctime : string) (l : level) (message : string)
    : string :=
  asctime +:+ " [" +:+ levelname l +:+ "] " +:+ message.

(** The records of a trace, whatever their level. *)
Definition records (t : trace) : list (level * log_msg) :=
  omap (λ ev, match ev with Log l m => Some (l, m) | _ => None end) t.

End Logging.

(** ** What the configuration of the program lets through *)

Lemma logging_enabled l : Logging.isEnabledFor Logging.basicConfig l = true.
Proof. by destruct l. Qed.

(** Every record the program logs is written to the standard output:
    its lowest level is the level of the configuration. *)
Lemma logging_written_stdout t :
  Logging.written Logging.basicConfig Logging.Stdout t = Logging.records t.
Proof.
  unfold Logging.written, Logging.records.
  induction t as [|ev t IH]; [done|]. cbn [omap list_omap]. rewrite IH.
  destruct ev as [l m| | | |]; try done. by rewrite logging_enabled.
Qed.

(** Nothing is written to the standard error. *)
Lemma logging_written_stderr t :
  Logging.written Logging.basicConfig Logging.Stderr t = [].
Proof.
  unfold Logging.written.
  induction t as [|ev t IH]; [done|]. cbn [omap list_omap]. rewrite IH.
  destruct ev as [l m| | | |]; try done. by rewrite andb_false_r.
Qed.

(** A level above the configured one would hide the records of the
    sessions that end well: a configuration at [WARNING] writes none of
    the [INFO] records. *)
Lemma logging_written_level cfg st t :
  (Logging.levelno INFO < Logging.root_level cfg)%Z →
  Forall (λ r, r.1 ≠ INFO) (Logging.written cfg st t).
Proof.
  intros Hlvl. unfold Logging.written.
  induction t as [|ev t IH]; [done|]. cbn [omap list_omap].
  destruct ev as [l m| | | |]; try done.
  destruct (Logging.isEnabledFor cfg l) eqn:He; simpl; [|done].
  case_bool_decide; [|done]. constructor; [|done]. simpl. intros ->.
  unfold Logging.isEnabledFor in He. apply bool_decide_eq_true in He. lia.
Qed.

Example format_record_run :
  Logging.format_record "2024-01-01 00:00:00,000" ERROR "x" =
  "2024-01-01 00:00:00,000 [ERROR] x".
Proof. reflexivity. Qed.
