(* ===== verification/Config.v ===== *)
(** * The global configuration of [src/main.py] (lines 18-23)

    The constants are Python integers and one string; [CHUNK] is computed
    by floor division, which is [Z.div] for a positive divisor. *)

From Stdlib Require Import ZArith Lia.
From stdpp Require Import base numbers strings.
From S2P Require Import Prelude.

Local Open Scope Z_scope.

(** Sampling rate in Hz. *)
Definition SAMPLE_RATE : Z := 24000.
(** Number of channels. *)
Definition CHANNELS : Z := 1.
(** Frame duration in milliseconds. *)
Definition FRAME_MS : Z := 60.
(** Samples per frame and channel: [SAMPLE_RATE * FRAME_MS // 1000]. *)
Definition CHUNK : Z := SAMPLE_RATE * FRAME_MS / 1000.
Definition WS_URL : string := "ws://127.0.0.1:8000/v1".
(** Capacity of the capture queue and of the playback buffer. *)
Definition MAX_QUEUE_SIZE : Z := 30.

(** Bytes per sample of [pyaudio.paInt16], the format both streams are
    opened with (lines 81 and 91). *)
Definition SAMPLE_WIDTH : Z := 2.

(** Bytes of one PCM block of [CHUNK] samples. *)
Definition FRAME_BYTES : Z := CHUNK * CHANNELS * SAMPLE_WIDTH.

(** ** Facts *)

Lemma CHUNK_value : CHUNK = 1440.
Proof. reflexivity. Qed.

(** The floor division that computes [CHUNK] loses nothing: a frame of
    [CHUNK] samples lasts [FRAME_MS] milliseconds exactly. *)
Lemma CHUNK_exact : CHUNK * 1000 = SAMPLE_RATE * FRAME_MS.
Proof. reflexivity. Qed.

Lemma FRAME_BYTES_value : FRAME_BYTES = 2880.
Proof. reflexivity. Qed.

Lemma MAX_QUEUE_SIZE_pos : 0 < MAX_QUEUE_SIZE.
Proof. reflexivity. Qed.

#[export] Hint Resolve MAX_QUEUE_SIZE_pos : py.
