(* ===== verification/Containers.v ===== *)
(** * The two containers of [AudioIO]

    [Queue] is [queue.Queue] as [AudioIO.__init__] creates it (line 73) and
    as the capture callback and [get_input_frame] use it (lines 101, 107);
    [Deque] is [collections.deque] with a [maxlen] (line 74) and the two
    methods the program calls, [extend] (line 114) and [clear] (line 215).
    Both are the standard library's: the definitions follow its documented
    behaviour.  The oldest element of either is the head of the list. *)

From Stdlib Require Import ZArith Lia.
From stdpp Require Import base tactics option list numbers.
From S2P Require Import Prelude Python.

(** ** [queue.Queue] *)

Module Queue.
Section queue.
Context {A : Type}.

(** [maxsize <= 0] means that the queue is unbounded. *)
Record t : Type := mk { maxsize : Z; items : list A }.

Definition new (maxsize : Z) : t := {| maxsize := maxsize; items := [] |}.

Definition qsize (q : t) : Z := Z.of_nat (length (items q)).

Definition empty (q : t) : bool := bool_decide (qsize q = 0)%Z.

(** [0 < self.maxsize <= self._qsize()] *)
Definition full (q : t) : bool :=
  bool_decide (0 < maxsize q ∧ maxsize q ≤ qsize q)%Z.

(** The item goes to the tail. *)
Definition push (x : A) (q : t) : t :=
  {| maxsize := maxsize q; items := items q ++ [x] |}.

(** [put(item)] with its default [block=True, timeout=None]: the caller
    waits while the queue is full.  [None] is a caller that is waiting:
    the call has no result and the queue is unchanged until another
    thread takes an item. *)
Definition put (x : A) (q : t) : option t :=
  if full q then None else Some (push x q).

(** [put_nowait(item)]: raises [Full] in place of waiting. *)
Definition put_nowait (x : A) : M t unit :=
  λ q, if full q then (Raise QueueFull, q, []) else (Ret tt, push x q, []).

(** [get_nowait()]: the oldest item, or [Empty]. *)
Definition get_nowait : M t A :=
  λ q, match items q with
       | [] => (Raise QueueEmpty, q, [])
       | x :: rest => (Ret x, {| maxsize := maxsize q; items := rest |}, [])
       end.

(** A bounded queue holds at most [maxsize] items. *)
Definition wf (q : t) : Prop := (0 < maxsize q → qsize q ≤ maxsize q)%Z.

#[global] Instance wf_dec q : Decision (wf q).
Proof. unfold wf. apply _. Defined.

End queue.
Arguments t : clear implicits.
End Queue.

(** ** [collections.deque] with a [maxlen] *)

Module Deque.
Section deque.
Context {A : Type}.

Record t : Type := mk { maxlen : nat; items : list A }.

Definition new (maxlen : nat) : t := {| maxlen := maxlen; items := [] |}.

(** [append(x)]: the element is added on the right; a deque that is then
    longer than [maxlen] loses its leftmost element. *)
Definition append (x : A) (d : t) : t :=
  let l := items d ++ [x] in
  {| maxlen := maxlen d;
     items := if decide (maxlen d < length l) then drop 1 l else l |}.

(** [extend(iterable)] appends the elements one by one, left to right. *)
Definition extend (xs : list A) (d : t) : t :=
  foldl (λ d x, append x d) d xs.

Definition clear (d : t) : t := {| maxlen := maxlen d; items := [] |}.

Definition wf (d : t) : Prop := length (items d) ≤ maxlen d.

#[global] Instance wf_dec d : Decision (wf d).
Proof. unfold wf. apply _. Defined.

End deque.
Arguments t : clear implicits.
End Deque.

(** ** The queue: bound and order *)

Section queue_facts.
Context {A : Type}.
Implicit Types (q : Queue.t A) (x : A).

Lemma queue_new_wf n : Queue.wf (Queue.new (A:=A) n).
Proof. unfold Queue.wf, Queue.qsize. simpl. lia. Qed.

Lemma queue_full_iff q :
  Queue.full q = true ↔ (0 < Queue.maxsize q ≤ Queue.qsize q)%Z.
Proof. unfold Queue.full. by rewrite bool_decide_eq_true. Qed.

Lemma queue_not_full_iff q :
  Queue.full q = false ↔
  (Queue.maxsize q ≤ 0 ∨ Queue.qsize q < Queue.maxsize q)%Z.
Proof. unfold Queue.full. rewrite bool_decide_eq_false. lia. Qed.

Lemma queue_qsize_push x q :
  Queue.qsize (Queue.push x q) = (Queue.qsize q + 1)%Z.
Proof.
  unfold Queue.qsize, Queue.push. simpl. rewrite length_app. simpl. lia.
Qed.

(** [put] succeeds exactly when the queue is not full, and then the item
    is the newest one. *)
Lemma queue_put_Some x q q' :
  Queue.put x q = Some q' ↔ Queue.full q = false ∧ q' = Queue.push x q.
Proof.
  unfold Queue.put. destruct (Queue.full q); split.
  - done.
  - by intros [? _].
  - by intros [= <-].
  - by intros [_ ->].
Qed.

Lemma queue_put_None x q : Queue.put x q = None ↔ Queue.full q = true.
Proof. unfold Queue.put. by destruct (Queue.full q). Qed.

Lemma queue_put_wf x q q' : Queue.wf q → Queue.put x q = Some q' → Queue.wf q'.
Proof.
  intros Hwf [Hnf ->]%queue_put_Some. apply queue_not_full_iff in Hnf.
  unfold Queue.wf in *. rewrite queue_qsize_push. simpl. lia.
Qed.

Lemma queue_put_nowait_wf x q :
  Queue.wf q → Queue.wf (Queue.put_nowait x q).1.2.
Proof.
  intros Hwf. unfold Queue.put_nowait.
  destruct (Queue.full q) eqn:Hf; simpl; [done|].
  apply (queue_put_wf x q); [done|]. unfold Queue.put. by rewrite Hf.
Qed.

Lemma queue_get_nowait_wf q : Queue.wf q → Queue.wf (Queue.get_nowait q).1.2.
Proof.
  unfold Queue.wf, Queue.get_nowait, Queue.qsize.
  destruct q as [n [|x l]]; simpl; lia.
Qed.

(** [get_nowait] on an empty queue raises [Empty] and changes nothing. *)
Lemma queue_get_nowait_empty q :
  Queue.items q = [] → Queue.get_nowait q = (Raise QueueEmpty, q, []).
Proof. unfold Queue.get_nowait. by intros ->. Qed.

(** [get_nowait] returns the oldest item and keeps the others in order. *)
Lemma queue_get_nowait_cons n x l :
  Queue.get_nowait (Queue.mk n (x :: l)) = (Ret x, Queue.mk n l, []).
Proof. done. Qed.

(** An item put into an empty queue is the next one taken. *)
Lemma queue_put_get x q q' :
  Queue.items q = [] → Queue.put x q = Some q' →
  Queue.get_nowait q' = (Ret x, q, []).
Proof.
  intros Hq [_ ->]%queue_put_Some. destruct q as [n l]. simpl in *. by subst.
Qed.

End queue_facts.

#[export] Hint Resolve queue_new_wf queue_put_wf queue_get_nowait_wf : py.

(** ** The deque: bound, and [extend] against its reference definition *)

Section deque_facts.
Context {A : Type}.
Implicit Types (d : Deque.t A) (x : A) (xs : list A).

Lemma deque_new_wf n : Deque.wf (Deque.new (A:=A) n).
Proof. unfold Deque.wf. simpl. lia. Qed.

Lemma deque_clear_wf d : Deque.wf (Deque.clear d).
Proof. unfold Deque.wf. simpl. lia. Qed.

Lemma deque_maxlen_append x d : Deque.maxlen (Deque.append x d) = Deque.maxlen d.
Proof. done. Qed.

Lemma deque_maxlen_extend xs d : Deque.maxlen (Deque.extend xs d) = Deque.maxlen d.
Proof.
  unfold Deque.extend.
  apply (foldl_invariant _ (λ d', Deque.maxlen d' = Deque.maxlen d)); [done|].
  intros d' x. by rewrite deque_maxlen_append.
Qed.

(** One [append] keeps the last [maxlen] elements. *)
Lemma deque_items_append x d :
  Deque.wf d →
  Deque.items (Deque.append x d) = lastn (Deque.maxlen d) (Deque.items d ++ [x]).
Proof.
  intros Hwf. unfold Deque.append. simpl. apply lastn_trim_step.
  rewrite length_app. simpl. unfold Deque.wf in Hwf. lia.
Qed.

Lemma deque_append_wf x d : Deque.wf d → Deque.wf (Deque.append x d).
Proof.
  intros Hwf. unfold Deque.wf. rewrite deque_items_append by done.
  rewrite deque_maxlen_append. apply lastn_le_length.
Qed.

Lemma deque_extend_wf xs d : Deque.wf d → Deque.wf (Deque.extend xs d).
Proof.
  intros Hwf. unfold Deque.extend.
  apply (foldl_invariant _ Deque.wf); [done|].
  intros d' x. apply deque_append_wf.
Qed.

(** [extend] on a deque within its bound computes the last [maxlen]
    elements of the old content followed by the new elements, so what is
    discarded on overflow is the oldest data. *)
Lemma deque_items_extend xs d :
  Deque.wf d →
  Deque.items (Deque.extend xs d) = lastn (Deque.maxlen d) (Deque.items d ++ xs).
Proof.
  revert d. induction xs as [|x xs IH]; intros d Hwf.
  - simpl. rewrite app_nil_r. symmetry. by apply lastn_all.
  - change (Deque.extend (x :: xs) d) with (Deque.extend xs (Deque.append x d)).
    rewrite IH by by apply deque_append_wf.
    rewrite deque_items_append, deque_maxlen_append by done.
    rewrite lastn_app_lastn. by rewrite <- app_assoc.
Qed.

End deque_facts.

#[export] Hint Resolve deque_new_wf deque_clear_wf deque_append_wf
  deque_extend_wf : py.

(** ** Concrete runs *)

(** A deque of capacity 3 that holds two elements and is extended by
    three: the two oldest elements are discarded. *)
Example deque_extend_run :
  Deque.items (Deque.extend [4; 5; 6] (Deque.mk 3 [1; 2])) = [4; 5; 6].
Proof. reflexivity. Qed.

(** A queue of capacity 2: the third [put] waits, [put_nowait] raises. *)
Example queue_put_run :
  Queue.put 3 (Queue.mk 2 [1; 2]) = None ∧
  Queue.put_nowait 3 (Queue.mk 2 [1; 2]) = (Raise QueueFull, Queue.mk 2 [1; 2], []) ∧
  Queue.put 2 (Queue.mk 2 [1]) = Some (Queue.mk 2 [1; 2]).
Proof. done. Qed.
