(* ===== verification/Codec.v ===== *)
(** * [OpusCodec] (lines 33-67 of [src/main.py])

    [OpusLib] is the interface of [opuslib] the class is written against:
    the calls it makes, each returning a value or raising.  [OpusCodec]
    holds an encoder and a decoder; [encode] and [decode] call the library
    with the frame size [CHUNK] and turn an [OpusError] into [None] after
    logging it.  [toy_opus] is an instance used to run the methods on
    concrete inputs. *)

From Stdlib Require Import ZArith Lia.
From stdpp Require Import base tactics option list numbers.
From S2P Require Import Prelude Python Config.

(** ** The library *)

(** The calls of [opuslib] made by [OpusCodec].  The states of the encoder
    and of the decoder are the library's own; a call may change them also
    when it raises. *)
Class OpusLib : Type := {
  Encoder : Type;
  Decoder : Type;
  (** [opuslib.Encoder(fs, channels, opuslib.APPLICATION_VOIP)] *)
  Encoder_new : Z → Z → res Encoder;
  (** [encoder.bitrate = b] *)
  Encoder_set_bitrate : Z → Encoder → res Encoder;
  (** [encoder.signal = opuslib.SIGNAL_VOICE] *)
  Encoder_set_signal_voice : Encoder → res Encoder;
  (** [opuslib.Decoder(fs, channels)] *)
  Decoder_new : Z → Z → res Decoder;
  (** [encoder.encode(pcm, frame_size)] *)
  Encoder_encode : bytes → Z → Encoder → res bytes * Encoder;
  (** [decoder.decode(opus, frame_size)] *)
  Decoder_decode : bytes → Z → Decoder → res bytes * Decoder;
}.

(** A call of the library as a method over the library's state. *)
Definition lib_call {S A} (f : S → res A * S) : M S A :=
  λ s, let '(r, s') := f s in (r, s', []).

(** ** The class *)

Module OpusCodec.
Section codec.
Context `{OpusLib}.

Record t : Type := mk { encoder : Encoder; decoder : Decoder }.

Definition set_encoder (e : Encoder) (c : t) : t :=
  {| encoder := e; decoder := decoder c |}.
Definition set_decoder (d : Decoder) (c : t) : t :=
  {| encoder := encoder c; decoder := d |}.

(** Lines 35-51.  The object exists only when the method returns. *)
Definition __init__ : M unit t :=
  try_except
    (enc <- lift_res (Encoder_new SAMPLE_RATE CHANNELS) ;;
     enc <- lift_res (Encoder_set_bitrate 24000 enc) ;;
     enc <- lift_res (Encoder_set_signal_voice enc) ;;
     dec <- lift_res (Decoder_new SAMPLE_RATE CHANNELS) ;;
     logger_info CodecInitOk ;;
     ret {| encoder := enc; decoder := dec |})
    is_OpusError
    (λ e, logger_error (CodecInitFailed e) ;; raise e).

(** Lines 53-59: PCM to OPUS. *)
Definition encode (pcm : bytes) : M t (option bytes) :=
  try_except
    (opus <- zoom encoder set_encoder (lib_call (Encoder_encode pcm CHUNK)) ;;
     ret (Some opus))
    is_OpusError
    (λ e, logger_error (EncodeFailed e) ;; ret None).

(** Lines 61-67: OPUS to PCM. *)
Definition decode (opus : bytes) : M t (option bytes) :=
  try_except
    (pcm <- zoom decoder set_decoder (lib_call (Decoder_decode opus CHUNK)) ;;
     ret (Some pcm))
    is_OpusError
    (λ e, logger_error (DecodeFailed e) ;; ret None).

End codec.
Arguments t {_}.
Arguments encode : simpl never.
Arguments decode : simpl never.
End OpusCodec.

(** ** An instance to run the class on *)

(** A codec that accepts exactly the PCM blocks of [frame_size] 16-bit
    samples and keeps one byte in four; its decoder accepts every packet
    that is not empty and returns silence.  Both count the calls that
    succeeded. *)
Definition toy_encode (pcm : bytes) (frame_size : Z) (n : nat)
    : res bytes * nat :=
  if decide (Z.of_nat (length pcm) = 2 * frame_size)%Z
  then (Ret (take (length pcm `div` 4) pcm), S n)
  else (Raise OpusError, n).

Definition toy_decode (opus : bytes) (frame_size : Z) (n : nat)
    : res bytes * nat :=
  match opus with
  | [] => (Raise OpusError, n)
  | _ => (Ret (replicate (Z.to_nat (2 * frame_size)) Byte.x00), S n)
  end.

#[export] Instance toy_opus : OpusLib := {|
  Encoder := nat;
  Decoder := nat;
  Encoder_new fs ch :=
    if decide (fs = 24000 ∧ ch = 1)%Z then Ret 0 else Raise OpusError;
  Encoder_set_bitrate b e := Ret e;
  Encoder_set_signal_voice e := Ret e;
  Decoder_new fs ch :=
    if decide (fs = 24000 ∧ ch = 1)%Z then Ret 0 else Raise OpusError;
  Encoder_encode := toy_encode;
  Decoder_decode := toy_decode;
|}.

(** ** Behaviour of [encode] and [decode] *)

Section codec_facts.
Context `{OpusLib}.
Implicit Types (c : OpusCodec.t) (pcm opus : bytes) (e : exn).

(** The two methods are one wrapper around two calls. *)
Lemma codec_encode_unfold pcm c :
  OpusCodec.encode pcm c =
  match Encoder_encode pcm CHUNK (OpusCodec.encoder c) with
  | (Ret opus, enc) => (Ret (Some opus), OpusCodec.set_encoder enc c, [])
  | (Raise e, enc) =>
      if is_OpusError e
      then (Ret None, OpusCodec.set_encoder enc c, [Log ERROR (EncodeFailed e)])
      else (Raise e, OpusCodec.set_encoder enc c, [])
  end.
Proof.
  unfold OpusCodec.encode. munfold. unfold lib_call.
  destruct (Encoder_encode _ _ _) as [[opus|e] enc]; [done|].
  by destruct (is_OpusError e).
Qed.

Lemma codec_decode_unfold opus c :
  OpusCodec.decode opus c =
  match Decoder_decode opus CHUNK (OpusCodec.decoder c) with
  | (Ret pcm, dec) => (Ret (Some pcm), OpusCodec.set_decoder dec c, [])
  | (Raise e, dec) =>
      if is_OpusError e
      then (Ret None, OpusCodec.set_decoder dec c, [Log ERROR (DecodeFailed e)])
      else (Raise e, OpusCodec.set_decoder dec c, [])
  end.
Proof.
  unfold OpusCodec.decode. munfold. unfold lib_call.
  destruct (Decoder_decode _ _ _) as [[pcm|e] dec]; [done|].
  by destruct (is_OpusError e).
Qed.

(** [encode] turns the [OpusError] of the library into [None].  It
    returns [None] exactly when the library raised [OpusError], which is
    exactly when it logs (one record, at level ERROR); it returns the
    packet the library computed for the block at the frame size [CHUNK];
    an [OpusError] never escapes; the decoder is not touched. *)
Lemma codec_encode_spec pcm c :
  let r := OpusCodec.encode pcm c in
  let lib := (Encoder_encode pcm CHUNK (OpusCodec.encoder c)).1 in
  (result_of r = Ret None ↔ lib = Raise OpusError) ∧
  (result_of r = Ret None ↔ trace_of r = [Log ERROR (EncodeFailed OpusError)]) ∧
  (result_of r ≠ Ret None ↔ trace_of r = []) ∧
  (∀ opus, result_of r = Ret (Some opus) ↔ lib = Ret opus) ∧
  result_of r ≠ Raise OpusError ∧
  OpusCodec.decoder (state_of r) = OpusCodec.decoder c.
Proof.
  cbv zeta. rewrite codec_encode_unfold.
  destruct (Encoder_encode _ _ _) as [[opus|[]] enc]; simpl;
    split_and!; try done; try (split; congruence); intros ?; split; congruence.
Qed.

(** [decode] turns the [OpusError] of the library into [None], in the
    same way: [None] exactly when the library raised [OpusError] and
    exactly when it logs; otherwise the block the library decoded at the
    frame size [CHUNK]; an [OpusError] never escapes; the encoder is not
    touched. *)
Lemma codec_decode_spec opus c :
  let r := OpusCodec.decode opus c in
  let lib := (Decoder_decode opus CHUNK (OpusCodec.decoder c)).1 in
  (result_of r = Ret None ↔ lib = Raise OpusError) ∧
  (result_of r = Ret None ↔ trace_of r = [Log ERROR (DecodeFailed OpusError)]) ∧
  (result_of r ≠ Ret None ↔ trace_of r = []) ∧
  (∀ pcm, result_of r = Ret (Some pcm) ↔ lib = Ret pcm) ∧
  result_of r ≠ Raise OpusError ∧
  OpusCodec.encoder (state_of r) = OpusCodec.encoder c.
Proof.
  cbv zeta. rewrite codec_decode_unfold.
  destruct (Decoder_decode _ _ _) as [[pcm|[]] dec]; simpl;
    split_and!; try done; try (split; congruence); intros ?; split; congruence.
Qed.

(** The constructor by the first call of the library that raises. *)
Lemma codec_init_unfold :
  OpusCodec.__init__ () =
  let failed e :=
    if is_OpusError e then (Raise e, (), [Log ERROR (CodecInitFailed e)])
    else (Raise e, (), []) in
  match Encoder_new SAMPLE_RATE CHANNELS with
  | Raise e => failed e
  | Ret enc =>
      match Encoder_set_bitrate 24000 enc with
      | Raise e => failed e
      | Ret enc =>
          match Encoder_set_signal_voice enc with
          | Raise e => failed e
          | Ret enc =>
              match Decoder_new SAMPLE_RATE CHANNELS with
              | Raise e => failed e
              | Ret dec => (Ret (OpusCodec.mk enc dec), (), [Log INFO CodecInitOk])
              end
          end
      end
  end.
Proof.
  unfold OpusCodec.__init__. munfold.
  destruct (Encoder_new _ _) as [enc|e]; simpl; [|by destruct (is_OpusError e)].
  destruct (Encoder_set_bitrate _ _) as [enc2|e]; simpl;
    [|by destruct (is_OpusError e)].
  destruct (Encoder_set_signal_voice _) as [enc3|e]; simpl;
    [|by destruct (is_OpusError e)].
  destruct (Decoder_new _ _) as [dec|e]; simpl; [done|by destruct (is_OpusError e)].
Qed.

(** The constructor returns a codec exactly when the four calls of the
    library return, and then logs its success; when a call raises, the
    calls after it are not made and the exception is raised again, after a
    record at level ERROR if it is an [OpusError]. *)
Lemma codec_init_spec :
  let r := OpusCodec.__init__ () in
  match result_of r with
  | Ret k =>
      trace_of r = [Log INFO CodecInitOk] ∧
      ∃ enc1 enc2,
        Encoder_new SAMPLE_RATE CHANNELS = Ret enc1 ∧
        Encoder_set_bitrate 24000 enc1 = Ret enc2 ∧
        Encoder_set_signal_voice enc2 = Ret (OpusCodec.encoder k) ∧
        Decoder_new SAMPLE_RATE CHANNELS = Ret (OpusCodec.decoder k)
  | Raise e =>
      trace_of r = (if is_OpusError e then [Log ERROR (CodecInitFailed e)] else [])
  end.
Proof.
  cbv zeta. rewrite codec_init_unfold. cbv beta zeta.
  destruct (Encoder_new _ _) as [enc|e] eqn:H1; simpl;
    [|by destruct (is_OpusError e) eqn:He; simpl; rewrite He].
  destruct (Encoder_set_bitrate _ _) as [enc2|e] eqn:H2; simpl;
    [|by destruct (is_OpusError e) eqn:He; simpl; rewrite He].
  destruct (Encoder_set_signal_voice _) as [enc3|e] eqn:H3; simpl;
    [|by destruct (is_OpusError e) eqn:He; simpl; rewrite He].
  destruct (Decoder_new _ _) as [dec|e] eqn:H4; simpl;
    [|by destruct (is_OpusError e) eqn:He; simpl; rewrite He].
  split; [done|]. by exists enc, enc2.
Qed.

(** The constructor does not sleep, send or play. *)
Lemma codec_init_slept : slept (trace_of (OpusCodec.__init__ ())) = [].
Proof.
  rewrite codec_init_unfold. cbv beta zeta.
  destruct (Encoder_new _ _) as [enc|e]; [|by destruct (is_OpusError e)].
  destruct (Encoder_set_bitrate _ _) as [enc2|e]; [|by destruct (is_OpusError e)].
  destruct (Encoder_set_signal_voice _) as [enc3|e];
    [|by destruct (is_OpusError e)].
  by destruct (Decoder_new _ _) as [dec|e]; [|destruct (is_OpusError e)].
Qed.

End codec_facts.

(** ** Concrete runs with [toy_opus] *)

Example toy_init :
  OpusCodec.__init__ () = (Ret (OpusCodec.mk 0 0), (), [Log INFO CodecInitOk]).
Proof. reflexivity. Qed.

(** A block of the wrong size is refused by the library: [encode] returns
    [None] and logs. *)
Example toy_encode_short :
  OpusCodec.encode [Byte.x01; Byte.x02] (OpusCodec.mk 0 0) =
  (Ret None, OpusCodec.mk 0 0, [Log ERROR (EncodeFailed OpusError)]).
Proof. reflexivity. Qed.

Example toy_decode_ok :
  OpusCodec.decode [Byte.x01] (OpusCodec.mk 0 0) =
  (Ret (Some (replicate 2880 Byte.x00)), OpusCodec.mk 0 1, []).
Proof. reflexivity. Qed.
