(* ===== verification/AudioIO.v ===== *)
(** * [AudioIO] (lines 69-127 of [src/main.py])

    [Stream] is a PyAudio stream as the class uses it: a stream is active
    once opened, [stop_stream] stops an active stream and returns at once
    on a stream that is not running, [close] closes it, and [write] raises
    [OSError] unless the stream is active.  [AudioIO] is the class: the
    capture queue, the playback buffer and the two streams, with one
    definition per method.
    The capture callback is the one method that can wait (its [put] blocks
    on a full queue), so it is a partial function on the state. *)

From Stdlib Require Import ZArith Lia.
From stdpp Require Import base tactics option list numbers.
From S2P Require Import Prelude Python Config Containers.

(** ** PyAudio streams *)

Module Stream.

Inductive t : Type :=
| Unopened    (* the attribute is not assigned yet *)
| Active      (* opened; PyAudio starts a stream when it opens it *)
| Stopped
| Closed.

#[global] Instance eq_dec : EqDecision t.
Proof. solve_decision. Defined.

(** [stream.stop_stream()]: the wrapper returns at once when the stream
    is not running, which a stopped and a closed stream are not. *)
Definition stop_stream : M t unit :=
  λ st, match st with
        | Unopened => (Raise AttributeError, st, [])
        | Active => (Ret tt, Stopped, [])
        | Stopped | Closed => (Ret tt, st, [])
        end.

(** [stream.close()] *)
Definition close : M t unit :=
  λ st, match st with
        | Unopened => (Raise AttributeError, st, [])
        | _ => (Ret tt, Closed, [])
        end.

(** [stream.write(pcm)] on an output stream: the block reaches the device
    when the stream is active. *)
Definition write (pcm : bytes) : M t unit :=
  λ st, match st with
        | Unopened => (Raise AttributeError, st, [])
        | Active => (Ret tt, st, [Played pcm])
        | Stopped | Closed => (Raise OSError, st, [])
        end.

End Stream.

(** What [pa.open] finds: whether a capture and a playback device can be
    opened. *)
Record devices : Type := mk_devices { has_input : bool; has_output : bool }.

(** The value a PortAudio callback returns with its data. *)
Inductive pa_flag : Type := paContinue | paComplete | paAbort.

(** ** The class *)

Module AudioIO.

Record t : Type := mk {
  pa_terminated : bool;            (* [self.pa], and whether it was terminated *)
  input_queue : Queue.t bytes;     (* blocks captured and not yet taken *)
  output_buffer : Deque.t byte;    (* a deque of the bytes handed to [extend] *)
  input_stream : Stream.t;
  output_stream : Stream.t;
}.

Definition set_pa_terminated (b : bool) (a : t) : t :=
  mk b (input_queue a) (output_buffer a) (input_stream a) (output_stream a).
Definition set_input_queue (q : Queue.t bytes) (a : t) : t :=
  mk (pa_terminated a) q (output_buffer a) (input_stream a) (output_stream a).
Definition set_output_buffer (d : Deque.t byte) (a : t) : t :=
  mk (pa_terminated a) (input_queue a) d (input_stream a) (output_stream a).
Definition set_input_stream (s : Stream.t) (a : t) : t :=
  mk (pa_terminated a) (input_queue a) (output_buffer a) s (output_stream a).
Definition set_output_stream (s : Stream.t) (a : t) : t :=
  mk (pa_terminated a) (input_queue a) (output_buffer a) (input_stream a) s.

(** Lines 77-97: both streams are opened; [pa.open] raises [OSError] when
    the device cannot be opened. *)
Definition _init_streams (dev : devices) : M t unit :=
  (if has_input dev then modify (set_input_stream Stream.Active)
   else raise OSError) ;;
  (if has_output dev then modify (set_output_stream Stream.Active)
   else raise OSError) ;;
  logger_info AudioInitOk.

(** Lines 71-75. *)
Definition __init__ (dev : devices) : M unit t :=
  construct {| pa_terminated := false;
               input_queue := Queue.new MAX_QUEUE_SIZE;
               output_buffer := Deque.new (Z.to_nat MAX_QUEUE_SIZE);
               input_stream := Stream.Unopened;
               output_stream := Stream.Unopened |}
            (_init_streams dev).

(** Lines 99-102.  [None]: the callback is waiting in [put]. *)
Definition _input_callback (in_data : bytes) (a : t)
    : option ((bytes * pa_flag) * t) :=
  q ← Queue.put in_data (input_queue a);
  Some ((in_data, paContinue), set_input_queue q a).

(** Lines 104-109. *)
Definition get_input_frame : M t (option bytes) :=
  try_except
    (frame <- zoom input_queue set_input_queue Queue.get_nowait ;;
     ret (Some frame))
    is_Empty
    (λ _, ret None).

(** Lines 111-118.  [extend] is given a byte string, so what the deque
    receives is its bytes. *)
Definition play_output (pcm_data : option bytes) : M t unit :=
  match pcm_data with
  | Some pcm =>
      if truthy pcm then
        modify (λ a, set_output_buffer (Deque.extend pcm (output_buffer a)) a) ;;
        try_except
          (zoom output_stream set_output_stream (Stream.write pcm))
          is_OSError
          (λ e, logger_error (PlayFailed e))
      else ret tt
  | None => ret tt
  end.

(** Lines 120-127. *)
Definition release : M t unit :=
  zoom input_stream set_input_stream Stream.stop_stream ;;
  zoom output_stream set_output_stream Stream.stop_stream ;;
  zoom input_stream set_input_stream Stream.close ;;
  zoom output_stream set_output_stream Stream.close ;;
  modify (set_pa_terminated true) ;;
  logger_info AudioReleased.

(** ** Well-formed states *)

(** The two containers have the configured capacity and respect it; both
    streams are active until [release] has run, and closed from then on. *)
Record wf (a : t) : Prop := {
  wf_queue_max : Queue.maxsize (input_queue a) = MAX_QUEUE_SIZE;
  wf_queue : Queue.wf (input_queue a);
  wf_buffer_max : Deque.maxlen (output_buffer a) = Z.to_nat MAX_QUEUE_SIZE;
  wf_buffer : Deque.wf (output_buffer a);
  wf_input_stream :
    input_stream a = if pa_terminated a then Stream.Closed else Stream.Active;
  wf_output_stream :
    output_stream a = if pa_terminated a then Stream.Closed else Stream.Active;
}.

Arguments _input_callback : simpl never.
Arguments get_input_frame : simpl never.
Arguments play_output : simpl never.
Arguments release : simpl never.

End AudioIO.

(** ** The methods as operations of a state machine *)

(** The calls made on an [AudioIO] by the threads of the program: the
    capture thread completes a callback, the send loop calls
    [get_input_frame], the transport thread calls [play_output] and
    [release]. *)
Inductive io_op : Type :=
| Capture (in_data : bytes)
| Take
| Play (pcm_data : option bytes)
| Release.

(** One call.  [None]: the call is a callback that cannot complete in
    this state.  Otherwise the value [get_input_frame] returned (if the
    call is one), the exception that escaped (if one did), the state and
    the effects. *)
Definition io_step (op : io_op) (a : AudioIO.t)
    : option (option bytes * option exn * AudioIO.t * trace) :=
  match op with
  | Capture b =>
      '(_, a') ← AudioIO._input_callback b a; Some (None, None, a', [])
  | Take =>
      let r := AudioIO.get_input_frame a in
      Some (match result_of r with Ret o => o | Raise _ => None end,
            exn_of (result_of r), state_of r, trace_of r)
  | Play o =>
      let r := AudioIO.play_output o a in
      Some (None, exn_of (result_of r), state_of r, trace_of r)
  | Release =>
      let r := AudioIO.release a in
      Some (None, exn_of (result_of r), state_of r, trace_of r)
  end.

(** The result of a schedule of calls. *)
Record io_run : Type := mk_io_run {
  io_taken : list bytes;    (* the blocks [get_input_frame] returned *)
  io_raised : list exn;     (* the exceptions that escaped *)
  io_state : AudioIO.t;
  io_trace : trace;
}.

(** Runs a schedule.  [None]: a callback of the schedule cannot complete
    where the schedule places it. *)
Fixpoint run_io (ops : list io_op) (a : AudioIO.t) : option io_run :=
  match ops with
  | [] => Some (mk_io_run [] [] a [])
  | op :: ops' =>
      '(o, e, a', tr) ← io_step op a;
      r ← run_io ops' a';
      Some (mk_io_run (option_list o ++ io_taken r)
                      (option_list e ++ io_raised r)
                      (io_state r) (tr ++ io_trace r))
  end.

(** The blocks offered by the callbacks of a schedule. *)
Definition captured (ops : list io_op) : list bytes :=
  omap (λ op, match op with Capture b => Some b | _ => None end) ops.

(** ** Streams *)

(** A block is played exactly when the stream is active. *)
Lemma stream_write_played pcm st :
  played (trace_of (Stream.write pcm st)) =
  if decide (st = Stream.Active) then [pcm] else [].
Proof. by destruct st. Qed.

(** ** The methods in closed form *)

Section audio_facts.
Implicit Types (a : AudioIO.t) (pcm in_data : bytes).

(** [get_input_frame] returns the oldest block, or [None] when there is
    none, and never raises. *)
Lemma audio_get_input_frame_unfold a :
  AudioIO.get_input_frame a =
  match Queue.items (AudioIO.input_queue a) with
  | [] => (Ret None, a, [])
  | x :: rest =>
      (Ret (Some x),
       AudioIO.set_input_queue
         (Queue.mk (Queue.maxsize (AudioIO.input_queue a)) rest) a, [])
  end.
Proof.
  destruct a as [pt [n [|x rest]] buf si so]; reflexivity.
Qed.

(** The callback completes exactly when the queue is not full, and then
    puts the block at the tail and returns it with [paContinue]. *)
Lemma audio_input_callback_unfold in_data a :
  AudioIO._input_callback in_data a =
  if Queue.full (AudioIO.input_queue a) then None
  else Some ((in_data, paContinue),
             AudioIO.set_input_queue
               (Queue.push in_data (AudioIO.input_queue a)) a).
Proof.
  unfold AudioIO._input_callback, Queue.put.
  by destruct (Queue.full _).
Qed.

(** [play_output] stores the bytes of a block that is not empty and, when
    the output stream is active, plays the block; on a stream that is
    stopped or closed it logs the [OSError] and returns. *)
Lemma audio_play_output_unfold pcm a :
  pcm ≠ [] →
  AudioIO.play_output (Some pcm) a =
  let a' := AudioIO.set_output_buffer
              (Deque.extend pcm (AudioIO.output_buffer a)) a in
  match AudioIO.output_stream a with
  | Stream.Active => (Ret tt, a', [Played pcm])
  | Stream.Unopened => (Raise AttributeError, a', [])
  | _ => (Ret tt, a', [Log ERROR (PlayFailed OSError)])
  end.
Proof.
  intros Hne. destruct pcm as [|b pcm]; [done|].
  destruct a as [pt q buf si []]; reflexivity.
Qed.

(** [None] and the empty byte string are ignored. *)
Lemma audio_play_output_falsy o a :
  truthy o = false → AudioIO.play_output o a = (Ret tt, a, []).
Proof. by destruct o as [[|b pcm]|]. Qed.

(** [release] closes both streams, terminates PyAudio, logs once, and
    leaves the two containers as they are, on an object that was
    released too: there the calls find nothing to do. *)
Lemma audio_release_unfold a :
  AudioIO.wf a →
  AudioIO.release a =
  (Ret tt,
   AudioIO.mk true (AudioIO.input_queue a) (AudioIO.output_buffer a)
     Stream.Closed Stream.Closed,
   [Log INFO AudioReleased]).
Proof.
  intros [_ _ _ _ Hi Ho]. destruct a as [[] q buf si so]; simpl in *; by subst.
Qed.

Lemma audio_wf_opened a :
  AudioIO.wf a →
  AudioIO.input_stream a ≠ Stream.Unopened ∧
  AudioIO.output_stream a ≠ Stream.Unopened.
Proof. intros [_ _ _ _ -> ->]. by destruct (AudioIO.pa_terminated a). Qed.

End audio_facts.

(** ** The invariant *)

Section audio_invariant.
Implicit Types (a : AudioIO.t) (pcm in_data : bytes).

(** Setting one container keeps what the invariant says of the rest. *)
Lemma audio_wf_set_input_queue q a :
  AudioIO.wf a → Queue.maxsize q = MAX_QUEUE_SIZE → Queue.wf q →
  AudioIO.wf (AudioIO.set_input_queue q a).
Proof. intros [] ??. by split. Qed.

Lemma audio_wf_set_output_buffer d a :
  AudioIO.wf a → Deque.maxlen d = Z.to_nat MAX_QUEUE_SIZE → Deque.wf d →
  AudioIO.wf (AudioIO.set_output_buffer d a).
Proof. intros [] ??. by split. Qed.

(** The constructor returns exactly when both devices can be opened, and
    the object it returns is well formed, with both streams active. *)
Lemma audio_init_returns dev :
  returns (result_of (AudioIO.__init__ dev ())) = has_input dev && has_output dev.
Proof. by destruct dev as [[] []]. Qed.

Lemma audio_init_wf dev a tr :
  AudioIO.__init__ dev () = (Ret a, (), tr) →
  AudioIO.wf a ∧ AudioIO.input_stream a = Stream.Active ∧
  AudioIO.output_stream a = Stream.Active ∧ tr = [Log INFO AudioInitOk].
Proof.
  destruct dev as [[] []]; intros [= <- <-]; split_and!; try done.
  split; simpl; try done. apply deque_new_wf.
Qed.

Lemma audio_input_callback_wf in_data a r a' :
  AudioIO.wf a → AudioIO._input_callback in_data a = Some (r, a') →
  AudioIO.wf a'.
Proof.
  intros Hwf. rewrite audio_input_callback_unfold.
  destruct (Queue.full _) eqn:Hf; [done|]. intros [= <- <-].
  destruct (Hwf) as [Hmax Hq _ _ _ _].
  apply audio_wf_set_input_queue; [done|done|].
  apply (queue_put_wf in_data (AudioIO.input_queue a)); [done|].
  unfold Queue.put. by rewrite Hf.
Qed.

Lemma audio_get_input_frame_wf a :
  AudioIO.wf a → AudioIO.wf (state_of (AudioIO.get_input_frame a)).
Proof.
  intros Hwf. rewrite audio_get_input_frame_unfold.
  destruct (Queue.items _) as [|x rest] eqn:Hi; [done|]. simpl.
  destruct (Hwf) as [Hmax Hq _ _ _ _].
  apply audio_wf_set_input_queue; [done|by rewrite Hmax|].
  apply queue_get_nowait_wf in Hq. unfold Queue.get_nowait in Hq.
  by rewrite Hi in Hq.
Qed.

Lemma audio_play_output_wf o a :
  AudioIO.wf a → AudioIO.wf (state_of (AudioIO.play_output o a)).
Proof.
  intros Hwf. destruct (truthy o) eqn:Ht.
  2: { by rewrite audio_play_output_falsy. }
  destruct o as [[|b pcm]|]; try done.
  rewrite audio_play_output_unfold by done.
  destruct (Hwf) as [_ _ Hmax Hd _ _].
  assert (AudioIO.wf (AudioIO.set_output_buffer
            (Deque.extend (b :: pcm) (AudioIO.output_buffer a)) a)).
  { apply audio_wf_set_output_buffer; [done| |by apply deque_extend_wf].
    by rewrite deque_maxlen_extend. }
  by destruct (AudioIO.output_stream a).
Qed.

Lemma audio_release_wf a :
  AudioIO.wf a → AudioIO.wf (state_of (AudioIO.release a)).
Proof.
  intros Hwf. rewrite audio_release_unfold by done. destruct Hwf. by split.
Qed.

(** Every call on a well-formed [AudioIO] leaves it well formed. *)
Lemma audio_io_step_wf op a o e a' tr :
  AudioIO.wf a → io_step op a = Some (o, e, a', tr) → AudioIO.wf a'.
Proof.
  intros Hwf. destruct op as [b| |pcm|]; unfold io_step.
  - destruct (AudioIO._input_callback b a) as [[r a1]|] eqn:Hcb; [|done].
    simpl. intros [= _ _ <- _]. by eapply audio_input_callback_wf.
  - intros [= _ _ <- _]. by apply audio_get_input_frame_wf.
  - intros [= _ _ <- _]. by apply audio_play_output_wf.
  - intros [= _ _ <- _]. by apply audio_release_wf.
Qed.

(** C8: the invariant holds along every schedule of calls on an [AudioIO]:
    the queue holds at most [MAX_QUEUE_SIZE] blocks, the buffer at most
    [MAX_QUEUE_SIZE] bytes, both keep their capacity, and a terminated
    PyAudio has no open stream. *)
Theorem audio_run_io_wf ops a r :
  AudioIO.wf a → run_io ops a = Some r → AudioIO.wf (io_state r).
Proof.
  revert a r. induction ops as [|op ops IH]; intros a r Hwf; simpl.
  - by intros [= <-].
  - destruct (io_step op a) as [[[[o e] a1] tr]|] eqn:Hs; [|done]. simpl.
    destruct (run_io ops a1) as [r1|] eqn:Hr; [|done]. simpl.
    intros [= <-]. simpl. eapply IH; [|done]. by eapply audio_io_step_wf.
Qed.

End audio_invariant.

(** ** The capture queue: blocking, order, loss *)

Section audio_queue.
Implicit Types (a : AudioIO.t) (pcm in_data : bytes).

(** On a well-formed [AudioIO] the callback cannot complete exactly when
    the queue holds [MAX_QUEUE_SIZE] blocks. *)
Lemma audio_input_callback_None in_data a :
  AudioIO.wf a →
  AudioIO._input_callback in_data a = None ↔
  length (Queue.items (AudioIO.input_queue a)) = Z.to_nat MAX_QUEUE_SIZE.
Proof.
  intros [Hmax Hq _ _ _ _]. rewrite audio_input_callback_unfold.
  destruct (Queue.full _) eqn:Hf.
  - apply queue_full_iff in Hf. unfold Queue.wf, Queue.qsize in *.
    rewrite Hmax in *. unfold MAX_QUEUE_SIZE in *. split; [lia|done].
  - apply queue_not_full_iff in Hf. unfold Queue.qsize in *.
    rewrite Hmax in *. unfold MAX_QUEUE_SIZE in *. split; [done|lia].
Qed.

(** C6: the capture callback on a well-formed [AudioIO].  When the queue
    holds [MAX_QUEUE_SIZE] blocks the callback does not complete: the block
    is not dropped, the capture thread waits in [put].  Otherwise it
    returns the block with [paContinue], and the block is the newest of
    the queue; nothing else changes. *)
Theorem audio_input_callback_spec in_data a :
  AudioIO.wf a →
  match AudioIO._input_callback in_data a with
  | None =>
      length (Queue.items (AudioIO.input_queue a)) = Z.to_nat MAX_QUEUE_SIZE
  | Some (r, a') =>
      length (Queue.items (AudioIO.input_queue a)) < Z.to_nat MAX_QUEUE_SIZE ∧
      r = (in_data, paContinue) ∧
      a' = AudioIO.set_input_queue
             (Queue.mk MAX_QUEUE_SIZE
                (Queue.items (AudioIO.input_queue a) ++ [in_data])) a
  end.
Proof.
  intros Hwf. pose proof (audio_input_callback_None in_data a Hwf) as Hn.
  destruct (Hwf) as [Hmax Hq _ _ _ _].
  destruct (AudioIO._input_callback in_data a) as [[r a']|] eqn:Hcb.
  - rewrite audio_input_callback_unfold in Hcb.
    destruct (Queue.full _) eqn:Hf; [done|]. injection Hcb as <- <-.
    apply queue_not_full_iff in Hf. unfold Queue.qsize in Hf.
    rewrite Hmax in Hf. unfold Queue.push. rewrite Hmax.
    unfold MAX_QUEUE_SIZE in *. split_and!; [lia|done..].
  - by apply Hn.
Qed.

(** [play_output] and [release] leave the queue alone. *)
Lemma audio_play_output_queue o a :
  AudioIO.input_queue (state_of (AudioIO.play_output o a)) = AudioIO.input_queue a.
Proof.
  destruct o as [[|b pcm]|]; try done.
  rewrite audio_play_output_unfold by done.
  by destruct (AudioIO.output_stream a).
Qed.

Lemma audio_release_queue a :
  AudioIO.input_queue (state_of (AudioIO.release a)) = AudioIO.input_queue a.
Proof. by destruct a as [pt q buf [] []]. Qed.

(** One call: what it returns and what it leaves in the queue is what the
    queue held and what the call offered. *)
Lemma audio_io_step_queue op a o e a' tr :
  io_step op a = Some (o, e, a', tr) →
  option_list o ++ Queue.items (AudioIO.input_queue a') =
  Queue.items (AudioIO.input_queue a) ++ captured [op].
Proof.
  destruct op as [b| |pcm|]; unfold io_step.
  - rewrite audio_input_callback_unfold. destruct (Queue.full _); [done|].
    simpl. by intros [= <- _ <- _].
  - rewrite audio_get_input_frame_unfold.
    destruct (Queue.items _) as [|x rest] eqn:Hi; intros [= <- _ <- _]; simpl.
    + by rewrite Hi.
    + by rewrite app_nil_r.
  - intros [= <- _ <- _]. simpl. by rewrite audio_play_output_queue, app_nil_r.
  - intros [= <- _ <- _]. simpl. by rewrite audio_release_queue, app_nil_r.
Qed.

Lemma captured_cons op ops : captured (op :: ops) = captured [op] ++ captured ops.
Proof. unfold captured. simpl. by destruct op. Qed.

(** C1: along every schedule, the blocks taken followed by the blocks
    still queued are the blocks queued at the start followed by the blocks
    captured: the queue is first-in first-out and nothing is lost,
    duplicated or reordered between the callback and [get_input_frame]. *)
Theorem audio_run_io_fifo ops a r :
  run_io ops a = Some r →
  io_taken r ++ Queue.items (AudioIO.input_queue (io_state r)) =
  Queue.items (AudioIO.input_queue a) ++ captured ops.
Proof.
  revert a r. induction ops as [|op ops IH]; intros a r; simpl.
  - intros [= <-]. simpl. by rewrite app_nil_r.
  - destruct (io_step op a) as [[[[o e] a1] tr]|] eqn:Hs; [|done]. simpl.
    destruct (run_io ops a1) as [r1|] eqn:Hr; [|done]. simpl.
    intros [= <-]. simpl. rewrite <- app_assoc, (IH _ _ Hr).
    rewrite app_assoc, (audio_io_step_queue _ _ _ _ _ _ Hs).
    by rewrite <- app_assoc, <- captured_cons.
Qed.

(** With no consumer, a burst of callbacks completes exactly when the
    queue has room for all its blocks: the callback that finds the queue
    full never returns, where a drop-on-overflow queue would discard the
    block and return. *)
Lemma audio_capture_burst frames a :
  AudioIO.wf a →
  is_Some (run_io (Capture <$> frames) a) ↔
  length (Queue.items (AudioIO.input_queue a)) + length frames
    ≤ Z.to_nat MAX_QUEUE_SIZE.
Proof.
  revert a. induction frames as [|b frames IH]; intros a Hwf; simpl.
  - destruct (Hwf) as [Hmax Hq _ _ _ _].
    unfold Queue.wf, Queue.qsize in Hq. rewrite Hmax in Hq.
    unfold MAX_QUEUE_SIZE in *. split; [lia|by eexists].
  - destruct (AudioIO._input_callback b a) as [[r a1]|] eqn:Hcb; simpl.
    + pose proof (audio_input_callback_wf _ _ _ _ Hwf Hcb) as Hwf1.
      rewrite audio_input_callback_unfold in Hcb.
      destruct (Queue.full _); [done|]. injection Hcb as _ <-.
      specialize (IH _ Hwf1). simpl in IH. rewrite length_app in IH. simpl in IH.
      destruct (run_io _ _) as [r1|]; simpl.
      * split; [intros _|by eexists].
        assert (is_Some (Some r1)) as Hs%IH by by eexists. lia.
      * split; [by intros [? ?]|]. intros Hle. apply IH. lia.
    + apply audio_input_callback_None in Hcb; [|done].
      split; [by intros [? ?]|lia].
Qed.

End audio_queue.

(** ** Playback and release *)

Section audio_playback.
Implicit Types (a : AudioIO.t) (pcm : bytes).

(** What [play_output] leaves in the buffer. *)
Lemma audio_play_output_items pcm a :
  AudioIO.wf a → pcm ≠ [] →
  Deque.items (AudioIO.output_buffer (state_of (AudioIO.play_output (Some pcm) a)))
  = lastn (Z.to_nat MAX_QUEUE_SIZE)
      (Deque.items (AudioIO.output_buffer a) ++ pcm).
Proof.
  intros [_ _ Hmax Hd _ _] Hne. rewrite audio_play_output_unfold by done.
  rewrite <- Hmax, <- deque_items_extend by done.
  by destruct (AudioIO.output_stream a).
Qed.

(** C31: after [play_output] of a block that is not empty, the playback
    buffer holds the last [MAX_QUEUE_SIZE] bytes of its old content
    followed by the block: its unit is the byte, not the block, and what
    overflows is the oldest data.  A block of [MAX_QUEUE_SIZE] bytes or more
    replaces the whole buffer by its own last bytes. *)
Theorem audio_play_output_buffer pcm a :
  AudioIO.wf a → pcm ≠ [] →
  let buf := Deque.items (AudioIO.output_buffer
                            (state_of (AudioIO.play_output (Some pcm) a))) in
  buf = lastn (Z.to_nat MAX_QUEUE_SIZE)
          (Deque.items (AudioIO.output_buffer a) ++ pcm) ∧
  (Z.to_nat MAX_QUEUE_SIZE ≤ length pcm →
   buf = lastn (Z.to_nat MAX_QUEUE_SIZE) pcm).
Proof.
  intros Hwf Hne. cbv zeta. rewrite audio_play_output_items by done.
  split; [done|]. intros Hlen. by apply lastn_app_ge.
Qed.

(** [play_output] returns on a stream that was opened. *)
Lemma audio_play_output_result o a :
  AudioIO.output_stream a ≠ Stream.Unopened →
  result_of (AudioIO.play_output o a) = Ret tt.
Proof.
  intros Hop. destruct (truthy o) eqn:Ht.
  2: { by rewrite audio_play_output_falsy. }
  destruct o as [[|b pcm]|]; try done.
  rewrite audio_play_output_unfold by done.
  by destruct (AudioIO.output_stream a).
Qed.

(** The block is played when it is true and the stream is active. *)
Lemma audio_play_output_trace o a :
  played (trace_of (AudioIO.play_output o a)) =
  if truthy o && bool_decide (AudioIO.output_stream a = Stream.Active)
  then option_list o else [].
Proof.
  destruct (truthy o) eqn:Ht.
  2: { by rewrite audio_play_output_falsy. }
  destruct o as [[|b pcm]|]; try done.
  rewrite audio_play_output_unfold by done.
  by destruct (AudioIO.output_stream a).
Qed.

(** The failure is logged when the block is true and the stream was
    opened and is not active. *)
Lemma audio_play_output_logged o a :
  AudioIO.output_stream a ≠ Stream.Unopened →
  logged ERROR (trace_of (AudioIO.play_output o a)) =
  if truthy o && negb (bool_decide (AudioIO.output_stream a = Stream.Active))
  then [PlayFailed OSError] else [].
Proof.
  intros Hop. destruct (truthy o) eqn:Ht.
  2: { by rewrite audio_play_output_falsy. }
  destruct o as [[|b pcm]|]; try done.
  rewrite audio_play_output_unfold by done.
  by destruct (AudioIO.output_stream a).
Qed.

(** [play_output] sends nothing, starts no thread and does not sleep. *)
Lemma audio_play_output_quiet o a :
  sent (trace_of (AudioIO.play_output o a)) = [] ∧
  started (trace_of (AudioIO.play_output o a)) = [] ∧
  slept (trace_of (AudioIO.play_output o a)) = [].
Proof.
  destruct (truthy o) eqn:Ht.
  2: { by rewrite audio_play_output_falsy. }
  destruct o as [[|b pcm]|]; try done.
  rewrite audio_play_output_unfold by done.
  by destruct (AudioIO.output_stream a).
Qed.

(** [play_output] hands a block to the device exactly when the block is
    true and the output stream is active; on a stream that was opened it
    never raises, and what it logs is the [OSError] of a stream that is not
    active. *)
Lemma audio_play_output_played o a :
  AudioIO.output_stream a ≠ Stream.Unopened →
  let r := AudioIO.play_output o a in
  result_of r = Ret tt ∧
  played (trace_of r) =
    (if truthy o && bool_decide (AudioIO.output_stream a = Stream.Active)
     then option_list o else []) ∧
  logged ERROR (trace_of r) =
    (if truthy o && negb (bool_decide (AudioIO.output_stream a = Stream.Active))
     then [PlayFailed OSError] else []).
Proof.
  intros Hop. cbv zeta.
  by rewrite audio_play_output_result, audio_play_output_trace,
    audio_play_output_logged.
Qed.

(** [release] is idempotent.  The first call closes both streams,
    terminates PyAudio and logs; a second call returns too, changes
    nothing and logs again. *)
Lemma audio_release_twice a :
  AudioIO.wf a →
  let r := AudioIO.release a in
  r = (Ret tt,
       AudioIO.mk true (AudioIO.input_queue a) (AudioIO.output_buffer a)
         Stream.Closed Stream.Closed,
       [Log INFO AudioReleased]) ∧
  AudioIO.release (state_of r) = (Ret tt, state_of r, [Log INFO AudioReleased]).
Proof.
  intros Hwf. pose proof (audio_release_wf a Hwf) as Hwf1. cbv zeta.
  rewrite (audio_release_unfold (state_of _)) by done.
  by rewrite audio_release_unfold.
Qed.

Lemma audio_release_terminated a :
  AudioIO.wf a →
  AudioIO.pa_terminated (state_of (AudioIO.release a)) = true ∧
  played (trace_of (AudioIO.release a)) = [].
Proof.
  intros Hwf. by rewrite audio_release_unfold.
Qed.

(** Once PyAudio is terminated it stays so, whatever is called. *)
Lemma audio_play_output_terminated o a :
  AudioIO.pa_terminated (state_of (AudioIO.play_output o a)) =
  AudioIO.pa_terminated a.
Proof.
  destruct o as [[|b pcm]|]; try done.
  rewrite audio_play_output_unfold by done.
  by destruct (AudioIO.output_stream a).
Qed.

Lemma audio_play_output_streams o a :
  AudioIO.input_stream (state_of (AudioIO.play_output o a)) =
    AudioIO.input_stream a ∧
  AudioIO.output_stream (state_of (AudioIO.play_output o a)) =
    AudioIO.output_stream a.
Proof.
  destruct (truthy o) eqn:Ht.
  2: { by rewrite audio_play_output_falsy. }
  destruct o as [[|b pcm]|]; try done.
  rewrite audio_play_output_unfold by done.
  destruct (AudioIO.output_stream a) eqn:E; simpl; by rewrite ?E.
Qed.

Lemma audio_io_step_terminated op a o e a' tr :
  AudioIO.pa_terminated a = true → io_step op a = Some (o, e, a', tr) →
  AudioIO.pa_terminated a' = true.
Proof.
  intros Ht. destruct op as [b| |pcm|]; unfold io_step.
  - rewrite audio_input_callback_unfold. destruct (Queue.full _); [done|].
    simpl. by intros [= _ _ <- _].
  - rewrite audio_get_input_frame_unfold.
    destruct (Queue.items _); by intros [= _ _ <- _].
  - intros [= _ _ <- _]. by rewrite audio_play_output_terminated.
  - destruct a as [pt q buf [] []]; by intros [= _ _ <- _].
Qed.

(** A call on a terminated, well-formed [AudioIO] plays nothing. *)
Lemma audio_io_step_terminated_silent op a o e a' tr :
  AudioIO.wf a → AudioIO.pa_terminated a = true →
  io_step op a = Some (o, e, a', tr) → played tr = [].
Proof.
  intros Hwf Ht. pose proof (AudioIO.wf_output_stream _ Hwf) as Hout.
  rewrite Ht in Hout.
  destruct op as [b| |pcm|]; unfold io_step.
  - destruct (AudioIO._input_callback b a) as [[? ?]|]; [|done].
    by intros [= _ _ _ <-].
  - rewrite audio_get_input_frame_unfold.
    destruct (Queue.items _); by intros [= _ _ _ <-].
  - intros [= _ _ _ <-].
    rewrite audio_play_output_trace, Hout. by rewrite andb_false_r.
  - destruct a as [pt q buf [] []]; by intros [= _ _ _ <-].
Qed.

Lemma audio_run_io_terminated_silent ops a r :
  AudioIO.wf a → AudioIO.pa_terminated a = true →
  run_io ops a = Some r → played (io_trace r) = [].
Proof.
  revert a r. induction ops as [|op ops IH]; intros a r Hwf Ht; simpl.
  - by intros [= <-].
  - destruct (io_step op a) as [[[[o e] a1] tr]|] eqn:Hs; [|done]. simpl.
    destruct (run_io ops a1) as [r1|] eqn:Hr; [|done]. simpl.
    intros [= <-]. simpl. rewrite played_app.
    rewrite (audio_io_step_terminated_silent _ _ _ _ _ _ Hwf Ht Hs).
    eapply IH; [| |done].
    + by eapply audio_io_step_wf.
    + by eapply audio_io_step_terminated.
Qed.

(** After [release], no call on the object plays a block, whatever the
    schedule: the blocks handed to [play_output] from then on are lost. *)
Lemma audio_no_play_after_release ops a r :
  AudioIO.wf a → run_io (Release :: ops) a = Some r →
  played (io_trace r) = [].
Proof.
  intros Hwf. simpl.
  pose proof (audio_release_wf a Hwf) as Hwf1.
  destruct (audio_release_terminated a Hwf) as [Ht1 Hp].
  destruct (run_io ops _) as [r1|] eqn:Hr; [|done]. simpl.
  intros [= <-]. simpl. rewrite played_app, Hp.
  by eapply audio_run_io_terminated_silent.
Qed.

End audio_playback.

(** ** Concrete runs *)

(** The object the constructor returns when both devices open. *)
Definition audio0 : AudioIO.t :=
  AudioIO.mk false (Queue.new MAX_QUEUE_SIZE)
    (Deque.new (Z.to_nat MAX_QUEUE_SIZE)) Stream.Active Stream.Active.

(** The same object with a capture queue that is full of one-byte blocks. *)
Definition audio_full : AudioIO.t :=
  AudioIO.set_input_queue
    (Queue.mk MAX_QUEUE_SIZE (replicate 30 [Byte.x00])) audio0.

(** Three blocks of one, two and forty bytes. *)
Definition blk1 : bytes := [Byte.x01].
Definition blk2 : bytes := [Byte.x02; Byte.x02].
Definition blk40 : bytes := replicate 40 Byte.x03.

(** A schedule of the three threads. *)
Definition sched1 : list io_op :=
  [Capture blk1; Capture blk2; Take; Play (Some blk2); Take; Take;
   Capture blk40; Play None; Take].

Example audio_init_run :
  AudioIO.__init__ (mk_devices true true) () =
  (Ret audio0, (), [Log INFO AudioInitOk]).
Proof. reflexivity. Qed.

Example audio_init_no_microphone :
  AudioIO.__init__ (mk_devices false true) () = (Raise OSError, (), []).
Proof. reflexivity. Qed.

Lemma audio0_wf : AudioIO.wf audio0.
Proof. split; try done. apply deque_new_wf. Qed.

Lemma audio_full_wf : AudioIO.wf audio_full.
Proof.
  apply audio_wf_set_input_queue; [apply audio0_wf|done|].
  unfold Queue.wf, Queue.qsize, MAX_QUEUE_SIZE. simpl. lia.
Qed.

Example sched1_run :
  run_io sched1 audio0 =
  Some (mk_io_run [blk1; blk2; blk40] []
          (AudioIO.set_output_buffer (Deque.mk 30 blk2) audio0)
          [Played blk2]).
Proof. reflexivity. Qed.

Lemma audio_run_io_wf_witness :
  AudioIO.wf audio0 ∧
  AudioIO.wf (AudioIO.set_output_buffer (Deque.mk 30 blk2) audio0).
Proof.
  split; [exact audio0_wf|].
  exact (audio_run_io_wf sched1 audio0 _ audio0_wf sched1_run).
Defined.

Lemma audio_input_callback_spec_witness :
  AudioIO.wf audio_full ∧
  AudioIO._input_callback blk1 audio_full = None ∧
  length (Queue.items (AudioIO.input_queue audio_full)) = 30.
Proof.
  split; [exact audio_full_wf|]. split; [reflexivity|].
  exact (audio_input_callback_spec blk1 audio_full audio_full_wf).
Defined.

Lemma audio_run_io_fifo_witness :
  ∃ r, run_io sched1 audio0 = Some r ∧
       io_taken r ++ Queue.items (AudioIO.input_queue (io_state r)) =
       [] ++ [blk1; blk2; blk40].
Proof.
  eexists. split; [exact sched1_run|].
  exact (audio_run_io_fifo sched1 audio0 _ sched1_run).
Defined.

Lemma audio_capture_burst_witness :
  AudioIO.wf audio0 ∧
  ¬ is_Some (run_io (Capture <$> replicate 31 blk1) audio0).
Proof.
  split; [exact audio0_wf|]. intros Hs.
  apply (audio_capture_burst (replicate 31 blk1) audio0 audio0_wf) in Hs.
  vm_compute in Hs. lia.
Defined.

Lemma audio_play_output_buffer_witness :
  AudioIO.wf audio0 ∧ blk40 ≠ [] ∧
  Deque.items (AudioIO.output_buffer
                 (state_of (AudioIO.play_output (Some blk40) audio0)))
  = replicate 30 Byte.x03.
Proof.
  assert (Hne : blk40 ≠ []) by done.
  split; [exact audio0_wf|]. split; [exact Hne|].
  exact (proj1 (audio_play_output_buffer blk40 audio0 audio0_wf Hne)).
Defined.

Lemma audio_play_output_played_witness :
  AudioIO.output_stream audio0 ≠ Stream.Unopened ∧
  played (trace_of (AudioIO.play_output (Some blk2) audio0)) = [blk2].
Proof.
  assert (Hop : AudioIO.output_stream audio0 ≠ Stream.Unopened) by done.
  split; [exact Hop|].
  exact (proj1 (proj2 (audio_play_output_played (Some blk2) audio0 Hop))).
Defined.

Lemma audio_release_twice_witness :
  AudioIO.wf audio0 ∧
  AudioIO.release (state_of (AudioIO.release audio0)) =
  (Ret tt, state_of (AudioIO.release audio0), [Log INFO AudioReleased]).
Proof.
  split; [exact audio0_wf|].
  exact (proj2 (audio_release_twice audio0 audio0_wf)).
Defined.

Lemma audio_no_play_after_release_witness :
  ∃ r, run_io [Release; Play (Some blk2); Play (Some blk1)] audio0 = Some r ∧
       played (io_trace r) = [] ∧
       logged ERROR (io_trace r) = [PlayFailed OSError; PlayFailed OSError].
Proof.
  eexists. split; [reflexivity|]. split; [|reflexivity].
  exact (audio_no_play_after_release [Play (Some blk2); Play (Some blk1)]
           audio0 _ audio0_wf eq_refl).
Defined.
