(* ===== verification/Transport.v ===== *)
(** * The WebSocket application and the JSON parser

    [WebSocketApp] is the object of [websocket-client] that [AudioClient]
    creates (lines 142-152) and uses: [send] (lines 181, 192) raises unless
    a connected socket is there, [close] (line 234) drops the socket.
    [ws_event] lists the four callbacks the application runs.  [JsonLib] is
    [json.loads] (line 211) as an interface. *)

From S2P Require Import Prelude Python Config.

(** ** The socket of a [WebSocketApp] *)

Inductive sock : Type :=
| SockNone        (* [self.sock] is [None]: not connected yet, or closed *)
| SockConnected   (* frames handed to [send] are accepted *)
| SockBroken.     (* a socket whose peer is gone: [send] raises *)

#[export] Instance sock_eq_dec : EqDecision sock.
Proof. solve_decision. Defined.

Module WebSocketApp.

Record t : Type := mk {
  url : string;
  header : list (string * string);
  sock_state : sock;
  keep_running : bool;
}.

Definition set_sock (s : sock) (w : t) : t :=
  mk (url w) (header w) s (keep_running w).
Definition set_keep_running (b : bool) (w : t) : t :=
  mk (url w) (header w) (sock_state w) b.

(** [websocket.WebSocketApp(url, ..., header=...)] *)
Definition new (url : string) (header : list (string * string)) : t :=
  {| url := url; header := header; sock_state := SockNone; keep_running := false |}.

(** [ws.send(data, opcode)] *)
Definition send (data : payload) (op : opcode) : M t unit :=
  λ w, match sock_state w with
       | SockConnected => (Ret tt, w, [Sent data op])
       | SockNone | SockBroken => (Raise WebSocketException, w, [])
       end.

(** [ws.close()] *)
Definition close : M t unit :=
  modify (λ w, set_sock SockNone (set_keep_running false w)).

End WebSocketApp.

(** ** The callbacks of the application *)

Inductive ws_event : Type :=
| OnOpen
| OnMessage (message : payload)
| OnError (error : exn)
| OnClose (code : option Z) (reason : option string).

(** ** [json.loads] *)

(** The parser returns a value or raises: [JSONDecodeError] on text that is
    not JSON, and what else the library may raise. *)
Class JsonLib : Type := { json_loads : string → res json }.

(** A parser that knows four messages by name, for concrete runs. *)
Definition toy_loads (s : string) : res json :=
  if decide (s = "stop")
  then Ret (JObj [("type", JStr "tts"); ("state", JStr "stop")])
  else if decide (s = "start")
  then Ret (JObj [("type", JStr "tts"); ("state", JStr "start")])
  else if decide (s = "tts")
  then Ret (JObj [("type", JStr "tts")])
  else if decide (s = "list")
  then Ret (JArr [JStr "tts"])
  else if decide (s = "deep")
  then Raise RecursionError
  else Raise JSONDecodeError.

#[export] Instance toy_json : JsonLib := {| json_loads := toy_loads |}.

(** ** Facts *)

(** [send] puts a frame on the wire exactly when the socket is connected,
    and raises otherwise. *)
Lemma ws_send_sent data op w :
  sent (trace_of (WebSocketApp.send data op w)) =
  if decide (WebSocketApp.sock_state w = SockConnected) then [(data, op)] else [].
Proof. unfold WebSocketApp.send. by destruct (WebSocketApp.sock_state w). Qed.

Lemma ws_send_returns data op w :
  returns (result_of (WebSocketApp.send data op w)) =
  bool_decide (WebSocketApp.sock_state w = SockConnected).
Proof. unfold WebSocketApp.send. by destruct (WebSocketApp.sock_state w). Qed.

Lemma ws_send_state data op w : state_of (WebSocketApp.send data op w) = w.
Proof. unfold WebSocketApp.send. by destruct (WebSocketApp.sock_state w). Qed.

(** After [close] nothing can be sent. *)
Lemma ws_close_send data op w :
  let w' := state_of (WebSocketApp.close w) in
  WebSocketApp.send data op w' = (Raise WebSocketException, w', []).
Proof. done. Qed.
