(* ===== verification/Client.v ===== *)
(** * [AudioClient]: state and callbacks (lines 129-165 and 196-235)

    The record [AudioClient.t] holds the attributes of the object.  Each
    callback of the WebSocket application is a method over it; [dispatch]
    runs the callback of an event, and [run_events] a sequence of events in
    the order the transport delivers them.  The two loops that [_on_open]
    starts and the retry loop of [run] are in files of their own. *)

From stdpp Require Import pretty.
From S2P Require Import Prelude Python Config Containers Codec AudioIO Transport.

Module AudioClient.
Section client.
Context `{OpusLib} `{JsonLib}.

Record t : Type := mk {
  ws : option WebSocketApp.t;
  codec : OpusCodec.t;
  audio : AudioIO.t;
  is_running : bool;
  sync_timer : Z;
  ping_interval : Z;
}.

Definition set_ws (w : option WebSocketApp.t) (c : t) : t :=
  mk w (codec c) (audio c) (is_running c) (sync_timer c) (ping_interval c).
Definition set_codec (k : OpusCodec.t) (c : t) : t :=
  mk (ws c) k (audio c) (is_running c) (sync_timer c) (ping_interval c).
Definition set_audio (a : AudioIO.t) (c : t) : t :=
  mk (ws c) (codec c) a (is_running c) (sync_timer c) (ping_interval c).
Definition set_is_running (b : bool) (c : t) : t :=
  mk (ws c) (codec c) (audio c) b (sync_timer c) (ping_interval c).
Definition set_sync_timer (n : Z) (c : t) : t :=
  mk (ws c) (codec c) (audio c) (is_running c) n (ping_interval c).
Definition set_ping_interval (n : Z) (c : t) : t :=
  mk (ws c) (codec c) (audio c) (is_running c) (sync_timer c) n.

(** The [header] argument of line 148. *)
Definition ws_header : list (string * string) :=
  [("Protocol-Version", "2.0");
   ("Audio-Config", pretty SAMPLE_RATE +:+ "/" +:+ pretty CHANNELS)].

(** Lines 140-152. *)
Definition _init_websocket : M t unit :=
  modify (set_ws (Some (WebSocketApp.new WS_URL ws_header))).

(** Lines 131-138.  The codec and the audio devices are created first;
    what either constructor raises escapes. *)
Definition __init__ (dev : devices) : M unit t :=
  codec <- OpusCodec.__init__ ;;
  audio <- AudioIO.__init__ dev ;;
  construct (mk None codec audio false 0 0)
    (_init_websocket ;;
     modify (set_sync_timer 0) ;;
     modify (set_ping_interval 25)).

(** Lines 154-165: the flag is raised and the two threads are started. *)
Definition _on_open : M t unit :=
  logger_info (Connected WS_URL) ;;
  modify (set_is_running true) ;;
  emit (Started SendThread) ;;
  emit (Started KeepaliveThread).

(** Lines 203-206. *)
Definition _handle_audio (opus_frame : bytes) : M t unit :=
  pcm_frame <- zoom codec set_codec (OpusCodec.decode opus_frame) ;;
  if truthy pcm_frame
  then zoom audio set_audio (AudioIO.play_output pcm_frame)
  else ret tt.

(** [self.audio.output_buffer.clear()] *)
Definition clear_output_buffer (c : t) : t :=
  set_audio
    (AudioIO.set_output_buffer
       (Deque.clear (AudioIO.output_buffer (audio c))) (audio c)) c.

(** Lines 208-217. *)
Definition _handle_control (message : string) : M t unit :=
  try_except
    (data <- lift_res (json_loads message) ;;
     logger_info (ControlMessage data) ;;
     ty <- lift_res (py_get data "type") ;;
     if json_eq_str ty "tts" then
       st <- lift_res (py_getitem data "state") ;;
       if json_eq_str st "stop" then modify clear_output_buffer else ret tt
     else ret tt)
    is_JSONDecodeError
    (λ _, logger_warning (BadControl message)).

(** Lines 196-201. *)
Definition _on_message (message : payload) : M t unit :=
  match message with
  | PBytes opus_frame => _handle_audio opus_frame
  | PStr text => _handle_control text
  end.

(** Lines 219-222. *)
Definition _on_error (error : exn) : M t unit :=
  logger_error (ConnError error) ;;
  modify (set_is_running false).

(** Lines 230-235. *)
Definition _cleanup : M t unit :=
  zoom audio set_audio AudioIO.release ;;
  zoom_opt ws set_ws WebSocketApp.close (ret tt) ;;
  logger_info ResourcesReleased.

(** Lines 224-228. *)
Definition _on_close (code : option Z) (reason : option string) : M t unit :=
  modify (set_is_running false) ;;
  logger_info (ConnClosed code reason) ;;
  _cleanup.

(** The callback of an event. *)
Definition dispatch (ev : ws_event) : M t unit :=
  match ev with
  | OnOpen => _on_open
  | OnMessage message => _on_message message
  | OnError error => _on_error error
  | OnClose code reason => _on_close code reason
  end.

(** The result of a sequence of callbacks. *)
Record run_result : Type := mk_run {
  run_raised : list exn;    (* the exceptions that escaped a callback *)
  run_state : t;
  run_trace : trace;
}.

(** Callbacks run one after the other on the transport's thread; an
    exception that escapes a callback is the transport's to handle and
    does not stop the delivery of later events. *)
Fixpoint run_events (evs : list ws_event) (c : t) : run_result :=
  match evs with
  | [] => mk_run [] c []
  | ev :: evs' =>
      let r := dispatch ev c in
      let rest := run_events evs' (state_of r) in
      mk_run (option_list (exn_of (result_of r)) ++ run_raised rest)
             (run_state rest) (trace_of r ++ run_trace rest)
  end.

(** ** Reference definitions for the callbacks *)

(** The control messages that clear the playback buffer: a dict whose
    [type] is ["tts"] and whose [state] is ["stop"]. *)
Definition is_stop_directive (data : json) : bool :=
  match data with
  | JObj m =>
      json_eq_str (default JNull (dict_get "type" m)) "tts" &&
      match dict_get "state" m with
      | Some st => json_eq_str st "stop"
      | None => false
      end
  | _ => false
  end.

(** The exception that escapes [_handle_control] for a parsed value, if
    one does: a value that is not a dict has no [get]; a dict of type
    ["tts"] must have a [state]. *)
Definition control_escape (data : json) : option exn :=
  match data with
  | JObj m =>
      if json_eq_str (default JNull (dict_get "type" m)) "tts"
      then match dict_get "state" m with
           | Some _ => None
           | None => Some (KeyError "state")
           end
      else None
  | _ => Some AttributeError
  end.

(** The binary messages of a sequence of events, in order. *)
Definition audio_frames (evs : list ws_event) : list bytes :=
  omap (λ ev, match ev with OnMessage (PBytes b) => Some b | _ => None end) evs.

(** The blocks the decoder yields for a sequence of frames, in order: the
    results that are not an error and not empty. *)
Fixpoint decode_all (frames : list bytes) (d : Decoder) : list bytes :=
  match frames with
  | [] => []
  | f :: frames' =>
      let '(r, d') := Decoder_decode f CHUNK d in
      match r with
      | Ret pcm => if truthy pcm then [pcm] else []
      | Raise _ => []
      end ++ decode_all frames' d'
  end.

(** The decoder after a sequence of frames. *)
Definition decoder_after (frames : list bytes) (d : Decoder) : Decoder :=
  foldl (λ d f, (Decoder_decode f CHUNK d).2) d frames.

(** The events delivered before the first close. *)
Fixpoint before_close (evs : list ws_event) : list ws_event :=
  match evs with
  | [] => []
  | OnClose _ _ :: _ => []
  | ev :: evs' => ev :: before_close evs'
  end.

(** The flag [is_running] after a sequence of events: the last of the
    open, error and close events decides. *)
Definition running_after (evs : list ws_event) (b : bool) : bool :=
  foldl (λ b ev, match ev with
                 | OnOpen => true
                 | OnMessage _ => b
                 | OnError _ | OnClose _ _ => false
                 end) b evs.

(** The threads a sequence of events starts. *)
Definition threads_of (evs : list ws_event) : list thread_name :=
  evs ≫= λ ev, match ev with
               | OnOpen => [SendThread; KeepaliveThread]
               | _ => []
               end.

Definition is_OnClose (ev : ws_event) : bool :=
  match ev with OnClose _ _ => true | _ => false end.

(** The state [_cleanup] leaves: the audio released, the socket dropped. *)
Definition cleaned (c : t) : t :=
  set_ws (state_of ∘ WebSocketApp.close <$> ws c)
    (set_audio (state_of (AudioIO.release (audio c))) c).

(** ** Well-formed states *)

Record wf (c : t) : Prop := {
  wf_audio : AudioIO.wf (audio c);
  wf_ws : is_Some (ws c);
}.

End client.
Arguments t {_}.
Arguments run_result {_}.
Arguments _on_open : simpl never.
Arguments _handle_audio : simpl never.
Arguments _handle_control : simpl never.
Arguments _on_message : simpl never.
Arguments _on_error : simpl never.
Arguments _cleanup : simpl never.
Arguments _on_close : simpl never.
End AudioClient.

(** ** The callbacks in closed form *)

Section client_unfold.
Context `{OpusLib} `{JsonLib}.
Implicit Types (c : AudioClient.t) (e : exn).

Lemma client_on_open_unfold c :
  AudioClient._on_open c =
  (Ret tt, AudioClient.set_is_running true c,
   [Log INFO (Connected WS_URL); Started SendThread; Started KeepaliveThread]).
Proof. reflexivity. Qed.

Lemma client_on_error_unfold e c :
  AudioClient._on_error e c =
  (Ret tt, AudioClient.set_is_running false c, [Log ERROR (ConnError e)]).
Proof. reflexivity. Qed.

(** [_cleanup] releases the audio, closes the socket and logs, whether
    or not the audio was released before. *)
Lemma client_cleanup_unfold c :
  AudioIO.wf (AudioClient.audio c) →
  AudioClient._cleanup c =
  (Ret tt, AudioClient.cleaned c,
   [Log INFO AudioReleased; Log INFO ResourcesReleased]).
Proof.
  intros Hwf. unfold AudioClient._cleanup, AudioClient.cleaned.
  unfold bind at 1. unfold zoom at 1.
  rewrite audio_release_unfold by done.
  by destruct c as [[w|] k a r st pi].
Qed.

Lemma client_on_close_unfold code reason c :
  AudioIO.wf (AudioClient.audio c) →
  AudioClient._on_close code reason c =
  (Ret tt, AudioClient.cleaned (AudioClient.set_is_running false c),
   [Log INFO (ConnClosed code reason); Log INFO AudioReleased;
    Log INFO ResourcesReleased]).
Proof.
  intros Hwf. unfold AudioClient._on_close.
  unfold bind, modify, logger_info, emit.
  by rewrite client_cleanup_unfold.
Qed.

(** [_handle_audio] decodes, and plays what was decoded when it is true. *)
Lemma client_handle_audio_unfold opus c :
  AudioIO.output_stream (AudioClient.audio c) ≠ Stream.Unopened →
  AudioClient._handle_audio opus c =
  let k := AudioClient.codec c in
  match Decoder_decode opus CHUNK (OpusCodec.decoder k) with
  | (Ret pcm, dec) =>
      let c1 := AudioClient.set_codec (OpusCodec.set_decoder dec k) c in
      if truthy pcm then
        let p := AudioIO.play_output (Some pcm) (AudioClient.audio c) in
        (Ret tt, AudioClient.set_audio (state_of p) c1, trace_of p)
      else (Ret tt, c1, [])
  | (Raise e, dec) =>
      let c1 := AudioClient.set_codec (OpusCodec.set_decoder dec k) c in
      if is_OpusError e then (Ret tt, c1, [Log ERROR (DecodeFailed e)])
      else (Raise e, c1, [])
  end.
Proof.
  intros Ho. unfold AudioClient._handle_audio.
  unfold bind at 1. unfold zoom at 1. rewrite codec_decode_unfold.
  destruct (Decoder_decode _ _ _) as [[pcm|e] dec]; simpl.
  - destruct (truthy pcm) eqn:Ht.
    + change (truthy (Some pcm)) with (truthy pcm). rewrite Ht.
      unfold zoom.
      pose proof (audio_play_output_result (Some pcm) _ Ho) as Hr.
      change (AudioClient.audio (AudioClient.set_codec _ c))
        with (AudioClient.audio c).
      destruct (AudioIO.play_output _ _) as [[r a1] tr1]. simpl in *.
      by subst r.
    + change (truthy (Some pcm)) with (truthy pcm). by rewrite Ht.
  - by destruct (is_OpusError e).
Qed.

(** [_handle_control] by the result of the parser. *)
Lemma client_handle_control_unfold message c :
  AudioClient._handle_control message c =
  match json_loads message with
  | Raise e =>
      if is_JSONDecodeError e
      then (Ret tt, c, [Log WARNING (BadControl message)])
      else (Raise e, c, [])
  | Ret data =>
      (match AudioClient.control_escape data with
       | Some e => Raise e
       | None => Ret tt
       end,
       if AudioClient.is_stop_directive data
       then AudioClient.clear_output_buffer c else c,
       [Log INFO (ControlMessage data)])
  end.
Proof.
  unfold AudioClient._handle_control. munfold.
  destruct (json_loads message) as [data|e]; simpl.
  2: { by destruct (is_JSONDecodeError e). }
  destruct data as [| | | | | |m]; try done. simpl.
  destruct (json_eq_str _ "tts"); [|done]. simpl.
  destruct (dict_get "state" m) as [st|]; [|done]. simpl.
  by destruct (json_eq_str st "stop").
Qed.

End client_unfold.

(** ** What one callback does to each part of the state *)

Section client_dispatch.
Context `{OpusLib} `{JsonLib}.
Implicit Types (c : AudioClient.t) (e : exn) (ev : ws_event).

Lemma client_wf_opened c :
  AudioClient.wf c →
  AudioIO.input_stream (AudioClient.audio c) ≠ Stream.Unopened ∧
  AudioIO.output_stream (AudioClient.audio c) ≠ Stream.Unopened.
Proof. intros [Ha _]. by apply audio_wf_opened. Qed.

Lemma client_wf_set_audio a c :
  AudioClient.wf c → AudioIO.wf a → AudioClient.wf (AudioClient.set_audio a c).
Proof. intros [] ?. by split. Qed.

Lemma client_cleaned_wf c :
  AudioClient.wf c → AudioClient.wf (AudioClient.cleaned c).
Proof.
  intros [Ha [w Hw]]. unfold AudioClient.cleaned. split; simpl.
  - by apply audio_release_wf.
  - rewrite Hw. by eexists.
Qed.

(** A close event, whether or not the audio was released before. *)
Lemma client_on_close_state code reason c :
  AudioClient.wf c →
  let r := AudioClient._on_close code reason c in
  AudioClient.wf (state_of r) ∧
  AudioIO.output_stream (AudioClient.audio (state_of r)) = Stream.Closed ∧
  AudioIO.pa_terminated (AudioClient.audio (state_of r)) = true ∧
  AudioClient.codec (state_of r) = AudioClient.codec c ∧
  AudioClient.is_running (state_of r) = false ∧
  played (trace_of r) = [] ∧ started (trace_of r) = [] ∧
  slept (trace_of r) = [].
Proof.
  intros Hwf. destruct (Hwf) as [Ha Hw]. cbv zeta.
  rewrite client_on_close_unfold by done.
  simpl. rewrite audio_release_unfold by done.
  split_and!; try done. by apply client_cleaned_wf.
Qed.

Lemma client_handle_audio_state opus c :
  AudioClient.wf c →
  let c' := state_of (AudioClient._handle_audio opus c) in
  AudioClient.wf c' ∧
  AudioClient.ws c' = AudioClient.ws c ∧
  AudioClient.is_running c' = AudioClient.is_running c ∧
  AudioIO.output_stream (AudioClient.audio c') =
    AudioIO.output_stream (AudioClient.audio c) ∧
  AudioIO.pa_terminated (AudioClient.audio c') =
    AudioIO.pa_terminated (AudioClient.audio c) ∧
  OpusCodec.decoder (AudioClient.codec c') =
    (Decoder_decode opus CHUNK (OpusCodec.decoder (AudioClient.codec c))).2.
Proof.
  intros Hwf. destruct (client_wf_opened c Hwf) as [_ Ho]. cbv zeta.
  rewrite client_handle_audio_unfold by done. cbv zeta.
  destruct (Decoder_decode _ _ _) as [[pcm|e] dec]; simpl.
  - destruct (truthy pcm); simpl; [|by destruct Hwf].
    destruct (audio_play_output_streams (Some pcm) (AudioClient.audio c))
      as [_ Hs].
    split_and!; try done.
    + split; [|by destruct Hwf]. simpl.
      apply audio_play_output_wf. by destruct Hwf.
    + apply audio_play_output_terminated.
  - destruct (is_OpusError e); simpl; by destruct Hwf.
Qed.

Lemma client_handle_audio_played opus c :
  AudioClient.wf c →
  played (trace_of (AudioClient._handle_audio opus c)) =
  if bool_decide (AudioIO.output_stream (AudioClient.audio c) = Stream.Active)
  then AudioClient.decode_all [opus] (OpusCodec.decoder (AudioClient.codec c))
  else [].
Proof.
  intros Hwf. destruct (client_wf_opened c Hwf) as [_ Ho].
  rewrite client_handle_audio_unfold by done. cbv zeta. simpl.
  destruct (Decoder_decode _ _ _) as [[pcm|e] dec]; simpl.
  - destruct (truthy pcm) eqn:Ht; simpl.
    + rewrite audio_play_output_trace.
      change (truthy (Some pcm)) with (truthy pcm). rewrite Ht. simpl.
      by case_bool_decide.
    + by case_bool_decide.
  - destruct (is_OpusError e); simpl; by case_bool_decide.
Qed.

Lemma client_handle_audio_started opus c :
  AudioClient.wf c →
  started (trace_of (AudioClient._handle_audio opus c)) = [] ∧
  slept (trace_of (AudioClient._handle_audio opus c)) = [].
Proof.
  intros Hwf. destruct (client_wf_opened c Hwf) as [_ Ho].
  rewrite client_handle_audio_unfold by done. cbv zeta.
  destruct (Decoder_decode _ _ _) as [[pcm|e] dec]; simpl.
  - destruct (truthy pcm); simpl; [|done].
    by destruct (audio_play_output_quiet (Some pcm) (AudioClient.audio c))
      as (_ & -> & ->).
  - by destruct (is_OpusError e).
Qed.

Lemma client_handle_control_state message c :
  AudioClient.wf c →
  let c' := state_of (AudioClient._handle_control message c) in
  AudioClient.wf c' ∧
  AudioClient.ws c' = AudioClient.ws c ∧
  AudioClient.is_running c' = AudioClient.is_running c ∧
  AudioIO.output_stream (AudioClient.audio c') =
    AudioIO.output_stream (AudioClient.audio c) ∧
  AudioIO.pa_terminated (AudioClient.audio c') =
    AudioIO.pa_terminated (AudioClient.audio c) ∧
  AudioClient.codec c' = AudioClient.codec c.
Proof.
  intros Hwf. cbv zeta. rewrite client_handle_control_unfold.
  destruct (json_loads message) as [data|e]; simpl.
  2: { by destruct (is_JSONDecodeError e). }
  destruct (AudioClient.is_stop_directive data); [|done].
  split_and!; try done. apply client_wf_set_audio; [done|].
  destruct Hwf as [[] _].
  apply audio_wf_set_output_buffer; [by split|done|apply deque_clear_wf].
Qed.

(** A control message plays nothing, sends nothing, starts nothing. *)
Lemma client_handle_control_trace message c :
  let tr := trace_of (AudioClient._handle_control message c) in
  played tr = [] ∧ sent tr = [] ∧ started tr = [] ∧ slept tr = [].
Proof.
  cbv zeta. rewrite client_handle_control_unfold.
  destruct (json_loads message) as [data|e]; [done|].
  by destruct (is_JSONDecodeError e).
Qed.

End client_dispatch.

(** ** Control messages *)

Section client_control.
Context `{OpusLib} `{JsonLib}.
Implicit Types (c : AudioClient.t) (e : exn) (data : json).

Lemma control_escape_Some data e :
  AudioClient.control_escape data = Some e ↔
  (∀ m, data ≠ JObj m) ∧ e = AttributeError ∨
  ∃ m, data = JObj m ∧ dict_get "type" m = Some (JStr "tts") ∧
       dict_get "state" m = None ∧ e = KeyError "state".
Proof.
  destruct data as [| | | | | |m]; simpl;
    try (split; [intros [= <-]; by left|intros [[_ ->]|(? & [=] & _)]; done]).
  destruct (json_eq_str _ "tts") eqn:Hty.
  - apply json_eq_str_true in Hty.
    destruct (dict_get "type" m) as [ty|] eqn:Hg; simpl in Hty; [|done].
    subst ty. destruct (dict_get "state" m) as [st|] eqn:Hs.
    + split; [done|]. intros [[Hn _]|(m' & [= <-] & _ & Hs' & _)].
      * by destruct (Hn m).
      * by rewrite Hs in Hs'.
    + split.
      * intros [= <-]. right. by exists m.
      * intros [[Hn _]|(m' & _ & _ & _ & ->)]; [by destruct (Hn m)|done].
  - split; [done|]. intros [[Hn _]|(m' & [= <-] & Hg & _)].
    + by destruct (Hn m).
    + by rewrite Hg in Hty.
Qed.

Lemma is_stop_directive_true data :
  AudioClient.is_stop_directive data = true ↔
  ∃ m, data = JObj m ∧ dict_get "type" m = Some (JStr "tts") ∧
       dict_get "state" m = Some (JStr "stop").
Proof.
  destruct data as [| | | | | |m]; simpl;
    try (split; [done|by intros (? & [=] & _)]).
  rewrite andb_true_iff, json_eq_str_true. split.
  - intros [Hty Hst].
    destruct (dict_get "type" m) as [ty|] eqn:Hg; simpl in Hty; [subst ty|done].
    destruct (dict_get "state" m) as [st|] eqn:Hg'; [|done].
    apply json_eq_str_true in Hst as ->. by exists m.
  - intros (m' & [= <-] & -> & ->). split; [done|by apply json_eq_str_true].
Qed.

(** C9: the exceptions that escape [_handle_control].  A text that is not
    JSON is logged and ignored; what else the parser raises escapes; text
    that parses to a value that is not a dict escapes as [AttributeError];
    a dict of type ["tts"] without a [state] escapes as [KeyError]. *)
Theorem client_handle_control_raises message c e :
  result_of (AudioClient._handle_control message c) = Raise e ↔
  (json_loads message = Raise e ∧ e ≠ JSONDecodeError) ∨
  (∃ data, json_loads message = Ret data ∧ (∀ m, data ≠ JObj m) ∧
           e = AttributeError) ∨
  (∃ m, json_loads message = Ret (JObj m) ∧
        dict_get "type" m = Some (JStr "tts") ∧
        dict_get "state" m = None ∧ e = KeyError "state").
Proof.
  rewrite client_handle_control_unfold.
  destruct (json_loads message) as [data|e'] eqn:Hl; simpl.
  - transitivity (AudioClient.control_escape data = Some e).
    { destruct (AudioClient.control_escape data); split; congruence. }
    rewrite control_escape_Some. split.
    + intros [[Hn ->]|(m & -> & ? & ? & ->)]; [right; left|right; right].
      * by exists data.
      * by exists m.
    + intros [[[=] _]|[(d & [= <-] & Hn & ->)|(m & [= ->] & ? & ? & ->)]].
      * by left.
      * right. by exists m.
  - destruct e'; simpl; split;
      try (intros [= <-]; by left);
      try (intros [[[= <-] Hne]|[(? & [=] & _)|(? & [=] & _)]]; done).
Qed.

(** A control message changes the state only when it is a stop
    directive (a dict of type ["tts"] and state ["stop"]), and then only by
    emptying the playback buffer; it plays nothing and sends nothing, so
    the blocks handed to the device before it are unaffected. *)
Lemma client_handle_control_effect message c :
  let r := AudioClient._handle_control message c in
  (state_of r = AudioClient.clear_output_buffer c ∧
   Deque.items (AudioIO.output_buffer (AudioClient.audio (state_of r))) = [] ∧
   ∃ m, json_loads message = Ret (JObj m) ∧
        dict_get "type" m = Some (JStr "tts") ∧
        dict_get "state" m = Some (JStr "stop")) ∨
  state_of r = c ∧
  (∀ data, json_loads message = Ret data →
           AudioClient.is_stop_directive data = false).
Proof.
  cbv zeta. rewrite client_handle_control_unfold.
  destruct (json_loads message) as [data|e'] eqn:Hl; simpl.
  - destruct (AudioClient.is_stop_directive data) eqn:Hs.
    + left. split_and!; [done..|].
      apply is_stop_directive_true in Hs as (m & -> & ? & ?). by exists m.
    + right. split; [done|]. by intros ? [= <-].
  - right. split; [by destruct (is_JSONDecodeError e')|done].
Qed.

End client_control.

(** ** Sequences of callbacks *)

Section client_run.
Context `{OpusLib} `{JsonLib}.
Implicit Types (c : AudioClient.t) (ev : ws_event) (evs : list ws_event).

Lemma decode_all_app fs1 fs2 d :
  AudioClient.decode_all (fs1 ++ fs2) d =
  AudioClient.decode_all fs1 d ++
  AudioClient.decode_all fs2 (AudioClient.decoder_after fs1 d).
Proof.
  revert d. induction fs1 as [|f fs1 IH]; intros d; [done|]. simpl.
  destruct (Decoder_decode f CHUNK d) as [r d'] eqn:Hd. simpl.
  by rewrite IH, app_assoc.
Qed.

Lemma audio_frames_cons ev evs :
  AudioClient.audio_frames (ev :: evs) =
  AudioClient.audio_frames [ev] ++ AudioClient.audio_frames evs.
Proof. unfold AudioClient.audio_frames. simpl. by destruct ev as [|[]| |]. Qed.

(** One callback: the invariant, the output stream and the decoder. *)
Lemma client_dispatch_state ev c :
  AudioClient.wf c →
  let c' := state_of (AudioClient.dispatch ev c) in
  AudioClient.wf c' ∧
  AudioIO.output_stream (AudioClient.audio c') =
    (if AudioClient.is_OnClose ev then Stream.Closed
     else AudioIO.output_stream (AudioClient.audio c)) ∧
  OpusCodec.decoder (AudioClient.codec c') =
    AudioClient.decoder_after (AudioClient.audio_frames [ev])
      (OpusCodec.decoder (AudioClient.codec c)).
Proof.
  intros Hwf. destruct (client_wf_opened c Hwf) as [Hi Ho].
  destruct ev as [|[opus|text]|e|code reason]; cbv zeta;
    unfold AudioClient.dispatch, AudioClient._on_message.
  - rewrite client_on_open_unfold. by destruct Hwf.
  - by destruct (client_handle_audio_state opus c Hwf) as (?&?&?&?&?&?).
  - by destruct (client_handle_control_state text c Hwf) as (?&?&?&?&?&->).
  - rewrite client_on_error_unfold. by destruct Hwf.
  - by destruct (client_on_close_state code reason c Hwf) as (?&?&?&->&?&?&?&?).
Qed.

(** One callback: what it plays and which threads it starts. *)
Lemma client_dispatch_trace ev c :
  AudioClient.wf c →
  let tr := trace_of (AudioClient.dispatch ev c) in
  played tr =
    (if bool_decide (AudioIO.output_stream (AudioClient.audio c) = Stream.Active)
     then AudioClient.decode_all (AudioClient.audio_frames [ev])
            (OpusCodec.decoder (AudioClient.codec c))
     else []) ∧
  started tr = AudioClient.threads_of [ev] ∧
  slept tr = [].
Proof.
  intros Hwf. destruct (client_wf_opened c Hwf) as [Hi Ho].
  destruct ev as [|[opus|text]|e|code reason]; cbv zeta;
    unfold AudioClient.dispatch, AudioClient._on_message.
  - rewrite client_on_open_unfold. by case_bool_decide.
  - split; [by apply client_handle_audio_played|].
    by apply client_handle_audio_started.
  - destruct (client_handle_control_trace text c) as (-> & _ & -> & ->).
    by case_bool_decide.
  - rewrite client_on_error_unfold. by case_bool_decide.
  - destruct (client_on_close_state code reason c Hwf) as (?&?&?&?&?&->&->&->).
    by case_bool_decide.
Qed.

Lemma client_dispatch_running ev c :
  AudioClient.wf c →
  AudioClient.is_running (state_of (AudioClient.dispatch ev c)) =
  AudioClient.running_after [ev] (AudioClient.is_running c).
Proof.
  intros Hwf. destruct (client_wf_opened c Hwf) as [Hi Ho].
  destruct ev as [|[opus|text]|e|code reason];
    unfold AudioClient.dispatch, AudioClient._on_message.
  - by rewrite client_on_open_unfold.
  - by destruct (client_handle_audio_state opus c Hwf) as (?&?&?&?&?&?).
  - by destruct (client_handle_control_state text c Hwf) as (?&?&?&?&?&?).
  - by rewrite client_on_error_unfold.
  - by destruct (client_on_close_state code reason c Hwf) as (?&?&?&?&->&?&?&?).
Qed.

Lemma client_dispatch_terminated ev c :
  AudioClient.wf c →
  AudioIO.pa_terminated (AudioClient.audio (state_of (AudioClient.dispatch ev c))) =
  AudioClient.is_OnClose ev || AudioIO.pa_terminated (AudioClient.audio c).
Proof.
  intros Hwf. destruct (client_wf_opened c Hwf) as [Hi Ho].
  destruct ev as [|[opus|text]|e|code reason];
    unfold AudioClient.dispatch, AudioClient._on_message.
  - by rewrite client_on_open_unfold.
  - by destruct (client_handle_audio_state opus c Hwf) as (?&?&?&?&?&?).
  - by destruct (client_handle_control_state text c Hwf) as (?&?&?&?&?&?).
  - by rewrite client_on_error_unfold.
  - by destruct (client_on_close_state code reason c Hwf) as (?&?&->&?&?&?&?&?).
Qed.

(** No callback touches the capture queue or the encoder, and none
    sends a frame. *)
Lemma client_dispatch_send_side ev c :
  AudioClient.wf c →
  let r := AudioClient.dispatch ev c in
  AudioIO.input_queue (AudioClient.audio (state_of r)) =
    AudioIO.input_queue (AudioClient.audio c) ∧
  OpusCodec.encoder (AudioClient.codec (state_of r)) =
    OpusCodec.encoder (AudioClient.codec c) ∧
  sent (trace_of r) = [].
Proof.
  intros Hwf. destruct (client_wf_opened c Hwf) as [Hi Ho]. cbv zeta.
  destruct ev as [|[opus|text]|e|code reason];
    unfold AudioClient.dispatch, AudioClient._on_message.
  - by rewrite client_on_open_unfold.
  - rewrite client_handle_audio_unfold by done. cbv zeta.
    destruct (Decoder_decode _ _ _) as [[pcm|e] dec]; simpl.
    + destruct (truthy pcm); simpl; [|done].
      rewrite audio_play_output_queue.
      by destruct (audio_play_output_quiet (Some pcm) (AudioClient.audio c))
        as (-> & _ & _).
    + by destruct (is_OpusError e).
  - rewrite client_handle_control_unfold.
    destruct (json_loads text) as [data|e]; simpl.
    + by destruct (AudioClient.is_stop_directive data).
    + by destruct (is_JSONDecodeError e).
  - by rewrite client_on_error_unfold.
  - rewrite client_on_close_unfold by by destruct Hwf.
    simpl. by rewrite audio_release_queue.
Qed.

(** No callback changes the interval of the pings. *)
Lemma client_dispatch_ping_interval ev c :
  AudioClient.wf c →
  AudioClient.ping_interval (state_of (AudioClient.dispatch ev c)) =
  AudioClient.ping_interval c.
Proof.
  intros Hwf. destruct (client_wf_opened c Hwf) as [Hi Ho].
  destruct ev as [|[opus|text]|e|code reason];
    unfold AudioClient.dispatch, AudioClient._on_message.
  - by rewrite client_on_open_unfold.
  - rewrite client_handle_audio_unfold by done. cbv zeta.
    destruct (Decoder_decode _ _ _) as [[pcm|e] dec]; simpl.
    + by destruct (truthy pcm).
    + by destruct (is_OpusError e).
  - rewrite client_handle_control_unfold.
    destruct (json_loads text) as [data|e]; simpl.
    + by destruct (AudioClient.is_stop_directive data).
    + by destruct (is_JSONDecodeError e).
  - by rewrite client_on_error_unfold.
  - by rewrite client_on_close_unfold by by destruct Hwf.
Qed.

(** A sequence of events in two parts. *)
Lemma client_run_events_app evs1 evs2 c :
  AudioClient.run_events (evs1 ++ evs2) c =
  let r1 := AudioClient.run_events evs1 c in
  let r2 := AudioClient.run_events evs2 (AudioClient.run_state r1) in
  AudioClient.mk_run
    (AudioClient.run_raised r1 ++ AudioClient.run_raised r2)
    (AudioClient.run_state r2)
    (AudioClient.run_trace r1 ++ AudioClient.run_trace r2).
Proof.
  revert c. induction evs1 as [|ev evs1 IH]; intros c; simpl.
  - by destruct (AudioClient.run_events evs2 c).
  - rewrite IH. simpl. by rewrite !app_assoc.
Qed.

(** What a sequence of callbacks plays, from any well-formed state. *)
Lemma client_run_events_played evs c :
  AudioClient.wf c →
  played (AudioClient.run_trace (AudioClient.run_events evs c)) =
  if bool_decide (AudioIO.output_stream (AudioClient.audio c) = Stream.Active)
  then AudioClient.decode_all
         (AudioClient.audio_frames (AudioClient.before_close evs))
         (OpusCodec.decoder (AudioClient.codec c))
  else [].
Proof.
  revert c. induction evs as [|ev evs IH]; intros c Hwf.
  { simpl. by case_bool_decide. }
  cbn [AudioClient.run_events AudioClient.run_trace]. rewrite played_app.
  destruct (client_dispatch_state ev c Hwf) as (Hwf1 & Hout & Hdec).
  destruct (client_dispatch_trace ev c Hwf) as (-> & _ & _).
  rewrite (IH _ Hwf1), Hout, Hdec.
  destruct (AudioClient.is_OnClose ev) eqn:Hc.
  - destruct ev; try done. simpl. by case_bool_decide.
  - replace (AudioClient.before_close (ev :: evs))
      with (ev :: AudioClient.before_close evs) by by destruct ev.
    rewrite (audio_frames_cons ev (AudioClient.before_close evs)), decode_all_app.
    case_bool_decide; [done|]. by rewrite app_nil_r.
Qed.

Lemma client_run_events_app_trace evs1 evs2 c :
  AudioClient.run_trace (AudioClient.run_events (evs1 ++ evs2) c) =
  AudioClient.run_trace (AudioClient.run_events evs1 c) ++
  AudioClient.run_trace
    (AudioClient.run_events evs2
       (AudioClient.run_state (AudioClient.run_events evs1 c))).
Proof. by rewrite client_run_events_app. Qed.

Lemma client_run_events_state_wf evs c :
  AudioClient.wf c →
  AudioClient.wf (AudioClient.run_state (AudioClient.run_events evs c)).
Proof.
  revert c. induction evs as [|ev evs IH]; intros c Hwf; [done|].
  simpl. apply IH. by apply client_dispatch_state.
Qed.

(** C40: the invariant holds along every sequence of callbacks, and the
    resources are released exactly by the close events: without one the
    streams and the socket are the ones the sequence started with, after
    one both streams are closed and PyAudio is terminated. *)
Theorem client_run_events_wf evs c :
  AudioClient.wf c →
  let c' := AudioClient.run_state (AudioClient.run_events evs c) in
  AudioClient.wf c' ∧
  if forallb (negb ∘ AudioClient.is_OnClose) evs
  then AudioIO.output_stream (AudioClient.audio c') =
         AudioIO.output_stream (AudioClient.audio c) ∧
       AudioIO.pa_terminated (AudioClient.audio c') =
         AudioIO.pa_terminated (AudioClient.audio c)
  else AudioIO.output_stream (AudioClient.audio c') = Stream.Closed ∧
       AudioIO.pa_terminated (AudioClient.audio c') = true.
Proof.
  intros Hwf. cbv zeta. split; [by apply client_run_events_state_wf|].
  revert c Hwf. induction evs as [|ev evs IH]; intros c Hwf; [done|].
  destruct (client_dispatch_state ev c Hwf) as (Hwf1 & Hout & _).
  pose proof (client_dispatch_terminated ev c Hwf) as Hpt.
  specialize (IH _ Hwf1). simpl in *. rewrite Hout, Hpt in IH.
  destruct (AudioClient.is_OnClose ev); simpl; [|done].
  by destruct (forallb _ evs).
Qed.

(** C2: playback order.  From a client whose output stream is active, the
    blocks handed to the device are the blocks the decoder yields for the
    binary messages delivered before the first close, in delivery order:
    a frame that fails to decode or decodes to nothing is skipped, control
    messages and errors play nothing, and nothing is played from the first
    close on. *)
Theorem client_playback_order evs c :
  AudioClient.wf c →
  AudioIO.output_stream (AudioClient.audio c) = Stream.Active →
  played (AudioClient.run_trace (AudioClient.run_events evs c)) =
  AudioClient.decode_all
    (AudioClient.audio_frames (AudioClient.before_close evs))
    (OpusCodec.decoder (AudioClient.codec c)).
Proof.
  intros Hwf Ha. rewrite client_run_events_played by done.
  by rewrite bool_decide_eq_true_2.
Qed.

(** C30: a close is final for playback.  What is delivered after a close
    event plays nothing, a later open included: the streams [release]
    closed are never opened again. *)
Theorem client_no_play_after_close evs1 code reason evs2 c :
  AudioClient.wf c →
  played (AudioClient.run_trace
            (AudioClient.run_events (evs1 ++ OnClose code reason :: evs2) c)) =
  played (AudioClient.run_trace (AudioClient.run_events evs1 c)).
Proof.
  intros Hwf. rewrite client_run_events_app_trace, played_app.
  rewrite (client_run_events_played (_ :: _)) by by apply client_run_events_state_wf.
  simpl. case_bool_decide; by rewrite app_nil_r.
Qed.

(** C34: every open event starts a send thread and a keepalive thread, and
    nothing else starts a thread: the threads started by a sequence of
    events are two per open, whether or not earlier ones still run. *)
Theorem client_threads_started evs c :
  AudioClient.wf c →
  started (AudioClient.run_trace (AudioClient.run_events evs c)) =
  AudioClient.threads_of evs.
Proof.
  revert c. induction evs as [|ev evs IH]; intros c Hwf; [done|].
  cbn [AudioClient.run_events AudioClient.run_trace]. rewrite started_app.
  destruct (client_dispatch_trace ev c Hwf) as (_ & -> & _).
  rewrite IH by by apply client_dispatch_state.
  unfold AudioClient.threads_of. simpl. by rewrite app_nil_r.
Qed.

(** The flag [is_running] after a sequence of callbacks is decided by
    the last open, error or close event: an open raises it also after a
    close, and messages leave it alone. *)
Lemma client_is_running_after evs c :
  AudioClient.wf c →
  AudioClient.is_running (AudioClient.run_state (AudioClient.run_events evs c)) =
  AudioClient.running_after evs (AudioClient.is_running c).
Proof.
  revert c. induction evs as [|ev evs IH]; intros c Hwf; [done|].
  simpl. rewrite IH by by apply client_dispatch_state.
  by rewrite client_dispatch_running.
Qed.

(** Callbacks do not sleep. *)
Lemma client_run_events_slept evs c :
  AudioClient.wf c →
  slept (AudioClient.run_trace (AudioClient.run_events evs c)) = [].
Proof.
  revert c. induction evs as [|ev evs IH]; intros c Hwf; [done|].
  cbn [AudioClient.run_events AudioClient.run_trace]. rewrite slept_app.
  destruct (client_dispatch_trace ev c Hwf) as (_ & _ & ->).
  apply IH. by apply client_dispatch_state.
Qed.

End client_run.

(** ** The constructor and the clean-up *)

Section client_lifecycle.
Context `{OpusLib} `{JsonLib}.
Implicit Types (c : AudioClient.t) (dev : devices).

(** The constructor in closed form: the codec, then the audio, then the
    attributes. *)
Lemma client_init_unfold dev :
  AudioClient.__init__ dev () =
  match OpusCodec.__init__ () with
  | (Raise e, _, t1) => (Raise e, (), t1)
  | (Ret k, _, t1) =>
      match AudioIO.__init__ dev () with
      | (Raise e, _, t2) => (Raise e, (), t1 ++ t2)
      | (Ret a, _, t2) =>
          (Ret (AudioClient.mk (Some (WebSocketApp.new WS_URL AudioClient.ws_header))
                  k a false 0 25), (), t1 ++ t2)
      end
  end.
Proof.
  unfold AudioClient.__init__, bind.
  destruct (OpusCodec.__init__ ()) as [[[k|e] []] t1]; [|done].
  destruct (AudioIO.__init__ dev ()) as [[[a|e] []] t2]; [|done].
  simpl. by rewrite app_nil_r.
Qed.

Lemma client_init_wf dev c tr :
  AudioClient.__init__ dev () = (Ret c, (), tr) → AudioClient.wf c.
Proof.
  rewrite client_init_unfold.
  destruct (OpusCodec.__init__ ()) as [[[k|e] []] t1]; [|done].
  destruct (AudioIO.__init__ dev ()) as [[[a|e] []] t2] eqn:Ha; [|done].
  intros [= <- <-]. apply audio_init_wf in Ha as (Hwf & _).
  split; [done|by eexists].
Qed.

(** The constructor returns a client exactly when the codec and both
    audio devices can be created.  The client it returns is well formed,
    is not running, has its WebSocket application with the two protocol
    headers, both streams active, an empty queue and an empty buffer. *)
Lemma client_init_spec dev c tr :
  AudioClient.__init__ dev () = (Ret c, (), tr) →
  AudioClient.wf c ∧
  AudioClient.is_running c = false ∧
  AudioClient.ping_interval c = 25%Z ∧
  AudioClient.ws c = Some (WebSocketApp.new WS_URL AudioClient.ws_header) ∧
  AudioClient.audio c =
    AudioIO.mk false (Queue.new MAX_QUEUE_SIZE)
      (Deque.new (Z.to_nat MAX_QUEUE_SIZE)) Stream.Active Stream.Active ∧
  has_input dev = true ∧ has_output dev = true ∧
  result_of (OpusCodec.__init__ ()) = Ret (AudioClient.codec c).
Proof.
  intros Hinit. pose proof (client_init_wf _ _ _ Hinit) as Hwf.
  rewrite client_init_unfold in Hinit.
  destruct (OpusCodec.__init__ ()) as [[[k|e] []] t1]; [|done].
  destruct dev as [[] []]; try done.
  injection Hinit as <- <-. by split_and!.
Qed.

(** The client after a clean-up is cleaned. *)
Lemma client_cleaned_idem c :
  AudioClient.wf c →
  AudioClient.cleaned (AudioClient.cleaned c) = AudioClient.cleaned c.
Proof.
  intros [Ha [w Hw]]. unfold AudioClient.cleaned. simpl.
  rewrite !audio_release_unfold, Hw by (done || by apply audio_release_wf).
  done.
Qed.

(** C10: the clean-up is idempotent.  After a close event has released
    the resources, a second [_cleanup] (the one of the interrupt handler
    of the program's entry, or of a second close event) returns: it
    finds the streams and the socket closed, leaves the client as it is,
    and logs the records of a release again.  No exception escapes, and
    the flag stays lowered. *)
Theorem client_cleanup_twice code reason c :
  AudioClient.wf c →
  let r := AudioClient._on_close code reason c in
  result_of r = Ret tt ∧
  state_of r = AudioClient.cleaned (AudioClient.set_is_running false c) ∧
  AudioClient._cleanup (state_of r) =
    (Ret tt, state_of r,
     [Log INFO AudioReleased; Log INFO ResourcesReleased]) ∧
  AudioClient._on_close code reason (state_of r) =
    (Ret tt, state_of r,
     [Log INFO (ConnClosed code reason); Log INFO AudioReleased;
      Log INFO ResourcesReleased]).
Proof.
  intros Hwf. cbv zeta.
  destruct (client_on_close_state code reason c Hwf) as ([Ha1 _]&_&_&_&Hr&_).
  rewrite client_cleanup_unfold, (client_on_close_unfold _ _ (state_of _))
    by done.
  rewrite client_on_close_unfold in * by by destruct Hwf. simpl.
  assert (AudioClient.wf (AudioClient.set_is_running false c)) as Hwf'
    by by destruct Hwf.
  split_and!; try done; do 2 f_equal.
  - by apply client_cleaned_idem.
  - replace (AudioClient.set_is_running false (AudioClient.cleaned _))
      with (AudioClient.cleaned (AudioClient.set_is_running false c))
      by by destruct c.
    by apply client_cleaned_idem.
Qed.

End client_lifecycle.

(** ** Concrete runs with [toy_opus] and [toy_json] *)

(** The client the constructor returns. *)
Definition client0 : AudioClient.t :=
  AudioClient.mk (Some (WebSocketApp.new WS_URL AudioClient.ws_header))
    (OpusCodec.mk 0 0) audio0 false 0 25.

(** One received frame decoded: [CHUNK] samples of silence. *)
Definition silence : bytes := replicate 2880 Byte.x00.

(** A session: open, a frame, a start and a stop directive, an empty frame
    (which the decoder refuses), a frame, an error, a frame. *)
Definition session1 : list ws_event :=
  [OnOpen; OnMessage (PBytes blk1); OnMessage (PStr "start");
   OnMessage (PStr "stop"); OnMessage (PBytes []); OnMessage (PBytes blk2);
   OnError WebSocketException; OnMessage (PBytes blk1)].

Example client_init_run :
  AudioClient.__init__ (mk_devices true true) () =
  (Ret client0, (), [Log INFO CodecInitOk; Log INFO AudioInitOk]).
Proof. reflexivity. Qed.

Lemma client0_wf : AudioClient.wf client0.
Proof. exact (client_init_wf _ _ _ client_init_run). Qed.

Example session1_run :
  AudioClient.run_events session1 client0 =
  AudioClient.mk_run []
    (AudioClient.mk (Some (WebSocketApp.new WS_URL AudioClient.ws_header))
       (OpusCodec.mk 0 3)
       (AudioIO.set_output_buffer (Deque.mk 30 (replicate 30 Byte.x00)) audio0)
       false 0 25)
    [Log INFO (Connected WS_URL); Started SendThread; Started KeepaliveThread;
     Played silence;
     Log INFO (ControlMessage (JObj [("type", JStr "tts"); ("state", JStr "start")]));
     Log INFO (ControlMessage (JObj [("type", JStr "tts"); ("state", JStr "stop")]));
     Log ERROR (DecodeFailed OpusError);
     Played silence;
     Log ERROR (ConnError WebSocketException);
     Played silence].
Proof. vm_compute. reflexivity. Qed.

(** The three malformed control messages of [toy_json]: two escape, one
    is logged and ignored. *)
Example control_escapes_run :
  AudioClient.run_raised
    (AudioClient.run_events
       [OnMessage (PStr "tts"); OnMessage (PStr "list");
        OnMessage (PStr "deep"); OnMessage (PStr "not json")] client0) =
  [KeyError "state"; AttributeError; RecursionError].
Proof. vm_compute. reflexivity. Qed.

Lemma client_run_events_wf_witness :
  AudioClient.wf client0 ∧
  AudioClient.wf (AudioClient.run_state (AudioClient.run_events session1 client0)).
Proof.
  split; [exact client0_wf|].
  exact (proj1 (client_run_events_wf session1 client0 client0_wf)).
Defined.

Lemma client_playback_order_witness :
  AudioClient.wf client0 ∧
  AudioIO.output_stream (AudioClient.audio client0) = Stream.Active ∧
  played (AudioClient.run_trace (AudioClient.run_events session1 client0)) =
  [silence; silence; silence].
Proof.
  split; [exact client0_wf|]. split; [reflexivity|].
  exact (client_playback_order session1 client0 client0_wf eq_refl).
Defined.

Lemma client_no_play_after_close_witness :
  AudioClient.wf client0 ∧
  played (AudioClient.run_trace
            (AudioClient.run_events
               ([OnOpen; OnMessage (PBytes blk1)] ++
                OnClose None None :: [OnOpen; OnMessage (PBytes blk2)])
               client0)) =
  [silence].
Proof.
  split; [exact client0_wf|].
  exact (client_no_play_after_close [OnOpen; OnMessage (PBytes blk1)] None None
           [OnOpen; OnMessage (PBytes blk2)] client0 client0_wf).
Defined.

Lemma client_threads_started_witness :
  AudioClient.wf client0 ∧
  started (AudioClient.run_trace
             (AudioClient.run_events
                [OnOpen; OnError WebSocketException; OnOpen] client0)) =
  [SendThread; KeepaliveThread; SendThread; KeepaliveThread].
Proof.
  split; [exact client0_wf|].
  exact (client_threads_started [OnOpen; OnError WebSocketException; OnOpen]
           client0 client0_wf).
Defined.

Lemma client_is_running_after_witness :
  AudioClient.wf client0 ∧
  AudioClient.is_running
    (AudioClient.run_state
       (AudioClient.run_events [OnOpen; OnClose None None; OnOpen] client0)) =
  true.
Proof.
  split; [exact client0_wf|].
  exact (client_is_running_after [OnOpen; OnClose None None; OnOpen]
           client0 client0_wf).
Defined.

Lemma client_init_spec_witness :
  AudioClient.__init__ (mk_devices true true) () =
    (Ret client0, (), [Log INFO CodecInitOk; Log INFO AudioInitOk]) ∧
  AudioClient.wf client0 ∧ AudioClient.is_running client0 = false.
Proof.
  split; [exact client_init_run|].
  pose proof (client_init_spec _ _ _ client_init_run) as (Hwf & Hr & _).
  exact (conj Hwf Hr).
Defined.

Lemma client_cleanup_twice_witness :
  AudioClient.wf client0 ∧
  AudioClient._cleanup (state_of (AudioClient._on_close None None client0)) =
  (Ret tt, state_of (AudioClient._on_close None None client0),
   [Log INFO AudioReleased; Log INFO ResourcesReleased]).
Proof.
  split; [exact client0_wf|].
  exact (proj1 (proj2 (proj2
           (client_cleanup_twice None None client0 client0_wf)))).
Defined.
