(* ===== verification/Protocol.v ===== *)
(** * The types of the control messages

    [_handle_control] (lines 208-217) parses a text message and then uses
    the value as a dict whose [type] may be ["tts"], in which case it
    reads its [state].  Nothing in the code checks that the value has this
    shape.  This file states the shape as a typing judgment on the values
    of [json.loads], gives its checker, and proves that the messages of
    this type are exactly those that [_handle_control] takes without
    raising. *)

From S2P Require Import Prelude Python Config Containers Codec AudioIO.
From S2P Require Import Transport Client.

Module Protocol.

(** The type of a value that [json.loads] returns, as [type(v)] names
    it. *)
Inductive ty : Type := NoneType | Bool | Int | Float | Str | List | Dict.

Definition type_of (v : json) : ty :=
  match v with
  | JNull => NoneType
  | JBool _ => Bool
  | JInt _ => Int
  | JFloat _ => Float
  | JStr _ => Str
  | JArr _ => List
  | JObj _ => Dict
  end.

(** The control messages: a dict; one whose [type] is ["tts"] has a
    [state]. *)
Inductive control : json → Prop :=
| control_tts m st :
    dict_get "type" m = Some (JStr "tts") → dict_get "state" m = Some st →
    control (JObj m)
| control_other m :
    dict_get "type" m ≠ Some (JStr "tts") → control (JObj m).

(** The wire format of section 6 of spec.md: key to value, with at
    least a [type] field. *)
Definition wire (v : json) : Prop :=
  match v with
  | JObj m => is_Some (dict_get "type" m)
  | _ => False
  end.

(** The checker of the judgment. *)
Definition is_control (v : json) : bool :=
  match v with
  | JObj m =>
      if json_eq_str (default JNull (dict_get "type" m)) "tts"
      then bool_decide (is_Some (dict_get "state" m))
      else true
  | _ => false
  end.

End Protocol.

(** ** The checker decides the judgment *)

Lemma dict_type_tts m :
  json_eq_str (default JNull (dict_get "type" m)) "tts" = true ↔
  dict_get "type" m = Some (JStr "tts").
Proof.
  rewrite json_eq_str_true. destruct (dict_get "type" m) as [v|]; simpl.
  - split; [by intros ->|by intros [= ->]].
  - split; [done|by intros [=]].
Qed.

Lemma is_control_spec v : Protocol.is_control v = true ↔ Protocol.control v.
Proof.
  split.
  - destruct v as [| | | | | |m]; try done. simpl.
    destruct (json_eq_str _ "tts") eqn:Hty.
    + apply dict_type_tts in Hty. intros [st Hst]%bool_decide_eq_true.
      by eapply Protocol.control_tts.
    + intros _. apply Protocol.control_other. rewrite <- dict_type_tts.
      by rewrite Hty.
  - intros [m st Hty Hst|m Hty]; simpl.
    + apply dict_type_tts in Hty. rewrite Hty, Hst. by apply bool_decide_eq_true.
    + destruct (json_eq_str _ "tts") eqn:Hty'; [|done].
      by apply dict_type_tts in Hty'.
Qed.

#[export] Instance control_dec v : Decision (Protocol.control v).
Proof.
  refine (cast_if (decide (Protocol.is_control v = true)));
    by rewrite <- is_control_spec.
Defined.

Lemma control_is_dict v : Protocol.control v → Protocol.type_of v = Protocol.Dict.
Proof. by intros []. Qed.

(** A message of the wire format is a control message unless it is a
    ["tts"] message without a state. *)
Lemma wire_control v :
  Protocol.wire v →
  Protocol.control v ∨
  ∃ m, v = JObj m ∧ dict_get "type" m = Some (JStr "tts") ∧
       dict_get "state" m = None.
Proof.
  destruct v as [| | | | | |m]; try done. intros _.
  destruct (decide (Protocol.control (JObj m))) as [Hc|Hc]; [by left|right].
  exists m. split; [done|].
  destruct (json_eq_str (default JNull (dict_get "type" m)) "tts") eqn:Hty.
  - apply dict_type_tts in Hty. split; [done|].
    destruct (dict_get "state" m) as [st|] eqn:Hst; [|done].
    destruct Hc. by eapply Protocol.control_tts.
  - destruct Hc. apply Protocol.control_other. rewrite <- dict_type_tts.
    by rewrite Hty.
Qed.

(** ** Messages of the type are handled, and no others *)

Section protocol.
Context `{OpusLib} `{JsonLib}.
Implicit Types (c : AudioClient.t) (data : json) (message : string).

(** Nothing escapes for a control message, and something does for every
    other value. *)
Lemma control_escape_None data :
  AudioClient.control_escape data = None ↔ Protocol.is_control data = true.
Proof.
  destruct data as [| | | | | |m]; try done. simpl.
  destruct (json_eq_str _ "tts"); [|done].
  rewrite bool_decide_eq_true.
  destruct (dict_get "state" m) as [st|]; simpl; split; try done.
Qed.

(** The control messages are the values that [_handle_control] can
    take.  For a text that parses, [_handle_control] returns if and only
    if the value is a control message: a dict that, when its [type] is
    ["tts"], has a [state].  A value of any other type, and a ["tts"]
    message without a state, raise; the code has no check of its own. *)
Lemma client_control_typed message c data :
  json_loads message = Ret data →
  result_of (AudioClient._handle_control message c) = Ret tt ↔
  Protocol.control data.
Proof.
  intros Hl. rewrite client_handle_control_unfold, Hl, <- is_control_spec.
  rewrite <- control_escape_None. simpl.
  destruct (AudioClient.control_escape data); split; congruence.
Qed.

End protocol.

(** ** Concrete runs with [toy_json] *)

Lemma client_control_typed_witness :
  json_loads "start" = Ret (JObj [("type", JStr "tts"); ("state", JStr "start")]) ∧
  Protocol.control (JObj [("type", JStr "tts"); ("state", JStr "start")]) ∧
  result_of (AudioClient._handle_control "start" client0) = Ret tt.
Proof.
  split; [reflexivity|].
  assert (Hc : Protocol.control
                 (JObj [("type", JStr "tts"); ("state", JStr "start")]))
    by (by eapply Protocol.control_tts).
  split; [exact Hc|].
  exact (proj2 (client_control_typed "start" client0 _ eq_refl) Hc).
Defined.

(** A list is not a control message: the handler raises. *)
Example control_list_run :
  ¬ Protocol.control (JArr [JStr "tts"]) ∧
  result_of (AudioClient._handle_control "list" client0) = Raise AttributeError.
Proof. split; [by intros Hc; inversion Hc|by vm_compute]. Qed.

(** A message of the wire format that is not a control message: the
    handler raises. *)
Example control_wire_run :
  json_loads "tts" = Ret (JObj [("type", JStr "tts")]) ∧
  Protocol.wire (JObj [("type", JStr "tts")]) ∧
  ¬ Protocol.control (JObj [("type", JStr "tts")]) ∧
  result_of (AudioClient._handle_control "tts" client0) = Raise (KeyError "state").
Proof.
  split; [reflexivity|]. split; [by eexists|].
  split; [by apply (not_iff_compat (is_control_spec _))|by vm_compute].
Qed.
