(* ===== verification/Retry.v ===== *)
(** * [AudioClient.run] and the program's entry (lines 237-264)

    [run] calls [ws.run_forever] until a call returns or five calls have
    raised, sleeping [min(2 ** retries, 30)] seconds after each failure.
    What a call of [run_forever] does is the transport's: an [attempt] is
    the callbacks it ran and how it ended, and the environment [env] gives
    the attempt made with a given number of failures behind it.  [main] is
    the block under [if __name__ == "__main__"]. *)

From S2P Require Import Prelude Python Config Containers Codec AudioIO.
From S2P Require Import Transport Client.

Module Main.
Section main.
Context `{OpusLib} `{JsonLib}.

(** One call of [ws.run_forever]. *)
Record attempt : Type := mk_attempt {
  delivered : list ws_event;    (* the callbacks run during the call *)
  ended : res unit;             (* the call returned, or what it raised *)
}.

(** Lines 243-247.  The callbacks run on the client while the call lasts;
    a client without a [ws] has nothing to call. *)
Definition run_forever (a : attempt) : M AudioClient.t unit :=
  λ c, match AudioClient.ws c with
       | None => (Raise AttributeError, c, [])
       | Some _ =>
           let r := AudioClient.run_events (delivered a) c in
           (ended a, AudioClient.run_state r, AudioClient.run_trace r)
       end.

Definition max_retries : Z := 5.

(** Lines 250-254: the handler of a failed attempt; its result is the new
    value of [retries]. *)
Definition on_exception (e : exn) (retries : Z) : M AudioClient.t Z :=
  logger_error (ConnException e) ;;
  let retries := (retries + 1)%Z in
  let delay := Z.min (2 ^ retries) 30 in
  logger_info (RetryIn delay) ;;
  sleep (inject_Z delay) ;;
  ret retries.

(** Lines 241-256: the [while] loop from a value of [retries], with its
    [else] clause.  [fuel] bounds the iterations; [None] is a loop that
    needs more. *)
Fixpoint run_loop (fuel : nat) (env : Z → attempt) (retries : Z)
    (c : AudioClient.t) : option (res unit * AudioClient.t * trace) :=
  if bool_decide (retries < max_retries)%Z then
    match fuel with
    | 0 => None
    | S fuel' =>
        match run_forever (env retries) c with
        | (Ret _, c1, t1) => Some (Ret tt, c1, t1)
        | (Raise e, c1, t1) =>
            if is_Exception e then
              let '(r, c2, t2) := on_exception e retries c1 in
              match r with
              | Ret retries' =>
                  '(r3, c3, t3) ← run_loop fuel' env retries' c2;
                  Some (r3, c3, t1 ++ t2 ++ t3)
              | Raise e' => Some (Raise e', c2, t1 ++ t2)
              end
            else Some (Raise e, c1, t1)
        end
    end
  else Some (logger_error MaxRetries c).

(** Lines 237-256. *)
Definition run (env : Z → attempt) (c : AudioClient.t)
    : option (res unit * AudioClient.t * trace) :=
  run_loop (Z.to_nat max_retries) env 0 c.

(** Lines 262-264: the handler of the entry's [try]. *)
Definition on_interrupt : M AudioClient.t unit :=
  AudioClient._cleanup ;;
  logger_info UserInterrupt.

(** Lines 260-264: what the entry does with the way [run] ended.  Only
    a [KeyboardInterrupt] is handled. *)
Definition finish (r : res unit) : M AudioClient.t unit :=
  match r with
  | Ret _ => ret tt
  | Raise e => if is_KeyboardInterrupt e then on_interrupt else raise e
  end.

(** Lines 258-264.  The result holds the client when the constructor
    returned one. *)
Definition main (dev : devices) (env : Z → attempt)
    : option (res unit * option AudioClient.t * trace) :=
  match AudioClient.__init__ dev () with
  | (Raise e, _, t0) => Some (Raise e, None, t0)
  | (Ret client, _, t0) =>
      '(r, c1, t1) ← run env client;
      let '(r2, c2, t2) := finish r c1 in
      Some (r2, Some c2, t0 ++ t1 ++ t2)
  end.

(** ** Reference definitions *)

(** The delay after the [k]-th failure. *)
Definition delay (k : Z) : Z := Z.min (2 ^ k) 30.

(** An attempt that [run] answers by a retry. *)
Definition fails (a : attempt) : bool :=
  match ended a with Ret _ => false | Raise e => is_Exception e end.

(** The attempts that fail in a row, from the one made at [retries], among
    the next [n]. *)
Fixpoint failures (n : nat) (env : Z → attempt) (retries : Z) : nat :=
  match n with
  | 0 => 0
  | S n' =>
      if fails (env retries) then S (failures n' env (retries + 1)) else 0
  end.

(** The delays of [k] failures in a row, the first made at [retries]. *)
Fixpoint delays (k : nat) (retries : Z) : list Z :=
  match k with
  | 0 => []
  | S k' => delay (retries + 1) :: delays k' (retries + 1)
  end.

End main.
Arguments run_forever : simpl never.
Arguments on_exception : simpl never.
Arguments finish : simpl never.
End Main.

(** ** The loop, one iteration at a time *)

Section run_facts.
Context `{OpusLib} `{JsonLib}.
Implicit Types (c : AudioClient.t) (e : exn) (a : Main.attempt)
  (env : Z → Main.attempt) (retries : Z).

Lemma on_exception_unfold e retries c :
  Main.on_exception e retries c =
  (Ret (retries + 1)%Z, c,
   [Log ERROR (ConnException e); Log INFO (RetryIn (Main.delay (retries + 1)));
    Slept (inject_Z (Main.delay (retries + 1)))]).
Proof. reflexivity. Qed.

Lemma run_forever_unfold a c :
  AudioClient.wf c →
  Main.run_forever a c =
  (Main.ended a,
   AudioClient.run_state (AudioClient.run_events (Main.delivered a) c),
   AudioClient.run_trace (AudioClient.run_events (Main.delivered a) c)).
Proof. intros [_ [w Hw]]. unfold Main.run_forever. by rewrite Hw. Qed.

(** The loop is over when the budget is used up. *)
Lemma run_loop_done fuel env retries c :
  ¬ (retries < Main.max_retries)%Z →
  Main.run_loop fuel env retries c = Some (Ret tt, c, [Log ERROR MaxRetries]).
Proof. intros Hge. destruct fuel; simpl; by rewrite bool_decide_eq_false_2. Qed.

(** One iteration. *)
Lemma run_loop_step fuel env retries c :
  AudioClient.wf c → (retries < Main.max_retries)%Z →
  Main.run_loop (S fuel) env retries c =
  let r1 := AudioClient.run_events (Main.delivered (env retries)) c in
  let c1 := AudioClient.run_state r1 in
  let t1 := AudioClient.run_trace r1 in
  match Main.ended (env retries) with
  | Ret _ => Some (Ret tt, c1, t1)
  | Raise e =>
      if is_Exception e then
        '(r3, c3, t3) ← Main.run_loop fuel env (retries + 1) c1;
        Some (r3, c3,
              t1 ++ [Log ERROR (ConnException e);
                     Log INFO (RetryIn (Main.delay (retries + 1)));
                     Slept (inject_Z (Main.delay (retries + 1)))] ++ t3)
      else Some (Raise e, c1, t1)
  end.
Proof.
  intros Hwf Hlt. cbn [Main.run_loop]. rewrite bool_decide_eq_true_2 by done.
  rewrite run_forever_unfold by done. cbv zeta.
  destruct (Main.ended (env retries)) as [u|e]; [done|].
  destruct (is_Exception e); [|done]. by rewrite on_exception_unfold.
Qed.

Lemma failures_step env retries :
  (retries < Main.max_retries)%Z →
  Main.failures (Z.to_nat (Main.max_retries - retries)) env retries =
  if Main.fails (env retries)
  then S (Main.failures (Z.to_nat (Main.max_retries - (retries + 1))) env
            (retries + 1))
  else 0.
Proof.
  intros Hlt.
  replace (Z.to_nat (Main.max_retries - retries))
    with (S (Z.to_nat (Main.max_retries - (retries + 1)))) by lia.
  done.
Qed.

(** What the loop started at [retries] promises: the client stays well
    formed; the pauses are the delays of the failures in a row; the loop
    returns after the last failure of the budget, having logged that, and
    otherwise ends as the first attempt that is not a failure ended. *)
Definition run_post env retries (x : res unit * AudioClient.t * trace) : Prop :=
  let n := Z.to_nat (Main.max_retries - retries) in
  let k := Main.failures n env retries in
  AudioClient.wf (state_of x) ∧
  slept (trace_of x) = inject_Z <$> Main.delays k retries ∧
  result_of x = (if decide (k = n) then Ret tt
                 else Main.ended (env (retries + Z.of_nat k)%Z)) ∧
  (k = n → last (trace_of x) = Some (Log ERROR MaxRetries)).

Lemma run_post_done env retries c :
  AudioClient.wf c → ¬ (retries < Main.max_retries)%Z →
  run_post env retries (Ret tt, c, [Log ERROR MaxRetries]).
Proof.
  intros Hwf Hge. unfold run_post.
  by replace (Z.to_nat (Main.max_retries - retries)) with 0 by lia.
Qed.

Lemma run_post_stop env retries c1 t1 :
  AudioClient.wf c1 → slept t1 = [] → (retries < Main.max_retries)%Z →
  Main.fails (env retries) = false →
  run_post env retries (Main.ended (env retries), c1, t1).
Proof.
  intros Hwf Hs Hlt Hf. unfold run_post. rewrite failures_step, Hf by done.
  simpl. rewrite Z.add_0_r, decide_False by lia. split_and!; [done..|lia].
Qed.

Lemma run_post_retry env retries t1 e x :
  (retries < Main.max_retries)%Z → Main.fails (env retries) = true →
  slept t1 = [] → run_post env (retries + 1) x →
  run_post env retries
    (result_of x, state_of x,
     t1 ++ [Log ERROR (ConnException e);
            Log INFO (RetryIn (Main.delay (retries + 1)));
            Slept (inject_Z (Main.delay (retries + 1)))] ++ trace_of x).
Proof.
  intros Hlt Hf Hs (Hwf & Hsl & Hr & Hl). unfold run_post.
  rewrite failures_step, Hf by done.
  set (n' := Z.to_nat (Main.max_retries - (retries + 1))) in *.
  set (k := Main.failures n' env (retries + 1)) in *.
  replace (Z.to_nat (Main.max_retries - retries)) with (S n') by lia.
  simpl. split_and!; [done| | |].
  - rewrite slept_app, Hs. simpl. by rewrite Hsl.
  - rewrite Hr. replace (retries + Z.of_nat (S k))%Z
      with (retries + 1 + Z.of_nat k)%Z by lia.
    destruct (decide (k = n')), (decide (S k = S n')); done || lia.
  - intros [= Hk]. rewrite last_app. rewrite !last_cons, (Hl Hk). done.
Qed.

(** With fuel for the budget that is left, the loop ends, and as
    [run_post] says. *)
Lemma run_loop_spec fuel env retries c :
  AudioClient.wf c → (Main.max_retries - retries ≤ Z.of_nat fuel)%Z →
  ∃ x, Main.run_loop fuel env retries c = Some x ∧ run_post env retries x.
Proof.
  revert retries c. induction fuel as [|fuel IH]; intros retries c Hwf Hfuel.
  { rewrite run_loop_done by lia. eexists. split; [done|].
    apply run_post_done; [done|lia]. }
  destruct (decide (retries < Main.max_retries)%Z) as [Hlt|Hge].
  2: { rewrite run_loop_done by done. eexists. split; [done|].
       by apply run_post_done. }
  rewrite run_loop_step by done. cbv zeta.
  pose proof (client_run_events_state_wf (Main.delivered (env retries)) c Hwf)
    as Hwf1.
  pose proof (client_run_events_slept (Main.delivered (env retries)) c Hwf)
    as Hs1.
  assert (Main.fails (env retries) = false →
          ∃ x, Some (Main.ended (env retries),
                     AudioClient.run_state
                       (AudioClient.run_events (Main.delivered (env retries)) c),
                     AudioClient.run_trace
                       (AudioClient.run_events (Main.delivered (env retries)) c))
               = Some x ∧ run_post env retries x) as Hstop.
  { intros Hf. eexists. split; [done|]. by apply run_post_stop. }
  destruct (Main.ended (env retries)) as [[]|e] eqn:He.
  { apply Hstop. unfold Main.fails. by rewrite He. }
  destruct (is_Exception e) eqn:Hex.
  2: { apply Hstop. unfold Main.fails. by rewrite He. }
  destruct (IH (retries + 1)%Z _ Hwf1) as ([[r3 c3] t3] & -> & Hpost); [lia|].
  simpl. eexists. split; [done|].
  apply (run_post_retry env retries _ e (r3, c3, t3)); try done.
  unfold Main.fails. by rewrite He.
Qed.

Lemma failures_le n env retries : Main.failures n env retries ≤ n.
Proof.
  revert retries. induction n as [|n IH]; intros retries; simpl; [done|].
  destruct (Main.fails _); [|lia]. specialize (IH (retries + 1)%Z). lia.
Qed.

(** The failures in a row depend on how the attempts end, not on what
    they deliver. *)
Lemma failures_ext n env env' retries :
  (∀ k, Main.ended (env k) = Main.ended (env' k)) →
  Main.failures n env retries = Main.failures n env' retries.
Proof.
  intros He. revert retries. induction n as [|n IH]; intros retries; [done|].
  simpl. unfold Main.fails. by rewrite He, IH.
Qed.

Lemma failures_all n env retries :
  (∀ k, retries ≤ k < retries + Z.of_nat n → Main.fails (env k) = true)%Z →
  Main.failures n env retries = n.
Proof.
  revert retries. induction n as [|n IH]; intros retries Hall; [done|].
  simpl. rewrite Hall by lia. f_equal. apply IH. intros k Hk. apply Hall. lia.
Qed.

(** The delays of the first failures are the first of 2, 4, 8, 16, 30. *)
Lemma delays_take k :
  k ≤ 5 → Main.delays k 0 = take k [2; 4; 8; 16; 30]%Z.
Proof. intros Hk. do 6 (destruct k as [|k]; [done|]). lia. Qed.

End run_facts.

(** ** [run]: termination, schedule, result *)

Section run_claims.
Context `{OpusLib} `{JsonLib}.
Implicit Types (c : AudioClient.t) (env : Z → Main.attempt).

Lemma run_spec env c :
  AudioClient.wf c → ∃ x, Main.run env c = Some x ∧ run_post env 0 x.
Proof. intros Hwf. by apply run_loop_spec. Qed.

(** The attempt after the failures in a row is not a failure. *)
Lemma failures_stop n env retries :
  Main.failures n env retries ≠ n →
  Main.fails (env (retries + Z.of_nat (Main.failures n env retries))%Z) = false.
Proof.
  revert retries. induction n as [|n IH]; intros retries; simpl; [done|].
  destruct (Main.fails (env retries)) eqn:Hf.
  - intros Hne. specialize (IH (retries + 1)%Z ltac:(lia)).
    by replace (retries + Z.of_nat (S (Main.failures n env (retries + 1))))%Z
      with (retries + 1 + Z.of_nat (Main.failures n env (retries + 1)))%Z by lia.
  - intros _. simpl. by rewrite Z.add_0_r.
Qed.

(** C25: [run] terminates.  The fuel given to the loop, [max_retries], is
    enough whatever the transport does: the loop ends after at most five
    attempts and five pauses, and leaves the client well formed. *)
Theorem run_terminates env c :
  AudioClient.wf c →
  ∃ x, Main.run env c = Some x ∧ AudioClient.wf (state_of x) ∧
       length (slept (trace_of x)) ≤ 5.
Proof.
  intros Hwf. destruct (run_spec env c Hwf) as (x & Hx & Hwf' & Hs & _).
  exists x. split_and!; [done..|].
  rewrite Hs, length_fmap.
  pose proof (failures_le (Z.to_nat (Main.max_retries - 0)) env 0) as Hle.
  revert Hle. generalize (Main.failures (Z.to_nat (Main.max_retries - 0)) env 0).
  intros k Hk. change (Z.to_nat (Main.max_retries - 0)) with 5 in Hk.
  by rewrite delays_take, length_take_le.
Qed.

(** C3: the back-off schedule.  After [k] attempts that failed in a row
    [run] has slept the first [k] of 2, 4, 8, 16 and 30 seconds, in this
    order, and nothing else: a pause follows every failure, the fifth
    included, and the callbacks never sleep. *)
Theorem run_backoff env c x :
  AudioClient.wf c → Main.run env c = Some x →
  slept (trace_of x) =
  inject_Z <$> take (Main.failures 5 env 0) [2; 4; 8; 16; 30]%Z.
Proof.
  intros Hwf Hx. destruct (run_spec env c Hwf) as (x' & Hx' & _ & Hs & _).
  rewrite Hx in Hx'. injection Hx' as <-. rewrite Hs.
  change (Z.to_nat (Main.max_retries - 0)) with 5.
  rewrite delays_take; [done|]. apply failures_le.
Qed.

(** C26: how [run] ends.  When five attempts failed in a row, [run] logs
    that the retries are used up and returns to its caller as it does
    after a connection that ended well.  Otherwise it ends as the first
    attempt that is not a failure ended: it returns when [run_forever]
    returned, and lets a [KeyboardInterrupt] through. *)
Theorem run_result env c x :
  AudioClient.wf c → Main.run env c = Some x →
  let k := Main.failures 5 env 0 in
  if decide (k = 5)
  then result_of x = Ret tt ∧ last (trace_of x) = Some (Log ERROR MaxRetries)
  else result_of x = Main.ended (env (Z.of_nat k)) ∧
       Main.fails (env (Z.of_nat k)) = false.
Proof.
  intros Hwf Hx. destruct (run_spec env c Hwf) as (x' & Hx' & _ & _ & Hr & Hl).
  rewrite Hx in Hx'. injection Hx' as <-. cbv zeta.
  change (Z.to_nat (Main.max_retries - 0)) with 5 in *.
  destruct (decide (Main.failures 5 env 0 = 5)) as [Hk|Hk]; [by auto|].
  split; [done|]. by apply (failures_stop 5 env 0).
Qed.

(** Five failures in a row.  [run] sleeps 2, 4, 8, 16 and 30 seconds,
    logs that the retries are used up and returns: the last pause of 30
    seconds is taken although no attempt follows it. *)
Lemma run_exhausted env c :
  AudioClient.wf c →
  (∀ k, 0 ≤ k < 5 → Main.fails (env k) = true)%Z →
  ∃ x, Main.run env c = Some x ∧ result_of x = Ret tt ∧
       slept (trace_of x) = inject_Z <$> [2; 4; 8; 16; 30]%Z ∧
       last (trace_of x) = Some (Log ERROR MaxRetries).
Proof.
  intros Hwf Hall. destruct (run_spec env c Hwf) as (x & Hx & _ & Hs & Hr & Hl).
  change (Z.to_nat (Main.max_retries - 0)) with 5 in *.
  rewrite (failures_all 5 env 0) in * by (intros k Hk; apply Hall; lia).
  exists x. split_and!; [done|done|done|by apply Hl].
Qed.

(** C36: the retry budget is never given back.  Two runs whose attempts
    end alike sleep alike and end alike, whatever the attempts delivered:
    an attempt that opened the connection and streamed before it failed
    counts like one that never connected. *)
Theorem run_budget_not_reset env env' c c' x x' :
  AudioClient.wf c → AudioClient.wf c' →
  (∀ k, Main.ended (env k) = Main.ended (env' k)) →
  Main.run env c = Some x → Main.run env' c' = Some x' →
  slept (trace_of x) = slept (trace_of x') ∧ result_of x = result_of x'.
Proof.
  intros Hwf Hwf' He Hx Hx'.
  destruct (run_spec env c Hwf) as (y & Hy & _ & Hs & Hr & _).
  destruct (run_spec env' c' Hwf') as (y' & Hy' & _ & Hs' & Hr' & _).
  rewrite Hx in Hy. rewrite Hx' in Hy'. injection Hy as <-. injection Hy' as <-.
  rewrite Hs, Hs', Hr, Hr', (failures_ext _ env env') by done.
  split; [done|]. case_decide; [done|apply He].
Qed.

End run_claims.

(** ** The program's entry *)

Section main_claims.
Context `{OpusLib} `{JsonLib}.
Implicit Types (c : AudioClient.t) (env : Z → Main.attempt) (dev : devices).

(** The entry's handler in closed form. *)
Lemma main_finish_unfold r c :
  AudioIO.wf (AudioClient.audio c) →
  Main.finish r c =
  match r with
  | Ret _ => (Ret tt, c, [])
  | Raise e =>
      if is_KeyboardInterrupt e then
        (Ret tt, AudioClient.cleaned c,
         [Log INFO AudioReleased; Log INFO ResourcesReleased;
          Log INFO UserInterrupt])
      else (Raise e, c, [])
  end.
Proof.
  intros Hwf. destruct r as [[]|e]; [done|]. unfold Main.finish.
  destruct (is_KeyboardInterrupt e); [|done].
  unfold Main.on_interrupt, bind. by rewrite client_cleanup_unfold.
Qed.

(** The constructor does not sleep. *)
Lemma client_init_slept dev client t0 :
  AudioClient.__init__ dev () = (Ret client, (), t0) → slept t0 = [].
Proof.
  rewrite client_init_unfold. pose proof (codec_init_slept) as Hc.
  destruct (OpusCodec.__init__ ()) as [[[k|e] []] tk]; [|done].
  destruct dev as [[] []]; try done. intros [= _ <-].
  simpl in Hc. by rewrite slept_app, Hc.
Qed.

(** C37: an interrupt.  When the attempt that follows [k] failures in a
    row, [k] below five, ends with a [KeyboardInterrupt], [run] lets it
    through and the entry handles it, whatever the attempts delivered, a
    close event that had released the resources included: the program
    cleans up, logs the interrupt and ends without an exception.  Its
    effects are those of the constructor and of [run] followed by the
    three records of the handler, its pauses the first [k] of the
    back-off; at the end the streams and the socket are closed, and the
    flag [is_running] is as [run] left it. *)
Theorem main_interrupt dev env client t0 :
  AudioClient.__init__ dev () = (Ret client, (), t0) →
  let k := Main.failures 5 env 0 in
  k < 5 → Main.ended (env (Z.of_nat k)) = Raise KeyboardInterrupt →
  ∃ c1 t1,
    Main.run env client = Some (Raise KeyboardInterrupt, c1, t1) ∧
    Main.main dev env =
      Some (Ret tt, Some (AudioClient.cleaned c1),
            t0 ++ t1 ++ [Log INFO AudioReleased; Log INFO ResourcesReleased;
                         Log INFO UserInterrupt]) ∧
    slept (t0 ++ t1) = inject_Z <$> take k [2; 4; 8; 16; 30]%Z ∧
    AudioIO.input_stream (AudioClient.audio (AudioClient.cleaned c1))
      = Stream.Closed ∧
    AudioIO.output_stream (AudioClient.audio (AudioClient.cleaned c1))
      = Stream.Closed ∧
    WebSocketApp.sock_state <$> AudioClient.ws (AudioClient.cleaned c1)
      = Some SockNone ∧
    AudioClient.is_running (AudioClient.cleaned c1) = AudioClient.is_running c1.
Proof.
  intros Hinit k Hk Hend. pose proof (client_init_wf _ _ _ Hinit) as Hwf.
  destruct (run_spec env client Hwf)
    as ([[r c1] t1] & Hx & [Ha [w Hw]] & Hs & Hr & _).
  change (Z.to_nat (Main.max_retries - 0)) with 5 in *. fold k in Hs, Hr.
  rewrite decide_False, Z.add_0_l, Hend in Hr by lia. simpl in *. subst r.
  exists c1, t1. split_and!; [done| | |..].
  - unfold Main.main. rewrite Hinit, Hx. simpl.
    by rewrite main_finish_unfold.
  - rewrite slept_app, (client_init_slept _ _ _ Hinit), Hs, delays_take; [done|lia].
  - unfold AudioClient.cleaned. simpl. by rewrite audio_release_unfold.
  - unfold AudioClient.cleaned. simpl. by rewrite audio_release_unfold.
  - unfold AudioClient.cleaned. simpl. by rewrite Hw.
  - done.
Qed.

(** Five failed attempts end the program like a session that ended
    well: [main] returns after the record that the retries are used up,
    and no exception reaches the caller. *)
Lemma main_exhausted dev env client t0 :
  AudioClient.__init__ dev () = (Ret client, (), t0) →
  (∀ k, 0 ≤ k < 5 → Main.fails (env k) = true)%Z →
  ∃ c1 tr, Main.main dev env = Some (Ret tt, Some c1, tr) ∧
           last tr = Some (Log ERROR MaxRetries) ∧
           slept tr = inject_Z <$> [2; 4; 8; 16; 30]%Z.
Proof.
  intros Hinit Hall. pose proof (client_init_wf _ _ _ Hinit) as Hwf.
  destruct (run_spec env client Hwf) as ([[r c1] t1] & Hx & _ & Hs & Hr & Hl).
  change (Z.to_nat (Main.max_retries - 0)) with 5 in *.
  rewrite (failures_all 5 env 0) in * by (intros k Hk; apply Hall; lia).
  simpl in *. subst r. exists c1, (t0 ++ t1).
  unfold Main.main. rewrite Hinit, Hx. unfold Main.finish, ret. simpl.
  rewrite app_nil_r. split_and!; [done| |].
  - rewrite last_app, Hl; done.
  - by rewrite slept_app, Hs, (client_init_slept _ _ _ Hinit).
Qed.

End main_claims.

(** ** Concrete runs with [toy_opus] and [toy_json] *)

(** A transport that never connects. *)
Definition env_down : Z → Main.attempt :=
  λ _, Main.mk_attempt [] (Raise WebSocketException).

(** A transport that opens the connection and loses it, every time. *)
Definition env_drops : Z → Main.attempt :=
  λ _, Main.mk_attempt [OnOpen; OnError WebSocketException]
         (Raise WebSocketException).

(** Two failures, then a session that the peer closes. *)
Definition env_flaky : Z → Main.attempt :=
  λ k, if bool_decide (k < 2)%Z
       then Main.mk_attempt [OnOpen; OnError WebSocketException]
              (Raise WebSocketException)
       else Main.mk_attempt [OnOpen; OnClose (Some 1000%Z) None] (Ret tt).

(** A session that the peer closes, then an interrupt. *)
Definition env_interrupt : Z → Main.attempt :=
  λ _, Main.mk_attempt [OnOpen; OnClose (Some 1000%Z) None]
         (Raise KeyboardInterrupt).

Example run_flaky :
  Main.run env_flaky client0 =
  Some (Ret tt,
        AudioClient.cleaned client0,
        [Log INFO (Connected WS_URL); Started SendThread; Started KeepaliveThread;
         Log ERROR (ConnError WebSocketException);
         Log ERROR (ConnException WebSocketException);
         Log INFO (RetryIn 2); Slept (inject_Z 2);
         Log INFO (Connected WS_URL); Started SendThread; Started KeepaliveThread;
         Log ERROR (ConnError WebSocketException);
         Log ERROR (ConnException WebSocketException);
         Log INFO (RetryIn 4); Slept (inject_Z 4);
         Log INFO (Connected WS_URL); Started SendThread; Started KeepaliveThread;
         Log INFO (ConnClosed (Some 1000%Z) None);
         Log INFO AudioReleased; Log INFO ResourcesReleased]).
Proof. vm_compute. reflexivity. Qed.

Example main_down :
  Main.main (mk_devices true true) env_down =
  Some (Ret tt, Some client0,
        [Log INFO CodecInitOk; Log INFO AudioInitOk;
         Log ERROR (ConnException WebSocketException);
         Log INFO (RetryIn 2); Slept (inject_Z 2);
         Log ERROR (ConnException WebSocketException);
         Log INFO (RetryIn 4); Slept (inject_Z 4);
         Log ERROR (ConnException WebSocketException);
         Log INFO (RetryIn 8); Slept (inject_Z 8);
         Log ERROR (ConnException WebSocketException);
         Log INFO (RetryIn 16); Slept (inject_Z 16);
         Log ERROR (ConnException WebSocketException);
         Log INFO (RetryIn 30); Slept (inject_Z 30);
         Log ERROR MaxRetries]).
Proof. vm_compute. reflexivity. Qed.

Lemma run_terminates_witness :
  AudioClient.wf client0 ∧
  ∃ x, Main.run env_down client0 = Some x ∧ AudioClient.wf (state_of x) ∧
       length (slept (trace_of x)) ≤ 5.
Proof. split; [exact client0_wf|]. exact (run_terminates env_down client0 client0_wf). Defined.

Lemma run_backoff_witness :
  AudioClient.wf client0 ∧
  ∃ x, Main.run env_flaky client0 = Some x ∧
       slept (trace_of x) = inject_Z <$> [2; 4]%Z.
Proof.
  split; [exact client0_wf|]. eexists. split; [exact run_flaky|].
  exact (run_backoff env_flaky client0 _ client0_wf run_flaky).
Defined.

Lemma run_result_witness :
  AudioClient.wf client0 ∧
  ∃ x, Main.run env_flaky client0 = Some x ∧
       result_of x = Main.ended (env_flaky 2) ∧
       Main.fails (env_flaky 2) = false.
Proof.
  split; [exact client0_wf|]. eexists. split; [exact run_flaky|].
  exact (run_result env_flaky client0 _ client0_wf run_flaky).
Defined.

Lemma run_exhausted_witness :
  AudioClient.wf client0 ∧
  (∀ k, 0 ≤ k < 5 → Main.fails (env_drops k) = true)%Z ∧
  ∃ x, Main.run env_drops client0 = Some x ∧ result_of x = Ret tt ∧
       slept (trace_of x) = inject_Z <$> [2; 4; 8; 16; 30]%Z ∧
       last (trace_of x) = Some (Log ERROR MaxRetries).
Proof.
  assert (Hall : ∀ k, (0 ≤ k < 5)%Z → Main.fails (env_drops k) = true)
    by (intros k _; reflexivity).
  split; [exact client0_wf|]. split; [exact Hall|].
  exact (run_exhausted env_drops client0 client0_wf Hall).
Defined.

(** A transport that never connects and one that connects and streams
    before each failure are given the same pauses. *)
Lemma run_budget_not_reset_witness :
  ∃ x x', Main.run env_down client0 = Some x ∧
          Main.run env_drops client0 = Some x' ∧
          slept (trace_of x) = slept (trace_of x') ∧
          result_of x = result_of x'.
Proof.
  eexists _, _. split; [vm_compute; reflexivity|].
  split; [vm_compute; reflexivity|].
  exact (run_budget_not_reset env_down env_drops client0 client0 _ _
           client0_wf client0_wf (λ _, eq_refl) eq_refl eq_refl).
Defined.

Lemma main_interrupt_witness :
  AudioClient.__init__ (mk_devices true true) () =
    (Ret client0, (), [Log INFO CodecInitOk; Log INFO AudioInitOk]) ∧
  Main.failures 5 env_interrupt 0 < 5 ∧
  Main.ended (env_interrupt 0) = Raise KeyboardInterrupt ∧
  ∃ c1 t1,
    Main.run env_interrupt client0 = Some (Raise KeyboardInterrupt, c1, t1) ∧
    Main.main (mk_devices true true) env_interrupt =
      Some (Ret tt, Some (AudioClient.cleaned c1),
            [Log INFO CodecInitOk; Log INFO AudioInitOk] ++ t1 ++
            [Log INFO AudioReleased; Log INFO ResourcesReleased;
             Log INFO UserInterrupt]).
Proof.
  split; [exact client_init_run|]. split; [vm_compute; lia|].
  split; [reflexivity|].
  destruct (main_interrupt (mk_devices true true) env_interrupt client0 _
              client_init_run ltac:(vm_compute; lia) eq_refl)
    as (c1 & t1 & Hrun & Hmain & _).
  exists c1, t1. split; [exact Hrun|exact Hmain].
Defined.

Lemma main_exhausted_witness :
  AudioClient.__init__ (mk_devices true true) () =
    (Ret client0, (), [Log INFO CodecInitOk; Log INFO AudioInitOk]) ∧
  (∀ k, 0 ≤ k < 5 → Main.fails (env_down k) = true)%Z ∧
  ∃ c1 tr, Main.main (mk_devices true true) env_down = Some (Ret tt, Some c1, tr) ∧
           last tr = Some (Log ERROR MaxRetries) ∧
           slept tr = inject_Z <$> [2; 4; 8; 16; 30]%Z.
Proof.
  assert (Hall : ∀ k, (0 ≤ k < 5)%Z → Main.fails (env_down k) = true)
    by (intros k _; reflexivity).
  split; [exact client_init_run|]. split; [exact Hall|].
  exact (main_exhausted (mk_devices true true) env_down client0 _
           client_init_run Hall).
Defined.
