(* ===== verification/Lifecycle.v ===== *)
(** * The specification's connection life cycle and [AudioClient.run]

    Section 4.3 of spec.md describes the connection as a state machine
    with a retry budget.  The code has no state variable for it: the
    states are where [run] (lines 237-256) is in its loop.  This file
    states the machine as a labelled transition relation with its
    executable form, reads the transitions that the code makes off the
    effects of [run], and proves where the code is a run of the machine
    and where it leaves it. *)

From S2P Require Import Prelude Python Config Containers Codec AudioIO.
From S2P Require Import Transport Client Retry.

(** ** The abstract machine (spec.md, section 4.3) *)

Module ConnectionLifecycle.

Inductive state : Type := Disconnected | Connecting | Open | Failed | Closing.

Record t : Type := mk {
  phase : state;
  budget : Z;                   (* RetryBudget *)
}.

Inductive label : Type :=
| Start               (* start() *)
| Opened              (* the transport reports a successful open *)
| Error               (* the transport reports an error *)
| Retry (delay : Q)   (* the back-off delay has elapsed *)
| GiveUp              (* the terminal failure *)
| Stop                (* stop() or the shutdown signal *)
| Closed.             (* the clean-up is done *)

Definition maxRetries : Z := 5.
Definition capDelay : Z := 30.

(** The back-off delay at a budget. *)
Definition delay (b : Z) : Z := Z.min (2 ^ b) capDelay.

Definition init : t := mk Disconnected 0.

(** The transitions.  The budget is reset by an open and incremented on
    entry to [Failed]; a failure while connecting is the failure that
    section 8 simulates. *)
Inductive step : t → label → t → Prop :=
| step_start b :
    (b < maxRetries)%Z → step (mk Disconnected b) Start (mk Connecting b)
| step_opened b : step (mk Connecting b) Opened (mk Open 0)
| step_error ph b :
    ph = Open ∨ ph = Connecting → step (mk ph b) Error (mk Failed (b + 1))
| step_retry b d :
    (b < maxRetries)%Z → (d == inject_Z (delay b))%Q →
    step (mk Failed b) (Retry d) (mk Connecting b)
| step_give_up b :
    (maxRetries ≤ b)%Z → step (mk Failed b) GiveUp (mk Disconnected b)
| step_stop ph b :
    ph = Open ∨ ph = Connecting → step (mk ph b) Stop (mk Closing b)
| step_closed b : step (mk Closing b) Closed (mk Disconnected b).

(** The transitions as a function. *)
Definition next (l : label) (st : t) : option t :=
  let b := budget st in
  match phase st, l with
  | Disconnected, Start =>
      if bool_decide (b < maxRetries)%Z then Some (mk Connecting b) else None
  | Connecting, Opened => Some (mk Open 0)
  | (Open | Connecting), Error => Some (mk Failed (b + 1))
  | Failed, Retry d =>
      if bool_decide (b < maxRetries)%Z && Qeq_bool d (inject_Z (delay b))
      then Some (mk Connecting b) else None
  | Failed, GiveUp =>
      if bool_decide (maxRetries ≤ b)%Z then Some (mk Disconnected b) else None
  | (Open | Connecting), Stop => Some (mk Closing b)
  | Closing, Closed => Some (mk Disconnected b)
  | _, _ => None
  end.

(** The state after a sequence of labels; [None] when the machine has no
    such run. *)
Definition run (ls : list label) (st : t) : option t :=
  foldl (λ o l, o ≫= next l) (Some st) ls.

(** The states of a run of the machine. *)
Inductive reachable : t → Prop :=
| reachable_init : reachable init
| reachable_step st l st' : reachable st → step st l st' → reachable st'.

(** What holds of them: the budget is within its bounds, an attempt is
    made only with budget left, and an open connection has its budget
    back. *)
Definition inv (st : t) : Prop :=
  (0 ≤ budget st ≤ maxRetries)%Z ∧
  (phase st = Connecting → (budget st < maxRetries)%Z) ∧
  (phase st = Open → budget st = 0%Z) ∧
  (phase st = Failed → (1 ≤ budget st)%Z).

(** The transition that an effect of the program is: the record of line
    156 is the open, the record of line 250 the failure of an attempt,
    the sleep of line 254 the back-off, the record of line 256 the
    terminal failure, the record of line 264 the shutdown signal. *)
Definition label_of (ev : event) : option label :=
  match ev with
  | Log INFO (Connected _) => Some Opened
  | Log ERROR (ConnException _) => Some Error
  | Slept d => Some (Retry d)
  | Log ERROR MaxRetries => Some GiveUp
  | Log INFO UserInterrupt => Some Stop
  | _ => None
  end.

Definition labels_of (tr : trace) : list label := omap label_of tr.

(** The transitions of [k] failed attempts that never opened, the first
    made at the budget [b]. *)
Fixpoint backoff (k : nat) (b : Z) : list label :=
  match k with
  | 0 => []
  | S k' => Error :: Retry (inject_Z (delay (b + 1))) :: backoff k' (b + 1)
  end.

End ConnectionLifecycle.

(** ** The machine *)

Section lifecycle_machine.
Import ConnectionLifecycle.
Implicit Types (st : t) (l : label) (ls : list label).

(** The function is the relation. *)
Lemma lifecycle_next_step l st st' : next l st = Some st' ↔ step st l st'.
Proof.
  split.
  - destruct st as [[] b], l; unfold next; simpl; try done;
      repeat case_bool_decide; simpl; try done;
      try (destruct (Qeq_bool _ _) eqn:Hd; [apply Qeq_bool_iff in Hd|done]);
      intros [= <-]; constructor; auto.
  - intros [b Hb|b|ph b [-> | ->]|b d Hb Hd|b Hb|ph b [-> | ->]|b];
      unfold next; simpl;
      rewrite ?bool_decide_eq_true_2 by done; try done.
    apply Qeq_bool_iff in Hd. by rewrite Hd.
Qed.

Lemma lifecycle_step_inv st l st' : inv st → step st l st' → inv st'.
Proof.
  unfold inv, maxRetries. intros Hinv Hs.
  destruct Hs as [b Hlt|b|ph b [-> | ->]|b d Hlt Hd|b Hge|ph b Hph|b];
    destruct Hinv as (Hb & Hc & Ho & Hf); simpl in *;
    split_and!; try done; try lia.
  - specialize (Ho eq_refl). lia.
  - specialize (Hc eq_refl). lia.
Qed.

End lifecycle_machine.

(** The invariant of the life cycle.  In every state that the
    machine of section 4.3 reaches the retry budget is between 0 and
    [maxRetries], an attempt is under way only with budget left, an open
    connection has its budget back, and a failed one has used some. *)
Lemma lifecycle_reachable_inv st :
  ConnectionLifecycle.reachable st → ConnectionLifecycle.inv st.
Proof.
  induction 1 as [|st l st' _ IH Hs]; [|by eapply lifecycle_step_inv].
  unfold ConnectionLifecycle.inv. simpl. unfold ConnectionLifecycle.maxRetries.
  split_and!; done || lia.
Qed.

(** ** The transitions of the code *)

Section lifecycle_labels.
Context `{OpusLib} `{JsonLib}.
Import ConnectionLifecycle.
Implicit Types (c : AudioClient.t) (env : Z → Main.attempt) (retries : Z).

Lemma labels_of_app tr1 tr2 :
  labels_of (tr1 ++ tr2) = labels_of tr1 ++ labels_of tr2.
Proof. apply omap_app. Qed.

(** A callback makes a transition when it is the callback of an open. *)
Lemma client_dispatch_labels ev c :
  AudioClient.wf c →
  labels_of (trace_of (AudioClient.dispatch ev c)) =
  match ev with OnOpen => [Opened] | _ => [] end.
Proof.
  intros Hwf. destruct (client_wf_opened c Hwf) as [Hi Ho].
  destruct ev as [|[opus|text]|e|code reason];
    unfold AudioClient.dispatch, AudioClient._on_message.
  - by rewrite client_on_open_unfold.
  - rewrite client_handle_audio_unfold by done. cbv zeta.
    destruct (Decoder_decode _ _ _) as [[pcm|e] dec]; simpl.
    + destruct (truthy pcm) eqn:Ht; simpl; [|done].
      destruct pcm as [|b pcm]; [done|].
      rewrite audio_play_output_unfold by done.
      by destruct (AudioIO.output_stream _).
    + by destruct (is_OpusError e).
  - rewrite client_handle_control_unfold.
    destruct (json_loads text) as [data|e]; simpl; [done|].
    by destruct (is_JSONDecodeError e).
  - by rewrite client_on_error_unfold.
  - by rewrite client_on_close_unfold by by destruct Hwf.
Qed.

(** The callbacks of an attempt that never opens make none. *)
Lemma client_run_events_labels evs c :
  AudioClient.wf c → OnOpen ∉ evs →
  labels_of (AudioClient.run_trace (AudioClient.run_events evs c)) = [].
Proof.
  revert c. induction evs as [|ev evs IH]; intros c Hwf Hno; [done|].
  apply not_elem_of_cons in Hno as [Hne Hno].
  cbn [AudioClient.run_events AudioClient.run_trace].
  rewrite labels_of_app, client_dispatch_labels by done.
  rewrite IH by (done || by apply client_dispatch_state).
  by destruct ev.
Qed.

(** The transitions of the loop from [retries], when no attempt opens
    the connection: those of the failures in a row, and the terminal
    failure when the budget is used up. *)
Lemma run_loop_labels fuel env retries c x :
  AudioClient.wf c → (Main.max_retries - retries ≤ Z.of_nat fuel)%Z →
  (∀ k, OnOpen ∉ Main.delivered (env k)) →
  Main.run_loop fuel env retries c = Some x →
  let n := Z.to_nat (Main.max_retries - retries) in
  let k := Main.failures n env retries in
  labels_of (trace_of x) =
  backoff k retries ++ (if decide (k = n) then [GiveUp] else []).
Proof.
  intros Hwf Hfuel Hno. cbv zeta. revert retries c x Hwf Hfuel.
  induction fuel as [|fuel IH]; intros retries c x Hwf Hfuel.
  { rewrite run_loop_done by lia. intros [= <-].
    by replace (Z.to_nat (Main.max_retries - retries)) with 0 by lia. }
  destruct (decide (retries < Main.max_retries)%Z) as [Hlt|Hge].
  2: { rewrite run_loop_done by done. intros [= <-].
       by replace (Z.to_nat (Main.max_retries - retries)) with 0 by lia. }
  rewrite run_loop_step, failures_step by done. cbv zeta.
  pose proof (client_run_events_state_wf (Main.delivered (env retries)) c Hwf)
    as Hwf1.
  pose proof (client_run_events_labels _ c Hwf (Hno retries)) as Hl1.
  replace (Z.to_nat (Main.max_retries - retries))
    with (S (Z.to_nat (Main.max_retries - (retries + 1)))) by lia.
  unfold Main.fails. destruct (Main.ended (env retries)) as [[]|e].
  { by intros [= <-]. }
  destruct (is_Exception e); [|by intros [= <-]].
  destruct (Main.run_loop fuel env (retries + 1) _) as [[[r3 c3] t3]|] eqn:Hr;
    [|done].
  intros [= <-]. simpl. rewrite labels_of_app, Hl1. simpl.
  pose proof (IH (retries + 1)%Z _ _ Hwf1 ltac:(lia) Hr) as IH'.
  simpl in IH'. rewrite IH'. unfold Main.delay, delay, capDelay.
  do 3 f_equal. repeat case_decide; done || lia.
Qed.

End lifecycle_labels.

(** ** The code against the machine *)

Section lifecycle_refinement.
Context `{OpusLib} `{JsonLib}.
Import ConnectionLifecycle.
Implicit Types (c : AudioClient.t) (env : Z → Main.attempt).

(** Fewer than five failures from the start are a run of the machine
    that ends in an attempt, the failures counted in its budget. *)
Lemma lifecycle_backoff_run k :
  k < 5 →
  run (Start :: backoff k 0) init = Some (mk Connecting (Z.of_nat k)).
Proof. intros Hk. do 5 (destruct k as [|k]; [by vm_compute|]). lia. Qed.

(** Five failures: the machine follows the code to the fifth failure,
    has no delay to take there, and gives up at once. *)
Lemma lifecycle_backoff_exhausted :
  let pre := Start :: backoff 4 0 ++ [Error] in
  Start :: backoff 5 0 ++ [GiveUp] = pre ++ [Retry 30; GiveUp] ∧
  run pre init = Some (mk Failed 5) ∧
  next (Retry 30) (mk Failed 5) = None ∧
  run (pre ++ [GiveUp]) init = Some (mk Disconnected 5).
Proof. by vm_compute. Qed.

(** C13: [run] against the life cycle of section 4.3, when no attempt
    opens the connection.  With fewer than five failures in a row the
    transitions of the code are a run of the machine, which is left in
    an attempt with the failures as its budget.  With five they are not:
    the machine follows the code to the fifth failure and gives up
    there, and the code first sleeps for thirty seconds more, a delay
    that the machine does not have. *)
Theorem run_refines_lifecycle env c x :
  AudioClient.wf c → (∀ k, OnOpen ∉ Main.delivered (env k)) →
  Main.run env c = Some x →
  let k := Main.failures 5 env 0 in
  let ls := Start :: labels_of (trace_of x) in
  if decide (k < 5)
  then run ls init = Some (mk Connecting (Z.of_nat k))
  else ∃ pre, ls = pre ++ [Retry 30; GiveUp] ∧
              run pre init = Some (mk Failed 5) ∧
              next (Retry 30) (mk Failed 5) = None ∧
              run (pre ++ [GiveUp]) init = Some (mk Disconnected 5).
Proof.
  intros Hwf Hno Hx. cbv zeta.
  rewrite (run_loop_labels (Z.to_nat Main.max_retries) env 0 c x Hwf
             ltac:(by vm_compute) Hno Hx).
  change (Z.to_nat (Main.max_retries - 0)) with 5.
  pose proof (failures_le 5 env 0) as Hle.
  destruct (decide (Main.failures 5 env 0 < 5)) as [Hlt|Hge].
  - rewrite decide_False, app_nil_r by lia. by apply lifecycle_backoff_run.
  - replace (Main.failures 5 env 0) with 5 by lia. rewrite decide_True by done.
    eexists. apply lifecycle_backoff_exhausted.
Qed.

End lifecycle_refinement.

(** ** Concrete runs with [toy_opus] and [toy_json] *)

(** Two failures without a connection, then an interrupt. *)
Definition env_two_down : Z → Main.attempt :=
  λ k, if bool_decide (k < 2)%Z
       then Main.mk_attempt [OnError WebSocketException] (Raise WebSocketException)
       else Main.mk_attempt [] (Raise KeyboardInterrupt).

Lemma env_two_down_never_opens k : OnOpen ∉ Main.delivered (env_two_down k).
Proof.
  unfold env_two_down. case_bool_decide; simpl; [|by apply not_elem_of_nil].
  apply not_elem_of_cons. split; [done|apply not_elem_of_nil].
Qed.

Lemma run_refines_lifecycle_witness :
  AudioClient.wf client0 ∧
  (∀ k, OnOpen ∉ Main.delivered (env_two_down k)) ∧
  ∃ x, Main.run env_two_down client0 = Some x ∧
       ConnectionLifecycle.run
         (ConnectionLifecycle.Start
            :: ConnectionLifecycle.labels_of (trace_of x))
         ConnectionLifecycle.init
       = Some (ConnectionLifecycle.mk ConnectionLifecycle.Connecting 2).
Proof.
  split; [exact client0_wf|]. split; [exact env_two_down_never_opens|].
  destruct (Main.run env_two_down client0) as [x|] eqn:Hr;
    [|by vm_compute in Hr].
  exists x. split; [reflexivity|].
  exact (run_refines_lifecycle env_two_down client0 x client0_wf
           env_two_down_never_opens Hr).
Defined.

(** A transport that opens the connection and loses it: the machine
    has its budget back at the open and expects the second delay to be
    two seconds again; the code sleeps four. *)
Example lifecycle_reset_run :
  ∃ x, Main.run env_drops client0 = Some x ∧
       take 7 (ConnectionLifecycle.Start
                 :: ConnectionLifecycle.labels_of (trace_of x)) =
         [ConnectionLifecycle.Start;
          ConnectionLifecycle.Opened; ConnectionLifecycle.Error;
          ConnectionLifecycle.Retry 2;
          ConnectionLifecycle.Opened; ConnectionLifecycle.Error;
          ConnectionLifecycle.Retry 4] ∧
       ConnectionLifecycle.run
         [ConnectionLifecycle.Start;
          ConnectionLifecycle.Opened; ConnectionLifecycle.Error;
          ConnectionLifecycle.Retry 2;
          ConnectionLifecycle.Opened; ConnectionLifecycle.Error]
         ConnectionLifecycle.init
       = Some (ConnectionLifecycle.mk ConnectionLifecycle.Failed 1) ∧
       ConnectionLifecycle.next (ConnectionLifecycle.Retry 4)
         (ConnectionLifecycle.mk ConnectionLifecycle.Failed 1) = None ∧
       ConnectionLifecycle.next (ConnectionLifecycle.Retry 2)
         (ConnectionLifecycle.mk ConnectionLifecycle.Failed 1)
       = Some (ConnectionLifecycle.mk ConnectionLifecycle.Connecting 1).
Proof. eexists. split; [by vm_compute|]. by vm_compute. Qed.
