(* ===== verification/SendLoop.v ===== *)
(** * [AudioClient._send_loop] (lines 167-185)

    The send thread, between the points at which another thread can run.
    [pc] is where the thread is, and [step] takes it from one point to the
    next at a reading of the clock: the test of the loop and the sleep,
    then [take_frame] (line 179), [encode_frame] (line 180) and
    [send_frame] (line 181), each a step of its own, the time stamp (line
    182), and the handler of the [try] (lines 183-185) around all of
    them.  [transmit] and [iteration] are the same lines taken as one
    call, as the code writes them; [burst] runs the steps of a thread
    that is alone, and is proved equal to [iteration].  Time is a rational
    number of seconds: [time.time()] is the clock, [time.sleep(d)] ends
    when the clock has advanced by [d] or more.  The thread is
    interleaved with the others in [System]. *)

From Stdlib Require Import Lqa.
From S2P Require Import Prelude Python Config Containers Codec AudioIO.
From S2P Require Import Transport Client.

Module SendLoop.
Section send_loop.
Context `{OpusLib} `{JsonLib}.

(** [FRAME_MS / 1000], in seconds. *)
Definition period : Q := (inject_Z FRAME_MS / 1000)%Q.

(** Lines 173-174. *)
Definition sleep_time (now last_send : Q) : Q :=
  let elapsed := (now - last_send)%Q in
  (period - elapsed)%Q.

(** [self.ws.send(data, opcode)]; a client without a [ws] has no [send]. *)
Definition ws_send (data : payload) (op : opcode) : M AudioClient.t unit :=
  zoom_opt AudioClient.ws AudioClient.set_ws (WebSocketApp.send data op)
    (raise AttributeError).

(** Line 179: the oldest block of the queue, or [None]. *)
Definition take_frame : M AudioClient.t (option bytes) :=
  zoom AudioClient.audio AudioClient.set_audio AudioIO.get_input_frame.

(** Line 180: the packet of a block, or [None]. *)
Definition encode_frame (pcm_frame : bytes) : M AudioClient.t (option bytes) :=
  zoom AudioClient.codec AudioClient.set_codec (OpusCodec.encode pcm_frame).

(** Line 181. *)
Definition send_frame (opus_frame : bytes) : M AudioClient.t unit :=
  ws_send (PBytes opus_frame) OPCODE_BINARY.

(** Lines 179-182 but for the clock, run without interruption: the
    oldest block is taken; when there is one and it is true it is
    encoded; when the packet is true it is sent.  The result tells
    whether a frame was sent. *)
Definition transmit : M AudioClient.t bool :=
  pcm_frame <- take_frame ;;
  match pcm_frame with
  | Some pcm =>
      if truthy pcm then
        opus_frame <- encode_frame pcm ;;
        match opus_frame with
        | Some opus =>
            if truthy opus then
              send_frame opus ;;
              ret true
            else ret false
        | None => ret false
        end
      else ret false
  | None => ret false
  end.

(** Where the thread is.  Another thread can run between any two of
    these points: between taking a block and encoding it, and between
    encoding it and sending the packet. *)
Inductive pc : Type :=
| Entry                            (* started; line 169 not run yet *)
| Test (last_send : Q)             (* at the test of the loop, line 170 *)
| Asleep (last_send until : Q)     (* in [time.sleep], line 176 *)
| Awake (last_send : Q)            (* before line 179 *)
| Taken (last_send : Q) (pcm_frame : bytes)     (* before line 180 *)
| Encoded (last_send : Q) (opus_frame : bytes)  (* before line 181 *)
| Stamp                            (* a frame was sent; before line 182 *)
| Exit.                            (* the function returned *)

(** Lines 183-185. *)
Definition on_exception (e : exn) : M AudioClient.t pc :=
  logger_error (SendFailed e) ;;
  ret Exit.

(** Lines 171 and 183: the [try] statement around an iteration. *)
Definition guarded (body : M AudioClient.t pc) : M AudioClient.t pc :=
  try_except body is_Exception on_exception.

(** [if v := e:] on what [e] returned: [yes] with the value when it is
    true, [no] when it is [None] or empty. *)
Definition if_frame (v : option bytes) (yes : bytes → pc) (no : pc) : pc :=
  match v with
  | Some b => if truthy b then yes b else no
  | None => no
  end.

(** One step of the thread when the clock reads [now].  [None]: the thread
    cannot move (it sleeps and [until] is not reached, or it has ended). *)
Definition step (now : Q) (p : pc) (c : AudioClient.t)
    : option (res pc * AudioClient.t * trace) :=
  match p with
  | Entry => Some (Ret (Test now), c, [])
  | Test last_send =>
      if AudioClient.is_running c then
        let d := sleep_time now last_send in
        if Qle_bool d 0 then Some (Ret (Awake last_send), c, [])
        else Some (Ret (Asleep last_send (now + d)%Q), c, [Slept d])
      else Some (Ret Exit, c, [])
  | Asleep last_send until =>
      if Qle_bool until now then Some (Ret (Awake last_send), c, []) else None
  | Awake last_send =>
      Some (guarded
              (pcm_frame <- take_frame ;;
               ret (if_frame pcm_frame (Taken last_send) (Test last_send))) c)
  | Taken last_send pcm =>
      Some (guarded
              (opus_frame <- encode_frame pcm ;;
               ret (if_frame opus_frame (Encoded last_send) (Test last_send))) c)
  | Encoded last_send opus =>
      Some (guarded (send_frame opus ;; ret Stamp) c)
  | Stamp => Some (Ret (Test now), c, [])
  | Exit => None
  end.

(** Lines 171-185 when no other thread runs between line 179 and the end
    of the iteration: the body of the loop after its sleep, as one
    call. *)
Definition iteration (last_send : Q) : M AudioClient.t pc :=
  guarded
    (sent <- transmit ;;
     ret (if sent : bool then Stamp else Test last_send)).

(** The points between line 179 and the end of the iteration. *)
Definition in_body (p : pc) : bool :=
  match p with
  | Awake _ | Taken _ _ | Encoded _ _ => true
  | _ => false
  end.

(** The thread running alone while it is inside the body, for [fuel]
    steps at most. *)
Fixpoint burst (fuel : nat) (now : Q) (p : pc) (c : AudioClient.t)
    : res pc * AudioClient.t * trace :=
  match fuel with
  | O => (Ret p, c, [])
  | S fuel' =>
      if in_body p then
        match step now p c with
        | Some (Ret p', c', tr) =>
            let '(r, c'', tr') := burst fuel' now p' c' in (r, c'', tr ++ tr')
        | Some (Raise e, c', tr) => (Raise e, c', tr)
        | None => (Ret p, c, [])
        end
      else (Ret p, c, [])
  end.

(** ** Reference definitions *)

(** The packet that is handed to [ws.send] for a block, if one is: the
    block is not empty, the library returned, the packet is not empty. *)
Definition packet (pcm : bytes) (enc : Encoder) : option bytes :=
  if truthy pcm then
    match (Encoder_encode pcm CHUNK enc).1 with
    | Ret opus => if truthy opus then Some opus else None
    | Raise _ => None
    end
  else None.

(** The exception of the library that [encode] lets through for a block,
    if there is one. *)
Definition encode_escape (pcm : bytes) (enc : Encoder) : option exn :=
  if truthy pcm then
    match (Encoder_encode pcm CHUNK enc).1 with
    | Raise e => if is_OpusError e then None else Some e
    | Ret _ => None
    end
  else None.

(** The socket accepts frames. *)
Definition connected (c : AudioClient.t) : bool :=
  match AudioClient.ws c with
  | Some w => bool_decide (WebSocketApp.sock_state w = SockConnected)
  | None => false
  end.

(** The binary frames of a trace: what the server receives as audio. *)
Definition payloads (tr : trace) : list bytes :=
  omap (λ ev, match ev with
              | Sent (PBytes b) OPCODE_BINARY => Some b
              | _ => None
              end) tr.

(** The encoder after [encode] was called with a block. *)
Definition encoder_after (pcm : bytes) (enc : Encoder) : Encoder :=
  if truthy pcm then (Encoder_encode pcm CHUNK enc).2 else enc.

(** The packets of a sequence of blocks encoded one after the other, the
    encoder going from each block to the next. *)
Fixpoint packets (blocks : list bytes) (enc : Encoder) : list bytes :=
  match blocks with
  | [] => []
  | pcm :: blocks' =>
      option_list (packet pcm enc) ++ packets blocks' (encoder_after pcm enc)
  end.

(** The packets ahead of a client: those of the blocks in its queue and
    of the blocks [more] that are captured later. *)
Definition ahead (more : list bytes) (c : AudioClient.t) : list bytes :=
  packets (Queue.items (AudioIO.input_queue (AudioClient.audio c)) ++ more)
    (OpusCodec.encoder (AudioClient.codec c)).

(** The packets ahead of a send thread at [p] that runs alone: the block
    or the packet it holds comes first. *)
Definition ahead_of (p : pc) (more : list bytes) (c : AudioClient.t)
    : list bytes :=
  let q := Queue.items (AudioIO.input_queue (AudioClient.audio c)) ++ more in
  let enc := OpusCodec.encoder (AudioClient.codec c) in
  match p with
  | Taken _ pcm => packets (pcm :: q) enc
  | Encoded _ opus => opus :: packets q enc
  | _ => packets q enc
  end.

(** A block or a packet that a thread holds passed the test of its
    [if]. *)
Definition pc_wf (p : pc) : Prop :=
  match p with
  | Taken _ pcm => truthy pcm = true
  | Encoded _ opus => truthy opus = true
  | _ => True
  end.

(** The client after the oldest block was taken. *)
Definition dequeued (rest : list bytes) (c : AudioClient.t) : AudioClient.t :=
  AudioClient.set_audio
    (AudioIO.set_input_queue
       (Queue.mk (Queue.maxsize (AudioIO.input_queue (AudioClient.audio c)))
          rest)
       (AudioClient.audio c)) c.

(** The client after the encoder moved. *)
Definition with_encoder (enc : Encoder) (c : AudioClient.t) : AudioClient.t :=
  AudioClient.set_codec (OpusCodec.set_encoder enc (AudioClient.codec c)) c.

(** The client after the oldest block was taken and the encoder moved. *)
Definition taken (rest : list bytes) (enc : Encoder) (c : AudioClient.t)
    : AudioClient.t :=
  with_encoder enc (dequeued rest c).

End send_loop.
Arguments transmit : simpl never.
Arguments ws_send : simpl never.
Arguments take_frame : simpl never.
Arguments encode_frame : simpl never.
Arguments send_frame : simpl never.
End SendLoop.

(** ** The three calls of an iteration *)

Section send_calls.
Context `{OpusLib} `{JsonLib}.
Implicit Types (c : AudioClient.t) (e : exn) (pcm opus : bytes).

Lemma ws_send_unfold data op c :
  is_Some (AudioClient.ws c) →
  SendLoop.ws_send data op c =
  if SendLoop.connected c then (Ret tt, c, [Sent data op])
  else (Raise WebSocketException, c, []).
Proof.
  intros [w Hw]. unfold SendLoop.ws_send, SendLoop.connected, zoom_opt.
  rewrite Hw. unfold WebSocketApp.send.
  destruct c as [w' k a r st pi]. simpl in *. subst w'.
  by destruct (WebSocketApp.sock_state w).
Qed.

Lemma take_frame_unfold c :
  SendLoop.take_frame c =
  match Queue.items (AudioIO.input_queue (AudioClient.audio c)) with
  | [] => (Ret None, c, [])
  | pcm :: rest => (Ret (Some pcm), SendLoop.dequeued rest c, [])
  end.
Proof.
  unfold SendLoop.take_frame, zoom. rewrite audio_get_input_frame_unfold.
  destruct (Queue.items _); [|done]. by destruct c as [w k [] r st pi].
Qed.

Lemma encode_frame_unfold pcm c :
  SendLoop.encode_frame pcm c =
  match Encoder_encode pcm CHUNK (OpusCodec.encoder (AudioClient.codec c)) with
  | (Ret opus, enc) => (Ret (Some opus), SendLoop.with_encoder enc c, [])
  | (Raise e, enc) =>
      if is_OpusError e
      then (Ret None, SendLoop.with_encoder enc c, [Log ERROR (EncodeFailed e)])
      else (Raise e, SendLoop.with_encoder enc c, [])
  end.
Proof.
  unfold SendLoop.encode_frame, zoom. rewrite codec_encode_unfold.
  destruct (Encoder_encode _ _ _) as [[opus|e] enc]; [done|].
  by destruct (is_OpusError e).
Qed.

Lemma send_frame_unfold opus c :
  is_Some (AudioClient.ws c) →
  SendLoop.send_frame opus c =
  if SendLoop.connected c then (Ret tt, c, [Sent (PBytes opus) OPCODE_BINARY])
  else (Raise WebSocketException, c, []).
Proof. apply ws_send_unfold. Qed.

Lemma dequeued_wf pcm rest c :
  AudioClient.wf c →
  Queue.items (AudioIO.input_queue (AudioClient.audio c)) = pcm :: rest →
  AudioClient.wf (SendLoop.dequeued rest c).
Proof.
  intros [Ha Hw] Hq. split; [|done]. simpl.
  pose proof (audio_get_input_frame_wf _ Ha) as Hg.
  rewrite audio_get_input_frame_unfold, Hq in Hg. done.
Qed.

Lemma with_encoder_wf enc c :
  AudioClient.wf c → AudioClient.wf (SendLoop.with_encoder enc c).
Proof. intros [Ha Hw]. by split. Qed.

Lemma with_encoder_same c :
  SendLoop.with_encoder (OpusCodec.encoder (AudioClient.codec c)) c = c.
Proof. by destruct c as [w [] a r st pi]. Qed.

(** [transmit] in closed form: by what the queue holds, what the encoder
    answers and whether the socket is connected. *)
Lemma transmit_unfold c :
  AudioClient.wf c →
  SendLoop.transmit c =
  match Queue.items (AudioIO.input_queue (AudioClient.audio c)) with
  | [] => (Ret false, c, [])
  | pcm :: rest =>
      if truthy pcm then
        match Encoder_encode pcm CHUNK (OpusCodec.encoder (AudioClient.codec c)) with
        | (Ret opus, enc) =>
            let c2 := SendLoop.taken rest enc c in
            if truthy opus then
              if SendLoop.connected c
              then (Ret true, c2, [Sent (PBytes opus) OPCODE_BINARY])
              else (Raise WebSocketException, c2, [])
            else (Ret false, c2, [])
        | (Raise e, enc) =>
            let c2 := SendLoop.taken rest enc c in
            if is_OpusError e
            then (Ret false, c2, [Log ERROR (EncodeFailed e)])
            else (Raise e, c2, [])
        end
      else (Ret false, SendLoop.dequeued rest c, [])
  end.
Proof.
  intros Hwf. unfold SendLoop.transmit. unfold bind at 1.
  rewrite take_frame_unfold.
  destruct (Queue.items _) as [|pcm rest] eqn:Hq; [done|].
  destruct (truthy pcm) eqn:Ht; [|done].
  unfold bind at 1. rewrite encode_frame_unfold.
  change (OpusCodec.encoder (AudioClient.codec (SendLoop.dequeued rest c)))
    with (OpusCodec.encoder (AudioClient.codec c)).
  destruct (Encoder_encode _ _ _) as [[opus|e] enc]; simpl.
  2: { by destruct (is_OpusError e). }
  destruct (truthy opus) eqn:Ho; [|done].
  unfold bind. rewrite send_frame_unfold by by destruct Hwf.
  change (SendLoop.connected (SendLoop.with_encoder _ _))
    with (SendLoop.connected c).
  by destruct (SendLoop.connected c).
Qed.

(** C7: one iteration on a queue that is not empty.  The oldest block
    leaves the queue whatever happens next.  A frame is sent exactly when
    the block yields a packet and the socket is connected, and it is that
    packet, as a binary frame; [transmit] then returns [true].  It raises
    when the packet cannot be sent, and when the library raises something
    else than [OpusError]: the block is lost in both cases. *)
Theorem transmit_spec pcm rest c :
  AudioClient.wf c →
  Queue.items (AudioIO.input_queue (AudioClient.audio c)) = pcm :: rest →
  let r := SendLoop.transmit c in
  let enc := OpusCodec.encoder (AudioClient.codec c) in
  Queue.items (AudioIO.input_queue (AudioClient.audio (state_of r))) = rest ∧
  sent (trace_of r) =
    (if SendLoop.connected c
     then (λ o, (PBytes o, OPCODE_BINARY)) <$> option_list (SendLoop.packet pcm enc)
     else []) ∧
  result_of r =
    match SendLoop.encode_escape pcm enc, SendLoop.packet pcm enc with
    | Some e, _ => Raise e
    | None, Some _ =>
        if SendLoop.connected c then Ret true else Raise WebSocketException
    | None, None => Ret false
    end.
Proof.
  intros Hwf Hq. cbv zeta. rewrite transmit_unfold, Hq by done.
  unfold SendLoop.packet, SendLoop.encode_escape.
  destruct (truthy pcm); [|by destruct (SendLoop.connected c)].
  destruct (Encoder_encode _ _ _) as [[opus|e] enc]; cbv zeta; simpl.
  - destruct (truthy opus), (SendLoop.connected c); done.
  - destruct (is_OpusError e), (SendLoop.connected c); done.
Qed.

End send_calls.

(** ** The steps of the thread *)

Section send_steps.
Context `{OpusLib} `{JsonLib}.
Implicit Types (c : AudioClient.t) (e : exn) (pcm opus : bytes)
  (p : SendLoop.pc) (now l : Q).

Lemma payloads_app tr1 tr2 :
  SendLoop.payloads (tr1 ++ tr2) =
  SendLoop.payloads tr1 ++ SendLoop.payloads tr2.
Proof. apply omap_app. Qed.

Lemma payloads_sent_nil tr : sent tr = [] → SendLoop.payloads tr = [].
Proof. induction tr as [|[] tr IH]; simpl; by auto. Qed.

Lemma period_pos : (0 < SendLoop.period)%Q.
Proof. reflexivity. Qed.

(** Outside the body the thread running alone stays where it is. *)
Lemma send_burst_done n now p c :
  SendLoop.in_body p = false → SendLoop.burst n now p c = (Ret p, c, []).
Proof. intros Hp. destruct n; simpl; by rewrite ?Hp. Qed.

(** The steps of the thread and the iteration as the code writes it
    agree.  A send thread that runs alone from line 179 on, step by step
    (take, encode, send), ends where the body of the loop taken as one
    call ends, with the same client, the same effects in the same order
    and the same exception if one escapes; three steps are enough, and
    more change nothing. *)
Lemma send_burst_iteration n now l c :
  SendLoop.burst (3 + n) now (SendLoop.Awake l) c = SendLoop.iteration l c.
Proof.
  unfold SendLoop.iteration, SendLoop.transmit.
  repeat (simpl;
          unfold SendLoop.guarded, SendLoop.if_frame, try_except, bind;
          rewrite ?send_burst_done by done;
          match goal with
          | |- context [SendLoop.take_frame ?c] =>
              destruct (SendLoop.take_frame c) as [[[[?|]|?] ?] ?]
          | |- context [SendLoop.encode_frame ?b ?c] =>
              destruct (SendLoop.encode_frame b c) as [[[[?|]|?] ?] ?]
          | |- context [SendLoop.send_frame ?b ?c] =>
              destruct (SendLoop.send_frame b c) as [[[[]|?] ?] ?]
          | |- context [truthy ?b] => destruct (truthy b)
          | |- context [is_Exception ?e] => destruct (is_Exception e)
          end);
    simpl; unfold ret; simpl; rewrite ?send_burst_done by done; simpl;
    by rewrite ?app_nil_r, ?app_assoc.
Qed.

(** A step in closed form: by where the thread is, what the queue holds,
    what the encoder answers and whether the socket is connected. *)
Lemma send_step_unfold now p c :
  is_Some (AudioClient.ws c) →
  SendLoop.step now p c =
  match p with
  | SendLoop.Entry => Some (Ret (SendLoop.Test now), c, [])
  | SendLoop.Test l =>
      if AudioClient.is_running c then
        if Qle_bool (SendLoop.sleep_time now l) 0
        then Some (Ret (SendLoop.Awake l), c, [])
        else Some (Ret (SendLoop.Asleep l (now + SendLoop.sleep_time now l)%Q),
                   c, [Slept (SendLoop.sleep_time now l)])
      else Some (Ret SendLoop.Exit, c, [])
  | SendLoop.Asleep l w =>
      if Qle_bool w now then Some (Ret (SendLoop.Awake l), c, []) else None
  | SendLoop.Awake l =>
      match Queue.items (AudioIO.input_queue (AudioClient.audio c)) with
      | [] => Some (Ret (SendLoop.Test l), c, [])
      | pcm :: rest =>
          Some (Ret (if truthy pcm then SendLoop.Taken l pcm else SendLoop.Test l),
                SendLoop.dequeued rest c, [])
      end
  | SendLoop.Taken l pcm =>
      match Encoder_encode pcm CHUNK (OpusCodec.encoder (AudioClient.codec c)) with
      | (Ret opus, enc) =>
          Some (Ret (if truthy opus then SendLoop.Encoded l opus
                     else SendLoop.Test l),
                SendLoop.with_encoder enc c, [])
      | (Raise e, enc) =>
          if is_OpusError e
          then Some (Ret (SendLoop.Test l), SendLoop.with_encoder enc c,
                     [Log ERROR (EncodeFailed e)])
          else if is_Exception e
          then Some (Ret SendLoop.Exit, SendLoop.with_encoder enc c,
                     [Log ERROR (SendFailed e)])
          else Some (Raise e, SendLoop.with_encoder enc c, [])
      end
  | SendLoop.Encoded l opus =>
      if SendLoop.connected c
      then Some (Ret SendLoop.Stamp, c, [Sent (PBytes opus) OPCODE_BINARY])
      else Some (Ret SendLoop.Exit, c,
                 [Log ERROR (SendFailed WebSocketException)])
  | SendLoop.Stamp => Some (Ret (SendLoop.Test now), c, [])
  | SendLoop.Exit => None
  end.
Proof.
  intros Hw. destruct p as [|l|l w|l|l pcm|l opus| |]; try done; simpl;
    unfold SendLoop.guarded, try_except, bind.
  - rewrite take_frame_unfold. by destruct (Queue.items _).
  - rewrite encode_frame_unfold.
    destruct (Encoder_encode _ _ _) as [[opus|e] enc]; [done|].
    destruct (is_OpusError e); [done|]. by destruct (is_Exception e).
  - rewrite send_frame_unfold by done. by destruct (SendLoop.connected c).
Qed.

End send_steps.

(** [send_step_cases Hs] splits a step [Hs : SendLoop.step now p c = Some
    (r, c', tr)] of a client with a [ws] into the cases of its closed
    form. *)
Ltac send_step_cases Hs :=
  rewrite send_step_unfold in Hs by (done || by eauto using AudioClient.wf_ws);
  repeat case_scrut_in Hs; simplify_eq/=.

(** [rewrite_eqs] rewrites the goal with the equations of the context
    whose left-hand side occurs in it, and simplifies. *)
Ltac rewrite_eqs :=
  simpl;
  repeat match goal with
         | E : ?x = _ |- context [?x] => rewrite E; simpl
         end;
  try destruct (SendLoop.connected _).

Section send_step_facts.
Context `{OpusLib} `{JsonLib}.
Implicit Types (c : AudioClient.t) (e : exn) (pcm opus : bytes)
  (p : SendLoop.pc) (now l : Q).

(** A step keeps the client well formed. *)
Lemma send_step_wf now p c r c' tr :
  AudioClient.wf c → SendLoop.step now p c = Some (r, c', tr) →
  AudioClient.wf c'.
Proof.
  intros Hwf Hs. send_step_cases Hs; eauto using dequeued_wf, with_encoder_wf.
Qed.

(** What a thread holds after a step passed the test of its [if]. *)
Lemma send_step_pc_wf now p c p' c' tr :
  AudioClient.wf c → SendLoop.step now p c = Some (Ret p', c', tr) →
  SendLoop.pc_wf p'.
Proof. intros Hwf Hs. send_step_cases Hs; done. Qed.

(** A step leaves the flag and the interval of the pings alone. *)
Lemma send_step_flags now p c r c' tr :
  AudioClient.wf c → SendLoop.step now p c = Some (r, c', tr) →
  AudioClient.is_running c' = AudioClient.is_running c ∧
  AudioClient.ping_interval c' = AudioClient.ping_interval c.
Proof. intros Hwf Hs. send_step_cases Hs; done. Qed.

(** A step takes a block from the queue or leaves the queue as it
    is. *)
Lemma send_step_queued now p c r c' tr :
  AudioClient.wf c → SendLoop.step now p c = Some (r, c', tr) →
  Queue.items (AudioIO.input_queue (AudioClient.audio c'))
    `sublist_of` Queue.items (AudioIO.input_queue (AudioClient.audio c)).
Proof.
  intros Hwf Hs.
  send_step_cases Hs; simpl;
    repeat match goal with E : ?x = _ |- context [?x] => rewrite E end;
    try done; by apply sublist_cons.
Qed.

(** Only the step from [Encoded] sends: the packet that the thread
    holds, when the socket is connected, and it goes to [Stamp] exactly
    when it has sent. *)
Lemma send_step_sent now p c r c' tr :
  AudioClient.wf c → SendLoop.step now p c = Some (r, c', tr) →
  (sent tr = [] ∧ r ≠ Ret SendLoop.Stamp) ∨
  (∃ l opus, p = SendLoop.Encoded l opus ∧ r = Ret SendLoop.Stamp ∧
             sent tr = [(PBytes opus, OPCODE_BINARY)]).
Proof.
  intros Hwf Hs. send_step_cases Hs; try by left. right. by eexists _, _.
Qed.

(** A step of a send thread that runs alone consumes a prefix of the
    packets ahead of it, one packet at most, and puts that prefix on the
    wire when the socket is connected. *)
Lemma send_step_order now p c r c' tr more :
  AudioClient.wf c → SendLoop.pc_wf p →
  SendLoop.step now p c = Some (r, c', tr) →
  let p' := match r with Ret p' => p' | Raise _ => SendLoop.Exit end in
  SendLoop.connected c' = SendLoop.connected c ∧
  ∃ pre, SendLoop.ahead_of p more c = pre ++ SendLoop.ahead_of p' more c' ∧
         SendLoop.payloads tr = if SendLoop.connected c then pre else [].
Proof.
  intros Hwf Hp Hs. cbv zeta.
  unfold SendLoop.ahead_of.
  send_step_cases Hs; (split; [done|]);
    unfold SendLoop.packet, SendLoop.encoder_after;
    first [exists []; by rewrite_eqs | eexists [_]; by rewrite_eqs].
Qed.

End send_step_facts.

(** ** Concrete runs with [toy_opus] and [toy_json] *)

(** A captured block of [CHUNK] samples. *)
Definition frame0 : bytes := replicate 2880 Byte.x07.

(** A client whose socket is connected, running, with [q] in its queue. *)
Definition client_with (k : sock) (q : list bytes) : AudioClient.t :=
  AudioClient.mk (Some (WebSocketApp.mk WS_URL AudioClient.ws_header k true))
    (OpusCodec.mk 0 0)
    (AudioIO.set_input_queue (Queue.mk MAX_QUEUE_SIZE q) audio0) true 0 25.

Lemma client_with_wf k q : length q ≤ 30 → AudioClient.wf (client_with k q).
Proof.
  intros Hq. split; [|by eexists].
  apply audio_wf_set_input_queue; [apply audio0_wf|done|].
  unfold Queue.wf, Queue.qsize, MAX_QUEUE_SIZE. simpl. lia.
Qed.

(** The thread alone and the iteration, on a queue of two blocks. *)
Example burst_run :
  SendLoop.burst 3 0 (SendLoop.Awake 0) (client_with SockConnected [frame0; blk1]) =
  (Ret SendLoop.Stamp,
   AudioClient.set_codec (OpusCodec.mk 1 0) (client_with SockConnected [blk1]),
   [Sent (PBytes (take 720 frame0)) OPCODE_BINARY]).
Proof. vm_compute. reflexivity. Qed.

Example transmit_run :
  SendLoop.transmit (client_with SockConnected [frame0; blk1]) =
  (Ret true,
   AudioClient.set_codec (OpusCodec.mk 1 0) (client_with SockConnected [blk1]),
   [Sent (PBytes (take 720 frame0)) OPCODE_BINARY]).
Proof. vm_compute. reflexivity. Qed.

(** A block of the wrong size: the encoder refuses it, the block is gone,
    nothing is sent. *)
Example transmit_short_run :
  SendLoop.transmit (client_with SockConnected [blk1; frame0]) =
  (Ret false, client_with SockConnected [frame0],
   [Log ERROR (EncodeFailed OpusError)]).
Proof. vm_compute. reflexivity. Qed.

Lemma transmit_spec_witness :
  AudioClient.wf (client_with SockBroken [frame0; blk1]) ∧
  Queue.items (AudioIO.input_queue (AudioClient.audio
    (state_of (SendLoop.transmit (client_with SockBroken [frame0; blk1])))))
    = [blk1] ∧
  result_of (SendLoop.transmit (client_with SockBroken [frame0; blk1]))
    = Raise WebSocketException.
Proof.
  assert (Hwf : AudioClient.wf (client_with SockBroken [frame0; blk1]))
    by (apply client_with_wf; simpl; lia).
  split; [exact Hwf|].
  destruct (transmit_spec frame0 [blk1] _ Hwf eq_refl) as (Hq & _ & Hr).
  exact (conj Hq Hr).
Defined.
