(* ===== verification/Keepalive.v ===== *)
(** * [AudioClient._keepalive] (lines 187-194)

    The keepalive thread, between its suspension points: it tests
    [is_running], sleeps [ping_interval] seconds, sends a ping, and logs a
    warning when the send fails. *)

From S2P Require Import Prelude Python Config Containers Codec AudioIO.
From S2P Require Import Transport Client SendLoop.

Module Keepalive.
Section keepalive.
Context `{OpusLib} `{JsonLib}.

(** Lines 191-194. *)
Definition ping : M AudioClient.t unit :=
  try_except
    (SendLoop.ws_send (PStr "PING") OPCODE_PING)
    is_Exception
    (λ e, logger_warning (PingFailed e)).

(** Where the thread is. *)
Inductive pc : Type :=
| Test                 (* at the test of the loop, line 189 *)
| Asleep (until : Q)   (* in [time.sleep], line 190 *)
| Awake                (* before line 191 *)
| Exit.                (* the function returned *)

(** One step of the thread when the clock reads [now]. *)
Definition step (now : Q) (p : pc) (c : AudioClient.t)
    : option (res pc * AudioClient.t * trace) :=
  match p with
  | Test =>
      if AudioClient.is_running c then
        let d := inject_Z (AudioClient.ping_interval c) in
        Some (Ret (Asleep (now + d)%Q), c, [Slept d])
      else Some (Ret Exit, c, [])
  | Asleep until =>
      if Qle_bool until now then Some (Ret Awake, c, []) else None
  | Awake => Some ((ping ;; ret Test) c)
  | Exit => None
  end.

End keepalive.
Arguments ping : simpl never.
End Keepalive.

(** ** The ping and the steps of the thread *)

Section keepalive_facts.
Context `{OpusLib} `{JsonLib}.
Implicit Types (c : AudioClient.t) (p : Keepalive.pc).

Lemma ping_unfold c :
  is_Some (AudioClient.ws c) →
  Keepalive.ping c =
  if SendLoop.connected c then (Ret tt, c, [Sent (PStr "PING") OPCODE_PING])
  else (Ret tt, c, [Log WARNING (PingFailed WebSocketException)]).
Proof.
  intros Hw. unfold Keepalive.ping, try_except.
  rewrite ws_send_unfold by done. by destruct (SendLoop.connected c).
Qed.

(** A step keeps the client as it is. *)
Lemma ping_step_client now p c r c' tr :
  is_Some (AudioClient.ws c) → Keepalive.step now p c = Some (r, c', tr) →
  c' = c ∧ ∃ p', r = Ret p'.
Proof.
  intros Hw. destruct p as [|w| |]; simpl.
  - destruct (AudioClient.is_running c); intros [= <- <- _]; by eauto.
  - destruct (Qle_bool w now); [|done]. intros [= <- <- _]. by eauto.
  - unfold bind. rewrite ping_unfold by done.
    destruct (SendLoop.connected c); intros [= <- <- _]; by eauto.
  - done.
Qed.

(** A step puts no audio on the wire. *)
Lemma ping_step_payloads now p c r c' tr :
  is_Some (AudioClient.ws c) → Keepalive.step now p c = Some (r, c', tr) →
  SendLoop.payloads tr = [].
Proof.
  intros Hw. destruct p as [|w| |]; simpl.
  - by destruct (AudioClient.is_running c); intros [= _ _ <-].
  - destruct (Qle_bool w now); [|done]. by intros [= _ _ <-].
  - unfold bind. rewrite ping_unfold by done.
    by destruct (SendLoop.connected c); intros [= _ _ <-].
  - done.
Qed.

(** C39: a ping that cannot be sent changes nothing.  The step after the
    sleep sends one ping frame when the socket is connected; when it is
    not, the failure is logged as a warning and that is all: the thread
    is back at the test of its loop, [is_running] and the resources are
    as they were, and the next ping is attempted an interval later. *)
Theorem keepalive_ping_step now c :
  AudioClient.wf c →
  Keepalive.step now Keepalive.Awake c =
  Some (Ret Keepalive.Test, c,
        if SendLoop.connected c then [Sent (PStr "PING") OPCODE_PING]
        else [Log WARNING (PingFailed WebSocketException)]).
Proof.
  intros [_ Hw]. simpl. unfold bind. rewrite ping_unfold by done.
  by destruct (SendLoop.connected c).
Qed.

End keepalive_facts.

(** ** Concrete runs with [toy_opus] and [toy_json] *)

Lemma keepalive_ping_step_witness :
  AudioClient.wf (client_with SockBroken []) ∧
  Keepalive.step 25 Keepalive.Awake (client_with SockBroken []) =
  Some (Ret Keepalive.Test, client_with SockBroken [],
        [Log WARNING (PingFailed WebSocketException)]).
Proof.
  assert (Hwf : AudioClient.wf (client_with SockBroken []))
    by (apply client_with_wf; simpl; lia).
  split; [exact Hwf|]. exact (keepalive_ping_step 25 _ Hwf).
Defined.
