(* ===== verification/Frame.v ===== *)
(** * The receive side and the send side of the client

    The callbacks that the transport runs and the threads that [_on_open]
    starts share one [AudioClient], and use different parts of it.  The
    callbacks read and write the decoder, the playback buffer, the streams
    and [is_running]: the receive side.  The send thread reads
    [is_running] and the socket, and writes the capture queue and the
    encoder; the capture callback writes the queue; the keepalive thread
    writes nothing.  This file states the separation: clients that agree
    on the receive side are taken to such clients by every callback, with
    the same result and the same effects, and no step of a thread changes
    the receive side. *)

From Stdlib Require Import RelationClasses Morphisms.
From S2P Require Import Prelude Python Config Containers Codec AudioIO.
From S2P Require Import Transport Client SendLoop Keepalive.

Section frame_defs.
Context `{OpusLib} `{JsonLib}.

(** What the callbacks read and write. *)
Definition recv (c : AudioClient.t)
    : Decoder * bool * Deque.t byte * Stream.t * Stream.t * bool :=
  (OpusCodec.decoder (AudioClient.codec c),
   AudioIO.pa_terminated (AudioClient.audio c),
   AudioIO.output_buffer (AudioClient.audio c),
   AudioIO.input_stream (AudioClient.audio c),
   AudioIO.output_stream (AudioClient.audio c),
   AudioClient.is_running c).

(** Well-formed clients with the same receive side. *)
Definition recv_equiv (c c' : AudioClient.t) : Prop :=
  AudioClient.wf c ∧ AudioClient.wf c' ∧ recv c = recv c'.

(** Outcomes of a method that agree on what the receive side shows. *)
Definition outcome_equiv {A} (x y : res A * AudioClient.t * trace) : Prop :=
  result_of x = result_of y ∧ trace_of x = trace_of y ∧
  recv_equiv (state_of x) (state_of y).

Definition run_equiv (x y : AudioClient.run_result) : Prop :=
  AudioClient.run_raised x = AudioClient.run_raised y ∧
  AudioClient.run_trace x = AudioClient.run_trace y ∧
  recv_equiv (AudioClient.run_state x) (AudioClient.run_state y).

End frame_defs.

Infix "≈ᵣ" := recv_equiv (at level 70, no associativity).

(** ** The callbacks see the receive side only *)

Section frame_callbacks.
Context `{OpusLib} `{JsonLib}.
Implicit Types (c : AudioClient.t) (ev : ws_event).

#[export] Instance recv_equiv_per : RelationClasses.PER recv_equiv.
Proof.
  split.
  - by intros c c' (? & ? & ?).
  - intros c1 c2 c3 (? & ? & ?) (? & ? & ?). split_and!; [done..|congruence].
Qed.

Lemma recv_equiv_refl c : AudioClient.wf c → c ≈ᵣ c.
Proof. by intros Hwf. Qed.

(** One callback on two clients with the same receive side. *)
Lemma client_dispatch_recv ev c c' :
  AudioClient.wf c → AudioClient.wf c' → recv c = recv c' →
  result_of (AudioClient.dispatch ev c) = result_of (AudioClient.dispatch ev c') ∧
  trace_of (AudioClient.dispatch ev c) = trace_of (AudioClient.dispatch ev c') ∧
  recv (state_of (AudioClient.dispatch ev c)) =
    recv (state_of (AudioClient.dispatch ev c')).
Proof.
  intros Hwf Hwf' Hr.
  destruct (client_wf_opened c Hwf) as [_ Ho].
  destruct (client_wf_opened c' Hwf') as [_ Ho'].
  destruct Hwf as [Ha _], Hwf' as [Ha' _].
  destruct ev as [|[opus|text]|e|code reason];
    unfold AudioClient.dispatch, AudioClient._on_message;
    rewrite ?client_on_open_unfold, ?client_on_error_unfold,
      ?client_handle_control_unfold, ?client_handle_audio_unfold,
      ?client_on_close_unfold by done;
    unfold AudioClient.cleaned; rewrite ?audio_release_unfold by done;
    destruct c as [w [enc dec] [pt q buf si so] run st pi];
    destruct c' as [w' [enc' dec'] [pt' q' buf' si' so'] run' st' pi'];
    unfold recv in *; simpl in *; simplify_eq; try done.
  - destruct (Decoder_decode _ _ _) as [[pcm|e] d]; simpl.
    + destruct (truthy pcm) eqn:Ht; simpl; [|done].
      destruct pcm as [|b pcm]; [done|].
      rewrite !audio_play_output_unfold by done. simpl.
      by destruct so'.
    + by destruct (is_OpusError e).
  - destruct (json_loads text) as [data|e]; simpl.
    + by destruct (AudioClient.is_stop_directive data).
    + by destruct (is_JSONDecodeError e).
Qed.

(** The clean-up on two clients with the same receive side. *)
Lemma client_cleaned_recv c c' :
  AudioClient.wf c → AudioClient.wf c' → recv c = recv c' →
  recv (AudioClient.cleaned c) = recv (AudioClient.cleaned c').
Proof.
  intros [Ha _] [Ha' _] Hr. unfold AudioClient.cleaned.
  rewrite !audio_release_unfold by done.
  destruct c as [w [enc dec] [pt q buf si so] run st pi];
    destruct c' as [w' [enc' dec'] [pt' q' buf' si' so'] run' st' pi'];
    unfold recv in *; simpl in *; by simplify_eq.
Qed.

#[export] Instance client_dispatch_proper ev :
  Proper (recv_equiv ==> outcome_equiv) (AudioClient.dispatch ev).
Proof.
  intros c c' (Hwf & Hwf' & Hr).
  destruct (client_dispatch_recv ev c c' Hwf Hwf' Hr) as (? & ? & ?).
  do 2 (split; [done|]). split_and!; [by apply client_dispatch_state..|done].
Qed.

#[export] Instance client_run_events_proper evs :
  Proper (recv_equiv ==> run_equiv) (AudioClient.run_events evs).
Proof.
  induction evs as [|ev evs IH]; intros c c' Hc.
  { split_and!; try done. }
  destruct (client_dispatch_proper ev c c' Hc) as (Hres & Htr & Hst).
  destruct (IH _ _ Hst) as (Hraised & Htr' & Hst').
  cbn [AudioClient.run_events]. unfold run_equiv. simpl.
  by rewrite Hres, Hraised, Htr, Htr'.
Qed.

End frame_callbacks.

(** ** The threads leave the receive side alone *)

Section frame_threads.
Context `{OpusLib} `{JsonLib}.
Implicit Types (c : AudioClient.t) (now : Q).

Lemma send_step_recv now p c r c' tr :
  AudioClient.wf c → SendLoop.step now p c = Some (r, c', tr) →
  recv c' = recv c.
Proof. intros Hwf Hs. send_step_cases Hs; done. Qed.

Lemma input_callback_recv in_data c r a' :
  AudioIO._input_callback in_data (AudioClient.audio c) = Some (r, a') →
  recv (AudioClient.set_audio a' c) = recv c.
Proof.
  rewrite audio_input_callback_unfold.
  destruct (Queue.full _); [done|]. by intros [= _ <-].
Qed.

End frame_threads.
