(* ===== verification/System.v ===== *)
(** * The program as a system of threads

    The client is shared by four kinds of thread: PortAudio's, which runs
    the capture callback; the transport's, which runs the WebSocket
    callbacks; and the send and keepalive threads that every [_on_open]
    starts (lines 159-165).  A state of the system is the client, the
    clock and the threads started so far, each at its [pc]; an [action] is
    one atomic step of one of them, or time passing; [run] executes a
    schedule of actions and returns the effects with the time and the
    thread of each.  The atomic steps are the calls that the libraries
    make atomic (a queue operation, a call of the codec, a [ws.send], a
    callback): a send thread can be overtaken between taking a block and
    sending its packet.

    This file has the invariant of the system and the pacing of the send
    and keepalive threads; [Threads] and [Order] build on it. *)

From Stdlib Require Import Lqa.
From S2P Require Import Prelude Python Config Containers Codec AudioIO.
From S2P Require Import Transport Client SendLoop Keepalive.

Module System.
Section system.
Context `{OpusLib} `{JsonLib}.

(** A thread started by [_on_open]. *)
Inductive thread : Type :=
| SendT (p : SendLoop.pc)
| PingT (p : Keepalive.pc).

Record t : Type := mk {
  client : AudioClient.t;
  clock : Q;
  threads : list thread;
}.

Inductive action : Type :=
| Tick (dt : Q)                (* the clock advances by [dt] *)
| Capture (in_data : bytes)    (* PortAudio completes a capture callback *)
| Callback (ev : ws_event)     (* the transport runs a callback *)
| Socket (s : sock)            (* the transport's socket changes *)
| Run (i : nat).               (* thread [i] takes a step *)

(** An effect, with the time it happened at and the thread that caused it
    ([None]: PortAudio's or the transport's). *)
Record obs : Type := mk_obs {
  at_time : Q;
  by_thread : option nat;
  what : event;
}.

Definition stamp (now : Q) (i : option nat) (tr : trace) : list obs :=
  mk_obs now i <$> tr.

(** Lines 159-165: the thread that [Thread(target=...).start()] creates. *)
Definition spawn (n : thread_name) : thread :=
  match n with
  | SendThread => SendT SendLoop.Entry
  | KeepaliveThread => PingT Keepalive.Test
  end.

(** PortAudio runs the capture callback while the input stream is
    active: not after [stop_stream]. *)
Definition capture (in_data : bytes) (a : AudioIO.t)
    : option ((bytes * pa_flag) * AudioIO.t) :=
  if bool_decide (AudioIO.input_stream a = Stream.Active)
  then AudioIO._input_callback in_data a
  else None.

(** A thread whose function raises has ended. *)
Definition thread_step (now : Q) (th : thread) (c : AudioClient.t)
    : option (thread * AudioClient.t * trace) :=
  match th with
  | SendT p =>
      '(r, c', tr) ← SendLoop.step now p c;
      Some (SendT (match r with Ret p' => p' | Raise _ => SendLoop.Exit end),
            c', tr)
  | PingT p =>
      '(r, c', tr) ← Keepalive.step now p c;
      Some (PingT (match r with Ret p' => p' | Raise _ => Keepalive.Exit end),
            c', tr)
  end.

(** One action.  [None]: the action cannot happen in this state (the
    clock does not go back, a capture callback on a full queue is not
    complete and there is none on a stream that is stopped, a sleeping
    thread is not due, there is no such thread). *)
Definition step (a : action) (s : t) : option (t * list obs) :=
  match a with
  | Tick dt =>
      if Qle_bool 0 dt
      then Some (mk (client s) (clock s + dt)%Q (threads s), [])
      else None
  | Capture in_data =>
      '(_, a') ← capture in_data (AudioClient.audio (client s));
      Some (mk (AudioClient.set_audio a' (client s)) (clock s) (threads s), [])
  | Callback ev =>
      let r := AudioClient.dispatch ev (client s) in
      Some (mk (state_of r) (clock s)
              (threads s ++ (spawn <$> started (trace_of r))),
            stamp (clock s) None (trace_of r))
  | Socket k =>
      Some (mk (AudioClient.set_ws
                  (WebSocketApp.set_sock k <$> AudioClient.ws (client s))
                  (client s))
              (clock s) (threads s), [])
  | Run i =>
      th ← threads s !! i;
      '(th', c', tr) ← thread_step (clock s) th (client s);
      Some (mk c' (clock s) (<[i := th']> (threads s)),
            stamp (clock s) (Some i) tr)
  end.

(** A schedule.  [None]: an action of the schedule cannot happen where
    the schedule places it. *)
Fixpoint run (acts : list action) (s : t) : option (t * list obs) :=
  match acts with
  | [] => Some (s, [])
  | a :: acts' =>
      '(s1, os1) ← step a s;
      '(s2, os2) ← run acts' s1;
      Some (s2, os1 ++ os2)
  end.

(** A thread that takes [n] steps in a row while the clock reads
    [now]. *)
Fixpoint thread_run (n : nat) (now : Q) (th : thread) (c : AudioClient.t)
    : option (thread * AudioClient.t * trace) :=
  match n with
  | O => Some (th, c, [])
  | S n' =>
      '(th1, c1, tr1) ← thread_step now th c;
      '(th2, c2, tr2) ← thread_run n' now th1 c1;
      Some (th2, c2, tr1 ++ tr2)
  end.

(** The program after [AudioClient()]: no thread yet. *)
Definition init (c : AudioClient.t) : t := mk c 0%Q [].

(** ** Reference definitions *)

(** The times at which thread [i] had a frame accepted by [ws.send]. *)
Definition sends_of (i : nat) (os : list obs) : list Q :=
  omap (λ o, match what o with
             | Sent _ _ => if decide (by_thread o = Some i)
                           then Some (at_time o) else None
             | _ => None
             end) os.

(** The times at which a binary frame was accepted, whoever sent it. *)
Definition binary_sends (os : list obs) : list Q :=
  omap (λ o, match what o with
             | Sent _ OPCODE_BINARY => Some (at_time o)
             | _ => None
             end) os.

(** The send threads that have not ended. *)
Definition live_sender (th : thread) : bool :=
  match th with
  | SendT SendLoop.Exit | PingT _ => false
  | SendT _ => true
  end.

Definition live_senders (s : t) : list thread :=
  omap (λ th, if live_sender th then Some th else None) (threads s).

(** The audio frames on the wire, in the order they were sent. *)
Definition outbox (os : list obs) : list bytes :=
  SendLoop.payloads (what <$> os).

(** The blocks that a schedule captures, in order. *)
Definition captured (acts : list action) : list bytes :=
  omap (λ a, match a with Capture in_data => Some in_data | _ => None end)
    acts.

(** Schedules in which the transport does nothing: no callback runs and
    the socket stays as it is. *)
Definition steady (acts : list action) : bool :=
  forallb (λ a, match a with Callback _ | Socket _ => false | _ => true end)
    acts.

(** Times of which each is [gap] or more after the one before. *)
Fixpoint paced (gap : Q) (ts : list Q) : Prop :=
  match ts with
  | [] => True
  | t :: ts' => Forall (λ t', t + gap <= t')%Q ts' ∧ paced gap ts'
  end.

(** Where a send thread is in time: one that sleeps or has slept is past
    its period. *)
Definition timing (now : Q) (p : SendLoop.pc) : Prop :=
  match p with
  | SendLoop.Test l => (l <= now)%Q
  | SendLoop.Asleep l w => (l <= now ∧ l + SendLoop.period <= w)%Q
  | SendLoop.Awake l | SendLoop.Taken l _ | SendLoop.Encoded l _ =>
      (l + SendLoop.period <= now)%Q
  | _ => True
  end.

(** Well-formed threads. *)
Definition thread_wf (now : Q) (th : thread) : Prop :=
  match th with
  | SendT p => SendLoop.pc_wf p ∧ timing now p
  | PingT _ => True
  end.

(** The earliest time at which a send thread at [p] can send next. *)
Definition next_send (now : Q) (p : SendLoop.pc) : Q :=
  match p with
  | SendLoop.Test l | SendLoop.Asleep l _ | SendLoop.Awake l
  | SendLoop.Taken l _ | SendLoop.Encoded l _ =>
      (l + SendLoop.period)%Q
  | SendLoop.Entry | SendLoop.Stamp | SendLoop.Exit =>
      (now + SendLoop.period)%Q
  end.

(** Where thread [i] is, if it is a send thread that has not ended. *)
Definition sender_pc (i : nat) (s : t) : SendLoop.pc :=
  match threads s !! i with
  | Some (SendT p) => p
  | _ => SendLoop.Exit
  end.

(** The earliest time at which a keepalive thread at [p] that sleeps
    [gap] seconds can send its next ping. *)
Definition next_ping (gap now : Q) (p : Keepalive.pc) : Q :=
  match p with
  | Keepalive.Asleep w => w
  | Keepalive.Awake => now
  | Keepalive.Test | Keepalive.Exit => (now + gap)%Q
  end.

(** Where thread [i] is, if it is a keepalive thread. *)
Definition pinger_pc (i : nat) (s : t) : Keepalive.pc :=
  match threads s !! i with
  | Some (PingT p) => p
  | _ => Keepalive.Exit
  end.

(** Thread [i] is the only send thread that has not ended. *)
Definition sole_sender (i : nat) (s : t) : Prop :=
  ∀ j th, threads s !! j = Some th → live_sender th = true → j = i.

(** Schedules in which no connection is opened, so that no thread is
    started. *)
Definition no_open (acts : list action) : bool :=
  forallb (λ a, match a with Callback OnOpen => false | _ => true end) acts.

Record wf (s : t) : Prop := {
  wf_client : AudioClient.wf (client s);
  wf_threads : Forall (thread_wf (clock s)) (threads s);
}.

End system.
Arguments t {_}.
End System.

(** ** The invariant *)

(** [q_bool] turns the boolean comparisons of rationals of the context
    into propositions for [lra]. *)
Ltac q_bool :=
  repeat match goal with
         | E : Qle_bool _ _ = true |- _ => apply Qle_bool_iff in E
         end.

Section system_invariant.
Context `{OpusLib} `{JsonLib}.
Implicit Types (s : System.t) (c : AudioClient.t) (th : System.thread)
  (a : System.action) (now : Q).

(** A capture that completes is a callback on an active stream. *)
Lemma system_capture_inv in_data (a : AudioIO.t) x :
  System.capture in_data a = Some x →
  AudioIO.input_stream a = Stream.Active ∧
  AudioIO._input_callback in_data a = Some x.
Proof. unfold System.capture. by case_bool_decide. Qed.

Lemma thread_wf_mono now now' th :
  (now <= now')%Q → System.thread_wf now th → System.thread_wf now' th.
Proof.
  pose proof period_pos. intros Hle. destruct th as [p|]; [|done].
  intros [Hp Ht]. split; [done|]. destruct p; simpl in *; lra.
Qed.

Lemma send_thread_step_wf now p c r c' tr :
  AudioClient.wf c → System.thread_wf now (System.SendT p) →
  SendLoop.step now p c = Some (r, c', tr) →
  System.thread_wf now
    (System.SendT (match r with Ret p' => p' | Raise _ => SendLoop.Exit end)).
Proof.
  pose proof period_pos as Hpos. intros Hwf [Hp Ht] Hs. split.
  { destruct r; [by eapply send_step_pc_wf|done]. }
  send_step_cases Hs; q_bool; unfold SendLoop.sleep_time in *; simpl;
    first [lra | split; lra].
Qed.

Lemma thread_step_wf now th c th' c' tr :
  AudioClient.wf c → System.thread_wf now th →
  System.thread_step now th c = Some (th', c', tr) →
  AudioClient.wf c' ∧ System.thread_wf now th'.
Proof.
  intros Hwf Hth. destruct th as [p|p]; simpl.
  - destruct (SendLoop.step now p c) as [[[r c1] tr1]|] eqn:Hs; [|done].
    simpl. intros [= <- <- _]. split.
    + by eapply send_step_wf.
    + by eapply send_thread_step_wf.
  - destruct (Keepalive.step now p c) as [[[r c1] tr1]|] eqn:Hs; [|done].
    simpl. intros [= <- <- _].
    apply ping_step_client in Hs as [-> _]; by destruct Hwf.
Qed.

Lemma system_step_wf a s s' os :
  System.wf s → System.step a s = Some (s', os) → System.wf s'.
Proof.
  intros [Hc Hth]. destruct a as [dt|b|ev|k|i]; simpl.
  - destruct (Qle_bool 0 dt) eqn:Hdt; [|done]. intros [= <- _].
    apply Qle_bool_iff in Hdt. split; [done|]. simpl.
    eapply Forall_impl; [done|]. intros th. apply thread_wf_mono. lra.
  - destruct (System.capture _ _) as [[r a1]|] eqn:Hcb; [|done].
    apply system_capture_inv in Hcb as [_ Hcb].
    simpl. intros [= <- _]. split; [|done]. simpl.
    apply client_wf_set_audio; [done|].
    eapply audio_input_callback_wf; [|done]. by destruct Hc.
  - intros [= <- _]. split; simpl; [by apply client_dispatch_state|].
    apply Forall_app. split; [done|].
    apply Forall_fmap, Forall_true. by intros [].
  - intros [= <- _]. split; [|done]. destruct Hc as [Ha [w Hw]].
    split; [done|]. simpl. rewrite Hw. by eexists.
  - destruct (System.threads s !! i) as [th|] eqn:Hi; [|done]. simpl.
    destruct (System.thread_step _ _ _) as [[[th1 c1] tr1]|] eqn:Hs; [|done].
    simpl. intros [= <- _].
    eapply thread_step_wf in Hs as [Hc1 Hth1]; [|done|].
    + split; [done|]. simpl. by apply Forall_insert.
    + by eapply Forall_lookup_1.
Qed.

Lemma system_step_clock a s s' os :
  System.step a s = Some (s', os) → (System.clock s <= System.clock s')%Q.
Proof.
  destruct a as [dt|b|ev|k|i]; simpl.
  - destruct (Qle_bool 0 dt) eqn:Hdt; [|done]. intros [= <- _].
    apply Qle_bool_iff in Hdt. simpl. lra.
  - destruct (System.capture _ _) as [[r a1]|]; [|done].
    intros [= <- _]. simpl. lra.
  - intros [= <- _]. simpl. lra.
  - intros [= <- _]. simpl. lra.
  - destruct (System.threads s !! i) as [th|]; [|done]. simpl.
    destruct (System.thread_step _ _ _) as [[[th1 c1] tr1]|]; [|done].
    intros [= <- _]. simpl. lra.
Qed.

Lemma system_run_clock acts s s' os :
  System.run acts s = Some (s', os) → (System.clock s <= System.clock s')%Q.
Proof.
  revert s s' os. induction acts as [|a acts IH]; intros s s' os; simpl.
  { intros [= <- _]. lra. }
  destruct (System.step a s) as [[s1 os1]|] eqn:Hs; [|done]. simpl.
  destruct (System.run acts s1) as [[s2 os2]|] eqn:Hr; [|done]. simpl.
  intros [= <- _]. pose proof (system_step_clock _ _ _ _ Hs).
  specialize (IH _ _ _ Hr). lra.
Qed.

(** C35: the invariant of the system.  Along every schedule the client
    stays well formed (bounded queue and buffer, streams closed exactly
    after a release), the clock never goes back, and every send thread
    that is about to take a block is a period or more after its last
    send. *)
Theorem system_run_wf acts s s' os :
  System.wf s → System.run acts s = Some (s', os) →
  System.wf s' ∧ (System.clock s <= System.clock s')%Q.
Proof.
  revert s s' os. induction acts as [|a acts IH]; intros s s' os Hwf; simpl.
  { intros [= <- _]. split; [done|lra]. }
  destruct (System.step a s) as [[s1 os1]|] eqn:Hs; [|done]. simpl.
  destruct (System.run acts s1) as [[s2 os2]|] eqn:Hr; [|done]. simpl.
  intros [= <- _].
  destruct (IH _ _ _ (system_step_wf _ _ _ _ Hwf Hs) Hr) as [Hwf2 Hc2].
  split; [done|]. pose proof (system_step_clock _ _ _ _ Hs). lra.
Qed.

End system_invariant.

(** ** Pacing of a send thread *)

Section system_pacing.
Context `{OpusLib} `{JsonLib}.
Implicit Types (s : System.t) (c : AudioClient.t) (p : SendLoop.pc)
  (a : System.action) (now : Q) (i : nat).

Lemma sends_of_app i os1 os2 :
  System.sends_of i (os1 ++ os2) = System.sends_of i os1 ++ System.sends_of i os2.
Proof. apply omap_app. Qed.

(** The sends of thread [i] among the effects of one step by [j]. *)
Lemma sends_of_stamp i now j tr :
  System.sends_of i (System.stamp now j tr) =
  if decide (j = Some i) then (λ _, now) <$> sent tr else [].
Proof.
  unfold System.sends_of, System.stamp.
  destruct (decide (j = Some i)) as [Hj|Hj].
  - induction tr as [|[] tr IH]; simpl; rewrite ?decide_True by done;
      simpl; by f_equal.
  - induction tr as [|[] tr IH]; simpl; by rewrite ?decide_False by done.
Qed.

Lemma outbox_app os1 os2 :
  System.outbox (os1 ++ os2) = System.outbox os1 ++ System.outbox os2.
Proof. unfold System.outbox. by rewrite fmap_app, payloads_app. Qed.

Lemma outbox_stamp now (j : option nat) tr :
  System.outbox (System.stamp now j tr) = SendLoop.payloads tr.
Proof.
  unfold System.outbox, System.stamp. rewrite <- list_fmap_compose.
  by rewrite list_fmap_id.
Qed.

Lemma next_send_mono now now' p :
  (now <= now')%Q → (System.next_send now p <= System.next_send now' p)%Q.
Proof. intros Hle. destruct p; simpl; lra. Qed.

(** One step of a send thread: it sends nothing and can send no earlier
    than before, or it sends one frame, no earlier than it could, and is
    then a period away from its next. *)
Lemma send_thread_step_paced now p c r c' tr :
  AudioClient.wf c → System.thread_wf now (System.SendT p) →
  SendLoop.step now p c = Some (r, c', tr) →
  let p' := match r with Ret p' => p' | Raise _ => SendLoop.Exit end in
  (sent tr = [] ∧ (System.next_send now p <= System.next_send now p')%Q) ∨
  (∃ d, sent tr = [d] ∧ (System.next_send now p <= now)%Q ∧ p' = SendLoop.Stamp).
Proof.
  pose proof period_pos as Hpos. intros Hwf [_ Ht] Hs. cbv zeta.
  send_step_cases Hs; q_bool; unfold SendLoop.sleep_time in *; simpl in *;
    first [left; split; [done|lra]
          |right; eexists; split_and!; [done|lra|done]].
Qed.

(** What an action does to thread [i]: nothing, or it is its step. *)
Lemma system_step_thread i a s s1 os th :
  System.threads s !! i = Some th → System.step a s = Some (s1, os) →
  (System.threads s1 !! i = Some th ∧ System.sends_of i os = []) ∨
  (∃ th1 tr,
     System.thread_step (System.clock s) th (System.client s)
       = Some (th1, System.client s1, tr) ∧
     System.threads s1 !! i = Some th1 ∧ System.clock s1 = System.clock s ∧
     os = System.stamp (System.clock s) (Some i) tr).
Proof.
  intros Hi. destruct a as [dt|b|ev|k|j]; simpl.
  - destruct (Qle_bool 0 dt); [|done]. intros [= <- <-]. by left.
  - destruct (System.capture _ _) as [[r a1]|]; [|done].
    intros [= <- <-]. by left.
  - intros [= <- <-]. left. split; [by apply lookup_app_l_Some|].
    by rewrite sends_of_stamp.
  - intros [= <- <-]. by left.
  - destruct (System.threads s !! j) as [th'|] eqn:Hj; [|done]. simpl.
    destruct (System.thread_step _ _ _) as [[[th1 c1] tr1]|] eqn:Hs; [|done].
    intros [= <- <-]. simpl. destruct (decide (j = i)) as [->|Hne].
    + right. rewrite Hi in Hj. injection Hj as <-. exists th1, tr1.
      split_and!; try done. apply list_lookup_insert_eq.
      by eapply lookup_lt_Some.
    + left. rewrite list_lookup_insert_ne by done. split; [done|].
      rewrite sends_of_stamp, decide_False; [done|congruence].
Qed.

Lemma system_step_paced i a s s1 os p :
  System.wf s → System.threads s !! i = Some (System.SendT p) →
  System.step a s = Some (s1, os) →
  ∃ p1, System.threads s1 !! i = Some (System.SendT p1) ∧
    ((System.sends_of i os = [] ∧
      (System.next_send (System.clock s) p
         <= System.next_send (System.clock s1) p1)%Q) ∨
     (System.sends_of i os = [System.clock s] ∧
      (System.next_send (System.clock s) p <= System.clock s)%Q ∧
      (System.clock s + SendLoop.period
         <= System.next_send (System.clock s1) p1)%Q)).
Proof.
  intros [Hc Hth] Hi Hs. pose proof (system_step_clock _ _ _ _ Hs) as Hck.
  destruct (system_step_thread _ _ _ _ _ _ Hi Hs)
    as [[Hi1 Hso]|(th1 & tr & Hts & Hi1 & Hck1 & ->)].
  { exists p. split; [done|]. left. split; [done|]. by apply next_send_mono. }
  simpl in Hts.
  destruct (SendLoop.step _ _ _) as [[[r c1] tr1]|] eqn:Hst; [|done].
  injection Hts as <- _ <-. eexists. split; [done|].
  rewrite sends_of_stamp, decide_True, Hck1 by done.
  destruct (send_thread_step_paced _ _ _ _ _ _ Hc
              (Forall_lookup_1 _ _ _ _ Hth Hi) Hst)
    as [[-> Hn]|(d & -> & Hn & ->)]; [by left|right].
  split_and!; [done..|]. simpl. lra.
Qed.

(** Pacing by a potential, for every machine that runs schedules of
    actions one after the other and reports what [System] reports.
    [next s] is the earliest time at which thread [i] can send next; an
    action sends nothing for the thread and does not lower it, or sends
    one frame now, no earlier than [next s], and raises it to [gap] from
    now. *)
Section paced_by.
Context {St Act : Type}.
Variables (step : Act → St → option (St * list System.obs))
  (run : list Act → St → option (St * list System.obs)).
Hypothesis run_nil : ∀ s : St, run [] s = Some (s, []).
Hypothesis run_cons : ∀ (a : Act) (acts : list Act) (s : St),
  run (a :: acts) s =
  '(s1, os1) ← step a s; '(s2, os2) ← run acts s1; Some (s2, os1 ++ os2).
Variables (i : nat) (gap : Q) (clock next : St → Q) (Inv : St → Prop).
Hypothesis gap_nonneg : (0 <= gap)%Q.
Hypothesis step_paced_by : ∀ (a : Act) (s s1 : St) os,
  Inv s → step a s = Some (s1, os) →
  Inv s1 ∧
  ((System.sends_of i os = [] ∧ (next s <= next s1)%Q) ∨
   (System.sends_of i os = [clock s] ∧ (next s <= clock s)%Q ∧
    (clock s + gap <= next s1)%Q)).

Lemma system_run_paced_by (acts : list Act) (s s' : St) os :
  Inv s → run acts s = Some (s', os) →
  System.paced gap (System.sends_of i os) ∧
  Forall (λ t, next s <= t)%Q (System.sends_of i os).
Proof.
  revert s s' os. induction acts as [|a acts IH]; intros s s' os Hinv.
  { rewrite run_nil. intros [= <- <-]. by split. }
  rewrite run_cons.
  destruct (step a s) as [[s1 os1]|] eqn:Hs; [|done]. simpl.
  destruct (run acts s1) as [[s2 os2]|] eqn:Hr; [|done]. simpl.
  intros [= <- <-]. rewrite sends_of_app.
  destruct (step_paced_by _ _ _ _ Hinv Hs) as [Hinv1 Hcase].
  destruct (IH _ _ _ Hinv1 Hr) as [Hp Hall].
  destruct Hcase as [[-> Hn]|(-> & Hn1 & Hn2)]; simpl.
  - split; [done|]. eapply Forall_impl; [done|]. simpl. intros t Ht. lra.
  - split; [split; [|done]|constructor; [done|]];
      (eapply Forall_impl; [done|]); simpl; intros t Ht; lra.
Qed.

End paced_by.

(** The sends of a schedule happen while it runs. *)
Lemma system_step_at a s s1 os :
  System.step a s = Some (s1, os) →
  Forall (λ o, System.at_time o = System.clock s) os.
Proof.
  destruct a as [dt|b|ev|k|j]; simpl.
  - destruct (Qle_bool 0 dt); [|done]. by intros [= _ <-].
  - destruct (System.capture _ _) as [[r a1]|]; [|done].
    by intros [= _ <-].
  - intros [= _ <-]. by apply Forall_fmap, Forall_true.
  - by intros [= _ <-].
  - destruct (System.threads s !! j) as [th|]; [|done]. simpl.
    destruct (System.thread_step _ _ _) as [[[th1 c1] tr1]|]; [|done].
    intros [= _ <-]. by apply Forall_fmap, Forall_true.
Qed.

Lemma sends_of_at i os (P : Q → Prop) :
  Forall (λ o, P (System.at_time o)) os → Forall P (System.sends_of i os).
Proof.
  induction 1 as [|o os Ho _ IH]; [done|]. unfold System.sends_of. simpl.
  destruct (System.what o); try done. case_decide; [|done].
  by constructor.
Qed.

Lemma system_run_window i acts s s' os :
  System.run acts s = Some (s', os) →
  Forall (λ t, System.clock s <= t <= System.clock s')%Q (System.sends_of i os).
Proof.
  revert s s' os. induction acts as [|a acts IH]; intros s s' os.
  { by intros [= <- <-]. }
  simpl. destruct (System.step a s) as [[s1 os1]|] eqn:Hs; [|done]. simpl.
  destruct (System.run acts s1) as [[s2 os2]|] eqn:Hr; [|done]. simpl.
  intros [= <- <-]. rewrite sends_of_app. apply Forall_app.
  pose proof (system_step_clock _ _ _ _ Hs) as Hc1.
  pose proof (system_run_clock _ _ _ _ Hr) as Hc2.
  split.
  - apply sends_of_at. eapply Forall_impl; [by eapply system_step_at|].
    simpl. intros o ->. lra.
  - eapply Forall_impl; [by eapply IH|]. simpl. intros t Ht. lra.
Qed.

(** Paced times in a window: one more than the gaps that fit. *)
Lemma paced_span gap ts lo hi :
  (0 <= gap)%Q → System.paced gap ts → ts ≠ [] →
  Forall (λ t, lo <= t <= hi)%Q ts →
  ((inject_Z (Z.of_nat (length ts)) - 1) * gap <= hi - lo)%Q.
Proof.
  intros Hgap. revert lo. induction ts as [|t ts IH]; intros lo Hp Hne Hall;
    [done|].
  destruct Hp as [Hgaps Hp]. apply Forall_cons in Hall as [Ht Hall].
  destruct ts as [|t' ts].
  { change (inject_Z (Z.of_nat (length [t]))) with 1%Q. lra. }
  assert (Forall (λ x, t + gap <= x <= hi)%Q (t' :: ts)) as Hall'.
  { eapply Forall_impl; [apply Forall_and; split; [exact Hgaps|exact Hall]|].
    simpl. intros x [? ?]. lra. }
  specialize (IH (t + gap)%Q Hp ltac:(done) Hall').
  change (length (t :: t' :: ts)) with (S (length (t' :: ts))).
  rewrite Nat2Z.inj_succ. unfold Z.succ. rewrite inject_Z_plus.
  set (n := inject_Z (Z.of_nat (length (t' :: ts)))) in *.
  change (inject_Z 1) with 1%Q.
  lra.
Qed.

(** The send thread is paced by [next_send]. *)
Lemma system_step_sender_paced i a s s1 os :
  System.wf s ∧ (∃ p, System.threads s !! i = Some (System.SendT p)) →
  System.step a s = Some (s1, os) →
  (System.wf s1 ∧ ∃ p, System.threads s1 !! i = Some (System.SendT p)) ∧
  ((System.sends_of i os = [] ∧
    (System.next_send (System.clock s) (System.sender_pc i s)
       <= System.next_send (System.clock s1) (System.sender_pc i s1))%Q) ∨
   (System.sends_of i os = [System.clock s] ∧
    (System.next_send (System.clock s) (System.sender_pc i s)
       <= System.clock s)%Q ∧
    (System.clock s + SendLoop.period
       <= System.next_send (System.clock s1) (System.sender_pc i s1))%Q)).
Proof.
  intros [Hwf [p Hi]] Hs.
  destruct (system_step_paced _ _ _ _ _ _ Hwf Hi Hs) as (p1 & Hi1 & Hcase).
  split; [split; [by eapply system_step_wf|by eauto]|].
  unfold System.sender_pc. by rewrite Hi, Hi1.
Qed.

(** From a well-formed state, the sends of a send thread along a schedule
    are paced, and none is earlier than the thread could send. *)
Lemma system_run_paced i acts s s' os p :
  System.wf s → System.threads s !! i = Some (System.SendT p) →
  System.run acts s = Some (s', os) →
  System.paced SendLoop.period (System.sends_of i os) ∧
  Forall (λ t, System.next_send (System.clock s) p <= t)%Q
    (System.sends_of i os).
Proof.
  intros Hwf Hi Hr. pose proof period_pos as Hpos.
  replace p with (System.sender_pc i s)
    by (unfold System.sender_pc; by rewrite Hi).
  eapply (system_run_paced_by System.step System.run
            (λ _, eq_refl) (λ _ _ _, eq_refl) i SendLoop.period System.clock
            (λ s, System.next_send (System.clock s) (System.sender_pc i s)));
    [lra|apply system_step_sender_paced| |done].
  simpl. by eauto.
Qed.

(** C4: pacing.  From every well-formed state and along every schedule,
    the times at which one send thread has a frame accepted by [ws.send]
    are [FRAME_MS / 1000] seconds or more apart, whatever the other
    threads do and however the clock advances. *)
Theorem send_thread_paced i acts s s' os p :
  System.wf s → System.threads s !! i = Some (System.SendT p) →
  System.run acts s = Some (s', os) →
  System.paced SendLoop.period (System.sends_of i os).
Proof. intros Hwf Hi Hr. by eapply system_run_paced. Qed.

(** C33: lateness is never made up.  A send thread that has sent a frame
    and has not read the clock yet sends its next frame a period or more
    after the present time, however long ago the frame was sent: the time
    taken by a send, and by the thread waiting for its turn, is added to
    every interval, and the long-run rate stays below one frame a
    period. *)
Theorem send_thread_drift i acts s s' os :
  System.wf s → System.threads s !! i = Some (System.SendT SendLoop.Stamp) →
  System.run acts s = Some (s', os) →
  Forall (λ t, System.clock s + SendLoop.period <= t)%Q (System.sends_of i os).
Proof.
  intros Hwf Hi Hr.
  by destruct (system_run_paced _ _ _ _ _ _ Hwf Hi Hr) as [_ Hall].
Qed.

(** C28: the rate of a send thread.  In every window of a schedule one
    send thread has at most one frame more accepted than periods fit into
    the window: [n] frames take [(n - 1) * FRAME_MS / 1000] seconds or
    more, whatever the other threads do and however many blocks are
    queued. *)
Theorem send_thread_rate i acts s s' os p :
  System.wf s → System.threads s !! i = Some (System.SendT p) →
  System.run acts s = Some (s', os) →
  ((inject_Z (Z.of_nat (length (System.sends_of i os))) - 1) * SendLoop.period
     <= System.clock s' - System.clock s)%Q.
Proof.
  intros Hwf Hi Hr. pose proof period_pos as Hpos.
  pose proof (system_run_clock _ _ _ _ Hr) as Hck.
  destruct (system_run_paced _ _ _ _ _ _ Hwf Hi Hr) as [Hp _].
  pose proof (system_run_window i _ _ _ _ Hr) as Hw.
  destruct (System.sends_of i os) as [|t ts] eqn:Hts.
  { change (inject_Z (Z.of_nat (length (@nil Q)))) with 0%Q. lra. }
  apply paced_span; [lra|done..].
Qed.

End system_pacing.

(** ** Pacing of a keepalive thread *)

Section system_keepalive.
Context `{OpusLib} `{JsonLib}.
Implicit Types (s : System.t) (c : AudioClient.t) (p : Keepalive.pc)
  (a : System.action) (now : Q) (i : nat) (n : Z).

Lemma system_step_ping_interval a s s1 os :
  System.wf s → System.step a s = Some (s1, os) →
  AudioClient.ping_interval (System.client s1) =
  AudioClient.ping_interval (System.client s).
Proof.
  intros [Hc Hth]. destruct a as [dt|b|ev|k|j]; simpl.
  - destruct (Qle_bool 0 dt); [|done]. by intros [= <- _].
  - destruct (System.capture _ _) as [[r a1]|]; [|done].
    by intros [= <- _].
  - intros [= <- _]. by apply client_dispatch_ping_interval.
  - by intros [= <- _].
  - destruct (System.threads s !! j) as [[q|q]|]; [| |done]; simpl.
    + destruct (SendLoop.step _ _ _) as [[[r c1] tr1]|] eqn:Hs; [|done].
      intros [= <- _]. by eapply send_step_flags.
    + destruct (Keepalive.step _ _ _) as [[[r c1] tr1]|] eqn:Hs; [|done].
      intros [= <- _]. by apply ping_step_client in Hs as [-> _]; destruct Hc.
Qed.

(** One step of a keepalive thread: it sends nothing and can ping no
    earlier than before, or it sends its ping, no earlier than it could,
    and is then an interval away from the next. *)
Lemma ping_step_paced now p c r c' tr :
  AudioClient.wf c → (0 ≤ AudioClient.ping_interval c)%Z →
  Keepalive.step now p c = Some (r, c', tr) →
  let gap := inject_Z (AudioClient.ping_interval c) in
  let p' := match r with Ret p' => p' | Raise _ => Keepalive.Exit end in
  (sent tr = [] ∧ (System.next_ping gap now p <= System.next_ping gap now p')%Q) ∨
  (∃ d, sent tr = [d] ∧ (System.next_ping gap now p <= now)%Q ∧
        (now + gap <= System.next_ping gap now p')%Q).
Proof.
  intros [_ Hw] Hn. cbv zeta.
  assert (0 <= inject_Z (AudioClient.ping_interval c))%Q as Hgap.
  { change 0%Q with (inject_Z 0). by rewrite <- Zle_Qle. }
  destruct p as [|w| |]; simpl.
  - destruct (AudioClient.is_running c); intros [= <- _ <-]; left; simpl;
      split; done || lra.
  - destruct (Qle_bool w now) eqn:Hd; [|done]. q_bool.
    intros [= <- _ <-]. left. by split.
  - unfold bind. rewrite ping_unfold by done.
    destruct (SendLoop.connected c); intros [= <- _ <-]; simpl.
    + right. eexists. split_and!; done || lra.
    + left. split; [done|lra].
  - done.
Qed.

(** The keepalive thread is paced by [next_ping]. *)
Lemma system_step_pinger_paced i n a s s1 os :
  (0 ≤ n)%Z →
  let next s := System.next_ping (inject_Z n) (System.clock s)
                  (System.pinger_pc i s) in
  let Inv s := System.wf s ∧ AudioClient.ping_interval (System.client s) = n ∧
               ∃ p, System.threads s !! i = Some (System.PingT p) in
  Inv s → System.step a s = Some (s1, os) →
  Inv s1 ∧
  ((System.sends_of i os = [] ∧ (next s <= next s1)%Q) ∨
   (System.sends_of i os = [System.clock s] ∧ (next s <= System.clock s)%Q ∧
    (System.clock s + inject_Z n <= next s1)%Q)).
Proof.
  intros Hn. cbv zeta. intros (Hwf & Hpi & p & Hi) Hs.
  pose proof (system_step_clock _ _ _ _ Hs) as Hck.
  pose proof (system_step_ping_interval _ _ _ _ Hwf Hs) as Hpi1.
  pose proof (system_step_wf _ _ _ _ Hwf Hs) as Hwf1.
  unfold System.pinger_pc. rewrite Hi.
  destruct (system_step_thread _ _ _ _ _ _ Hi Hs)
    as [[Hi1 Hso]|(th1 & tr & Hts & Hi1 & Hck1 & ->)]; rewrite Hi1.
  { split; [split_and!; by eauto using eq_trans|]. left. split; [done|].
    destruct p; simpl; lra. }
  simpl in Hts.
  destruct (Keepalive.step _ _ _) as [[[r c1] tr1]|] eqn:Hst; [|done].
  injection Hts as <- _ <-.
  split; [split_and!; by eauto using eq_trans|].
  rewrite sends_of_stamp, decide_True, Hck1 by done.
  destruct Hwf as [Hc _].
  destruct (ping_step_paced _ _ _ _ _ _ Hc ltac:(by rewrite Hpi) Hst)
    as [[-> Hnx]|(d & -> & Hn1 & Hn2)]; rewrite Hpi in *; [by left|by right].
Qed.

(** C29: pacing of the pings.  From every well-formed state and along
    every schedule, the times at which one keepalive thread has a ping
    accepted by [ws.send] are [ping_interval] seconds or more apart,
    whatever the other threads do and however the clock advances. *)
Theorem keepalive_paced i acts s s' os p :
  System.wf s → (0 ≤ AudioClient.ping_interval (System.client s))%Z →
  System.threads s !! i = Some (System.PingT p) →
  System.run acts s = Some (s', os) →
  System.paced (inject_Z (AudioClient.ping_interval (System.client s)))
    (System.sends_of i os).
Proof.
  intros Hwf Hn Hi Hr.
  eapply (system_run_paced_by System.step System.run
            (λ _, eq_refl) (λ _ _ _, eq_refl) i _ System.clock _ _
            ltac:(by rewrite <- (Zle_Qle 0))
            (λ _ _ _ _, system_step_pinger_paced i _ _ _ _ _ Hn));
    [|done].
  simpl. by eauto.
Qed.

End system_keepalive.

(** ** Schedules in parts, and a thread that runs alone *)

Section system_runs.
Context `{OpusLib} `{JsonLib}.
Implicit Types (s : System.t) (c : AudioClient.t) (p : SendLoop.pc)
  (a : System.action) (now : Q) (i : nat).

Lemma system_run_app acts1 acts2 s :
  System.run (acts1 ++ acts2) s =
  '(s1, os1) ← System.run acts1 s;
  '(s2, os2) ← System.run acts2 s1;
  Some (s2, os1 ++ os2).
Proof.
  revert s. induction acts1 as [|a acts1 IH]; intros s; simpl.
  { by destruct (System.run acts2 s) as [[s2 os2]|]. }
  destruct (System.step a s) as [[s1 os1]|]; [|done]. simpl. rewrite IH.
  destruct (System.run acts1 s1) as [[s2 os2]|]; [|done]. simpl.
  destruct (System.run acts2 s2) as [[s3 os3]|]; [|done]. simpl.
  by rewrite app_assoc.
Qed.

(** The step of thread [i], from what the thread does. *)
Lemma system_step_run i s th th1 c1 tr :
  System.threads s !! i = Some th →
  System.thread_step (System.clock s) th (System.client s) = Some (th1, c1, tr) →
  System.step (System.Run i) s =
  Some (System.mk c1 (System.clock s) (<[i := th1]> (System.threads s)),
        System.stamp (System.clock s) (Some i) tr).
Proof. intros Hi Hs. simpl. rewrite Hi. simpl. by rewrite Hs. Qed.

Lemma stamp_app now (j : option nat) tr1 tr2 :
  System.stamp now j (tr1 ++ tr2) = System.stamp now j tr1 ++ System.stamp now j tr2.
Proof. apply fmap_app. Qed.

(** Steps of thread [i] in a row, from what the thread does alone. *)
Lemma system_run_alone n i s th :
  System.threads s !! i = Some th →
  System.run (replicate n (System.Run i)) s =
  '(th', c', tr) ← System.thread_run n (System.clock s) th (System.client s);
  Some (System.mk c' (System.clock s) (<[i := th']> (System.threads s)),
        System.stamp (System.clock s) (Some i) tr).
Proof.
  revert s th. induction n as [|n IH]; intros s th Hi.
  { simpl. rewrite list_insert_id by done. by destruct s. }
  cbn [replicate System.run System.thread_run].
  destruct (System.thread_step _ _ _) as [[[th1 c1] tr1]|] eqn:Hs.
  2: { cbn [System.step]. rewrite Hi. cbn [mbind option_bind].
       by rewrite Hs. }
  rewrite (system_step_run i s th th1 c1 tr1 Hi Hs). cbn [mbind option_bind].
  rewrite (IH _ th1) by (apply list_lookup_insert_eq; by eapply lookup_lt_Some).
  cbn [System.client System.clock System.threads].
  destruct (System.thread_run n _ _ _) as [[[th2 c2] tr2]|]; [|done].
  cbn [mbind option_bind]. by rewrite list_insert_insert_eq, stamp_app.
Qed.

(** A thread that has ended stays so, and sends nothing. *)
Lemma system_run_exit i acts s s' os :
  System.threads s !! i = Some (System.SendT SendLoop.Exit) →
  System.run acts s = Some (s', os) →
  System.sends_of i os = [] ∧
  System.threads s' !! i = Some (System.SendT SendLoop.Exit).
Proof.
  revert s s' os. induction acts as [|a acts IH]; intros s s' os Hi.
  { by intros [= <- <-]. }
  simpl. destruct (System.step a s) as [[s1 os1]|] eqn:Hs; [|done]. simpl.
  destruct (System.run acts s1) as [[s2 os2]|] eqn:Hr; [|done]. simpl.
  intros [= <- <-]. rewrite sends_of_app.
  destruct (system_step_thread _ _ _ _ _ _ Hi Hs)
    as [[Hi1 ->]|(th1 & tr & Hts & _)]; [|done].
  by apply (IH _ _ _ Hi1).
Qed.

End system_runs.

(** ** Concrete runs with [toy_opus] and [toy_json] *)

(** A second block of [CHUNK] samples. *)
Definition frame1 : bytes := replicate 2880 Byte.x01.

(** The system at the given time with one send thread and one keepalive
    thread. *)
Definition sys_with (k : sock) (q : list bytes) (now : Q) (p : SendLoop.pc)
    (kp : Keepalive.pc) : System.t :=
  System.mk (client_with k q) now [System.SendT p; System.PingT kp].

Lemma sys_with_wf k q now p kp :
  length q ≤ 30 → System.thread_wf now (System.SendT p) →
  System.wf (sys_with k q now p kp).
Proof.
  intros Hq Hp. split; [apply client_with_wf; simpl; lia|].
  apply Forall_cons_2; [done|]. by apply Forall_cons_2.
Qed.

Lemma sys_with_sole k q now p kp : System.sole_sender 0 (sys_with k q now p kp).
Proof. intros [|[|j]] th Hj Hl; simpl in *; by simplify_eq. Qed.

(** One send thread sends two frames: it sleeps a period, takes a block,
    encodes it, sends the packet, reads the clock a hundredth of a second
    later, sleeps again, and sends the second. *)
Definition sched_paced : list System.action :=
  [System.Run 0; System.Run 0; System.Tick (3 # 50)]
  ++ replicate 4 (System.Run 0)
  ++ [System.Tick (1 # 100); System.Run 0; System.Run 0; System.Tick (3 # 50)]
  ++ replicate 4 (System.Run 0).

Example sched_paced_run :
  ∃ s os,
    System.run sched_paced
      (sys_with SockConnected [frame0; frame0] 0 SendLoop.Entry Keepalive.Test)
      = Some (s, os) ∧
    System.sends_of 0 os = [0 + (3 # 50); 0 + (3 # 50) + (1 # 100) + (3 # 50)]%Q ∧
    Queue.items (AudioIO.input_queue (AudioClient.audio (System.client s))) = [].
Proof. eexists _, _. split; [vm_compute; reflexivity|]. by vm_compute. Qed.

(** The system with one send thread at its entry and two blocks queued. *)
Definition sys_paced : System.t :=
  sys_with SockConnected [frame0; frame0] 0 SendLoop.Entry Keepalive.Test.

Lemma sys_paced_wf : System.wf sys_paced.
Proof. apply sys_with_wf; [simpl; lia|done]. Qed.

Lemma system_run_wf_witness :
  System.wf sys_paced ∧
  ∃ s os, System.run sched_paced sys_paced = Some (s, os) ∧ System.wf s.
Proof.
  split; [exact sys_paced_wf|].
  destruct (System.run sched_paced sys_paced) as [[s os]|] eqn:Hr;
    [|by vm_compute in Hr].
  exists s, os. split; [reflexivity|].
  exact (proj1 (system_run_wf sched_paced _ _ _ sys_paced_wf Hr)).
Defined.

Lemma send_thread_paced_witness :
  System.wf sys_paced ∧
  ∃ s os, System.run sched_paced sys_paced = Some (s, os) ∧
          length (System.sends_of 0 os) = 2 ∧
          System.paced SendLoop.period (System.sends_of 0 os).
Proof.
  split; [exact sys_paced_wf|].
  destruct (System.run sched_paced sys_paced) as [[s os]|] eqn:Hr;
    [|by vm_compute in Hr].
  exists s, os. split; [reflexivity|]. split.
  - pose proof Hr as Hv. vm_compute in Hv. injection Hv as _ <-.
    by vm_compute.
  - exact (send_thread_paced 0 sched_paced _ _ _ SendLoop.Entry sys_paced_wf
             eq_refl Hr).
Defined.

(** A thread that sent at time 1 and reads the clock at time 5 sends next
    at 5 + 3/50. *)
Lemma send_thread_drift_witness :
  ∃ s0, System.wf s0 ∧
    System.threads s0 !! 0 = Some (System.SendT SendLoop.Stamp) ∧
    ∃ s os,
      System.run ([System.Run 0; System.Run 0; System.Tick (3 # 50)]
                  ++ replicate 4 (System.Run 0)) s0 = Some (s, os) ∧
      length (System.sends_of 0 os) = 1 ∧
      Forall (λ t, System.clock s0 + SendLoop.period <= t)%Q
        (System.sends_of 0 os).
Proof.
  assert (Hwf : System.wf (sys_with SockConnected [frame0] 5 SendLoop.Stamp
                             Keepalive.Test)).
  { apply sys_with_wf; [simpl; lia|done]. }
  eexists. split; [exact Hwf|]. split; [reflexivity|].
  destruct (System.run _ _) as [[s os]|] eqn:Hr; [|by vm_compute in Hr].
  exists s, os. split; [reflexivity|]. split.
  - pose proof Hr as Hv. vm_compute in Hv. injection Hv as _ <-.
    by vm_compute.
  - exact (send_thread_drift 0 _ _ _ _ Hwf eq_refl Hr).
Defined.

Lemma send_thread_rate_witness :
  System.wf sys_paced ∧
  ∃ s os, System.run sched_paced sys_paced = Some (s, os) ∧
          length (System.sends_of 0 os) = 2 ∧
          ((inject_Z (Z.of_nat (length (System.sends_of 0 os))) - 1)
             * SendLoop.period
           <= System.clock s - System.clock sys_paced)%Q.
Proof.
  split; [exact sys_paced_wf|].
  destruct (System.run sched_paced sys_paced) as [[s os]|] eqn:Hr;
    [|by vm_compute in Hr].
  exists s, os. split; [reflexivity|]. split.
  - pose proof Hr as Hv. vm_compute in Hv. injection Hv as _ <-.
    by vm_compute.
  - exact (send_thread_rate 0 sched_paced _ _ _ SendLoop.Entry sys_paced_wf
             eq_refl Hr).
Defined.

(** The keepalive thread sleeps its interval, pings, and pings again
    twenty-six seconds later. *)
Definition sched_pings : list System.action :=
  [System.Run 1; System.Tick 25; System.Run 1; System.Run 1;
   System.Run 1; System.Tick 26; System.Run 1; System.Run 1].

Lemma keepalive_paced_witness :
  System.wf sys_paced ∧
  (0 ≤ AudioClient.ping_interval (System.client sys_paced))%Z ∧
  ∃ s os, System.run sched_pings sys_paced = Some (s, os) ∧
          length (System.sends_of 1 os) = 2 ∧
          System.paced
            (inject_Z (AudioClient.ping_interval (System.client sys_paced)))
            (System.sends_of 1 os).
Proof.
  split; [exact sys_paced_wf|]. split; [by vm_compute|].
  destruct (System.run sched_pings sys_paced) as [[s os]|] eqn:Hr;
    [|by vm_compute in Hr].
  exists s, os. split; [reflexivity|]. split.
  - pose proof Hr as Hv. vm_compute in Hv. injection Hv as _ <-.
    by vm_compute.
  - exact (keepalive_paced 1 sched_pings _ _ _ Keepalive.Test sys_paced_wf
             ltac:(by vm_compute) eq_refl Hr).
Defined.
