(* ===== verification/Threads.v ===== *)
(** * The send and keepalive threads at work

    What a thread of [System] does when it is given its steps: the send
    thread spins while there is nothing to send, sends the oldest block
    when there is one, and leaves its loop at the first frame that the
    socket refuses; a keepalive thread that sleeps through a close pings
    the closed socket once more; the loops end once [is_running] is
    cleared; and while no send thread is alive the capture queue fills
    until the capture callback no longer returns. *)

From Stdlib Require Import Lqa.
From S2P Require Import Prelude Python Config Containers Codec AudioIO.
From S2P Require Import Transport Client SendLoop Keepalive Frame System.

(** ** Reference definitions *)

(** The steps that a send thread can still take once [is_running] is
    cleared, and those of a keepalive thread. *)
Definition sender_rank (p : SendLoop.pc) : nat :=
  match p with
  | SendLoop.Exit => 0
  | SendLoop.Test _ => 1
  | SendLoop.Entry | SendLoop.Stamp => 2
  | SendLoop.Encoded _ _ => 3
  | SendLoop.Taken _ _ => 4
  | SendLoop.Awake _ => 5
  | SendLoop.Asleep _ _ => 6
  end.

Definition pinger_rank (p : Keepalive.pc) : nat :=
  match p with
  | Keepalive.Exit => 0
  | Keepalive.Test => 1
  | Keepalive.Awake => 2
  | Keepalive.Asleep _ => 3
  end.

Definition thread_rank (th : System.thread) : nat :=
  match th with
  | System.SendT p => sender_rank p
  | System.PingT p => pinger_rank p
  end.

(** The frames that it can still send: the one that it is about to
    take, holds, or will ping after its sleep. *)
Definition thread_sends (th : System.thread) : nat :=
  match th with
  | System.SendT (SendLoop.Asleep _ _ | SendLoop.Awake _
                 | SendLoop.Taken _ _ | SendLoop.Encoded _ _)
  | System.PingT (Keepalive.Asleep _ | Keepalive.Awake) => 1
  | _ => 0
  end.

(** The steps that a schedule gives to thread [i]. *)
Definition is_run (i : nat) (a : System.action) : bool :=
  match a with System.Run j => bool_decide (j = i) | _ => false end.

Fixpoint runs_of (i : nat) (acts : list System.action) : nat :=
  match acts with
  | [] => 0
  | a :: acts' => (if is_run i a then 1 else 0) + runs_of i acts'
  end.

(** No send thread is alive: none was started yet, or those that were
    started have ended. *)
Definition no_sender `{OpusLib} `{JsonLib} (s : System.t) : Prop :=
  Forall (λ th, System.live_sender th = false) (System.threads s).

(** The blocks of the capture queue. *)
Definition queued `{OpusLib} `{JsonLib} (s : System.t) : list bytes :=
  Queue.items (AudioIO.input_queue (AudioClient.audio (System.client s))).

(** ** Where the loop has no suspension point, and how it ends *)

Section system_send.
Context `{OpusLib} `{JsonLib}.
Implicit Types (s : System.t) (c : AudioClient.t) (p : SendLoop.pc)
  (a : System.action) (now : Q) (i : nat).

(** The ping on a client that [_cleanup] has left. *)
Lemma keepalive_ping_cleaned now c ws :
  AudioClient.ws c = Some ws →
  Keepalive.step now Keepalive.Awake
    (AudioClient.cleaned (AudioClient.set_is_running false c)) =
  Some (Ret Keepalive.Test,
        AudioClient.cleaned (AudioClient.set_is_running false c),
        [Log WARNING (PingFailed WebSocketException)]).
Proof.
  intros Hws. simpl. unfold bind. rewrite ping_unfold.
  2: { unfold AudioClient.cleaned. simpl. rewrite Hws. by eexists. }
  unfold SendLoop.connected, AudioClient.cleaned. simpl. by rewrite Hws.
Qed.

(** Two steps of a send thread at its test, with nothing to send and the
    period elapsed: the thread and the client are where they were. *)
Lemma send_thread_round now l c :
  AudioClient.wf c → AudioClient.is_running c = true →
  Queue.items (AudioIO.input_queue (AudioClient.audio c)) = [] →
  (l + SendLoop.period <= now)%Q →
  System.thread_run 2 now (System.SendT (SendLoop.Test l)) c =
  Some (System.SendT (SendLoop.Test l), c, []).
Proof.
  intros [_ Hw] Hrun Hq Hl.
  assert (Qle_bool (SendLoop.sleep_time now l) 0 = true) as Hd.
  { apply Qle_bool_iff. unfold SendLoop.sleep_time. lra. }
  cbn [System.thread_run System.thread_step].
  rewrite send_step_unfold, Hrun, Hd by done.
  cbn [System.thread_step mbind option_bind].
  by rewrite send_step_unfold, Hq by done.
Qed.

(** A send thread that is awake, with a block that it can send: four
    steps take the block, encode it, send the packet and stamp the
    time. *)
Lemma send_thread_sends now l pcm rest opus c :
  AudioClient.wf c →
  Queue.items (AudioIO.input_queue (AudioClient.audio c)) = pcm :: rest →
  SendLoop.packet pcm (OpusCodec.encoder (AudioClient.codec c)) = Some opus →
  SendLoop.connected c = true →
  System.thread_run 4 now (System.SendT (SendLoop.Awake l)) c =
  Some (System.SendT (SendLoop.Test now),
        SendLoop.taken rest
          (Encoder_encode pcm CHUNK (OpusCodec.encoder (AudioClient.codec c))).2 c,
        [Sent (PBytes opus) OPCODE_BINARY]).
Proof.
  intros Hwf Hq Hp Hk. pose proof (dequeued_wf _ _ _ Hwf Hq) as Hwf1.
  unfold SendLoop.packet in Hp. destruct (truthy pcm) eqn:Ht; [|done].
  cbn [System.thread_run System.thread_step].
  rewrite send_step_unfold, Hq, Ht by by destruct Hwf.
  cbn [System.thread_step mbind option_bind].
  rewrite send_step_unfold by by destruct Hwf1.
  change (OpusCodec.encoder (AudioClient.codec (SendLoop.dequeued rest c)))
    with (OpusCodec.encoder (AudioClient.codec c)).
  destruct (Encoder_encode _ _ _) as [[opus'|e] enc]; [|done]. simpl in Hp.
  destruct (truthy opus'); [|done]. injection Hp as ->.
  cbn [System.thread_step mbind option_bind].
  rewrite send_step_unfold by by destruct Hwf1.
  change (SendLoop.connected (SendLoop.with_encoder _ _))
    with (SendLoop.connected c).
  rewrite Hk. cbn [System.thread_step mbind option_bind].
  by rewrite send_step_unfold by by destruct Hwf1.
Qed.

(** A send thread at its test while [is_running]: it goes on at once when
    the period has elapsed, and otherwise after the sleep it asks for. *)
Lemma send_thread_wakes i s l :
  System.threads s !! i = Some (System.SendT (SendLoop.Test l)) →
  AudioClient.is_running (System.client s) = true →
  let d := SendLoop.sleep_time (System.clock s) l in
  System.run
    (System.Run i :: if Qle_bool d 0 then [] else [System.Tick d; System.Run i])
    s =
  Some (System.mk (System.client s)
          (if Qle_bool d 0 then System.clock s else (System.clock s + d)%Q)
          (<[i := System.SendT (SendLoop.Awake l)]> (System.threads s)),
        if Qle_bool d 0 then []
        else [System.mk_obs (System.clock s) (Some i) (Slept d)]).
Proof.
  intros Hi Hrun d.
  destruct (Qle_bool d 0) eqn:Hd; cbn [System.run];
    (erewrite (system_step_run i s _ _ _ _ Hi);
     [|cbn [System.thread_step SendLoop.step]; fold d;
       rewrite Hrun, Hd; reflexivity]); [done|]. cbn.
  assert (Qle_bool 0 d = true) as ->.
  { apply Qle_bool_iff. destruct (Qlt_le_dec 0 d) as [?|Hle]; [lra|].
    apply Qle_bool_iff in Hle. congruence. }
  cbn. rewrite list_lookup_insert_eq by by eapply lookup_lt_Some. cbn.
  assert (Qle_bool (System.clock s + d) (System.clock s + d) = true) as ->
    by (apply Qle_bool_iff; lra).
  cbn. by rewrite list_insert_insert_eq.
Qed.

(** C32: the loop has an iteration without a suspension point.  When the
    period has elapsed since the last send and the queue is empty, an
    iteration neither sleeps nor sends and leaves everything as it was:
    the thread can repeat it any number of times while the clock stands
    still, until a block is captured or [is_running] is cleared. *)
Theorem send_thread_spins i n s l :
  System.wf s → System.threads s !! i = Some (System.SendT (SendLoop.Test l)) →
  AudioClient.is_running (System.client s) = true →
  Queue.items (AudioIO.input_queue (AudioClient.audio (System.client s))) = [] →
  (l + SendLoop.period <= System.clock s)%Q →
  System.run (mjoin (replicate n [System.Run i; System.Run i])) s = Some (s, []).
Proof.
  intros Hwf Hi Hrun Hq Hl. induction n as [|n IH]; [done|].
  change (mjoin (replicate (S n) [System.Run i; System.Run i]))
    with ([System.Run i; System.Run i]
          ++ mjoin (replicate n [System.Run i; System.Run i])).
  change [System.Run i; System.Run i] with (replicate 2 (System.Run i)).
  rewrite system_run_app, (system_run_alone 2 i s _ Hi).
  rewrite (send_thread_round _ l) by (done || by destruct Hwf).
  cbn [mbind option_bind]. rewrite list_insert_id by done.
  replace (System.mk _ _ _) with s by by destruct s.
  change (replicate 2 (System.Run i)) with [System.Run i; System.Run i].
  by rewrite IH.
Qed.

(** C22: a queued block is sent as soon as the period has elapsed.  A send
    thread at the test of its loop, on a connected socket and with a
    block in the queue that yields a packet, sends that packet when it is
    given its steps: at once when a period has passed since its last
    send, and otherwise after the sleep that completes the period.  The
    block has left the queue and the thread is back at its test with the
    time of the send as its stamp. *)
Theorem send_thread_progress i s l pcm rest opus :
  System.wf s →
  System.threads s !! i = Some (System.SendT (SendLoop.Test l)) →
  AudioClient.is_running (System.client s) = true →
  SendLoop.connected (System.client s) = true →
  Queue.items (AudioIO.input_queue (AudioClient.audio (System.client s)))
    = pcm :: rest →
  SendLoop.packet pcm (OpusCodec.encoder (AudioClient.codec (System.client s)))
    = Some opus →
  let d := SendLoop.sleep_time (System.clock s) l in
  let t := if Qle_bool d 0 then System.clock s else (System.clock s + d)%Q in
  ∃ s' os,
    System.run
      ((System.Run i :: if Qle_bool d 0 then [] else [System.Tick d; System.Run i])
       ++ replicate 4 (System.Run i)) s = Some (s', os) ∧
    System.outbox os = [opus] ∧
    System.sends_of i os = [t] ∧
    Queue.items (AudioIO.input_queue (AudioClient.audio (System.client s')))
      = rest ∧
    System.threads s' !! i = Some (System.SendT (SendLoop.Test t)).
Proof.
  intros [Hc _] Hi Hrun Hk Hq Hp. cbv zeta.
  assert (i < length (System.threads s)) as Hlt by by eapply lookup_lt_Some.
  pose proof (send_thread_wakes i s l Hi Hrun) as Hw. cbv zeta in Hw.
  rewrite system_run_app, Hw. cbn [mbind option_bind].
  set (d := SendLoop.sleep_time (System.clock s) l).
  erewrite system_run_alone by by apply list_lookup_insert_eq.
  cbn [System.client System.clock System.threads].
  rewrite (send_thread_sends _ l pcm rest opus) by done.
  cbn [mbind option_bind]. eexists _, _. split; [reflexivity|].
  rewrite outbox_app, sends_of_app, outbox_stamp, sends_of_stamp, decide_True
    by done.
  cbn [System.client System.clock System.threads].
  split_and!; [| |done|by rewrite list_insert_insert_eq, list_lookup_insert_eq].
  - by destruct (Qle_bool d 0).
  - by destruct (Qle_bool d 0).
Qed.

(** C11: a packet that cannot be sent ends the send thread.  When the
    socket is not connected at the time a send thread calls [ws.send],
    the thread logs the failure and leaves its loop; the client is as it
    was, [is_running] included, and the packet is lost.  From then on
    the thread sends nothing, whatever happens (a reconnection
    included). *)
Theorem send_thread_breaks i s l opus :
  System.wf s →
  System.threads s !! i = Some (System.SendT (SendLoop.Encoded l opus)) →
  SendLoop.connected (System.client s) = false →
  ∃ s1, System.step (System.Run i) s =
          Some (s1, [System.mk_obs (System.clock s) (Some i)
                       (Log ERROR (SendFailed WebSocketException))]) ∧
        System.client s1 = System.client s ∧
        ∀ acts s' os, System.run acts s1 = Some (s', os) →
          System.sends_of i os = [] ∧
          System.threads s' !! i = Some (System.SendT SendLoop.Exit).
Proof.
  intros [[_ Hw] _] Hi Hconn.
  exists (System.mk (System.client s) (System.clock s)
            (<[i := System.SendT SendLoop.Exit]> (System.threads s))).
  split_and!; [|done|].
  - apply (system_step_run i s _ _ _
             [Log ERROR (SendFailed WebSocketException)] Hi).
    cbn [System.thread_step].
    by rewrite send_step_unfold, Hconn by done.
  - intros acts s' os. apply system_run_exit. simpl.
    apply list_lookup_insert_eq. by eapply lookup_lt_Some.
Qed.

(** C38: a ping after the close.  A keepalive thread that is asleep when
    the connection is closed is not woken: when its sleep is over it
    tries one more ping, on the socket that [_cleanup] closed, logs the
    failure as a warning, and only then finds [is_running] cleared and
    ends. *)
Theorem keepalive_pings_after_close i s w code reason :
  System.wf s →
  System.threads s !! i = Some (System.PingT (Keepalive.Asleep w)) →
  (w <= System.clock s)%Q →
  ∃ s' os,
    System.run [System.Callback (OnClose code reason);
                System.Run i; System.Run i; System.Run i] s = Some (s', os) ∧
    System.what <$> os =
      [Log INFO (ConnClosed code reason); Log INFO AudioReleased;
       Log INFO ResourcesReleased;
       Log WARNING (PingFailed WebSocketException)] ∧
    System.threads s' !! i = Some (System.PingT Keepalive.Exit).
Proof.
  intros [[Ha [ws Hws]] _] Hi Hw. apply Qle_bool_iff in Hw.
  assert (i < length (System.threads s)) as Hlt by by eapply lookup_lt_Some.
  cbn [System.run System.step]. unfold AudioClient.dispatch.
  rewrite client_on_close_unfold by done. cbn [mbind option_bind].
  cbn [state_of trace_of fst snd started omap list_omap fmap list_fmap].
  rewrite app_nil_r.
  cbn [System.threads System.clock System.client]. rewrite Hi.
  cbn [mbind option_bind System.thread_step Keepalive.step]. rewrite Hw.
  cbn [mbind option_bind System.threads System.clock System.client].
  rewrite list_lookup_insert_eq by done.
  cbn [mbind option_bind System.thread_step].
  rewrite (keepalive_ping_cleaned _ _ ws) by done.
  cbn [mbind option_bind System.threads System.clock System.client].
  rewrite list_lookup_insert_eq by by rewrite length_insert.
  cbn [mbind option_bind System.thread_step Keepalive.step].
  simpl AudioClient.is_running. cbn [mbind option_bind].
  eexists _, _. split; [done|]. split; [done|]. simpl.
  apply list_lookup_insert_eq. by rewrite !length_insert.
Qed.

End system_send.

(** ** The threads end when [is_running] is cleared *)

Section system_stop.
Context `{OpusLib} `{JsonLib}.
Implicit Types (s : System.t) (c : AudioClient.t) (th : System.thread)
  (a : System.action) (now : Q) (i : nat).

(** A step of a thread on a client that is not running brings the
    thread nearer to its end, and sends at most the frame that the
    thread was about to send. *)
Lemma thread_step_stops now th c th' c' tr :
  AudioClient.wf c → AudioClient.is_running c = false →
  System.thread_step now th c = Some (th', c', tr) →
  AudioClient.is_running c' = false ∧
  thread_rank th' < thread_rank th ∧
  length (sent tr) + thread_sends th' ≤ thread_sends th.
Proof.
  intros Hwf Hrun. destruct th as [p|p]; simpl.
  - destruct (SendLoop.step now p c) as [[[r c1] tr1]|] eqn:Hs; [|done].
    simpl. intros [= <- <- <-].
    destruct (send_step_flags _ _ _ _ _ _ Hwf Hs) as [-> _].
    split; [done|].
    send_step_cases Hs; simpl; repeat case_match; simpl; lia.
  - destruct (Keepalive.step now p c) as [[[r c1] tr1]|] eqn:Hs; [|done].
    simpl. intros [= <- <- <-].
    destruct (ping_step_client _ _ _ _ _ _ (AudioClient.wf_ws _ Hwf) Hs)
      as [-> [p' ->]].
    split; [done|]. destruct p as [|w| |]; simpl in Hs.
    + rewrite Hrun in Hs. injection Hs as <- <-. simpl. lia.
    + destruct (Qle_bool w now); [|done]. injection Hs as <- <-. simpl. lia.
    + unfold bind in Hs. rewrite ping_unfold in Hs by by destruct Hwf.
      destruct (SendLoop.connected c); injection Hs as <- <-; simpl; lia.
    + done.
Qed.

(** An action that is not an open, on a system that is not running. *)
Lemma system_step_stops i a s s1 os th :
  System.wf s → AudioClient.is_running (System.client s) = false →
  System.no_open [a] = true →
  System.threads s !! i = Some th → System.step a s = Some (s1, os) →
  AudioClient.is_running (System.client s1) = false ∧
  ∃ th1, System.threads s1 !! i = Some th1 ∧
    (if is_run i a then 1 else 0) + thread_rank th1 ≤ thread_rank th ∧
    length (System.sends_of i os) + thread_sends th1 ≤ thread_sends th.
Proof.
  intros [Hc Hth] Hrun Hno Hi. destruct a as [dt|b|ev|k|j]; simpl.
  - destruct (Qle_bool 0 dt); [|done]. intros [= <- <-]. by eauto with lia.
  - destruct (System.capture _ _) as [[r a1]|]; [|done].
    intros [= <- <-]. by eauto with lia.
  - intros [= <- <-]. simpl. split.
    { rewrite client_dispatch_running, Hrun by done. by destruct ev. }
    exists th. rewrite sends_of_stamp. split; [by apply lookup_app_l_Some|].
    simpl. lia.
  - intros [= <- <-]. by eauto with lia.
  - destruct (System.threads s !! j) as [thj|] eqn:Hj; [|done]. simpl.
    destruct (System.thread_step _ _ _) as [[[th1 c1] tr1]|] eqn:Hs; [|done].
    intros [= <- <-]. simpl.
    destruct (thread_step_stops _ _ _ _ _ _ Hc Hrun Hs) as (Hr1 & Hrk & Hsn).
    split; [done|]. rewrite sends_of_stamp.
    case_bool_decide as Hji; [subst j|].
    + rewrite Hi in Hj. injection Hj as <-. exists th1.
      rewrite list_lookup_insert_eq by by eapply lookup_lt_Some.
      rewrite decide_True, length_fmap by done. split; [done|lia].
    + exists th. rewrite list_lookup_insert_ne, decide_False by congruence.
      split; [done|]. simpl. lia.
Qed.

Lemma system_run_stops i acts s s' os th :
  System.wf s → AudioClient.is_running (System.client s) = false →
  System.no_open acts = true →
  System.threads s !! i = Some th → System.run acts s = Some (s', os) →
  ∃ th', System.threads s' !! i = Some th' ∧
    runs_of i acts + thread_rank th' ≤ thread_rank th ∧
    length (System.sends_of i os) + thread_sends th' ≤ thread_sends th.
Proof.
  revert s s' os th. induction acts as [|a acts IH]; intros s s' os th Hwf Hrun.
  { intros _ Hi [= <- <-]. exists th. simpl. split; [done|lia]. }
  intros [Hno1 Hno]%andb_prop Hi. simpl.
  destruct (System.step a s) as [[s1 os1]|] eqn:Hs; [|done]. simpl.
  destruct (System.run acts s1) as [[s2 os2]|] eqn:Hr; [|done]. simpl.
  intros [= <- <-].
  destruct (system_step_stops i a s s1 os1 th Hwf Hrun) as (Hrun1 & th1 & Hi1 & ? & ?);
    [by simpl; rewrite Hno1|done..|].
  destruct (IH _ _ _ _ (system_step_wf _ _ _ _ Hwf Hs) Hrun1 Hno Hi1 Hr)
    as (th' & Hi' & ? & ?).
  exists th'. rewrite sends_of_app, length_app. split; [done|lia].
Qed.

(** C18: the threads end when [is_running] is cleared.  Once an error or
    a close has cleared [is_running] and as long as no connection is
    opened, a send thread takes at most six more steps and a keepalive
    thread at most three, whatever the schedule: the loops end.  Before
    it ends a thread can still send one frame: the block that the send
    thread was about to take, or the ping due after the sleep. *)
Theorem threads_stop i acts s s' os th :
  System.wf s → AudioClient.is_running (System.client s) = false →
  System.no_open acts = true →
  System.threads s !! i = Some th → System.run acts s = Some (s', os) →
  runs_of i acts ≤ thread_rank th ∧ thread_rank th ≤ 6 ∧
  length (System.sends_of i os) ≤ 1.
Proof.
  intros Hwf Hrun Hno Hi Hr.
  destruct (system_run_stops _ _ _ _ _ _ Hwf Hrun Hno Hi Hr)
    as (th' & _ & Hrk & Hsn).
  split; [lia|]. split; [by destruct th as [[]|[]]; simpl; lia|].
  assert (thread_sends th ≤ 1) by (by destruct th as [[]|[]]; simpl; lia).
  lia.
Qed.

End system_stop.

(** ** The capture queue when no send thread is alive *)

Section system_stall.
Context `{OpusLib} `{JsonLib}.
Implicit Types (s : System.t) (a : System.action)
  (acts : list System.action).

(** No action but a capture adds a block to the queue. *)
Lemma system_step_queued a s s1 os :
  System.wf s → System.captured [a] = [] →
  System.step a s = Some (s1, os) → queued s1 `sublist_of` queued s.
Proof.
  intros [Hc Hth] Hcap. unfold queued. destruct a as [dt|b|ev|k|j]; simpl.
  - destruct (Qle_bool 0 dt); [|done]. by intros [= <- _].
  - done.
  - intros [= <- _]. simpl.
    by destruct (client_dispatch_send_side ev _ Hc) as (-> & _).
  - by intros [= <- _].
  - destruct (System.threads s !! j) as [[p|p]|]; [| |done]; simpl.
    + destruct (SendLoop.step _ _ _) as [[[r c1] tr1]|] eqn:Hs; [|done].
      intros [= <- _]. simpl. by eapply send_step_queued.
    + destruct (Keepalive.step _ _ _) as [[[r c1] tr1]|] eqn:Hs; [|done].
      intros [= <- _]. simpl.
      by apply ping_step_client in Hs as [-> _]; [|destruct Hc].
Qed.

(** An action that is not an open, while no send thread is alive: the
    queue changes only by a capture, no thread comes to life, and no
    audio is sent. *)
Lemma system_step_stalls a s s1 os :
  System.wf s → no_sender s → System.no_open [a] = true →
  System.step a s = Some (s1, os) →
  queued s1 = queued s ++ System.captured [a] ∧ no_sender s1 ∧
  System.outbox os = [].
Proof.
  intros [Hc Hth] Hidle Hno. unfold queued, no_sender in *.
  destruct a as [dt|b|ev|k|j]; simpl.
  - destruct (Qle_bool 0 dt); [|done]. intros [= <- <-].
    by rewrite app_nil_r.
  - unfold System.capture. case_bool_decide; [|done].
    rewrite audio_input_callback_unfold.
    destruct (Queue.full _); [done|]. by intros [= <- <-].
  - intros [= <- <-].
    destruct (client_dispatch_send_side ev _ Hc) as (Hq & _ & Hs).
    destruct (client_dispatch_trace ev _ Hc) as (_ & Hst & _).
    assert (started (trace_of (AudioClient.dispatch ev (System.client s))) = [])
      as -> by (rewrite Hst; by destruct ev).
    simpl. rewrite Hq, !app_nil_r, outbox_stamp.
    by rewrite payloads_sent_nil.
  - intros [= <- <-]. by rewrite app_nil_r.
  - destruct (System.threads s !! j) as [th|] eqn:Hj; [|done]. simpl.
    pose proof (Forall_lookup_1 _ _ _ _ Hidle Hj) as Hl.
    destruct th as [p|p]; [by destruct p|]. simpl.
    destruct (Keepalive.step _ _ _) as [[[r c1] tr1]|] eqn:Hs; [|done].
    intros [= <- <-]. simpl.
    pose proof (ping_step_payloads _ _ _ _ _ _ (AudioClient.wf_ws _ Hc) Hs).
    apply ping_step_client in Hs as [-> _]; [|by destruct Hc].
    rewrite app_nil_r, outbox_stamp.
    split_and!; [done|by apply Forall_insert|done].
Qed.

Lemma system_run_stalls acts s s' os :
  System.wf s → no_sender s → System.no_open acts = true →
  System.run acts s = Some (s', os) →
  queued s' = queued s ++ System.captured acts ∧ System.wf s' ∧
  System.outbox os = [].
Proof.
  revert s s' os. induction acts as [|a acts IH]; intros s s' os Hwf Hidle.
  { intros _ [= <- <-]. by rewrite app_nil_r. }
  intros [Hno1 Hno]%andb_prop. simpl.
  destruct (System.step a s) as [[s1 os1]|] eqn:Hs; [|done]. simpl.
  destruct (System.run acts s1) as [[s2 os2]|] eqn:Hr; [|done]. simpl.
  intros [= <- <-].
  destruct (system_step_stalls a s s1 os1 Hwf Hidle) as (Hq1 & Hidle1 & Ho1);
    [by simpl; rewrite Hno1|done|].
  destruct (IH _ _ _ (system_step_wf _ _ _ _ Hwf Hs) Hidle1 Hno Hr)
    as (Hq2 & Hwf2 & Ho2).
  rewrite outbox_app, Ho1, Ho2, Hq2, Hq1, <- app_assoc.
  split_and!; [|done..]. f_equal. unfold System.captured. simpl.
  by destruct a.
Qed.

(** C21: without a send thread the capture stalls.  While no send thread
    is alive (before the first open, and after the send thread has left
    its loop) and no connection is opened, the blocks that the capture
    callback is given stay in the queue in their order, nothing is sent,
    and the callbacks that complete are as many as the queue has room
    for: with [MAX_QUEUE_SIZE] blocks queued no capture callback
    returns. *)
Theorem capture_stalls acts s s' os :
  System.wf s → no_sender s → System.no_open acts = true →
  System.run acts s = Some (s', os) →
  queued s' = queued s ++ System.captured acts ∧
  length (queued s) + length (System.captured acts) ≤ Z.to_nat MAX_QUEUE_SIZE ∧
  System.outbox os = [].
Proof.
  intros Hwf Hidle Hno Hr.
  destruct (system_run_stalls _ _ _ _ Hwf Hidle Hno Hr)
    as (Hq & [[[Hmax Hqwf _ _ _ _] _] _] & Ho).
  split_and!; [done| |done]. unfold queued in *.
  unfold Queue.wf, Queue.qsize in Hqwf. rewrite Hmax, Hq, length_app in Hqwf.
  unfold MAX_QUEUE_SIZE in *. lia.
Qed.

(** Once the devices are released they stay released, and no capture
    callback runs. *)
Lemma system_step_released a s s1 os :
  System.wf s →
  AudioIO.pa_terminated (AudioClient.audio (System.client s)) = true →
  System.step a s = Some (s1, os) →
  AudioIO.pa_terminated (AudioClient.audio (System.client s1)) = true ∧
  System.captured [a] = [].
Proof.
  intros [Hc Hth] Ht. destruct a as [dt|b|ev|k|j]; simpl.
  - destruct (Qle_bool 0 dt); [|done]. by intros [= <- _].
  - destruct (System.capture _ _) as [[r a1]|] eqn:Hcb; [|done].
    apply system_capture_inv in Hcb as [Ha _].
    destruct Hc as [[_ _ _ _ Hin _] _]. rewrite Ht in Hin. congruence.
  - intros [= <- _]. simpl.
    rewrite client_dispatch_terminated, Ht by done. by rewrite orb_true_r.
  - by intros [= <- _].
  - destruct (System.threads s !! j) as [[p|p]|]; [| |done]; simpl.
    + destruct (SendLoop.step _ _ _) as [[[r c1] tr1]|] eqn:Hs; [|done].
      intros [= <- _]. simpl. split; [|done].
      apply send_step_recv in Hs; [|done]. unfold recv in Hs. congruence.
    + destruct (Keepalive.step _ _ _) as [[[r c1] tr1]|] eqn:Hs; [|done].
      intros [= <- _]. simpl.
      by apply ping_step_client in Hs as [-> _]; [|destruct Hc].
Qed.

(** After a close nothing is captured any more, whatever is opened
    again: the session that a reconnection starts sends no audio that
    was captured after the close. *)
Lemma capture_ends_with_release acts s s' os :
  System.wf s →
  AudioIO.pa_terminated (AudioClient.audio (System.client s)) = true →
  System.run acts s = Some (s', os) →
  System.captured acts = [] ∧ queued s' `sublist_of` queued s.
Proof.
  revert s s' os. induction acts as [|a acts IH]; intros s s' os Hwf Ht.
  { by intros [= <- _]. }
  simpl. destruct (System.step a s) as [[s1 os1]|] eqn:Hs; [|done]. simpl.
  destruct (System.run acts s1) as [[s2 os2]|] eqn:Hr; [|done]. simpl.
  intros [= <- _].
  destruct (system_step_released _ _ _ _ Hwf Ht Hs) as [Ht1 Hc1].
  destruct (IH _ _ _ (system_step_wf _ _ _ _ Hwf Hs) Ht1 Hr) as [Hc2 Hq2].
  split.
  - unfold System.captured in *. simpl in *. by destruct a.
  - etrans; [exact Hq2|]. by eapply system_step_queued.
Qed.

End system_stall.

(** ** Concrete runs with [toy_opus] and [toy_json] *)

Lemma send_thread_spins_witness :
  ∃ s, System.wf s ∧
       System.threads s !! 0 = Some (System.SendT (SendLoop.Test 0)) ∧
       System.run (mjoin (replicate 3 [System.Run 0; System.Run 0])) s
         = Some (s, []).
Proof.
  assert (Hwf : System.wf (sys_with SockConnected [] 1 (SendLoop.Test 0)
                             Keepalive.Test)).
  { apply sys_with_wf; [simpl; lia|]. split; [done|by vm_compute]. }
  eexists. split; [exact Hwf|]. split; [reflexivity|].
  exact (send_thread_spins 0 3 _ 0 Hwf eq_refl eq_refl eq_refl
           ltac:(by vm_compute)).
Defined.

(** A send thread that holds a packet, on a socket whose peer is gone. *)
Definition sys_broken : System.t :=
  sys_with SockBroken [] 1 (SendLoop.Encoded 0 (take 720 frame0))
    Keepalive.Test.

(** A keepalive thread whose sleep is over. *)
Definition sys_asleep : System.t :=
  sys_with SockConnected [] 30 (SendLoop.Test 0) (Keepalive.Asleep 25).

Lemma send_thread_breaks_witness :
  ∃ s1, System.wf sys_broken ∧
    System.step (System.Run 0) sys_broken =
      Some (s1, [System.mk_obs (System.clock sys_broken) (Some 0)
                   (Log ERROR (SendFailed WebSocketException))]) ∧
    System.client s1 = System.client sys_broken ∧
    System.threads s1 !! 0 = Some (System.SendT SendLoop.Exit).
Proof.
  assert (Hwf : System.wf sys_broken).
  { apply sys_with_wf; [simpl; lia|]. split; by vm_compute. }
  destruct (send_thread_breaks 0 sys_broken 0 (take 720 frame0) Hwf
              eq_refl eq_refl) as (s1 & Hs1 & Hc & Hx).
  exists s1. split; [exact Hwf|]. split; [exact Hs1|]. split; [exact Hc|].
  exact (proj2 (Hx [] s1 [] eq_refl)).
Defined.

Lemma keepalive_pings_after_close_witness :
  ∃ s' os, System.wf sys_asleep ∧
    System.run [System.Callback (OnClose None None);
                System.Run 1; System.Run 1; System.Run 1] sys_asleep
      = Some (s', os) ∧
    System.what <$> os =
      [Log INFO (ConnClosed None None); Log INFO AudioReleased;
       Log INFO ResourcesReleased;
       Log WARNING (PingFailed WebSocketException)].
Proof.
  assert (Hwf : System.wf sys_asleep).
  { apply sys_with_wf; [simpl; lia|]. split; [done|by vm_compute]. }
  destruct (keepalive_pings_after_close 1 sys_asleep 25 None None Hwf
              eq_refl ltac:(by vm_compute)) as (s' & os & Hr & Hos & _).
  exists s', os. split; [exact Hwf|]. split; [exact Hr|exact Hos].
Defined.

(** A send thread at its test at time 0, its last send at time 0, one
    block queued: it sleeps a period and sends. *)
Definition sys_ready : System.t :=
  sys_with SockConnected [frame0] 0 (SendLoop.Test 0) Keepalive.Test.

Lemma send_thread_progress_witness :
  System.wf sys_ready ∧
  ∃ s' os,
    System.run ([System.Run 0; System.Tick (SendLoop.sleep_time 0 0);
                 System.Run 0] ++ replicate 4 (System.Run 0)) sys_ready
      = Some (s', os) ∧
    System.outbox os = [take 720 frame0] ∧
    Queue.items (AudioIO.input_queue (AudioClient.audio (System.client s')))
      = [].
Proof.
  assert (Hwf : System.wf sys_ready).
  { apply sys_with_wf; [simpl; lia|]. split; [done|by vm_compute]. }
  split; [exact Hwf|].
  destruct (send_thread_progress 0 sys_ready 0 frame0 [] (take 720 frame0) Hwf
              eq_refl eq_refl eq_refl eq_refl eq_refl)
    as (s' & os & Hr & Ho & _ & Hq & _).
  exists s', os. split; [exact Hr|]. split; [exact Ho|exact Hq].
Defined.

(** An error is reported while a send thread is about to take a block:
    the thread takes the block, encodes it, sends the packet, stamps the
    time, and only then finds [is_running] cleared. *)
Definition sys_stopping : System.t :=
  sys_with SockConnected [frame0] 1 (SendLoop.Awake 0) (Keepalive.Asleep 25).

Definition sys_stopped : System.t :=
  System.mk (AudioClient.set_is_running false (client_with SockConnected [frame0]))
    1 [System.SendT (SendLoop.Awake 0); System.PingT (Keepalive.Asleep 25)].

Lemma sys_stopped_step :
  System.step (System.Callback (OnError WebSocketException)) sys_stopping =
  Some (sys_stopped,
        [System.mk_obs 1 None (Log ERROR (ConnError WebSocketException))]).
Proof. by vm_compute. Qed.

Lemma sys_stopped_wf : System.wf sys_stopped.
Proof.
  eapply system_step_wf; [|exact sys_stopped_step].
  apply sys_with_wf; [simpl; lia|]. split; by vm_compute.
Qed.

Lemma threads_stop_witness :
  System.wf sys_stopped ∧
  AudioClient.is_running (System.client sys_stopped) = false ∧
  ∃ s os, System.run (replicate 5 (System.Run 0)) sys_stopped = Some (s, os) ∧
          System.threads s !! 0 = Some (System.SendT SendLoop.Exit) ∧
          length (System.sends_of 0 os) = 1 ∧
          runs_of 0 (replicate 5 (System.Run 0)) ≤ 5.
Proof.
  split; [exact sys_stopped_wf|]. split; [reflexivity|].
  destruct (System.run (replicate 5 (System.Run 0)) sys_stopped)
    as [[s os]|] eqn:Hr; [|by vm_compute in Hr].
  exists s, os. split; [reflexivity|].
  split; [by pose proof Hr as Hv; vm_compute in Hv; injection Hv as <- _|].
  split; [by pose proof Hr as Hv; vm_compute in Hv; injection Hv as _ <-|].
  exact (proj1 (threads_stop 0 (replicate 5 (System.Run 0)) sys_stopped _ _
                  (System.SendT (SendLoop.Awake 0))
                  sys_stopped_wf eq_refl eq_refl eq_refl Hr)).
Defined.

(** The program after the constructor: thirty blocks are captured before
    a connection is opened, and the callback of the next one does not
    return. *)
Lemma capture_stalls_witness :
  let acts := replicate 30 (System.Capture [Byte.x01]) in
  (System.wf (System.init client0) ∧ no_sender (System.init client0) ∧
   System.no_open acts = true) ∧
  ∃ s' os,
    System.run acts (System.init client0) = Some (s', os) ∧
    queued s' = queued (System.init client0) ++ System.captured acts ∧
    length (queued (System.init client0)) + length (System.captured acts)
      ≤ Z.to_nat MAX_QUEUE_SIZE ∧
    System.outbox os = [].
Proof.
  assert (Hwf : System.wf (System.init client0))
    by (split; [exact client0_wf|constructor]).
  cbv zeta. split; [split_and!; [exact Hwf|constructor|reflexivity]|].
  destruct (System.run (replicate 30 (System.Capture [Byte.x01]))
              (System.init client0)) as [[s' os]|] eqn:Hr;
    [|by vm_compute in Hr].
  exists s', os. split; [reflexivity|].
  exact (capture_stalls (replicate 30 (System.Capture [Byte.x01]))
           (System.init client0) s' os Hwf ltac:(constructor) eq_refl Hr).
Defined.

Example capture_blocked_run :
  System.run (replicate 31 (System.Capture [Byte.x01])) (System.init client0)
  = None.
Proof. by vm_compute. Qed.

(** After a close the capture stream is closed for good: a connection
    that is opened again gets no block. *)
Example capture_after_close_run :
  System.run [System.Callback OnOpen; System.Callback (OnClose None None);
              System.Callback OnOpen; System.Capture [Byte.x01]]
    (System.init client0) = None.
Proof. by vm_compute. Qed.
