(* ===== verification/Order.v ===== *)
(** * The order of the frames on the wire

    With one send thread the frames reach the wire in the order the
    blocks were captured, each at most once; while the socket is
    connected none is lost.  With two send threads, which an open after
    an error leaves, the order is lost: whenever two send threads are
    about to take a block, a schedule puts the packet of the second
    block on the wire before the packet of the first, both at the same
    instant. *)

From Stdlib Require Import Lqa.
From S2P Require Import Prelude Python Config Containers Codec AudioIO.
From S2P Require Import Transport Client SendLoop Keepalive System.

Section system_order.
Context `{OpusLib} `{JsonLib}.
Implicit Types (s : System.t) (acts : list System.action)
  (more : list bytes) (i j : nat) (th : System.thread).

Lemma system_captured_cons a acts :
  System.captured (a :: acts) = System.captured [a] ++ System.captured acts.
Proof. by destruct a. Qed.

Lemma steady_no_open acts : System.steady acts = true → System.no_open acts = true.
Proof.
  induction acts as [|a acts IH]; [done|]. simpl.
  intros [Ha Hs]%andb_prop. rewrite IH by done. by destruct a.
Qed.

(** The packets ahead depend on the queue and on the encoder only. *)
Lemma ahead_of_ext p more c c' :
  AudioIO.input_queue (AudioClient.audio c')
    = AudioIO.input_queue (AudioClient.audio c) →
  OpusCodec.encoder (AudioClient.codec c')
    = OpusCodec.encoder (AudioClient.codec c) →
  SendLoop.ahead_of p more c' = SendLoop.ahead_of p more c.
Proof. unfold SendLoop.ahead_of. by intros -> ->. Qed.

(** A block that is captured goes behind the blocks that are queued. *)
Lemma ahead_of_capture p b more c :
  SendLoop.ahead_of p more
    (AudioClient.set_audio
       (AudioIO.set_input_queue
          (Queue.push b (AudioIO.input_queue (AudioClient.audio c)))
          (AudioClient.audio c)) c)
  = SendLoop.ahead_of p (b :: more) c.
Proof. unfold SendLoop.ahead_of. simpl. by rewrite <- app_assoc. Qed.

(** A step of a thread that is not a live sender leaves the client as it
    is and sends no audio. *)
Lemma thread_step_idle now th c th' c' tr :
  is_Some (AudioClient.ws c) → System.live_sender th = false →
  System.thread_step now th c = Some (th', c', tr) →
  c' = c ∧ SendLoop.payloads tr = [] ∧ System.live_sender th' = false.
Proof.
  intros Hw Hl. destruct th as [[]|p]; simpl in *; try done.
  destruct (Keepalive.step now p c) as [[[r c1] tr1]|] eqn:Hs; [|done].
  simpl. intros [= <- <- <-].
  destruct (ping_step_client _ _ _ _ _ _ Hw Hs) as [-> _].
  split_and!; [done|by eapply ping_step_payloads|done].
Qed.

Lemma sender_pc_idle i j s th th' c now :
  System.threads s !! j = Some th →
  System.live_sender th = false → System.live_sender th' = false →
  System.sender_pc i (System.mk c now (<[j := th']> (System.threads s)))
    = System.sender_pc i s.
Proof.
  intros Hj Hl Hl'. unfold System.sender_pc. simpl.
  destruct (decide (i = j)) as [->|Hne].
  - rewrite list_lookup_insert_eq, Hj by by eapply lookup_lt_Some.
    by destruct th as [[]|], th' as [[]|].
  - by rewrite list_lookup_insert_ne.
Qed.

Lemma sole_sender_insert i j s th' c now :
  System.sole_sender i s → j = i ∨ System.live_sender th' = false →
  System.sole_sender i (System.mk c now (<[j := th']> (System.threads s))).
Proof.
  intros Hsole Hj k th Hk Hlive. simpl in Hk.
  apply list_lookup_insert_Some in Hk as [(-> & -> & _)|[_ Hk]].
  - destruct Hj; [done|congruence].
  - by eapply Hsole.
Qed.

(** What a piece of a schedule does to the packets ahead of the send
    thread [i]: it consumes a prefix of them; what is sent is within that
    prefix, and is that prefix when the transport is connected and
    idle. *)
Definition order_post i (a : list System.action) more s s' os : Prop :=
  ∃ pre,
    SendLoop.ahead_of (System.sender_pc i s) (System.captured a ++ more)
      (System.client s)
      = pre ++ SendLoop.ahead_of (System.sender_pc i s') more (System.client s') ∧
    sublist (System.outbox os) pre ∧
    (System.steady a = true →
     SendLoop.connected (System.client s) = true →
     System.outbox os = pre ∧ SendLoop.connected (System.client s') = true).

Lemma order_post_idle i a more s s' :
  SendLoop.ahead_of (System.sender_pc i s) (System.captured a ++ more)
    (System.client s)
    = SendLoop.ahead_of (System.sender_pc i s') more (System.client s') →
  (System.steady a = true →
   SendLoop.connected (System.client s') = SendLoop.connected (System.client s)) →
  order_post i a more s s' [].
Proof.
  intros Ha Hc. exists []. split_and!; [done|done|].
  intros Hs Hk. by rewrite Hc.
Qed.

(** The step of the send thread. *)
Lemma run_sender_order i s p r c1 tr more :
  System.wf s → System.threads s !! i = Some (System.SendT p) →
  SendLoop.step (System.clock s) p (System.client s) = Some (r, c1, tr) →
  order_post i [System.Run i] more s
    (System.mk c1 (System.clock s)
       (<[i := System.SendT (match r with
                             | Ret p' => p'
                             | Raise _ => SendLoop.Exit
                             end)]> (System.threads s)))
    (System.stamp (System.clock s) (Some i) tr).
Proof.
  intros [Hc Hth] Hi Hs.
  destruct (Forall_lookup_1 _ _ _ _ Hth Hi) as [Hp _].
  destruct (send_step_order _ _ _ _ _ _ more Hc Hp Hs) as (Hk & pre & Ha & Hpay).
  exists pre. unfold System.sender_pc. simpl.
  rewrite Hi, list_lookup_insert_eq by by eapply lookup_lt_Some.
  rewrite outbox_stamp, Hpay. split_and!; [done| |].
  - destruct (SendLoop.connected (System.client s));
      [reflexivity|apply sublist_nil_l].
  - intros _ Hk'. by rewrite Hk, Hk'.
Qed.

(** The step of another thread. *)
Lemma run_idle_order i j s th th1 c1 tr more :
  System.wf s → System.threads s !! j = Some th →
  System.live_sender th = false →
  System.thread_step (System.clock s) th (System.client s) = Some (th1, c1, tr) →
  order_post i [System.Run j] more s
    (System.mk c1 (System.clock s) (<[j := th1]> (System.threads s)))
    (System.stamp (System.clock s) (Some j) tr) ∧
  System.live_sender th1 = false.
Proof.
  intros [[_ Hw] _] Hj Hl Hs.
  destruct (thread_step_idle _ _ _ _ _ _ Hw Hl Hs) as (-> & Hp & Hl1).
  split; [|done]. exists [].
  rewrite (sender_pc_idle i j s th) by done.
  by rewrite outbox_stamp, Hp.
Qed.

Lemma system_step_order i a s s1 os more :
  System.wf s → System.sole_sender i s → System.no_open [a] = true →
  System.step a s = Some (s1, os) →
  order_post i [a] more s s1 os ∧ System.sole_sender i s1.
Proof.
  intros Hwf Hsole Hno. destruct (Hwf) as [Hc Hth].
  destruct a as [dt|b|ev|k|j]; simpl.
  - destruct (Qle_bool 0 dt); [|done]. intros [= <- <-].
    split; [by apply order_post_idle|done].
  - unfold System.capture. case_bool_decide; [|done].
    rewrite audio_input_callback_unfold.
    destruct (Queue.full _); [done|]. intros [= <- <-]. split; [|done].
    apply order_post_idle; [|done]. symmetry. apply ahead_of_capture.
  - intros [= <- <-].
    destruct (client_dispatch_send_side ev _ Hc) as (Hq & He & Hs).
    destruct (client_dispatch_trace ev _ Hc) as (_ & Hst & _).
    assert (started (trace_of (AudioClient.dispatch ev (System.client s))) = [])
      as -> by (rewrite Hst; by destruct ev).
    rewrite fmap_nil, app_nil_r. split; [|done]. exists [].
    split_and!; [symmetry; by apply ahead_of_ext
                |by rewrite outbox_stamp, payloads_sent_nil|done].
  - intros [= <- <-]. split; [|done]. by exists [].
  - destruct (System.threads s !! j) as [th|] eqn:Hj; [|done]. simpl.
    destruct (System.thread_step _ _ _) as [[[th1 c1] tr1]|] eqn:Hs; [|done].
    intros [= <- <-]. destruct (System.live_sender th) eqn:Hl.
    + assert (j = i) as -> by by eapply Hsole.
      destruct th as [p|]; [|done]. simpl in Hs.
      destruct (SendLoop.step _ _ _) as [[[r c2] tr2]|] eqn:Hst; [|done].
      injection Hs as <- <- <-.
      split; [by eapply run_sender_order|apply sole_sender_insert; by auto].
    + destruct (run_idle_order i j s th th1 c1 tr1 more) as [Ho Hl1]; try done.
      split; [done|apply sole_sender_insert; by auto].
Qed.

Lemma system_run_order i acts s s' os more :
  System.wf s → System.sole_sender i s → System.no_open acts = true →
  System.run acts s = Some (s', os) →
  order_post i acts more s s' os.
Proof.
  revert s os. induction acts as [|a acts IH]; intros s os Hwf Hsole Hno; simpl.
  { intros [= <- <-]. by apply order_post_idle. }
  apply andb_prop in Hno as [Hno1 Hno2].
  destruct (System.step a s) as [[s1 os1]|] eqn:Hs; [|done]. simpl.
  destruct (System.run acts s1) as [[s2 os2]|] eqn:Hr; [|done].
  intros [= <- <-].
  destruct (system_step_order i a s s1 os1 (System.captured acts ++ more))
    as [(pre1 & Ha1 & Hs1 & Hk1) Hsole1];
    [done|done|by simpl; rewrite Hno1|done|].
  destruct (IH s1 os2 (system_step_wf _ _ _ _ Hwf Hs) Hsole1 Hno2 Hr)
    as (pre2 & Ha2 & Hs2 & Hk2).
  exists (pre1 ++ pre2). rewrite outbox_app. split_and!.
  - by rewrite system_captured_cons, <- !app_assoc, Ha1, Ha2.
  - by apply sublist_app.
  - intros [Hst1 Hst2]%andb_prop Hk.
    destruct Hk1 as [-> Hk'];
      [unfold System.steady; simpl; by rewrite Hst1|done|].
    by destruct Hk2 as [-> ?].
Qed.

(** C5: with one send thread, the frames on the wire are the packets of
    the captured blocks, in capture order.  Along every schedule that
    opens no connection, from a well-formed state in which thread [i] is
    the only send thread that has not ended, whatever the socket does:
    the audio frames sent, followed by the packets ahead of the thread
    at the end, are a subsequence of the packets ahead of it at the
    start, which are those of the block it holds, of the queued blocks
    and of the captured blocks, encoded one after the other.  No frame
    is sent twice, none overtakes another, none is sent that is not the
    packet of a captured block. *)
Theorem system_send_order i acts s s' os :
  System.wf s → System.sole_sender i s → System.no_open acts = true →
  System.run acts s = Some (s', os) →
  sublist
    (System.outbox os
       ++ SendLoop.ahead_of (System.sender_pc i s') [] (System.client s'))
    (SendLoop.ahead_of (System.sender_pc i s) (System.captured acts)
       (System.client s)).
Proof.
  intros Hwf Hsole Hno Hr.
  destruct (system_run_order i _ _ _ _ [] Hwf Hsole Hno Hr)
    as (pre & Ha & Hs & _).
  rewrite app_nil_r in Ha. rewrite Ha. by apply sublist_app.
Qed.

(** C24: while the socket is connected nothing is lost.  Along a schedule
    in which the transport does nothing, from a state in which the socket
    is connected and thread [i] is the only send thread that has not
    ended, the frames sent followed by the packets ahead of the thread at
    the end are exactly the packets ahead of it at the start. *)
Theorem system_send_complete i acts s s' os :
  System.wf s → System.sole_sender i s →
  System.run acts s = Some (s', os) →
  System.steady acts = true →
  SendLoop.connected (System.client s) = true →
  System.outbox os
    ++ SendLoop.ahead_of (System.sender_pc i s') [] (System.client s')
    = SendLoop.ahead_of (System.sender_pc i s) (System.captured acts)
        (System.client s).
Proof.
  intros Hwf Hsole Hr Hst Hk.
  destruct (system_run_order i _ _ _ _ [] Hwf Hsole (steady_no_open _ Hst) Hr)
    as (pre & Ha & _ & He).
  rewrite app_nil_r in Ha. rewrite Ha. by destruct He as [-> _].
Qed.

End system_order.

(** ** Two send threads *)

Section system_race.
Context `{OpusLib} `{JsonLib}.
Implicit Types (s : System.t) (c : AudioClient.t) (i j : nat)
  (th : System.thread) (now : Q).

(** A step of thread [i] at the head of a schedule. *)
Lemma system_run_step i acts c now ths th th1 c1 tr :
  ths !! i = Some th →
  System.thread_step now th c = Some (th1, c1, tr) →
  System.run (System.Run i :: acts) (System.mk c now ths) =
  '(s2, os2) ← System.run acts (System.mk c1 now (<[i := th1]> ths));
  Some (s2, System.stamp now (Some i) tr ++ os2).
Proof.
  intros Hi Hs. cbn [System.run].
  by rewrite (system_step_run i (System.mk c now ths) th th1 c1 tr).
Qed.

(** An open, an error and an open: the threads of the first open have
    not run when the second open raises the flag again, so that two
    send threads more are at their entry, with the flag set. *)
Lemma system_open_twice e s :
  ∃ os,
    System.run [System.Callback OnOpen; System.Callback (OnError e);
                System.Callback OnOpen] s
      = Some (System.mk (AudioClient.set_is_running true (System.client s))
                (System.clock s)
                (System.threads s ++
                 [System.SendT SendLoop.Entry; System.PingT Keepalive.Test;
                  System.SendT SendLoop.Entry; System.PingT Keepalive.Test]),
              os).
Proof.
  eexists. simpl. rewrite <- !app_assoc. by destruct s as [[]].
Qed.

(** The schedule of the race: thread [i] takes a block and is overtaken
    by thread [j], which takes the next block, encodes it and sends the
    packet before [i] encodes and sends its own. *)
Definition overtake i j : list System.action :=
  [System.Run i; System.Run j; System.Run j; System.Run j;
   System.Run i; System.Run i].

Lemma connected_ws c : SendLoop.connected c = true → is_Some (AudioClient.ws c).
Proof. unfold SendLoop.connected. by destruct (AudioClient.ws c). Qed.

(** Taking a block and moving the encoder leave the socket alone. *)
Lemma connected_dequeued rest c :
  SendLoop.connected (SendLoop.dequeued rest c) = SendLoop.connected c.
Proof. done. Qed.

Lemma connected_encoded enc c :
  SendLoop.connected (SendLoop.with_encoder enc c) = SendLoop.connected c.
Proof. done. Qed.

(** Two frames sent at the same instant are not a period apart. *)
Lemma not_paced_twice now rest :
  ¬ System.paced SendLoop.period (now :: now :: rest).
Proof.
  intros [Hgap _]. inversion Hgap as [|? ? Hle _]; subst.
  pose proof period_pos. lra.
Qed.

(** C27: two send threads share the queue and the encoder without a lock.
    From any state in which two send threads are each about to take a
    block (line 179), the socket is connected, the queue holds two
    blocks or more and the encoder accepts them, there is a schedule of
    the two threads alone after which the packet of the second block is
    on the wire before the packet of the first, the second block was
    encoded before the first (so that the encoder saw the audio out of
    order), and the two frames were sent at the same instant, less than
    a period apart. *)
Theorem system_two_senders i j s li lj b1 b2 rest o1 o2 enc1 enc2 :
  i ≠ j →
  System.threads s !! i = Some (System.SendT (SendLoop.Awake li)) →
  System.threads s !! j = Some (System.SendT (SendLoop.Awake lj)) →
  SendLoop.connected (System.client s) = true →
  Queue.items (AudioIO.input_queue (AudioClient.audio (System.client s)))
    = b1 :: b2 :: rest →
  truthy b1 = true → truthy b2 = true →
  Encoder_encode b2 CHUNK
    (OpusCodec.encoder (AudioClient.codec (System.client s))) = (Ret o2, enc2) →
  Encoder_encode b1 CHUNK enc2 = (Ret o1, enc1) →
  truthy o1 = true → truthy o2 = true →
  ∃ s' os,
    System.run (overtake i j) s = Some (s', os) ∧
    System.outbox os = [o2; o1] ∧
    System.binary_sends os = [System.clock s; System.clock s] ∧
    ¬ System.paced SendLoop.period (System.binary_sends os) ∧
    System.client s' = SendLoop.taken rest enc1 (System.client s) ∧
    System.threads s' =
      <[i := System.SendT SendLoop.Stamp]>
        (<[j := System.SendT SendLoop.Stamp]> (System.threads s)).
Proof.
  intros Hij Hi Hj Hk Hq Hb1 Hb2 He2 He1 Ho1 Ho2.
  destruct s as [c now ths].
  cbn [System.client System.clock System.threads] in *.
  pose proof (connected_ws _ Hk) as Hw.
  pose proof (lookup_lt_Some _ _ _ Hi) as Hli.
  pose proof (lookup_lt_Some _ _ _ Hj) as Hlj.
  eexists _, _. unfold overtake. split.
  { repeat (erewrite system_run_step;
      [|by rewrite ?list_lookup_insert_eq, ?list_lookup_insert_ne,
             ?list_lookup_insert_eq
          by (done || by rewrite ?length_insert)
       |cbn [System.thread_step]; rewrite send_step_unfold by done;
        rewrite ?connected_encoded, ?connected_dequeued;
        simpl; rewrite ?Hq, ?He1, ?He2, ?Hb1, ?Hb2, ?Ho1, ?Ho2, ?Hk; simpl;
        reflexivity]).
    reflexivity. }
  split_and!; try done.
  - apply not_paced_twice.
  - cbn [System.threads]. rewrite !list_insert_insert_eq.
    by rewrite (list_insert_insert_ne _ j i), list_insert_insert_eq.
Qed.

End system_race.

(** ** Concrete runs with [toy_opus] and [toy_json] *)

(** Open, error, open, two captured blocks, and the two send threads
    through their first sleep: both are about to take a block. *)
Definition sched_pair : list System.action :=
  [System.Socket SockConnected; System.Callback OnOpen;
   System.Callback (OnError WebSocketException); System.Callback OnOpen;
   System.Capture frame0; System.Capture frame1;
   System.Run 0; System.Run 2; System.Run 0; System.Run 2;
   System.Tick (3 # 50);
   System.Run 0; System.Run 2].

(** The race is reachable from the start of the program: after
    [sched_pair] the two send threads race, and the packet of [frame1]
    is on the wire before the packet of [frame0]. *)
Lemma system_two_senders_witness :
  ∃ s0 os0,
    System.run sched_pair (System.init client0) = Some (s0, os0) ∧
    System.captured sched_pair = [frame0; frame1] ∧
    length (System.live_senders s0) = 2 ∧
    ∃ s os,
      System.run (overtake 0 2) s0 = Some (s, os) ∧
      System.outbox os = [take 720 frame1; take 720 frame0] ∧
      ¬ System.paced SendLoop.period (System.binary_sends os).
Proof.
  destruct (System.run sched_pair (System.init client0)) as [[s0 os0]|] eqn:Hr;
    [|by vm_compute in Hr].
  exists s0, os0. split; [reflexivity|]. split; [reflexivity|].
  pose proof Hr as Hv. vm_compute in Hv. injection Hv as <- _. clear Hr.
  split; [reflexivity|].
  match goal with
  | |- ∃ s os, System.run _ ?s0 = _ ∧ _ =>
      edestruct (system_two_senders 0 2 s0)
        as (s & os & Hrun & Hout & _ & Hp & _);
        [done|vm_compute; reflexivity..|]
  end.
  exists s, os. split; [exact Hrun|]. split; [exact Hout|exact Hp].
Defined.

(** Two blocks are captured; the thread takes the first, a third block is
    captured while the thread holds it, the packet is sent, and the
    thread takes the second block. *)
Definition sched_order : list System.action :=
  [System.Capture frame0; System.Capture frame1; System.Run 0; System.Run 0;
   System.Tick (3 # 50); System.Run 0; System.Run 0; System.Capture frame0]
  ++ replicate 4 (System.Run 0)
  ++ [System.Tick (3 # 50); System.Run 0; System.Run 0].

Definition sys_idle : System.t :=
  sys_with SockConnected [] 0 SendLoop.Entry Keepalive.Test.

Lemma sys_idle_wf : System.wf sys_idle.
Proof. apply sys_with_wf; [simpl; lia|done]. Qed.

Lemma system_send_order_witness :
  System.wf sys_idle ∧ System.sole_sender 0 sys_idle ∧
  ∃ s os, System.run sched_order sys_idle = Some (s, os) ∧
          System.outbox os = [take 720 frame0] ∧
          sublist
            (System.outbox os
               ++ SendLoop.ahead_of (System.sender_pc 0 s) [] (System.client s))
            (SendLoop.ahead_of (System.sender_pc 0 sys_idle)
               (System.captured sched_order) (System.client sys_idle)).
Proof.
  split; [exact sys_idle_wf|]. split; [apply sys_with_sole|].
  destruct (System.run sched_order sys_idle) as [[s os]|] eqn:Hr;
    [|by vm_compute in Hr].
  exists s, os. split; [reflexivity|]. split.
  - pose proof Hr as Hv. vm_compute in Hv. injection Hv as _ <-.
    by vm_compute.
  - exact (system_send_order 0 sched_order _ _ _ sys_idle_wf
             (sys_with_sole _ _ _ _ _) eq_refl Hr).
Defined.

Lemma system_send_complete_witness :
  System.wf sys_idle ∧ System.sole_sender 0 sys_idle ∧
  System.steady sched_order = true ∧
  SendLoop.connected (System.client sys_idle) = true ∧
  ∃ s os, System.run sched_order sys_idle = Some (s, os) ∧
          System.sender_pc 0 s = SendLoop.Taken ((0 + (3 # 50))%Q) frame1 ∧
          System.outbox os
            ++ SendLoop.ahead_of (System.sender_pc 0 s) [] (System.client s)
            = [take 720 frame0; take 720 frame1; take 720 frame0].
Proof.
  split; [exact sys_idle_wf|]. split; [apply sys_with_sole|].
  split; [reflexivity|]. split; [reflexivity|].
  destruct (System.run sched_order sys_idle) as [[s os]|] eqn:Hr;
    [|by vm_compute in Hr].
  exists s, os. split; [reflexivity|]. split.
  - pose proof Hr as Hv. vm_compute in Hv. injection Hv as <- _.
    by vm_compute.
  - rewrite (system_send_complete 0 sched_order _ _ _ sys_idle_wf
               (sys_with_sole _ _ _ _ _) Hr eq_refl eq_refl).
    by vm_compute.
Defined.
