(* ===== verification/Program.v ===== *)
(** * The whole program: the entry and [AudioClient.run] among the threads

    [Retry] runs the retry loop of [run] (lines 237-256) and the entry
    (lines 258-264) alone, over an environment that says what each call
    of [run_forever] delivers and how it ends; [System] runs the threads
    and the callbacks, without the loop that drives them.  This file puts
    them together.  The main thread is at one of the control points of
    [run] or of the entry; the callbacks are run by [run_forever], so
    they happen only while the main thread is inside it; the other
    threads take their steps at any time, the back-off sleep of the main
    thread and the handler of the entry included; an interrupt from the
    keyboard reaches the main thread at the test of the loop or in its
    sleep, and inside [run_forever] when the transport lets it through.
    Both threads are daemon threads (lines 160 and 164): when the main
    thread has ended the process is over, and nothing happens any more.

    The theorems say that the composition is what its parts say: for
    every schedule, what the main thread does is what [Main.main] does
    alone when it is given the same callbacks in the same order, whatever
    the other threads do in between; the main thread ends after a bounded
    number of its own actions; the sends of a thread stay paced; and the
    handler of the entry tells no thread to stop. *)

From Stdlib Require Import Lqa.
From S2P Require Import Prelude Python Config Containers Codec AudioIO.
From S2P Require Import Transport Client Retry SendLoop Keepalive Frame System.

Module Program.
Section program.
Context `{OpusLib} `{JsonLib}.

(** Where the main thread is. *)
Inductive pc : Type :=
| Test (retries : Z)                 (* at the test of the loop, line 241 *)
| Running (retries : Z)              (* inside [run_forever], lines 243-247 *)
| Asleep (retries : Z) (until : Q)   (* in [time.sleep], line 254 *)
| Done (r : res unit)                (* [run] returned, or raised: line 261 *)
| Handled                            (* after [client._cleanup()], line 263 *)
| Exited (r : res unit).             (* the main thread has ended *)

Record t : Type := mk {
  system : System.t;
  main : pc;
}.

Inductive action : Type :=
| Other (a : System.action)   (* a thread, PortAudio, the socket, time, or
                                 a callback run by [run_forever] *)
| Step                        (* the main thread goes on to its next
                                 control point, or wakes up *)
| Leave (r : res unit)        (* [run_forever] returns, or raises *)
| Interrupt.                  (* the main thread is interrupted from the
                                 keyboard *)

(** The time slept by the effects of a method. *)
Definition total_sleep (tr : trace) : Q := foldr Qplus 0%Q (slept tr).

(** Lines 248-254: what [run] does with the way [run_forever] ended. *)
Definition leave (now : Q) (retries : Z) (r : res unit) (c : AudioClient.t)
    : pc * AudioClient.t * trace :=
  match r with
  | Ret _ => (Done (Ret tt), c, [])
  | Raise e =>
      if is_Exception e then
        let '(x, c', tr) := Main.on_exception e retries c in
        (match x with
         | Ret retries' => Asleep retries' (now + total_sleep tr)
         | Raise e' => Done (Raise e')
         end, c', tr)
      else (Done (Raise e), c, [])
  end.

(** Lines 260-263: the end of the entry's [try]; an interrupt is handled
    by the clean-up, anything else ends the main thread. *)
Definition handle (r : res unit) (c : AudioClient.t)
    : pc * AudioClient.t * trace :=
  match r with
  | Ret _ => (Exited (Ret tt), c, [])
  | Raise e =>
      if is_KeyboardInterrupt e then
        let '(x, c', tr) := AudioClient._cleanup c in
        (match x with
         | Ret _ => Handled
         | Raise e' => Exited (Raise e')
         end, c', tr)
      else (Exited (Raise e), c, [])
  end.

(** Lines 241-243 and 255-256: the test of the loop, with the call of
    [run_forever] or the [else] clause; the end of the sleep; lines
    260-264: the entry after [run]. *)
Definition main_step (now : Q) (p : pc) (c : AudioClient.t)
    : option (pc * AudioClient.t * trace) :=
  match p with
  | Test retries =>
      if bool_decide (retries < Main.max_retries)%Z then
        match AudioClient.ws c with
        | Some _ => Some (Running retries, c, [])
        | None => Some (leave now retries (Raise AttributeError) c)
        end
      else
        let '(_, c', tr) := logger_error MaxRetries c in
        Some (Done (Ret tt), c', tr)
  | Asleep retries until =>
      if Qle_bool until now then Some (Test retries, c, []) else None
  | Done r => Some (handle r c)
  | Handled =>
      let '(_, c', tr) := logger_info UserInterrupt c in
      Some (Exited (Ret tt), c', tr)
  | Running _ | Exited _ => None
  end.

(** [KeyboardInterrupt] is raised in the main thread where it is: at
    the test of the loop and in the sleep of the handler of [run] it
    leaves [run], since [except Exception] does not catch it. *)
Definition interrupt (p : pc) : option pc :=
  match p with
  | Test _ | Asleep _ _ => Some (Done (Raise KeyboardInterrupt))
  | _ => None
  end.

(** A callback runs inside [run_forever]. *)
Definition enabled (a : System.action) (p : pc) : bool :=
  match a, p with
  | System.Callback _, Running _ => true
  | System.Callback _, _ => false
  | _, _ => true
  end.

(** Lines 160 and 164: the threads of [_on_open] are daemon threads. *)
Definition daemon (th : System.thread) : bool :=
  match th with
  | System.SendT _ => true
  | System.PingT _ => true
  end.

(** The process is over when the main thread has ended and the threads
    that are left are daemon threads. *)
Definition over (p : t) : bool :=
  match main p with
  | Exited _ => forallb daemon (System.threads (system p))
  | _ => false
  end.

(** The effects of the main thread are stamped like those of the
    callbacks, which it runs. *)
Definition by_main (p : t) (x : pc * AudioClient.t * trace)
    : t * list System.obs :=
  let s := system p in
  (mk (System.mk x.1.2 (System.clock s) (System.threads s)) x.1.1,
   System.stamp (System.clock s) None x.2).

(** One action of a process that is not over. *)
Definition act (a : action) (p : t) : option (t * list System.obs) :=
  let s := system p in
  match a with
  | Other a' =>
      if enabled a' (main p) then
        '(s', os) ← System.step a' s;
        Some (mk s' (main p), os)
      else None
  | Step =>
      x ← main_step (System.clock s) (main p) (System.client s);
      Some (by_main p x)
  | Leave r =>
      match main p with
      | Running retries =>
          Some (by_main p (leave (System.clock s) retries r (System.client s)))
      | _ => None
      end
  | Interrupt =>
      q ← interrupt (main p);
      Some (by_main p (q, System.client s, []))
  end.

Definition step (a : action) (p : t) : option (t * list System.obs) :=
  if over p then None else act a p.

Fixpoint run (acts : list action) (p : t) : option (t * list System.obs) :=
  match acts with
  | [] => Some (p, [])
  | a :: acts' =>
      '(p1, os1) ← step a p;
      '(p2, os2) ← run acts' p1;
      Some (p2, os1 ++ os2)
  end.

(** The program after [AudioClient()], at the call of [run]. *)
Definition init (c : AudioClient.t) : t := mk (System.init c) (Test 0).

(** Line 259: the program from its start; a constructor that raises ends
    it. *)
Definition boot (dev : devices) : res t * trace :=
  match AudioClient.__init__ dev () with
  | (Ret c, _, t0) => (Ret (init c), t0)
  | (Raise e, _, t0) => (Raise e, t0)
  end.

(** ** The main thread's view of a schedule *)

Inductive main_event : Type :=
| MStep
| MEv (ev : ws_event)
| MLeave (r : res unit)
| MInterrupt.

Definition view_of (a : action) : option main_event :=
  match a with
  | Other (System.Callback ev) => Some (MEv ev)
  | Other _ => None
  | Step => Some MStep
  | Leave r => Some (MLeave r)
  | Interrupt => Some MInterrupt
  end.

Definition view (acts : list action) : list main_event := omap view_of acts.

(** The actions that the main thread takes by itself. *)
Definition by_self (a : action) : bool :=
  match a with Other _ => false | _ => true end.

(** The effects of the main thread, callbacks included. *)
Definition main_trace (os : list System.obs) : trace :=
  omap (λ o, match System.by_thread o with
             | None => Some (System.what o)
             | Some _ => None
             end) os.

(** The main thread alone: one event of its view on a client of its
    own, without a clock (a sleep ends when the thread is told so). *)
Definition replay_step (m : main_event) (p : pc) (c : AudioClient.t)
    : option (pc * AudioClient.t * trace) :=
  match m, p with
  | MEv ev, Running _ =>
      let x := AudioClient.dispatch ev c in
      Some (p, state_of x, trace_of x)
  | MStep, Asleep _ until => main_step until p c
  | MStep, _ => main_step 0 p c
  | MLeave r, Running retries => Some (leave 0 retries r c)
  | MInterrupt, _ => q ← interrupt p; Some (q, c, [])
  | _, _ => None
  end.

Fixpoint replay (ms : list main_event) (p : pc) (c : AudioClient.t)
    : option (pc * AudioClient.t * trace) :=
  match ms with
  | [] => Some (p, c, [])
  | m :: ms' =>
      '(p1, c1, t1) ← replay_step m p c;
      '(p2, c2, t2) ← replay ms' p1 c1;
      Some (p2, c2, t1 ++ t2)
  end.

(** The view that the main thread has when the transport behaves as an
    environment says: line by line, what [Main.run_loop] goes
    through. *)
Fixpoint script (fuel : nat) (env : Z → Main.attempt) (retries : Z)
    : list main_event :=
  if bool_decide (retries < Main.max_retries)%Z then
    match fuel with
    | 0 => []
    | S fuel' =>
        MStep :: (MEv <$> Main.delivered (env retries))
          ++ MLeave (Main.ended (env retries))
          :: (if Main.fails (env retries)
              then MStep :: script fuel' env (retries + 1)
              else [])
    end
  else [MStep].

(** Control points that differ in the time at which a sleep ends. *)
Definition pc_sim (p q : pc) : Prop :=
  match p, q with
  | Asleep r _, Asleep r' _ => r = r'
  | _, _ => p = q
  end.

(** The actions of its own that the main thread has left at most. *)
Definition main_rank (p : pc) : nat :=
  match p with
  | Test retries => 3 * Z.to_nat (Main.max_retries - retries) + 3
  | Running retries => 3 * Z.to_nat (Main.max_retries - (retries + 1)) + 5
  | Asleep retries _ => 3 * Z.to_nat (Main.max_retries - retries) + 4
  | Done _ => 2
  | Handled => 1
  | Exited _ => 0
  end.

End program.
Arguments t {_}.
Arguments handle : simpl never.
End Program.

(** ** One action of the program *)

Section program_steps.
Context `{OpusLib} `{JsonLib}.
Implicit Types (p : Program.t) (q : Program.pc) (c : AudioClient.t)
  (s : System.t) (a : Program.action) (now : Q) (retries : Z).

(** [leave] in closed form: a failure starts the back-off. *)
Lemma program_leave_unfold now retries r c :
  Program.leave now retries r c =
  match r with
  | Ret _ => (Program.Done (Ret tt), c, [])
  | Raise e =>
      if is_Exception e then
        (Program.Asleep (retries + 1)
           (now + (inject_Z (Main.delay (retries + 1)) + 0))%Q, c,
         [Log ERROR (ConnException e);
          Log INFO (RetryIn (Main.delay (retries + 1)));
          Slept (inject_Z (Main.delay (retries + 1)))])
      else (Program.Done (Raise e), c, [])
  end.
Proof.
  destruct r as [u|e]; [done|]. unfold Program.leave.
  destruct (is_Exception e); [|done]. by rewrite on_exception_unfold.
Qed.

(** [handle] in closed form. *)
Lemma program_handle_unfold r c :
  AudioIO.wf (AudioClient.audio c) →
  Program.handle r c =
  match r with
  | Ret _ => (Program.Exited (Ret tt), c, [])
  | Raise e =>
      if is_KeyboardInterrupt e then
        (Program.Handled, AudioClient.cleaned c,
         [Log INFO AudioReleased; Log INFO ResourcesReleased])
      else (Program.Exited (Raise e), c, [])
  end.
Proof.
  intros Hwf. destruct r as [u|e]; [done|]. unfold Program.handle.
  destruct (is_KeyboardInterrupt e); [|done].
  by rewrite client_cleanup_unfold.
Qed.

(** The step of the main thread on a well-formed client. *)
Lemma program_main_step_unfold now q c :
  AudioClient.wf c →
  Program.main_step now q c =
  match q with
  | Program.Test retries =>
      if bool_decide (retries < Main.max_retries)%Z
      then Some (Program.Running retries, c, [])
      else Some (Program.Done (Ret tt), c, [Log ERROR MaxRetries])
  | Program.Asleep retries until =>
      if Qle_bool until now then Some (Program.Test retries, c, []) else None
  | Program.Done r => Some (Program.handle r c)
  | Program.Handled => Some (Program.Exited (Ret tt), c, [Log INFO UserInterrupt])
  | _ => None
  end.
Proof.
  intros [_ [w Hw]]. destruct q as [r|r|r w'|x| |x]; try done. simpl.
  by rewrite Hw.
Qed.

(** What the main thread does by itself keeps the client well formed,
    and leaves its flag and its interval as they are. *)
Lemma program_main_step_client now q c q' c' tr :
  AudioClient.wf c → Program.main_step now q c = Some (q', c', tr) →
  AudioClient.wf c' ∧
  AudioClient.is_running c' = AudioClient.is_running c ∧
  AudioClient.ping_interval c' = AudioClient.ping_interval c ∧
  sent tr = [].
Proof.
  intros Hwf. rewrite program_main_step_unfold by done.
  destruct q as [r|r|r w|x| |x]; try done.
  - by case_bool_decide; intros [= _ <- <-].
  - by destruct (Qle_bool w now); intros [= _ <- <-].
  - rewrite program_handle_unfold by by destruct Hwf.
    destruct x as [u|e]; [by intros [= _ <- <-]|].
    destruct (is_KeyboardInterrupt e); [|by intros [= _ <- <-]].
    intros [= _ <- <-].
    split; [by apply client_cleaned_wf|]. by destruct c.
  - by intros [= _ <- <-].
Qed.

Lemma program_leave_client now retries r c :
  (Program.leave now retries r c).1.2 = c ∧
  sent (Program.leave now retries r c).2 = [].
Proof. rewrite program_leave_unfold. by repeat case_match. Qed.

Lemma main_trace_app os1 os2 :
  Program.main_trace (os1 ++ os2) =
  Program.main_trace os1 ++ Program.main_trace os2.
Proof. apply omap_app. Qed.

Lemma main_trace_stamp now (j : option nat) tr :
  Program.main_trace (System.stamp now j tr) =
  match j with None => tr | Some _ => [] end.
Proof.
  unfold Program.main_trace, System.stamp.
  destruct j; induction tr as [|ev tr IH]; simpl; by f_equal.
Qed.

(** An action of the system that is not a callback leaves the receive
    side as it is, and is none of the main thread's effects. *)
Lemma system_step_quiet (a' : System.action) s s' os :
  System.wf s → Program.view_of (Program.Other a') = None →
  System.step a' s = Some (s', os) →
  recv (System.client s') = recv (System.client s) ∧
  Program.main_trace os = [].
Proof.
  intros [Hc Hth]. destruct a' as [dt|b|ev|k|i]; simpl; try done; intros _.
  - destruct (Qle_bool 0 dt); [|done]. by intros [= <- <-].
  - destruct (System.capture _ _) as [[r a1]|] eqn:Hcb; [|done].
    apply system_capture_inv in Hcb as [_ Hcb].
    intros [= <- <-]. split; [|done]. by eapply input_callback_recv.
  - by intros [= <- <-].
  - destruct (System.threads s !! i) as [[q|q]|]; [| |done]; simpl.
    + destruct (SendLoop.step _ _ _) as [[[r c1] tr1]|] eqn:Hs; [|done].
      intros [= <- <-]. rewrite main_trace_stamp. split; [|done].
      by eapply send_step_recv.
    + destruct (Keepalive.step _ _ _) as [[[r c1] tr1]|] eqn:Hs; [|done].
      intros [= <- <-]. rewrite main_trace_stamp. split; [|done].
      by apply ping_step_client in Hs as [-> _]; destruct Hc.
Qed.

(** The main thread changes the client only. *)
Lemma system_wf_client s c :
  System.wf s → AudioClient.wf c →
  System.wf (System.mk c (System.clock s) (System.threads s)).
Proof. by intros [] ?. Qed.

(** A step is an action of a process that is not over. *)
Lemma program_step_act a p p' os :
  Program.step a p = Some (p', os) →
  Program.over p = false ∧ Program.act a p = Some (p', os).
Proof. unfold Program.step. by destruct (Program.over p). Qed.

(** The process is over as soon as the main thread has ended. *)
Lemma program_over_exited p :
  Program.over p = true ↔ ∃ r, Program.main p = Program.Exited r.
Proof.
  unfold Program.over. destruct (Program.main p) as [| | | | |r];
    try (split; [done|by intros [? ?]]).
  split; [by exists r|]. intros _. apply forallb_forall.
  by intros [] _.
Qed.

(** Every action keeps the system well formed. *)
Lemma program_act_wf a p p' os :
  System.wf (Program.system p) → Program.act a p = Some (p', os) →
  System.wf (Program.system p').
Proof.
  intros Hwf. destruct a as [a'| |r|]; simpl.
  - destruct (Program.enabled a' _); [|done].
    destruct (System.step a' _) as [[s' os']|] eqn:Hs; [|done].
    intros [= <- _]. by eapply system_step_wf.
  - destruct (Program.main_step _ _ _) as [[[q' c'] tr]|] eqn:Hs; [|done].
    intros [= <- _]. apply system_wf_client; [done|].
    by apply program_main_step_client in Hs as [? _]; [|destruct Hwf].
  - destruct (Program.main p); try done. intros [= <- _].
    apply system_wf_client; [done|].
    rewrite (proj1 (program_leave_client _ _ _ _)). by destruct Hwf.
  - destruct (Program.interrupt _); [|done]. intros [= <- _].
    apply system_wf_client; [done|by destruct Hwf].
Qed.

End program_steps.

(** ** The main thread of the program is the main thread alone *)

Section program_simulation.
Context `{OpusLib} `{JsonLib}.
Implicit Types (p : Program.t) (q : Program.pc) (c : AudioClient.t)
  (a : Program.action) (acts : list Program.action).

(** What an action leaves: the main thread where its view says. *)
Definition step_post p q c a p' os : Prop :=
  match Program.view_of a with
  | None =>
      Program.main p' = Program.main p ∧
      System.client (Program.system p') ≈ᵣ c ∧ Program.main_trace os = []
  | Some m =>
      ∃ q' c', Program.replay_step m q c = Some (q', c', Program.main_trace os) ∧
               Program.pc_sim (Program.main p') q' ∧
               System.client (Program.system p') ≈ᵣ c'
  end.

(** The clean-up of the entry on two clients with the same receive
    side. *)
Lemma program_handle_recv r c c' :
  c ≈ᵣ c' →
  (Program.handle r c).1.1 = (Program.handle r c').1.1 ∧
  (Program.handle r c).2 = (Program.handle r c').2 ∧
  (Program.handle r c).1.2 ≈ᵣ (Program.handle r c').1.2.
Proof.
  intros (Hwf & Hwf' & Hr).
  rewrite !program_handle_unfold by by destruct Hwf, Hwf'.
  destruct r as [u|e]; [done|]. destruct (is_KeyboardInterrupt e); [|done].
  simpl. do 2 (split; [done|]).
  do 2 (split; [by apply client_cleaned_wf|]).
  by apply client_cleaned_recv.
Qed.

(** A step of another thread, or a callback. *)
Lemma program_other_sim (a' : System.action) p p' os q c :
  System.wf (Program.system p) → System.client (Program.system p) ≈ᵣ c →
  Program.pc_sim (Program.main p) q →
  Program.act (Program.Other a') p = Some (p', os) →
  step_post p q c (Program.Other a') p' os.
Proof.
  intros Hwf Hc Hq. simpl.
  destruct (Program.enabled a' _) eqn:Hen; [|done].
  destruct (System.step a' _) as [[s' os']|] eqn:Hs; [|done].
  intros [= <- <-]. unfold step_post.
  destruct (Program.view_of (Program.Other a')) as [m|] eqn:Hv.
  - destruct a' as [| |ev| |]; try done. injection Hv as <-.
    destruct (Program.main p) as [|r| | | |] eqn:Hp; try done. simpl in Hq.
    subst q. destruct (client_dispatch_proper ev _ _ Hc) as (_ & Htr & Hst).
    injection Hs as <- <-.
    exists (Program.Running r), (state_of (AudioClient.dispatch ev c)).
    simpl. rewrite main_trace_stamp, Htr.
    done.
  - destruct (system_step_quiet _ _ _ _ Hwf Hv Hs) as [Hr Hm].
    destruct Hc as (_ & Hwc & Hrc). split_and!; try done.
    split_and!; [by destruct (system_step_wf _ _ _ _ Hwf Hs)|done|].
    simpl. congruence.
Qed.

(** A step of the main thread. *)
Lemma program_main_sim p p' os q c :
  System.wf (Program.system p) → System.client (Program.system p) ≈ᵣ c →
  Program.pc_sim (Program.main p) q →
  Program.act Program.Step p = Some (p', os) →
  step_post p q c Program.Step p' os.
Proof.
  intros Hwf Hc Hq Hs. pose proof Hc as (Hw & Hw' & _).
  simpl in Hs. rewrite program_main_step_unfold in Hs by done.
  unfold step_post, Program.replay_step. cbn [Program.view_of].
  destruct (Program.main p) as [r|r|r w|x| |x] eqn:Hp; try done; simpl in Hq.
  - subst q. rewrite program_main_step_unfold by done.
    case_bool_decide; injection Hs as <- <-; eexists _, _;
      by rewrite ?main_trace_stamp.
  - destruct q as [|?|r' w'| | |]; try done. subst r'.
    rewrite program_main_step_unfold by done.
    destruct (Qle_bool w _); [|done]. injection Hs as <- <-. eexists _, _.
    by rewrite (proj2 (Qle_bool_iff w' w') (Qle_refl _)), ?main_trace_stamp.
  - subst q. rewrite program_main_step_unfold by done.
    injection Hs as <- <-.
    destruct (program_handle_recv x _ _ Hc) as (Hq & Htr & Hst).
    exists (Program.handle x c).1.1, (Program.handle x c).1.2.
    simpl. rewrite main_trace_stamp, Htr, Hq. split_and!;
      [|by destruct (Program.handle x c).1.1|done].
    by destruct (Program.handle x c) as [[? ?] ?].
  - subst q. rewrite program_main_step_unfold by done.
    injection Hs as <- <-. by eexists _, _.
Qed.

(** The end of a call of [run_forever]. *)
Lemma program_leave_sim r p p' os q c :
  System.wf (Program.system p) → System.client (Program.system p) ≈ᵣ c →
  Program.pc_sim (Program.main p) q →
  Program.act (Program.Leave r) p = Some (p', os) →
  step_post p q c (Program.Leave r) p' os.
Proof.
  intros Hwf Hc Hq. simpl.
  destruct (Program.main p) as [|n| | | |] eqn:Hp; try done. simpl in Hq.
  subst q. intros [= <- <-]. unfold step_post. simpl.
  rewrite !program_leave_unfold.
  destruct r as [u|e]; [|destruct (is_Exception e)]; simpl;
    eexists _, _; by rewrite ?main_trace_stamp.
Qed.

(** An interrupt. *)
Lemma program_interrupt_sim p p' os q c :
  System.wf (Program.system p) → System.client (Program.system p) ≈ᵣ c →
  Program.pc_sim (Program.main p) q →
  Program.act Program.Interrupt p = Some (p', os) →
  step_post p q c Program.Interrupt p' os.
Proof.
  intros Hwf Hc Hq. simpl. unfold step_post. simpl.
  destruct (Program.main p) as [r|r|r w|x| |x] eqn:Hp; try done;
    destruct q as [r'|r'|r' w'|x'| |x']; try done;
    intros [= <- <-]; by eexists _, _.
Qed.

Lemma program_act_sim a p p' os q c :
  System.wf (Program.system p) → System.client (Program.system p) ≈ᵣ c →
  Program.pc_sim (Program.main p) q → Program.act a p = Some (p', os) →
  step_post p q c a p' os.
Proof.
  destruct a as [a'| |r|];
    eauto using program_other_sim, program_main_sim, program_leave_sim,
      program_interrupt_sim.
Qed.

Lemma pc_sim_eq p p' q :
  Program.main p' = Program.main p → Program.pc_sim (Program.main p) q →
  Program.pc_sim (Program.main p') q.
Proof. by intros ->. Qed.

(** Every schedule of the program, seen from the main thread, is a run
    of the main thread alone, on a client that has the receive side of
    the program's. *)
Lemma program_run_sim acts p p' os q c :
  System.wf (Program.system p) → System.client (Program.system p) ≈ᵣ c →
  Program.pc_sim (Program.main p) q → Program.run acts p = Some (p', os) →
  ∃ q' c',
    Program.replay (Program.view acts) q c
      = Some (q', c', Program.main_trace os) ∧
    Program.pc_sim (Program.main p') q' ∧
    System.client (Program.system p') ≈ᵣ c' ∧
    System.wf (Program.system p').
Proof.
  revert p os q c. induction acts as [|a acts IH]; intros p os q c Hwf Hc Hq.
  { intros [= <- <-]. by exists q, c. }
  cbn [Program.run]. destruct (Program.step a p) as [[p1 os1]|] eqn:Hs; [|done].
  cbn [mbind option_bind].
  destruct (Program.run acts p1) as [[p2 os2]|] eqn:Hr; [|done].
  cbn [mbind option_bind]. intros [= <- <-]. rewrite main_trace_app.
  apply program_step_act in Hs as [_ Hs].
  pose proof (program_act_wf _ _ _ _ Hwf Hs) as Hwf1.
  pose proof (program_act_sim _ _ _ _ _ _ Hwf Hc Hq Hs) as Hpost.
  unfold step_post in Hpost. unfold Program.view. cbn [omap list_omap].
  destruct (Program.view_of a) as [m|].
  - destruct Hpost as (q1 & c1 & Hm & Hq1 & Hc1).
    destruct (IH _ _ _ _ Hwf1 Hc1 Hq1 Hr) as (q' & c' & Hrp & ? & ? & ?).
    exists q', c'. cbn [Program.replay]. rewrite Hm. simpl.
    fold (Program.view acts). by rewrite Hrp.
  - destruct Hpost as (Hp1 & Hc1 & ->).
    by apply (IH _ _ _ _ Hwf1 Hc1 (pc_sim_eq _ _ _ Hp1 Hq) Hr).
Qed.

End program_simulation.

(** ** The main thread alone is [Main.run_loop] *)

Section program_replay.
Context `{OpusLib} `{JsonLib}.
Implicit Types (q : Program.pc) (c : AudioClient.t)
  (ms : list Program.main_event) (env : Z → Main.attempt) (retries : Z).

Lemma program_replay_app ms1 ms2 q c :
  Program.replay (ms1 ++ ms2) q c =
  '(q1, c1, t1) ← Program.replay ms1 q c;
  '(q2, c2, t2) ← Program.replay ms2 q1 c1;
  Some (q2, c2, t1 ++ t2).
Proof.
  revert q c. induction ms1 as [|m ms1 IH]; intros q c; simpl.
  { by destruct (Program.replay ms2 q c) as [[[q2 c2] t2]|]. }
  destruct (Program.replay_step m q c) as [[[q1 c1] t1]|]; [|done]. simpl.
  rewrite IH. destruct (Program.replay ms1 q1 c1) as [[[q2 c2] t2]|]; [|done].
  simpl. destruct (Program.replay ms2 q2 c2) as [[[q3 c3] t3]|]; [|done].
  simpl. by rewrite app_assoc.
Qed.

(** The callbacks of a call of [run_forever]. *)
Lemma program_replay_events evs retries c :
  Program.replay (Program.MEv <$> evs) (Program.Running retries) c =
  Some (Program.Running retries,
        AudioClient.run_state (AudioClient.run_events evs c),
        AudioClient.run_trace (AudioClient.run_events evs c)).
Proof.
  revert c. induction evs as [|ev evs IH]; intros c; [done|].
  cbn [fmap list_fmap Program.replay Program.replay_step mbind option_bind].
  by rewrite IH.
Qed.

(** The test of the loop and the callbacks of the attempt. *)
Lemma program_replay_attempt env retries c ms :
  AudioClient.wf c → (retries < Main.max_retries)%Z →
  Program.replay
    (Program.MStep :: (Program.MEv <$> Main.delivered (env retries)) ++ ms)
    (Program.Test retries) c =
  let r1 := AudioClient.run_events (Main.delivered (env retries)) c in
  '(q2, c2, t2) ← Program.replay ms (Program.Running retries)
                    (AudioClient.run_state r1);
  Some (q2, c2, AudioClient.run_trace r1 ++ t2).
Proof.
  intros Hwf Hlt. cbn [Program.replay Program.replay_step].
  rewrite program_main_step_unfold, bool_decide_eq_true_2 by done.
  cbn [mbind option_bind]. rewrite program_replay_app, program_replay_events.
  cbn [mbind option_bind]. cbv zeta.
  by destruct (Program.replay ms _ _) as [[[q2 c2] t2]|].
Qed.

(** The loop is over when the budget is used up. *)
Lemma program_replay_done fuel env retries c :
  AudioClient.wf c → ¬ (retries < Main.max_retries)%Z →
  Program.replay (Program.script fuel env retries) (Program.Test retries) c =
  Some (Program.Done (Ret tt), c, [Log ERROR MaxRetries]).
Proof.
  intros Hwf Hge.
  destruct fuel; cbn [Program.script]; rewrite bool_decide_eq_false_2 by done;
    cbn [Program.replay Program.replay_step];
    by rewrite program_main_step_unfold, bool_decide_eq_false_2 by done.
Qed.

(** The script of an environment, replayed, is the loop. *)
Lemma program_replay_script fuel env retries c x :
  AudioClient.wf c → (Main.max_retries - retries ≤ Z.of_nat fuel)%Z →
  Main.run_loop fuel env retries c = Some x →
  Program.replay (Program.script fuel env retries) (Program.Test retries) c =
  Some (Program.Done (result_of x), state_of x, trace_of x).
Proof.
  revert retries c x. induction fuel as [|fuel IH]; intros retries c x Hwf Hfuel.
  { rewrite run_loop_done by lia. intros [= <-].
    apply program_replay_done; [done|lia]. }
  destruct (decide (retries < Main.max_retries)%Z) as [Hlt|Hge].
  2: { rewrite run_loop_done by done. intros [= <-].
       by apply program_replay_done. }
  rewrite run_loop_step by done. cbn [Program.script].
  rewrite bool_decide_eq_true_2, program_replay_attempt by done. cbv zeta.
  pose proof (client_run_events_state_wf (Main.delivered (env retries)) c Hwf)
    as Hwf1.
  cbn [Program.replay Program.replay_step mbind option_bind].
  rewrite program_leave_unfold. unfold Main.fails.
  destruct (Main.ended (env retries)) as [[]|e].
  { intros [= <-]. simpl. by rewrite app_nil_r. }
  destruct (is_Exception e); [|intros [= <-]; simpl; by rewrite app_nil_r].
  destruct (Main.run_loop fuel env (retries + 1) _) as [[[r3 c3] t3]|] eqn:Hr;
    [|done].
  intros [= <-]. cbn [Program.replay Program.replay_step mbind option_bind].
  rewrite program_main_step_unfold by done.
  rewrite (proj2 (Qle_bool_iff _ _) (Qle_refl _)). cbn [mbind option_bind].
  by rewrite (IH (retries + 1)%Z _ _ Hwf1 ltac:(lia) Hr).
Qed.

(** The entry after [run]: the steps that take the main thread to its
    end are [Main.finish]. *)
Lemma program_replay_finish k r c c' tr r' :
  AudioClient.wf c →
  Program.replay (replicate k Program.MStep) (Program.Done r) c
    = Some (Program.Exited r', c', tr) →
  Main.finish r c = (r', c', tr).
Proof.
  intros Hwf. pose proof (client_cleaned_wf c Hwf) as Hwf'.
  rewrite main_finish_unfold by by destruct Hwf.
  destruct k as [|[|[|k]]]; [done|..];
    cbn [replicate Program.replay Program.replay_step];
    rewrite program_main_step_unfold, program_handle_unfold
      by (done || by destruct Hwf);
    (destruct r as [u|e]; [|destruct (is_KeyboardInterrupt e)]);
    cbn [mbind option_bind]; rewrite ?program_main_step_unfold by done;
    cbn [mbind option_bind]; try done; try by intros [= <- <- <-].
Qed.

End program_replay.

(** ** The actions of the main thread, and those of the others *)

Section program_actions.
Context `{OpusLib} `{JsonLib}.
Implicit Types (p : Program.t) (c : AudioClient.t) (a : Program.action)
  (acts : list Program.action) (i : nat).

(** What the main thread does by itself leaves the clock, the threads,
    [is_running] and [ping_interval] as they are, and sends nothing. *)
Lemma program_act_self a p p' os :
  System.wf (Program.system p) → Program.by_self a = true →
  Program.act a p = Some (p', os) →
  System.clock (Program.system p') = System.clock (Program.system p) ∧
  System.threads (Program.system p') = System.threads (Program.system p) ∧
  AudioClient.is_running (System.client (Program.system p')) =
    AudioClient.is_running (System.client (Program.system p)) ∧
  AudioClient.ping_interval (System.client (Program.system p')) =
    AudioClient.ping_interval (System.client (Program.system p)) ∧
  ∀ i, System.sends_of i os = [].
Proof.
  intros [Hc _]. destruct a as [a'| |r|]; [done|..]; intros _; simpl.
  - destruct (Program.main_step _ _ _) as [[[q' c'] tr]|] eqn:Hs; [|done].
    intros [= <- <-]. simpl.
    destruct (program_main_step_client _ _ _ _ _ _ Hc Hs) as (_ & ? & ? & Hq).
    split_and!; try done. intros i. by rewrite sends_of_stamp, Hq.
  - destruct (Program.main p); try done. intros [= <- <-]. simpl.
    destruct (program_leave_client (System.clock (Program.system p)) retries r
                (System.client (Program.system p))) as [-> Hq].
    split_and!; try done. intros i. by rewrite sends_of_stamp, Hq.
  - destruct (Program.interrupt _); [|done]. by intros [= <- <-].
Qed.

(** An action of the others is a step of the system. *)
Lemma program_act_other (a' : System.action) p p' os :
  Program.act (Program.Other a') p = Some (p', os) →
  System.step a' (Program.system p) = Some (Program.system p', os) ∧
  Program.main p' = Program.main p ∧
  Program.enabled a' (Program.main p) = true.
Proof.
  simpl. destruct (Program.enabled a' _); [|done].
  destruct (System.step a' _) as [[s' os']|]; [|done]. by intros [= <- <-].
Qed.

(** Every action of its own brings the main thread nearer to its end. *)
Lemma program_act_rank a p p' os :
  Program.act a p = Some (p', os) →
  if Program.by_self a
  then Program.main_rank (Program.main p') < Program.main_rank (Program.main p)
  else Program.main p' = Program.main p.
Proof.
  destruct a as [a'| |r|]; cbn [Program.by_self].
  { by intros (_ & ? & _)%program_act_other. }
  all: simpl; destruct (Program.main p) as [n|n|n w|x| |x]; simpl; try done.
  - case_bool_decide as Hn; [|intros [= <- _]; simpl; lia].
    destruct (AudioClient.ws _); [intros [= <- _]; simpl|].
    + unfold Main.max_retries in *. lia.
    + intros [= <- _]. simpl. unfold Main.max_retries in *. lia.
  - destruct (Qle_bool w _); [|done]. intros [= <- _]. simpl. lia.
  - unfold Program.handle. destruct x as [u|e]; [intros [= <- _]; simpl; lia|].
    destruct (is_KeyboardInterrupt e); [|intros [= <- _]; simpl; lia].
    destruct (AudioClient._cleanup _) as [[[u|e'] c'] tr];
      intros [= <- _]; simpl; lia.
  - intros [= <- _]. simpl. lia.
  - rewrite program_leave_unfold. intros [= <- _].
    destruct r as [u|e]; [|destruct (is_Exception e)]; simpl; lia.
  - intros [= <- _]. simpl. lia.
  - intros [= <- _]. simpl. lia.
Qed.

Lemma program_run_rank acts p p' os :
  Program.run acts p = Some (p', os) →
  length (filter (λ a, Program.by_self a = true) acts)
    + Program.main_rank (Program.main p')
  ≤ Program.main_rank (Program.main p).
Proof.
  revert p os. induction acts as [|a acts IH]; intros p os.
  { intros [= <- <-]. simpl. lia. }
  cbn [Program.run]. destruct (Program.step a p) as [[p1 os1]|] eqn:Hs; [|done].
  cbn [mbind option_bind].
  destruct (Program.run acts p1) as [[p2 os2]|] eqn:Hr; [|done].
  cbn [mbind option_bind]. intros [= <- <-].
  apply program_step_act in Hs as [_ Hs]. apply program_act_rank in Hs.
  specialize (IH _ _ Hr). rewrite filter_cons.
  destruct (Program.by_self a); [rewrite decide_True by done; simpl; lia|].
  rewrite decide_False by done. rewrite Hs in IH. lia.
Qed.

(** A step of the system that is not a callback leaves [is_running] as
    it is, and a keepalive thread that is alive stays alive while the
    flag is set. *)
Lemma system_step_alive (a' : System.action) s s' os :
  System.wf s → Program.view_of (Program.Other a') = None →
  System.step a' s = Some (s', os) →
  AudioClient.is_running (System.client s') =
    AudioClient.is_running (System.client s) ∧
  ∀ i q, System.threads s !! i = Some (System.PingT q) →
    AudioClient.is_running (System.client s) = true → q ≠ Keepalive.Exit →
    ∃ q', System.threads s' !! i = Some (System.PingT q') ∧ q' ≠ Keepalive.Exit.
Proof.
  intros [Hc Hth]. destruct a' as [dt|b|ev|k|j]; simpl; try done; intros _.
  - destruct (Qle_bool 0 dt); [|done]. intros [= <- _]. by eauto.
  - destruct (System.capture _ _) as [[r a1]|]; [|done].
    intros [= <- _]. simpl. split; [by destruct (System.client s)|by eauto].
  - intros [= <- _]. simpl. split; [by destruct (System.client s)|by eauto].
  - destruct (System.threads s !! j) as [th|] eqn:Hj; [|done]. simpl.
    destruct (System.thread_step _ _ _) as [[[th1 c1] tr1]|] eqn:Hs; [|done].
    intros [= <- _]. simpl. destruct th as [q0|q0]; simpl in Hs.
    + destruct (SendLoop.step _ _ _) as [[[r c2] tr2]|] eqn:Hs2; [|done].
      injection Hs as <- <- _.
      destruct (send_step_flags _ _ _ _ _ _ Hc Hs2) as [Hr _].
      split; [done|]. intros i q Hi Hrun Hq.
      destruct (decide (i = j)) as [->|Hij]; [congruence|].
      rewrite list_lookup_insert_ne by done. by eauto.
    + destruct (Keepalive.step _ _ _) as [[[r c2] tr2]|] eqn:Hs2; [|done].
      injection Hs as <- <- _.
      destruct (ping_step_client _ _ _ _ _ _ (AudioClient.wf_ws _ Hc) Hs2) as [-> [q1 ->]].
      split; [done|]. intros i q Hi Hrun Hq.
      destruct (decide (i = j)) as [->|Hij];
        [|rewrite list_lookup_insert_ne by done; by eauto].
      rewrite list_lookup_insert_eq by by eapply lookup_lt_Some.
      eexists. split; [done|]. assert (q0 = q) as -> by congruence.
      destruct q as [|w| |]; simpl in Hs2; try done.
      * rewrite Hrun in Hs2. by injection Hs2 as <-.
      * destruct (Qle_bool w _); [|done]. by injection Hs2 as <-.
      * unfold bind in Hs2. rewrite ping_unfold in Hs2 by by destruct Hc.
        destruct (SendLoop.connected _); by injection Hs2 as <-.
Qed.

(** The send thread is paced by [next_send] in the program too. *)
Lemma program_step_sender_paced i a p p1 os :
  System.wf (Program.system p) ∧
    (∃ q, System.threads (Program.system p) !! i = Some (System.SendT q)) →
  Program.step a p = Some (p1, os) →
  (System.wf (Program.system p1) ∧
     ∃ q, System.threads (Program.system p1) !! i = Some (System.SendT q)) ∧
  let next p := System.next_send (System.clock (Program.system p))
                  (System.sender_pc i (Program.system p)) in
  ((System.sends_of i os = [] ∧ (next p <= next p1)%Q) ∨
   (System.sends_of i os = [System.clock (Program.system p)] ∧
    (next p <= System.clock (Program.system p))%Q ∧
    (System.clock (Program.system p) + SendLoop.period <= next p1)%Q)).
Proof.
  intros [Hwf Hi] [_ Hs]%program_step_act.
  destruct (Program.by_self a) eqn:Ha.
  - pose proof (program_act_wf _ _ _ _ Hwf Hs) as Hwf1.
    destruct (program_act_self _ _ _ _ Hwf Ha Hs) as (Hck & Hth & _ & _ & Hq).
    unfold System.sender_pc. rewrite Hck, Hth. split; [done|].
    left. rewrite Hq. split; [done|]. lra.
  - destruct a as [a'| | |]; try done.
    apply program_act_other in Hs as (Hs & _).
    by apply (system_step_sender_paced i a').
Qed.

End program_actions.

(** ** The composition *)

Section program_claims.
Context `{OpusLib} `{JsonLib}.
Implicit Types (p : Program.t) (c : AudioClient.t)
  (acts : list Program.action) (env : Z → Main.attempt) (i : nat).

(** C12: the main thread of the program is [Main.main].  Take any
    schedule of the whole program, from the constructor to the end of the
    main thread, in which the transport does what an environment says:
    the callbacks of each call of [run_forever] in their order, and its
    end.  Whatever the send and keepalive threads, PortAudio and the
    clock do in between, the main thread ends as [Main.main] ends on this
    environment, with the same effects in the same order, and the client
    has the receive side (decoder, playback buffer, streams,
    [is_running]) that [Main.main] leaves. *)
Theorem program_refines_main dev env acts k p0 t0 p' os r :
  Program.boot dev = (Ret p0, t0) →
  Program.view acts =
    Program.script (Z.to_nat Main.max_retries) env 0
      ++ replicate k Program.MStep →
  Program.run acts p0 = Some (p', os) →
  Program.main p' = Program.Exited r →
  ∃ c', Main.main dev env = Some (r, Some c', t0 ++ Program.main_trace os) ∧
        System.client (Program.system p') ≈ᵣ c'.
Proof.
  unfold Program.boot, Main.main.
  destruct (AudioClient.__init__ dev ()) as [[[c|e] []] t0'] eqn:Hinit; [|done].
  intros [= <- <-] Hview Hrun Hend.
  pose proof (client_init_wf _ _ _ Hinit) as Hwf.
  destruct (run_spec env c Hwf) as (x & Hx & Hwfx & _). rewrite Hx.
  destruct (program_run_sim acts (Program.init c) p' os (Program.Test 0) c)
    as (q' & c' & Hrp & Hq & Hc & _); try done.
  rewrite Hend in Hq. simpl in Hq. subst q'.
  rewrite Hview, program_replay_app in Hrp.
  rewrite (program_replay_script (Z.to_nat Main.max_retries) env 0 c x Hwf
             ltac:(by vm_compute) Hx) in Hrp.
  cbn [mbind option_bind] in Hrp.
  destruct (Program.replay (replicate k _) _ _) as [[[q2 c2] t2]|] eqn:Hfin;
    [|done].
  injection Hrp as -> -> <-.
  apply program_replay_finish in Hfin; [|done].
  destruct x as [[rx cx] tx]. simpl in *. rewrite Hfin. by exists c'.
Qed.

(** C20: the main thread ends.  Along every schedule of the program from
    its start, however the transport behaves and whatever the other
    threads do, the main thread takes eighteen actions of its own at
    most: three for each of the five attempts, and three to leave. *)
Theorem program_main_terminates c acts p' os :
  Program.run acts (Program.init c) = Some (p', os) →
  length (filter (λ a, Program.by_self a = true) acts) ≤ 18.
Proof. intros Hr%program_run_rank. simpl in Hr. lia. Qed.

(** Pacing in the whole program.  Along every schedule of the
    program, whatever the main thread does (attempts, failures, back-off,
    the clean-up after an interrupt) and whatever the callbacks do to the
    client, the times at which one send thread has a frame accepted are a
    period or more apart. *)
Lemma program_sends_paced acts p p' os i q :
  System.wf (Program.system p) →
  System.threads (Program.system p) !! i = Some (System.SendT q) →
  Program.run acts p = Some (p', os) →
  System.paced SendLoop.period (System.sends_of i os).
Proof.
  intros Hwf Hi Hr. pose proof period_pos as Hpos.
  eapply (system_run_paced_by Program.step Program.run
            (λ _, eq_refl) (λ _ _ _, eq_refl) i SendLoop.period
            (λ p, System.clock (Program.system p)));
    [lra|apply program_step_sender_paced| |done].
  simpl. by eauto.
Qed.

(** C19: the handler of the entry stops no thread.  From the moment [run]
    has ended, by an interrupt or otherwise, to the end of the process,
    [is_running] keeps its value along every schedule: the clean-up
    releases the devices and closes the socket, and no thread is told to
    stop.  A keepalive thread that is alive while the flag is set is
    alive as long as the process is. *)
Theorem program_interrupt_threads acts p p' os r i q :
  System.wf (Program.system p) → Program.main p = Program.Done r →
  AudioClient.is_running (System.client (Program.system p)) = true →
  System.threads (Program.system p) !! i = Some (System.PingT q) →
  q ≠ Keepalive.Exit →
  Program.run acts p = Some (p', os) →
  AudioClient.is_running (System.client (Program.system p')) = true ∧
  ∃ q', System.threads (Program.system p') !! i = Some (System.PingT q') ∧
        q' ≠ Keepalive.Exit.
Proof.
  intros Hwf Hp. assert (Program.main_rank (Program.main p) ≤ 2) as Hrk
    by by rewrite Hp.
  clear Hp. revert p q os Hwf Hrk.
  induction acts as [|a acts IH]; intros p q os Hwf Hrk Hrun Hi Hq.
  { intros [= <- _]. by eauto. }
  cbn [Program.run]. destruct (Program.step a p) as [[p1 os1]|] eqn:Hs; [|done].
  cbn [mbind option_bind].
  destruct (Program.run acts p1) as [[p2 os2]|] eqn:Hr; [|done].
  cbn [mbind option_bind]. intros [= <- _].
  apply program_step_act in Hs as [_ Hs].
  pose proof (program_act_wf _ _ _ _ Hwf Hs) as Hwf1.
  pose proof (program_act_rank _ _ _ _ Hs) as Hrk1.
  destruct (Program.by_self a) eqn:Ha.
  - destruct (program_act_self _ _ _ _ Hwf Ha Hs) as (_ & Hth & Hr1 & _).
    eapply (IH p1 q); [done|lia|congruence|congruence|done|done].
  - destruct a as [a'| | |]; try done.
    apply program_act_other in Hs as (Hs & Hm & Hen).
    assert (Program.view_of (Program.Other a') = None) as Hv.
    { destruct a' as [| |ev| |]; try done.
      by destruct (Program.main p); simpl in *; try lia. }
    destruct (system_step_alive _ _ _ _ Hwf Hv Hs) as [Hr1 Halive].
    destruct (Halive i q Hi Hrun Hq) as (q1 & Hi1 & Hq1).
    eapply (IH p1 q1); [done|rewrite Hm; lia|congruence|done..].
Qed.

End program_claims.

(** ** Concrete runs with [toy_opus] and [toy_json] *)

(** A connection that opens and is lost, then one that the peer
    closes. *)
Definition env_once : Z → Main.attempt :=
  λ k, if bool_decide (k < 1)%Z
       then Main.mk_attempt [OnOpen; OnError WebSocketException]
              (Raise WebSocketException)
       else Main.mk_attempt [OnOpen; OnClose (Some 1000%Z) None] (Ret tt).

(** The send thread of the first open has taken a block when the error
    is reported; it encodes the block and sends the packet while the
    main thread is in its back-off. *)
Definition sched_program : list Program.action :=
  [Program.Step;
   Program.Other (System.Socket SockConnected);
   Program.Other (System.Callback OnOpen);
   Program.Other (System.Capture frame0);
   Program.Other (System.Run 0); Program.Other (System.Run 0);
   Program.Other (System.Tick (3 # 50));
   Program.Other (System.Run 0); Program.Other (System.Run 0);
   Program.Other (System.Callback (OnError WebSocketException));
   Program.Leave (Raise WebSocketException);
   Program.Other (System.Run 0); Program.Other (System.Run 0);
   Program.Other (System.Tick 2);
   Program.Step; Program.Step;
   Program.Other (System.Callback OnOpen);
   Program.Other (System.Callback (OnClose (Some 1000%Z) None));
   Program.Leave (Ret tt);
   Program.Step].

Example sched_program_run :
  ∃ p' os,
    Program.run sched_program (Program.init client0) = Some (p', os) ∧
    Program.main p' = Program.Exited (Ret tt) ∧
    System.outbox os = [take 720 frame0] ∧
    System.sends_of 0 os = [(0 + (3 # 50))%Q] ∧
    slept (Program.main_trace os) = [inject_Z 2] ∧
    Program.step (Program.Other (System.Run 1)) p' = None.
Proof. eexists _, _. split; [by vm_compute|]. by vm_compute. Qed.

Lemma program_refines_main_witness :
  Program.boot (mk_devices true true) =
    (Ret (Program.init client0), [Log INFO CodecInitOk; Log INFO AudioInitOk]) ∧
  Program.view sched_program =
    Program.script (Z.to_nat Main.max_retries) env_once 0
      ++ replicate 1 Program.MStep ∧
  ∃ p' os c',
    Program.run sched_program (Program.init client0) = Some (p', os) ∧
    Program.main p' = Program.Exited (Ret tt) ∧
    Main.main (mk_devices true true) env_once =
      Some (Ret tt, Some c',
            [Log INFO CodecInitOk; Log INFO AudioInitOk]
              ++ Program.main_trace os) ∧
    System.client (Program.system p') ≈ᵣ c'.
Proof.
  split; [reflexivity|]. split; [reflexivity|].
  destruct (Program.run sched_program (Program.init client0))
    as [[p' os]|] eqn:Hr; [|by vm_compute in Hr].
  assert (Program.main p' = Program.Exited (Ret tt)) as Hend.
  { pose proof Hr as Hv. vm_compute in Hv. by injection Hv as <- _. }
  destruct (program_refines_main (mk_devices true true) env_once sched_program
              1 _ _ p' os (Ret tt) eq_refl eq_refl Hr Hend) as (c' & Hm & Hc).
  exists p', os, c'. split; [reflexivity|]. split; [exact Hend|].
  split; [exact Hm|exact Hc].
Defined.

(** Five failures and an interrupt at the last test of the loop: the
    eighteen actions of the main thread. *)
Definition sched_longest : list Program.action :=
  concat (replicate 5
    [Program.Step; Program.Leave (Raise WebSocketException);
     Program.Other (System.Tick 30); Program.Step])
  ++ [Program.Interrupt; Program.Step; Program.Step].

Lemma program_main_terminates_witness :
  ∃ p' os,
    Program.run sched_longest (Program.init client0) = Some (p', os) ∧
    Program.main p' = Program.Exited (Ret tt) ∧
    length (filter (λ a, Program.by_self a = true) sched_longest) = 18 ∧
    length (filter (λ a, Program.by_self a = true) sched_longest) ≤ 18.
Proof.
  destruct (Program.run sched_longest (Program.init client0))
    as [[p' os]|] eqn:Hr; [|by vm_compute in Hr].
  exists p', os. split; [reflexivity|]. split.
  - pose proof Hr as Hv. vm_compute in Hv. by injection Hv as <- _.
  - split; [reflexivity|].
    exact (program_main_terminates client0 sched_longest p' os Hr).
Defined.

(** The schedule [sched_paced] of one send thread, with the end of
    the call of [run_forever] between its two frames. *)
Definition sched_program_paced : list Program.action :=
  (Program.Other <$> take 7 sched_paced)
  ++ [Program.Leave (Raise WebSocketException)]
  ++ (Program.Other <$> drop 7 sched_paced).

Lemma program_sends_paced_witness :
  System.wf sys_paced ∧
  ∃ p' os,
    Program.run sched_program_paced (Program.mk sys_paced (Program.Running 0))
      = Some (p', os) ∧
    length (System.sends_of 0 os) = 2 ∧
    System.paced SendLoop.period (System.sends_of 0 os).
Proof.
  split; [exact sys_paced_wf|].
  destruct (Program.run sched_program_paced _) as [[p' os]|] eqn:Hr;
    [|by vm_compute in Hr].
  exists p', os. split; [reflexivity|]. split.
  - pose proof Hr as Hv. vm_compute in Hv. injection Hv as _ <-.
    by vm_compute.
  - exact (program_sends_paced sched_program_paced
             (Program.mk sys_paced (Program.Running 0)) p' os 0 SendLoop.Entry
             sys_paced_wf eq_refl Hr).
Defined.

(** An open connection, the two threads at the start of their loops,
    and the main thread interrupted inside [run_forever]. *)
Definition prog_interrupted : Program.t :=
  Program.mk
    (System.mk (client_with SockConnected []) 0
       [System.SendT SendLoop.Entry; System.PingT Keepalive.Test])
    (Program.Done (Raise KeyboardInterrupt)).

(** The keepalive thread goes to sleep, the handler cleans up, the
    thread wakes up and its ping fails, and the thread is at the test of
    its loop again when the main thread ends. *)
Definition sched_interrupted : list Program.action :=
  [Program.Other (System.Run 1); Program.Step;
   Program.Other (System.Tick 25);
   Program.Other (System.Run 1); Program.Other (System.Run 1);
   Program.Other (System.Run 1)].

Lemma prog_interrupted_wf : System.wf (Program.system prog_interrupted).
Proof.
  split; [apply client_with_wf; simpl; lia|]. repeat constructor.
Qed.

Lemma program_interrupt_threads_witness :
  ∃ p' os,
    Program.run sched_interrupted prog_interrupted = Some (p', os) ∧
    System.what <$> os =
      [Slept 25; Log INFO AudioReleased; Log INFO ResourcesReleased;
       Log WARNING (PingFailed WebSocketException); Slept 25] ∧
    AudioClient.is_running (System.client (Program.system p')) = true ∧
    ∃ q', System.threads (Program.system p') !! 1 = Some (System.PingT q') ∧
          q' ≠ Keepalive.Exit.
Proof.
  destruct (Program.run sched_interrupted prog_interrupted)
    as [[p' os]|] eqn:Hr; [|by vm_compute in Hr].
  exists p', os. split; [reflexivity|]. split.
  - pose proof Hr as Hv. vm_compute in Hv. injection Hv as _ <-.
    by vm_compute.
  - exact (program_interrupt_threads sched_interrupted prog_interrupted p' os
             (Raise KeyboardInterrupt) 1 Keepalive.Test prog_interrupted_wf
             eq_refl eq_refl eq_refl ltac:(done) Hr).
Defined.
