(* ===== verification/Spec.v ===== *)
(** * The specification's bounded queue and the capture queue

    Section 4.1 of spec.md describes a [BoundedFrameQueue]: [offer] inserts
    when capacity remains and otherwise drops the frame and counts the
    drop; [take] removes the oldest frame.  This file states it as an
    abstract machine and relates the capture queue of [AudioIO]
    ([_input_callback], lines 99-102, and [get_input_frame], lines
    104-106) to it: the code completes exactly the schedules on which the
    abstract queue drops nothing, and on those it returns what the
    abstract queue returns. *)

From S2P Require Import Prelude Python Config Containers Codec AudioIO.

(** ** The abstract machine (spec.md, section 4.1) *)

Module BoundedFrameQueue.

Record t : Type := mk {
  capacity : nat;
  frames : list bytes;
  dropped : nat;            (* the counter of dropped frames *)
}.

Definition offer (frame : bytes) (q : t) : t :=
  if decide (length (frames q) < capacity q)
  then mk (capacity q) (frames q ++ [frame]) (dropped q)
  else mk (capacity q) (frames q) (S (dropped q)).

Definition take (q : t) : option bytes * t :=
  match frames q with
  | [] => (None, q)
  | frame :: rest => (Some frame, mk (capacity q) rest (dropped q))
  end.

(** The queue under a call of the audio component: the capture callback
    offers, [get_input_frame] takes, the other calls leave it alone. *)
Definition step (op : io_op) (q : t) : option bytes * t :=
  match op with
  | Capture in_data => (None, offer in_data q)
  | Take => take q
  | Play _ | Release => (None, q)
  end.

(** The frames taken along a schedule, and the queue after it. *)
Fixpoint run (ops : list io_op) (q : t) : list bytes * t :=
  match ops with
  | [] => ([], q)
  | op :: ops' =>
      let '(o, q1) := step op q in
      let '(taken, q2) := run ops' q1 in
      (option_list o ++ taken, q2)
  end.

(** The size never exceeds the capacity. *)
Definition wf (q : t) : Prop := length (frames q) ≤ capacity q.

End BoundedFrameQueue.

(** The abstract queue that the capture queue stands for, [d] frames
    having been dropped. *)
Definition queue_abs (d : nat) (a : AudioIO.t) : BoundedFrameQueue.t :=
  BoundedFrameQueue.mk
    (Z.to_nat (Queue.maxsize (AudioIO.input_queue a)))
    (Queue.items (AudioIO.input_queue a)) d.

(** ** The abstract machine does what section 8 of spec.md tests *)

Section bounded_queue.
Implicit Types (q : BoundedFrameQueue.t) (frame : bytes) (ops : list io_op).

Lemma bfq_offer_wf frame q :
  BoundedFrameQueue.wf q → BoundedFrameQueue.wf (BoundedFrameQueue.offer frame q).
Proof.
  unfold BoundedFrameQueue.wf, BoundedFrameQueue.offer.
  case_decide; simpl; rewrite ?length_app; simpl; lia.
Qed.

Lemma bfq_offer_dropped frame q :
  BoundedFrameQueue.dropped q
    ≤ BoundedFrameQueue.dropped (BoundedFrameQueue.offer frame q).
Proof. unfold BoundedFrameQueue.offer. case_decide; simpl; lia. Qed.

Lemma bfq_step_dropped op q :
  BoundedFrameQueue.dropped q
    ≤ BoundedFrameQueue.dropped (BoundedFrameQueue.step op q).2.
Proof.
  destruct op as [b| |o|]; simpl; [apply bfq_offer_dropped| |done|done].
  unfold BoundedFrameQueue.take. by destruct (BoundedFrameQueue.frames q).
Qed.

Lemma bfq_run_dropped ops q :
  BoundedFrameQueue.dropped q
    ≤ BoundedFrameQueue.dropped (BoundedFrameQueue.run ops q).2.
Proof.
  revert q. induction ops as [|op ops IH]; intros q; simpl; [done|].
  pose proof (bfq_step_dropped op q) as Hs.
  destruct (BoundedFrameQueue.step op q) as [o q1].
  specialize (IH q1). destruct (BoundedFrameQueue.run ops q1) as [tk q2].
  simpl in *. lia.
Qed.

(** Of [n] frames offered to an empty queue of capacity [c] the first
    [c] are kept, in order, and the others are counted as dropped. *)
Lemma bfq_offer_all (fs : list bytes) q :
  BoundedFrameQueue.wf q →
  let q' := foldl (λ q frame, BoundedFrameQueue.offer frame q) q fs in
  BoundedFrameQueue.frames q' =
    take (BoundedFrameQueue.capacity q) (BoundedFrameQueue.frames q ++ fs) ∧
  BoundedFrameQueue.dropped q' + length (BoundedFrameQueue.frames q') =
    BoundedFrameQueue.dropped q + length (BoundedFrameQueue.frames q)
      + length fs ∧
  BoundedFrameQueue.capacity q' = BoundedFrameQueue.capacity q.
Proof.
  cbv zeta. revert q. induction fs as [|frame fs IH]; intros q Hwf; simpl.
  { rewrite app_nil_r, take_ge by done. split_and!; [done|lia|done]. }
  destruct (IH _ (bfq_offer_wf frame q Hwf)) as (-> & -> & ->).
  unfold BoundedFrameQueue.wf in Hwf. unfold BoundedFrameQueue.offer.
  case_decide; simpl; rewrite ?length_app; simpl.
  - split_and!; [|lia|done]. by rewrite <- app_assoc.
  - split_and!; [|lia|done]. by rewrite !take_app_le by lia.
Qed.

End bounded_queue.

(** ** The capture queue implements it where it drops nothing *)

Section queue_refinement.
Implicit Types (a : AudioIO.t) (ops : list io_op) (d : nat).

Lemma queue_abs_ext d a a' :
  AudioIO.input_queue a' = AudioIO.input_queue a →
  queue_abs d a' = queue_abs d a.
Proof. unfold queue_abs. by intros ->. Qed.

(** A queue that is full for the code has no capacity left for the
    specification, and conversely. *)
Lemma queue_full_abs d a :
  AudioIO.wf a →
  Queue.full (AudioIO.input_queue a) = true ↔
  ¬ length (BoundedFrameQueue.frames (queue_abs d a))
      < BoundedFrameQueue.capacity (queue_abs d a).
Proof.
  intros [Hmax _ _ _ _ _]. unfold Queue.full, Queue.qsize. simpl.
  rewrite Hmax, bool_decide_eq_true. unfold MAX_QUEUE_SIZE. lia.
Qed.

(** One call: the code does what the abstract queue does, or it is a
    callback that waits where the abstract queue drops. *)
Lemma audio_io_step_refines op a d :
  AudioIO.wf a →
  match io_step op a with
  | Some (o, _, a', _) => BoundedFrameQueue.step op (queue_abs d a) = (o, queue_abs d a')
  | None => (BoundedFrameQueue.step op (queue_abs d a)).2 = queue_abs (S d) a
  end.
Proof.
  intros Hwf. destruct op as [b| |o|]; unfold io_step.
  - destruct (queue_full_abs d a Hwf) as [Hf1 Hf2].
    rewrite audio_input_callback_unfold. simpl.
    unfold BoundedFrameQueue.offer.
    destruct (Queue.full _); simpl; case_decide; try done; exfalso;
      [by apply Hf1|by discriminate Hf2].
  - rewrite audio_get_input_frame_unfold. simpl.
    unfold BoundedFrameQueue.take, queue_abs. simpl.
    destruct (Queue.items _) eqn:Hq; simpl; by rewrite ?Hq.
  - simpl. f_equal. symmetry. apply queue_abs_ext, audio_play_output_queue.
  - simpl. f_equal. symmetry. apply queue_abs_ext, audio_release_queue.
Qed.

(** C23: the capture queue implements the specification's bounded queue
    on the schedules that overflow nothing, and on no other.  A schedule
    of calls of the audio component completes exactly when the abstract
    queue drops no frame along it; then [get_input_frame] returned the
    frames that [take] returns and the queue holds the frames that the
    abstract queue holds.  When the abstract queue drops a frame, a
    capture callback of the schedule does not complete. *)
Theorem audio_queue_refines ops a d :
  AudioIO.wf a →
  match run_io ops a with
  | Some r =>
      BoundedFrameQueue.run ops (queue_abs d a)
        = (io_taken r, queue_abs d (io_state r))
  | None =>
      d < BoundedFrameQueue.dropped (BoundedFrameQueue.run ops (queue_abs d a)).2
  end.
Proof.
  revert a. induction ops as [|op ops IH]; intros a Hwf; simpl; [done|].
  pose proof (audio_io_step_refines op a d Hwf) as Hs.
  destruct (io_step op a) as [[[[o e] a1] tr]|] eqn:Hst; simpl.
  - rewrite Hs. specialize (IH a1 (audio_io_step_wf _ _ _ _ _ _ Hwf Hst)).
    destruct (run_io ops a1) as [r1|]; simpl.
    + by rewrite IH.
    + by destruct (BoundedFrameQueue.run ops _).
  - destruct (BoundedFrameQueue.step op _) as [o q1]. simpl in Hs. subst q1.
    pose proof (bfq_run_dropped ops (queue_abs (S d) a)) as Hd.
    destruct (BoundedFrameQueue.run ops _) as [tk q2]. simpl in *. lia.
Qed.

End queue_refinement.

(** ** Concrete runs *)

Lemma audio_queue_refines_witness :
  AudioIO.wf audio0 ∧
  ∃ r, run_io sched1 audio0 = Some r ∧
       BoundedFrameQueue.run sched1 (queue_abs 0 audio0)
         = (io_taken r, queue_abs 0 (io_state r)).
Proof.
  split; [exact audio0_wf|].
  pose proof (audio_queue_refines sched1 audio0 0 audio0_wf) as Hr.
  destruct (run_io sched1 audio0) as [r|]; [|vm_compute in Hr; lia].
  exists r. split; [reflexivity|exact Hr].
Defined.

(** Thirty-one captures with no consumer: the abstract queue drops the
    last block, the thirty-first callback of the code does not
    complete. *)
Example audio_queue_overflow_run :
  run_io (Capture <$> replicate 31 blk1) audio0 = None ∧
  BoundedFrameQueue.dropped
    (BoundedFrameQueue.run (Capture <$> replicate 31 blk1)
       (queue_abs 0 audio0)).2 = 1.
Proof. split; by vm_compute. Qed.
