(* ===== verification/Pacer.v ===== *)
(** * The specification's frame pacer and the send loop

    Section 4.2 of spec.md describes a [FramePacer]: it keeps the time of
    the last send; a cycle waits until a period has passed since then,
    takes one frame from the input queue without blocking, skips the
    cycle when there is none, encodes the frame, sends the packet, and
    sets the time of the last send when the send succeeded; a frame that
    cannot be encoded or sent is dropped and the loop goes on.  This file
    states the pacer as an abstract machine over the codec boundary and
    the transport boundary, and relates one iteration of [_send_loop]
    (lines 170-185) to one of its cycles: the wait is the same, and on a
    block that is not empty the iteration takes, encodes and sends what
    the cycle does; where a send is refused the cycle goes on and the
    thread ends. *)

From Stdlib Require Import Lqa Qround.
From S2P Require Import Prelude Python Config Containers Codec AudioIO.
From S2P Require Import Transport Client SendLoop Spec.

(** ** The abstract machine (spec.md, section 4.2) *)

Module FramePacer.
Section pacer.

(** The codec boundary: the packet of a frame, or none on an
    [EncodeError]. *)
Variable encode : bytes → option bytes.

Record t : Type := mk {
  lastSendTime : Q;
  queue : BoundedFrameQueue.t;
}.

(** How a cycle ends. *)
Inductive outcome : Type :=
| Skipped                   (* no frame was available *)
| EncodeFailed              (* the frame is dropped *)
| SendFailed                (* the frame is dropped *)
| Sent (packet : bytes).

(** The suspension of a cycle that starts at [now]. *)
Definition wait (period now : Q) (p : t) : Q :=
  let elapsed := (now - lastSendTime p)%Q in
  if Qle_bool period elapsed then 0%Q else (period - elapsed)%Q.

(** A cycle after its wait, at [now], on a transport that accepts the
    message or refuses it. *)
Definition cycle (accepts : bool) (now : Q) (p : t) : outcome * t :=
  match BoundedFrameQueue.take (queue p) with
  | (None, _) => (Skipped, p)
  | (Some frame, q) =>
      match encode frame with
      | None => (EncodeFailed, mk (lastSendTime p) q)
      | Some packet =>
          if accepts then (Sent packet, mk now q)
          else (SendFailed, mk (lastSendTime p) q)
      end
  end.

(** What a cycle puts on the wire. *)
Definition sent_of (o : outcome) : list bytes :=
  match o with Sent packet => [packet] | _ => [] end.

(** The cycles of a loop that is woken at the times [nows], on a
    transport that accepts every message: the packets sent with their
    times, and the pacer after them.  A cycle that comes before its time
    waits until its time. *)
Fixpoint run (period : Q) (nows : list Q) (p : t) : list (Q * bytes) * t :=
  match nows with
  | [] => ([], p)
  | now :: nows' =>
      let at_ := (now + wait period now p)%Q in
      let '(o, p1) := cycle true at_ p in
      let '(out, p2) := run period nows' p1 in
      (((λ b, (at_, b)) <$> sent_of o) ++ out, p2)
  end.

End pacer.
End FramePacer.

(** ** The pacer that a send thread stands for *)

Section pacer_abs.
Context `{OpusLib} `{JsonLib}.

(** The codec boundary at a state of the encoder: the packet that the
    library returns, none when it raises. *)
Definition encode_at (enc : Encoder) (pcm : bytes) : option bytes :=
  match (Encoder_encode pcm CHUNK enc).1 with
  | Ret opus => Some opus
  | Raise _ => None
  end.

(** The abstract pacer of a send thread whose last send was at
    [last_send], [d] frames having been dropped by the queue. *)
Definition pacer_abs (last_send : Q) (d : nat) (c : AudioClient.t)
    : FramePacer.t :=
  FramePacer.mk last_send (queue_abs d (AudioClient.audio c)).

(** A client on whose oldest block Python and the specification agree:
    the block is not empty, its packet is not empty, and the library
    raises nothing but [OpusError]. *)
Definition regular (c : AudioClient.t) : Prop :=
  match Queue.items (AudioIO.input_queue (AudioClient.audio c)) with
  | [] => True
  | pcm :: _ =>
      let enc := OpusCodec.encoder (AudioClient.codec c) in
      truthy pcm = true ∧ SendLoop.encode_escape pcm enc = None ∧
      ∀ opus, encode_at enc pcm = Some opus → truthy opus = true
  end.

(** Where the thread is after an iteration whose cycle ended with [o]:
    a refused send ends the thread. *)
Definition pc_after (last_send : Q) (o : FramePacer.outcome) : SendLoop.pc :=
  match o with
  | FramePacer.Sent _ => SendLoop.Stamp
  | FramePacer.SendFailed => SendLoop.Exit
  | _ => SendLoop.Test last_send
  end.

End pacer_abs.

(** ** One iteration is one cycle *)

Section pacer_refines.
Context `{OpusLib} `{JsonLib}.
Implicit Types (c : AudioClient.t) (l now : Q) (d : nat).

(** The test of the code's [if sleep_time > 0] is the test of the
    specification's [if elapsed < period]. *)
Lemma sleep_time_wait now l :
  Qle_bool (SendLoop.sleep_time now l) 0 = Qle_bool SendLoop.period (now - l).
Proof.
  unfold SendLoop.sleep_time.
  destruct (Qle_bool SendLoop.period (now - l)) eqn:Hle.
  - apply Qle_bool_iff in Hle. apply Qle_bool_iff. lra.
  - destruct (Qle_bool (_ - _) 0) eqn:Hle'; [|done].
    apply Qle_bool_iff in Hle'.
    assert (Qle_bool SendLoop.period (now - l) = true) as Hc
      by (apply Qle_bool_iff; lra).
    congruence.
Qed.

(** The iteration in closed form. *)
Lemma send_iteration_unfold l c :
  AudioClient.wf c →
  SendLoop.iteration l c =
  let '(r, c', tr) := SendLoop.transmit c in
  match r with
  | Ret sent =>
      (Ret (if sent : bool then SendLoop.Stamp else SendLoop.Test l), c', tr)
  | Raise e =>
      if is_Exception e
      then (Ret SendLoop.Exit, c', tr ++ [Log ERROR (SendFailed e)])
      else (Raise e, c', tr)
  end.
Proof.
  intros Hwf. unfold SendLoop.iteration, SendLoop.guarded, try_except, bind.
  destruct (SendLoop.transmit c) as [[[sent|e] c'] tr]; simpl.
  - by rewrite app_nil_r.
  - by destruct (is_Exception e).
Qed.

(** C14: one iteration of the send loop is one cycle of the
    specification's pacer.  At the test of its loop the thread sleeps
    exactly when the pacer waits, and as long.  After the wait, on a
    block that is not empty and whose packet is not empty, the iteration
    leaves the queue that the cycle leaves and puts on the wire what the
    cycle sends; the thread is about to set its time stamp when the
    cycle has sent, and at the test of its loop with the old time stamp
    when the cycle skipped or could not encode.  When the transport
    refuses the packet the cycle goes on to the next frame, and the
    thread has ended. *)
Theorem send_iteration_refines_pacer now l d c :
  AudioClient.wf c → AudioClient.is_running c = true → regular c →
  let p := pacer_abs l d c in
  let w := FramePacer.wait SendLoop.period now p in
  let x := SendLoop.iteration l c in
  let y := FramePacer.cycle (encode_at (OpusCodec.encoder (AudioClient.codec c)))
             (SendLoop.connected c) now p in
  SendLoop.step now (SendLoop.Test l) c =
    Some (if Qle_bool SendLoop.period (now - l)
          then (Ret (SendLoop.Awake l), c, [])
          else (Ret (SendLoop.Asleep l (now + w)), c, [Slept w])) ∧
  result_of x = Ret (pc_after l y.1) ∧
  SendLoop.payloads (trace_of x) = FramePacer.sent_of y.1 ∧
  queue_abs d (AudioClient.audio (state_of x)) = FramePacer.queue y.2.
Proof.
  intros Hwf Hrun Hreg. cbv zeta. split.
  { simpl. rewrite Hrun, sleep_time_wait. unfold FramePacer.wait. simpl.
    by destruct (Qle_bool SendLoop.period (now - l)). }
  rewrite send_iteration_unfold, transmit_unfold by done.
  unfold regular, encode_at, SendLoop.encode_escape in Hreg.
  unfold FramePacer.cycle, pacer_abs, encode_at, BoundedFrameQueue.take. simpl.
  destruct (Queue.items _) as [|pcm rest] eqn:Hq; [done|].
  destruct Hreg as (-> & Hesc & Hopus).
  destruct (Encoder_encode _ _ _) as [[opus|e] enc]; simpl in *.
  - rewrite (Hopus opus eq_refl).
    by destruct (SendLoop.connected c).
  - by destruct (is_OpusError e).
Qed.

End pacer_refines.

(** ** The pacer of the specification does not make up for lateness *)

Section pacer_drift.
Implicit Types (p : FramePacer.t) (period now : Q).

(** A cycle that comes late sends at once, and the next cycle waits a
    whole period from then: the time lost is not given back. *)
Lemma pacer_wait_after_send period now now' p q :
  (0 <= period)%Q → (now <= now')%Q →
  FramePacer.lastSendTime q = now →
  (now + period <= now' + FramePacer.wait period now' q)%Q.
Proof.
  intros Hp Hle Hq. unfold FramePacer.wait. rewrite Hq.
  destruct (Qle_bool period (now' - now)) eqn:Hb; [|lra].
  apply Qle_bool_iff in Hb. lra.
Qed.

End pacer_drift.

(** ** Concrete runs with [toy_opus] and [toy_json] *)

(** Twelve frames queued and a loop that is woken 10 ms late each
    time: the packets leave 70 ms apart, so that after 840 ms the pacer
    of the specification has sent twelve frames, where section 8 asks
    for [floor (T / P) - 1], thirteen, or more. *)
Example pacer_drift_run :
  let nows := (λ k, Qmake (7 * Z.of_nat k) 100) <$> seq 1 12 in
  let p := FramePacer.mk 0
             (BoundedFrameQueue.mk 30 (replicate 12 [Byte.x01]) 0) in
  fst <$> (FramePacer.run Some (3 # 50) nows p).1 = nows ∧
  (Qfloor ((84 # 100) / (3 # 50)) - 1 = 13)%Z.
Proof. split; reflexivity. Qed.

Lemma send_iteration_refines_pacer_witness :
  let c := client_with SockConnected [frame0] in
  let p := pacer_abs 0 0 c in
  let w := FramePacer.wait SendLoop.period (1 # 100) p in
  let x := SendLoop.iteration 0 c in
  let y := FramePacer.cycle (encode_at (OpusCodec.encoder (AudioClient.codec c)))
             (SendLoop.connected c) (1 # 100) p in
  (AudioClient.wf c ∧ AudioClient.is_running c = true ∧ regular c) ∧
  SendLoop.step (1 # 100) (SendLoop.Test 0) c =
    Some (if Qle_bool SendLoop.period ((1 # 100) - 0)
          then (Ret (SendLoop.Awake 0), c, [])
          else (Ret (SendLoop.Asleep 0 ((1 # 100) + w)), c, [Slept w])) ∧
  result_of x = Ret (pc_after 0 y.1) ∧
  SendLoop.payloads (trace_of x) = FramePacer.sent_of y.1 ∧
  queue_abs 0 (AudioClient.audio (state_of x)) = FramePacer.queue y.2.
Proof.
  assert (Hwf : AudioClient.wf (client_with SockConnected [frame0]))
    by (apply client_with_wf; simpl; lia).
  assert (Hreg : regular (client_with SockConnected [frame0])).
  { split; [done|]. split; [done|]. intros opus [= <-]. by vm_compute. }
  cbv zeta. split; [by split_and!|].
  exact (send_iteration_refines_pacer (1 # 100) 0 0 _ Hwf eq_refl Hreg).
Defined.

(** The cycle of the witness: the thread sleeps the 50 ms that are left
    of the period, and the packet of the block is sent. *)
Example send_cycle_run :
  let c := client_with SockConnected [frame0] in
  FramePacer.wait SendLoop.period (1 # 100) (pacer_abs 0 0 c) == 5 # 100 ∧
  (FramePacer.cycle (encode_at (OpusCodec.encoder (AudioClient.codec c)))
     (SendLoop.connected c) (6 # 100) (pacer_abs 0 0 c)).1 =
    FramePacer.Sent (take 720 frame0) ∧
  SendLoop.payloads (trace_of (SendLoop.iteration 0 c)) = [take 720 frame0].
Proof. by vm_compute. Qed.

(** The same block on a socket that is down: the cycle of the pacer
    drops the frame and goes on, the thread logs the failure and ends. *)
Example send_refused_run :
  let c := client_with SockBroken [frame0] in
  (FramePacer.cycle (encode_at (OpusCodec.encoder (AudioClient.codec c)))
     (SendLoop.connected c) 1 (pacer_abs 0 0 c)).1 = FramePacer.SendFailed ∧
  result_of (SendLoop.iteration 0 c) = Ret SendLoop.Exit ∧
  logged ERROR (trace_of (SendLoop.iteration 0 c)) =
    [SendFailed WebSocketException].
Proof. by vm_compute. Qed.
