(* ===== verification/Dispatcher.v ===== *)
(** * The specification's inbound dispatcher and [_on_message]

    Section 4.4 of spec.md describes an [InboundDispatcher]: a binary
    message is decoded and the frame is delivered to the playback sink, in
    arrival order; a text message is parsed, and a stop directive empties
    the audio that is buffered and not yet played; a message that cannot
    be decoded or parsed is logged and dropped, and nothing is fatal.
    This file states the dispatcher as an abstract machine over the codec
    boundary and the parser, and relates [_on_message] (lines 196-217)
    to it: on the messages that the code takes without raising, and
    while the output stream is active, the callbacks of a sequence of
    messages play what the dispatcher delivers, leave the decoder that
    the dispatcher leaves, and empty [output_buffer] where the dispatcher
    clears. *)

From S2P Require Import Prelude Python Config Containers Codec AudioIO.
From S2P Require Import Transport Client Protocol.

(** ** The abstract machine (spec.md, section 4.4) *)

Module InboundDispatcher.
Section dispatcher.
Context {D : Type}.

(** The codec boundary, on the state [D] of the decoder, and the parser
    of the control messages: [None] is a failure. *)
Variables (decode : bytes → D → option bytes * D)
  (parse : string → option json).

(** What the dispatcher does with a message. *)
Inductive output : Type :=
| Played (frame : bytes)   (* delivered to the playback sink *)
| Dropped                  (* could not be decoded or parsed: logged *)
| Cleared                  (* a stop directive: the buffer is emptied *)
| Ignored.                 (* any other control message *)

Record t : Type := mk {
  codec : D;
  buffered : list bytes;   (* audio that is not yet played *)
}.

(** The recognized shape of section 6: [{type: "tts", state: "stop"}]. *)
Definition is_stop (v : json) : bool :=
  match v with
  | JObj m =>
      json_eq_str (default JNull (dict_get "type" m)) "tts" &&
      json_eq_str (default JNull (dict_get "state" m)) "stop"
  | _ => false
  end.

Definition dispatch (message : payload) (st : t) : output * t :=
  match message with
  | PBytes b =>
      let '(r, k) := decode b (codec st) in
      (match r with Some frame => Played frame | None => Dropped end,
       mk k (buffered st))
  | PStr text =>
      match parse text with
      | None => (Dropped, st)
      | Some v =>
          if is_stop v then (Cleared, mk (codec st) []) else (Ignored, st)
      end
  end.

(** The messages of a session, in arrival order. *)
Fixpoint run (messages : list payload) (st : t) : list output * t :=
  match messages with
  | [] => ([], st)
  | message :: messages' =>
      let '(o, st1) := dispatch message st in
      let '(os, st2) := run messages' st1 in
      (o :: os, st2)
  end.

(** The frames delivered to the playback sink. *)
Definition sink (os : list output) : list bytes :=
  omap (λ o, match o with Played frame => Some frame | _ => None end) os.

End dispatcher.
Arguments output : clear implicits.
End InboundDispatcher.

(** ** The dispatcher that a client stands for *)

Section dispatcher_abs.
Context `{OpusLib} `{JsonLib}.

(** The codec boundary: the block that the library returns, none when
    it raises. *)
Definition decode_at (opus : bytes) (dec : Decoder) : option bytes * Decoder :=
  let '(r, dec') := Decoder_decode opus CHUNK dec in
  (match r with Ret pcm => Some pcm | Raise _ => None end, dec').

(** The parser: the value that [json.loads] returns, none when it
    raises. *)
Definition parse_at (text : string) : option json :=
  match json_loads text with
  | Ret v => Some v
  | Raise _ => None
  end.

(** The abstract dispatcher of a client.  Every block is handed to the
    device when it is decoded, so no audio waits to be played. *)
Definition dispatcher_abs (c : AudioClient.t) : InboundDispatcher.t :=
  InboundDispatcher.mk (OpusCodec.decoder (AudioClient.codec c)) [].

(** A message on which Python and the specification agree: a frame is
    decoded to a block that is not empty or refused with [OpusError]; a
    text is a control message or is refused with [JSONDecodeError]. *)
Definition regular_msg (message : payload) (c : AudioClient.t) : Prop :=
  match message with
  | PBytes opus =>
      match (Decoder_decode opus CHUNK (OpusCodec.decoder (AudioClient.codec c))).1 with
      | Ret pcm => truthy pcm = true
      | Raise e => is_OpusError e = true
      end
  | PStr text =>
      match json_loads text with
      | Ret v => Protocol.control v
      | Raise e => is_JSONDecodeError e = true
      end
  end.

(** The messages of a session are regular, each on the client that the
    messages before it leave. *)
Fixpoint regular_run (messages : list payload) (c : AudioClient.t) : Prop :=
  match messages with
  | [] => True
  | message :: messages' =>
      regular_msg message c ∧
      regular_run messages' (state_of (AudioClient._on_message message c))
  end.

(** The failures that a trace records. *)
Definition failures_logged (tr : trace) : list log_msg :=
  logged ERROR tr ++ logged WARNING tr.

End dispatcher_abs.

(** ** [_on_message] is the dispatcher *)

Section dispatcher_refines.
Context `{OpusLib} `{JsonLib}.
Implicit Types (c : AudioClient.t) (message : payload) (v : json).

(** The stop directive of the specification is the one of the code. *)
Lemma dispatcher_is_stop v :
  InboundDispatcher.is_stop v = AudioClient.is_stop_directive v.
Proof.
  destruct v as [| | | | | |m]; try done. simpl.
  by destruct (dict_get "state" m).
Qed.

(** One message. *)
Lemma on_message_dispatch message c :
  AudioClient.wf c →
  AudioIO.output_stream (AudioClient.audio c) = Stream.Active →
  regular_msg message c →
  let x := AudioClient._on_message message c in
  let y := InboundDispatcher.dispatch decode_at parse_at message
             (dispatcher_abs c) in
  result_of x = Ret tt ∧
  played (trace_of x) = InboundDispatcher.sink [y.1] ∧
  dispatcher_abs (state_of x) = y.2 ∧
  (failures_logged (trace_of x) ≠ [] ↔ y.1 = InboundDispatcher.Dropped) ∧
  (y.1 = InboundDispatcher.Cleared →
   Deque.items (AudioIO.output_buffer (AudioClient.audio (state_of x))) = []) ∧
  AudioIO.output_stream (AudioClient.audio (state_of x)) = Stream.Active.
Proof.
  intros Hwf Ha Hreg. destruct message as [opus|text]; cbv zeta;
    unfold AudioClient._on_message.
  - rewrite client_handle_audio_unfold by by rewrite Ha.
    unfold decode_at, dispatcher_abs. simpl in *.
    destruct (Decoder_decode _ _ _) as [[pcm|e] dec]; simpl in *.
    + rewrite Hreg. destruct pcm as [|b pcm]; [done|].
      rewrite audio_play_output_unfold, Ha by done. simpl.
      by split_and!.
    + rewrite Hreg. simpl. by split_and!.
  - rewrite client_handle_control_unfold. unfold parse_at. simpl in *.
    destruct (json_loads text) as [v|e]; simpl in *.
    + apply is_control_spec, control_escape_None in Hreg. rewrite Hreg.
      rewrite dispatcher_is_stop.
      destruct (AudioClient.is_stop_directive v); simpl; by split_and!.
    + rewrite Hreg. simpl. by split_and!.
Qed.

Lemma dispatcher_sink_cons o os :
  InboundDispatcher.sink (o :: os) =
  InboundDispatcher.sink [o] ++ InboundDispatcher.sink os.
Proof. by destruct o. Qed.

(** C15: the callbacks of a sequence of messages are a run of the
    specification's dispatcher.  On a client whose output stream is
    active, and for messages that are regular (every frame is decoded to
    a block that is not empty or refused by the decoder, every text is a
    control message or is refused by the parser), no callback raises, the
    blocks handed to the device are the frames that the dispatcher
    delivers to the sink, in arrival order, the decoder is left as the
    dispatcher leaves it, and [output_buffer] is empty when the last
    message is a stop directive. *)
Theorem messages_refine_dispatcher (messages : list payload) c :
  AudioClient.wf c →
  AudioIO.output_stream (AudioClient.audio c) = Stream.Active →
  regular_run messages c →
  let x := AudioClient.run_events (OnMessage <$> messages) c in
  let y := InboundDispatcher.run decode_at parse_at messages
             (dispatcher_abs c) in
  AudioClient.run_raised x = [] ∧
  played (AudioClient.run_trace x) = InboundDispatcher.sink y.1 ∧
  dispatcher_abs (AudioClient.run_state x) = y.2 ∧
  (last y.1 = Some InboundDispatcher.Cleared →
   Deque.items
     (AudioIO.output_buffer (AudioClient.audio (AudioClient.run_state x))) = []).
Proof.
  cbv zeta. revert c.
  induction messages as [|message messages IH]; intros c Hwf Ha Hreg; [done|].
  destruct Hreg as [Hm Hreg].
  destruct (on_message_dispatch message c Hwf Ha Hm)
    as (Hres & Hpl & Habs & _ & Hclr & Ha1).
  pose proof (client_dispatch_state (OnMessage message) c Hwf) as [Hwf1 _].
  change (AudioClient.dispatch (OnMessage message) c)
    with (AudioClient._on_message message c) in Hwf1.
  specialize (IH _ Hwf1 Ha1 Hreg) as (IHr & IHp & IHa & IHc).
  cbn [fmap list_fmap AudioClient.run_events InboundDispatcher.run
       AudioClient.run_raised AudioClient.run_trace AudioClient.run_state].
  change (AudioClient.dispatch (OnMessage message) c)
    with (AudioClient._on_message message c).
  destruct (InboundDispatcher.dispatch _ _ message _) as [o st1] eqn:Hd.
  cbn [fst snd] in *. rewrite Habs in IHp, IHa, IHc.
  destruct (InboundDispatcher.run _ _ messages st1) as [os st2] eqn:Hr.
  cbn [fst snd] in *.
  rewrite Hres, played_app, Hpl, IHr, IHp, (dispatcher_sink_cons o os).
  split_and!; [done..|].
  destruct os as [|o' os]; [|by apply IHc].
  intros [= ->]. destruct messages; [by apply Hclr|].
  simpl in Hr. by repeat case_match.
Qed.

End dispatcher_refines.

(** ** Concrete runs with [toy_opus] and [toy_json] *)

(** A frame, a start directive, a frame that the decoder refuses, text
    that is not JSON, a frame, a stop directive. *)
Definition inbound1 : list payload :=
  [PBytes blk1; PStr "start"; PBytes []; PStr "not json"; PBytes blk2;
   PStr "stop"].

Lemma messages_refine_dispatcher_witness :
  let x := AudioClient.run_events (OnMessage <$> inbound1) client0 in
  let y := InboundDispatcher.run decode_at parse_at inbound1
             (dispatcher_abs client0) in
  (AudioClient.wf client0 ∧
   AudioIO.output_stream (AudioClient.audio client0) = Stream.Active ∧
   regular_run inbound1 client0) ∧
  AudioClient.run_raised x = [] ∧
  played (AudioClient.run_trace x) = InboundDispatcher.sink y.1 ∧
  dispatcher_abs (AudioClient.run_state x) = y.2 ∧
  (last y.1 = Some InboundDispatcher.Cleared →
   Deque.items
     (AudioIO.output_buffer (AudioClient.audio (AudioClient.run_state x))) = []).
Proof.
  assert (Hreg : regular_run inbound1 client0).
  { unfold inbound1. cbn [regular_run].
    split_and!; try by vm_compute.
    all: apply is_control_spec; by vm_compute. }
  cbv zeta. split; [by split_and!; [exact client0_wf|..]|].
  exact (messages_refine_dispatcher inbound1 client0 client0_wf eq_refl Hreg).
Defined.

Example inbound1_run :
  (InboundDispatcher.run decode_at parse_at inbound1 (dispatcher_abs client0)).1
  = [InboundDispatcher.Played silence; InboundDispatcher.Ignored;
     InboundDispatcher.Dropped; InboundDispatcher.Dropped;
     InboundDispatcher.Played silence; InboundDispatcher.Cleared].
Proof. reflexivity. Qed.

(** A dict of type [tts] without a state is a message of the wire format
    that the dispatcher ignores; the callback raises [KeyError]. *)
Example inbound_escape_run :
  (InboundDispatcher.dispatch decode_at parse_at (PStr "tts")
     (dispatcher_abs client0)).1 = InboundDispatcher.Ignored ∧
  result_of (AudioClient._on_message (PStr "tts") client0) =
    Raise (KeyError "state").
Proof. by vm_compute. Qed.
