(* ===== verification/Atomic.v ===== *)
(** * The close callback, one statement at a time

    [System] runs every callback of the transport as one action.  That
    is exact for [_on_open], [_on_message] and [_on_error], which write
    one thing at most that a thread or PortAudio reads.  [_on_close]
    (lines 224-235) writes three: the flag [is_running], the input
    stream, which [release] stops, and the socket, which [ws.close()]
    closes; the send and keepalive threads run between the three writes.

    [Fine] is the system in which they do: the callback is three actions
    of the transport's thread, [CloseFlag], [CloseRelease] and
    [CloseSocket], and every other action may come between them.  The
    file proves that nothing more happens in it than in [System]: a run
    of [Fine] in which every callback that begins ends is a run of
    [System] of the same actions in another order, with the callback as
    one action, that ends in the same state, in which every thread has
    the same effects at the same times, and in which the transport logs
    the same records.  The steps that have read the lowered flag move
    behind the callback, every other step of the window before it.  What
    holds of the threads along every run of [System] therefore holds
    along every run of [Fine]: the pacing of the sends, for one. *)

From S2P Require Import Prelude Python Config Containers Codec AudioIO.
From S2P Require Import Transport Client SendLoop Keepalive System.

Module Fine.
Section fine.
Context `{OpusLib} `{JsonLib}.

(** Where the transport's thread is in [_on_close], with the arguments
    of the call. *)
Inductive phase : Type :=
| Idle                                  (* not in the callback *)
| Flagged (code : option Z) (reason : option string)
                                        (* before [self.audio.release()] *)
| Released (code : option Z) (reason : option string).
                                        (* before [if self.ws:] *)

Record t : Type := mk {
  sys : System.t;
  transport : phase;
}.

Inductive action : Type :=
| Atomic (a : System.action)     (* an action of [System] *)
| CloseFlag (code : option Z) (reason : option string)
                                 (* [_on_close] is called and runs to line 227 *)
| CloseRelease                   (* line 232 *)
| CloseSocket.                   (* lines 233-235 *)

(** Lines 226-227. *)
Definition lower (code : option Z) (reason : option string)
    : M AudioClient.t unit :=
  modify (AudioClient.set_is_running false) ;;
  logger_info (ConnClosed code reason).

(** Line 232. *)
Definition release : M AudioClient.t unit :=
  zoom AudioClient.audio AudioClient.set_audio AudioIO.release.

(** Lines 233-235. *)
Definition close : M AudioClient.t unit :=
  zoom_opt AudioClient.ws AudioClient.set_ws WebSocketApp.close (ret tt) ;;
  logger_info ResourcesReleased.

(** A part of the callback: the transport's thread is at [next] when the
    part returns, and out of the callback when it raises. *)
Definition part (m : M AudioClient.t unit) (next : phase) (s : System.t)
    : t * list System.obs :=
  let r := m (System.client s) in
  (mk (System.mk (state_of r) (System.clock s) (System.threads s))
      (match result_of r with Ret _ => next | Raise _ => Idle end),
   System.stamp (System.clock s) None (trace_of r)).

Definition is_callback (a : System.action) : bool :=
  match a with System.Callback _ => true | _ => false end.

Definition busy (ph : phase) : bool :=
  match ph with Idle => false | _ => true end.

(** One action.  The transport's thread runs one callback at a time. *)
Definition step (a : action) (s : t) : option (t * list System.obs) :=
  match a with
  | Atomic a' =>
      if busy (transport s) && is_callback a' then None
      else '(s', os) ← System.step a' (sys s);
           Some (mk s' (transport s), os)
  | CloseFlag code reason =>
      match transport s with
      | Idle => Some (part (lower code reason) (Flagged code reason) (sys s))
      | _ => None
      end
  | CloseRelease =>
      match transport s with
      | Flagged code reason =>
          Some (part release (Released code reason) (sys s))
      | _ => None
      end
  | CloseSocket =>
      match transport s with
      | Released _ _ => Some (part close Idle (sys s))
      | _ => None
      end
  end.

Fixpoint run (acts : list action) (s : t) : option (t * list System.obs) :=
  match acts with
  | [] => Some (s, [])
  | a :: acts' =>
      '(s1, os1) ← step a s;
      '(s2, os2) ← run acts' s1;
      Some (s2, os1 ++ os2)
  end.

(** ** Reference definitions *)

(** The actions of [System] that a schedule stands for: the callback for
    its first part. *)
Definition coarse (acts : list action) : list System.action :=
  acts ≫= λ a,
    match a with
    | Atomic a' => [a']
    | CloseFlag code reason => [System.Callback (OnClose code reason)]
    | CloseRelease | CloseSocket => []
    end.

(** The effects of the threads, and the events of the transport's and
    PortAudio's. *)
Definition by_threads (os : list System.obs) : list System.obs :=
  filter (λ o, is_Some (System.by_thread o)) os.

Definition by_transport (os : list System.obs) : trace :=
  System.what <$> filter (λ o, System.by_thread o = None) os.

(** A thread at the test of its loop, and the thread when it has
    returned. *)
Definition at_test (th : System.thread) : bool :=
  match th with
  | System.SendT (SendLoop.Test _) | System.PingT Keepalive.Test => true
  | _ => false
  end.

Definition ended (th : System.thread) : System.thread :=
  match th with
  | System.SendT _ => System.SendT SendLoop.Exit
  | System.PingT _ => System.PingT Keepalive.Exit
  end.

(** The audio after [release]. *)
Definition shut (a : AudioIO.t) : AudioIO.t :=
  AudioIO.mk true (AudioIO.input_queue a) (AudioIO.output_buffer a)
    Stream.Closed Stream.Closed.

(** What the part of the callback that has run has done to the client,
    and what it has logged. *)
Definition begun (ph : phase) (c : AudioClient.t) : AudioClient.t :=
  match ph with
  | Idle => c
  | Flagged _ _ => AudioClient.set_is_running false c
  | Released _ _ =>
      AudioClient.set_audio (shut (AudioClient.audio c))
        (AudioClient.set_is_running false c)
  end.

Definition held (ph : phase) : trace :=
  match ph with
  | Idle => []
  | Flagged code reason => [Log INFO (ConnClosed code reason)]
  | Released code reason =>
      [Log INFO (ConnClosed code reason); Log INFO AudioReleased]
  end.

(** The threads of which those of [pending] have left their loop. *)
Definition retire (pending : list nat) (ths : list System.thread)
    : list System.thread :=
  foldr (alter ended) ths pending.

(** The actions that wait for the callback to end: the callback, and the
    steps of the threads that have read the lowered flag. *)
Definition delayed (ph : phase) (pending : list nat) : list System.action :=
  match ph with
  | Idle => []
  | Flagged code reason | Released code reason =>
      System.Callback (OnClose code reason) :: (System.Run <$> pending)
  end.

(** The state [sa] of [System] that a state [sc] of [Fine] stands for
    while the steps of [pending] wait: [sa] has run what [sc] has, except
    the callback that [sc] is in and the steps that wait. *)
Record sim (pending : list nat) (sa : System.t) (sc : t) : Prop := {
  sim_client :
    System.client (sys sc) = begun (transport sc) (System.client sa);
  sim_clock : System.clock (sys sc) = System.clock sa;
  sim_threads : System.threads (sys sc) = retire pending (System.threads sa);
  sim_nodup : NoDup pending;
  sim_pending :
    Forall (λ i, at_test <$> System.threads sa !! i = Some true) pending;
  sim_idle : transport sc = Idle → pending = [];
}.

(** A step of [Fine] from [sc] to [sc'] with the effects [os], which
    stands for [acts] in [System], is followed by [System] from [sa]. *)
Definition follows (pending : list nat) (sa : System.t) (sc : t)
    (acts : list System.action) (sc' : t) (os : list System.obs) : Prop :=
  ∃ pending' acts' sa' os',
    System.run acts' sa = Some (sa', os') ∧
    System.wf sa' ∧
    sim pending' sa' sc' ∧
    by_threads os' = by_threads os ∧
    by_transport os' ++ held (transport sc') =
      held (transport sc) ++ by_transport os ∧
    acts' ++ delayed (transport sc') pending' ≡ₚ
      delayed (transport sc) pending ++ acts.

End fine.
Arguments t {_}.
Arguments retire : simpl never.
End Fine.

(** ** The parts of the callback *)

Section fine_parts.
Context `{OpusLib} `{JsonLib}.
Implicit Types (c : AudioClient.t) (s sa : System.t) (sc : Fine.t)
  (ph : Fine.phase) (th : System.thread) (now : Q) (pending : list nat).

(** The three parts, one after the other, are the callback. *)
Lemma on_close_parts code reason :
  AudioClient._on_close code reason ≡
  (Fine.lower code reason ;; Fine.release ;; Fine.close).
Proof.
  unfold AudioClient._on_close, AudioClient._cleanup, Fine.lower.
  symmetry. apply bind_assoc.
Qed.

(** What a thread reads of the client is as it was until the socket is
    closed, except the flag; what it writes is written the same. *)
Lemma begun_ws ph c : AudioClient.ws (Fine.begun ph c) = AudioClient.ws c.
Proof. by destruct ph. Qed.

Lemma begun_queue ph c :
  AudioIO.input_queue (AudioClient.audio (Fine.begun ph c)) =
  AudioIO.input_queue (AudioClient.audio c).
Proof. by destruct ph. Qed.

Lemma begun_codec ph c :
  AudioClient.codec (Fine.begun ph c) = AudioClient.codec c.
Proof. by destruct ph. Qed.

Lemma begun_connected ph c :
  SendLoop.connected (Fine.begun ph c) = SendLoop.connected c.
Proof. by destruct ph. Qed.

Lemma begun_dequeued ph rest c :
  SendLoop.dequeued rest (Fine.begun ph c) =
  Fine.begun ph (SendLoop.dequeued rest c).
Proof. by destruct ph. Qed.

Lemma begun_with_encoder ph enc c :
  SendLoop.with_encoder enc (Fine.begun ph c) =
  Fine.begun ph (SendLoop.with_encoder enc c).
Proof. by destruct ph. Qed.

Lemma begun_set_ws ph w c :
  AudioClient.set_ws w (Fine.begun ph c) =
  Fine.begun ph (AudioClient.set_ws w c).
Proof. by destruct ph. Qed.

Lemma begun_lowered ph c :
  Fine.busy ph = true → AudioClient.is_running (Fine.begun ph c) = false.
Proof. by destruct ph. Qed.

End fine_parts.

Create Rewrite HintDb begun.
#[export] Hint Rewrite @begun_ws @begun_queue @begun_codec @begun_connected
  @begun_dequeued @begun_with_encoder @begun_set_ws : begun.

(** ** The steps of the threads in the callback *)

Section fine_threads.
Context `{OpusLib} `{JsonLib}.
Implicit Types (c : AudioClient.t) (s sa : System.t) (sc : Fine.t)
  (ph : Fine.phase) (th : System.thread) (now : Q) (pending : list nat).

(** A step of a thread that is not at the test of its loop does the same
    in the callback as before it. *)
Lemma thread_step_begun ph now th c :
  is_Some (AudioClient.ws c) → Fine.at_test th = false →
  System.thread_step now th (Fine.begun ph c) =
  (λ '(th', c', tr), (th', Fine.begun ph c', tr)) <$>
    System.thread_step now th c.
Proof.
  intros Hw Ht. destruct th as [p|p]; simpl.
  - rewrite !send_step_unfold by by rewrite ?begun_ws.
    destruct p; try done; simpl; autorewrite with begun;
      repeat case_match; simpl; by autorewrite with begun.
  - destruct p; try done; simpl.
    + by destruct (Qle_bool _ _).
    + unfold bind. rewrite !ping_unfold by by rewrite ?begun_ws.
      autorewrite with begun. by destruct (SendLoop.connected c).
Qed.

(** A thread at the test of its loop that finds the flag lowered
    leaves the loop, and that is all. *)
Lemma thread_step_retires now th c :
  Fine.at_test th = true → AudioClient.is_running c = false →
  System.thread_step now th c = Some (Fine.ended th, c, []).
Proof. intros Ht Hr. destruct th as [[]|[]]; try done; simpl; by rewrite Hr. Qed.

End fine_threads.

(** ** Threads that have left their loop *)

Section fine_retire.
Context `{OpusLib} `{JsonLib}.
Implicit Types (c : AudioClient.t) (th : System.thread) (now : Q)
  (pending : list nat) (ths : list System.thread).

Lemma retire_unfold i pending ths :
  Fine.retire (i :: pending) ths = alter Fine.ended i (Fine.retire pending ths).
Proof. reflexivity. Qed.

Lemma retire_lookup pending ths j :
  Fine.retire pending ths !! j =
  (if decide (j ∈ pending) then Fine.ended else id) <$> ths !! j.
Proof.
  induction pending as [|i pending IH].
  { unfold Fine.retire. simpl. by destruct (ths !! j). }
  rewrite retire_unfold. destruct (decide (j = i)) as [->|Hne].
  - rewrite list_lookup_alter_eq, IH.
    rewrite (decide_True (P := i ∈ i :: pending)) by apply list_elem_of_here.
    case_decide; by destruct (ths !! i) as [[]|].
  - rewrite list_lookup_alter_ne, IH by done.
    destruct (decide (j ∈ pending));
      [rewrite decide_True by by apply list_elem_of_further|
       rewrite decide_False by by apply not_elem_of_cons]; done.
Qed.

Lemma retire_insert i th pending ths :
  i ∉ pending →
  <[i := th]> (Fine.retire pending ths) = Fine.retire pending (<[i := th]> ths).
Proof.
  induction pending as [|k pending IH]; [done|].
  intros [Hik Hi]%not_elem_of_cons. rewrite !retire_unfold.
  rewrite <- IH by done. rewrite !list_insert_alter.
  by apply list_alter_alter_ne.
Qed.

Lemma retire_cons i th pending ths :
  i ∉ pending → ths !! i = Some th →
  Fine.retire (i :: pending) ths =
  Fine.retire pending (<[i := Fine.ended th]> ths).
Proof.
  intros Hi Hth. rewrite <- retire_insert, retire_unfold by done.
  rewrite list_insert_alter. apply list_alter_ext; [|done].
  intros th'. rewrite retire_lookup, decide_False, Hth by done. by intros [= <-].
Qed.

(** The threads of [pending] take the step that waits. *)
Lemma system_run_retire pending c now ths :
  AudioClient.is_running c = false → NoDup pending →
  Forall (λ i, Fine.at_test <$> ths !! i = Some true) pending →
  System.run (System.Run <$> pending) (System.mk c now ths) =
  Some (System.mk c now (Fine.retire pending ths), []).
Proof.
  intros Hr. revert ths.
  induction pending as [|i pending IH]; intros ths Hnd Hp; [done|].
  apply NoDup_cons in Hnd as [Hi Hnd]. apply Forall_cons in Hp as [Hth Hp].
  destruct (ths !! i) as [th|] eqn:Hlk; [|done]. injection Hth as Hth.
  cbn [fmap list_fmap System.run].
  erewrite system_step_run by (done || by apply thread_step_retires).
  cbn [mbind option_bind System.client System.clock System.threads].
  rewrite (retire_cons i th) by done. rewrite IH; [done|done|].
  apply Forall_forall. intros k Hk.
  rewrite list_lookup_insert_ne by by intros ->.
  by apply (proj1 (Forall_forall _ _) Hp).
Qed.

Lemma retire_wf now pending ths :
  Forall (System.thread_wf now) ths →
  Forall (System.thread_wf now) (Fine.retire pending ths).
Proof.
  intros Hths. induction pending as [|i pending IH]; [done|].
  rewrite retire_unfold. apply Forall_alter; [done|]. intros th _ _.
  by destruct th.
Qed.

End fine_retire.

(** ** Effects by who caused them *)

Section fine_effects.
Context `{OpusLib} `{JsonLib}.
Implicit Types (os : list System.obs) (tr : trace) (now : Q).

Lemma by_threads_app os1 os2 :
  Fine.by_threads (os1 ++ os2) = Fine.by_threads os1 ++ Fine.by_threads os2.
Proof. apply filter_app. Qed.

Lemma by_transport_app os1 os2 :
  Fine.by_transport (os1 ++ os2) =
  Fine.by_transport os1 ++ Fine.by_transport os2.
Proof. unfold Fine.by_transport. by rewrite filter_app, fmap_app. Qed.

Lemma by_threads_stamp now (j : option nat) tr :
  Fine.by_threads (System.stamp now j tr) =
  if j is Some _ then System.stamp now j tr else [].
Proof.
  unfold Fine.by_threads, System.stamp.
  induction tr as [|e tr IH]; [by destruct j|]. cbn [fmap list_fmap].
  destruct j; [rewrite filter_cons_True by by eexists|
               rewrite filter_cons_False by by intros [? [=]]]; by rewrite IH.
Qed.

Lemma by_transport_stamp now (j : option nat) tr :
  Fine.by_transport (System.stamp now j tr) = if j is Some _ then [] else tr.
Proof.
  unfold Fine.by_transport, System.stamp.
  induction tr as [|e tr IH]; [by destruct j|]. cbn [fmap list_fmap].
  destruct j; [rewrite filter_cons_False by done|
               rewrite filter_cons_True by done];
    cbn [fmap list_fmap]; by rewrite IH.
Qed.

(** The sends of a thread are among its effects. *)
Lemma sends_of_by_threads i os :
  System.sends_of i (Fine.by_threads os) = System.sends_of i os.
Proof.
  induction os as [|o os IH]; [done|].
  change (o :: os) with ([o] ++ os).
  rewrite by_threads_app, !sends_of_app, IH. f_equal.
  destruct o as [now [j|] w]; [done|]. by destruct w.
Qed.

End fine_effects.

#[export] Hint Rewrite @by_threads_app @by_transport_app @by_threads_stamp
  @by_transport_stamp : begun.

(** ** The callback and its parts in closed form *)

Section fine_close.
Context `{OpusLib} `{JsonLib}.
Implicit Types (c : AudioClient.t) (s sa : System.t) (now : Q).

Lemma fine_release_unfold c :
  AudioIO.wf (AudioClient.audio c) →
  Fine.release c =
  (Ret tt, AudioClient.set_audio (Fine.shut (AudioClient.audio c)) c,
   [Log INFO AudioReleased]).
Proof.
  intros Hwf. unfold Fine.release, zoom. by rewrite audio_release_unfold.
Qed.

Lemma fine_close_unfold c :
  Fine.close c =
  (Ret tt,
   AudioClient.set_ws (state_of ∘ WebSocketApp.close <$> AudioClient.ws c) c,
   [Log INFO ResourcesReleased]).
Proof. by destruct c as [[w|] k a r st pi]. Qed.

(** The callback, and then the steps that waited for it. *)
Lemma system_run_commit code reason (pending : list nat) sa :
  System.wf sa → NoDup pending →
  Forall (λ i, Fine.at_test <$> System.threads sa !! i = Some true) pending →
  let r := AudioClient._on_close code reason (System.client sa) in
  let sa' := System.mk (state_of r) (System.clock sa)
               (Fine.retire pending (System.threads sa)) in
  System.run (System.Callback (OnClose code reason) :: (System.Run <$> pending))
    sa = Some (sa', System.stamp (System.clock sa) None (trace_of r)) ∧
  System.wf sa'.
Proof.
  intros [Hcw Htw] Hnd Hp.
  destruct (client_on_close_state code reason _ Hcw)
    as (Hw' & _ & _ & _ & Hr & _ & Hst & _).
  cbv zeta. split.
  - cbn [System.run System.step AudioClient.dispatch mbind option_bind].
    rewrite Hst. cbn [fmap list_fmap]. rewrite app_nil_r.
    rewrite system_run_retire by done. simpl. by rewrite app_nil_r.
  - split; simpl; [done|]. by apply retire_wf.
Qed.

(** The client when all three parts have run. *)
Lemma cleaned_begun code reason c :
  AudioClient.wf c →
  AudioClient.cleaned (AudioClient.set_is_running false c) =
  state_of (Fine.close (Fine.begun (Fine.Released code reason) c)).
Proof.
  intros [Ha _]. rewrite fine_close_unfold. unfold AudioClient.cleaned.
  simpl. by rewrite audio_release_unfold.
Qed.

End fine_close.

(** ** The simulation, action by action *)

Section fine_window.
Context `{OpusLib} `{JsonLib}.
Implicit Types (c : AudioClient.t) (sa : System.t) (sc : Fine.t)
  (ph : Fine.phase) (th : System.thread) (now : Q) (pending : list nat).

Lemma thread_step_ended now th (c : AudioClient.t) :
  System.thread_step now (Fine.ended th) c = None.
Proof. by destruct th. Qed.

(** An action that does in [System] what it does in [Fine]. *)
Lemma follows_before pending (a : System.action) sa sc sa' sc' os :
  System.wf sa → System.step a sa = Some (sa', os) →
  Fine.sim pending sa' sc' → Fine.transport sc' = Fine.transport sc →
  (Fine.busy (Fine.transport sc) = true → Fine.by_transport os = []) →
  Fine.follows pending sa sc [a] sc' os.
Proof.
  intros Hwf Hs Hsim' Hph Hos.
  exists pending, [a], sa', os. split_and!; try done.
  - cbn [System.run]. rewrite Hs. simpl. by rewrite app_nil_r.
  - by eapply system_step_wf.
  - rewrite Hph. destruct (Fine.transport sc); [by rewrite app_nil_r|..];
      by rewrite Hos, app_nil_r.
  - rewrite Hph. apply Permutation_app_comm.
Qed.

(** A step of a thread while the callback runs.  At the test of its
    loop the thread has read the lowered flag: the step waits for the
    callback.  Anywhere else the step is one of before the callback. *)
Lemma fine_step_thread pending i sa sc sc' os :
  System.wf sa → Fine.sim pending sa sc →
  Fine.busy (Fine.transport sc) = true →
  Fine.step (Fine.Atomic (System.Run i)) sc = Some (sc', os) →
  Fine.follows pending sa sc [System.Run i] sc' os.
Proof.
  intros Hwf [Hc Hn Ht Hnd Hp _] Hb. pose proof Hwf as [Hcw Htw].
  destruct sc as [[cc now thsc] ph], sa as [ca now' ths]; simpl in *; subst.
  unfold Fine.step. rewrite andb_false_r. simpl. rewrite retire_lookup.
  destruct (ths !! i) as [th|] eqn:Hi; [|done]. simpl.
  destruct (decide (i ∈ pending)) as [Hin|Hin].
  { by rewrite thread_step_ended. }
  simpl (id th). destruct (Fine.at_test th) eqn:Hat.
  - rewrite thread_step_retires by (done || by apply begun_lowered). simpl.
    intros [= <- <-]. exists (i :: pending), [], (System.mk ca now' ths), [].
    split_and!; try done.
    + split; simpl; try done.
      * by rewrite (retire_cons i th), retire_insert.
      * by apply NoDup_cons.
      * apply Forall_cons. by rewrite Hi; simpl; rewrite Hat.
      * by destruct ph.
    + simpl. by rewrite app_nil_r.
    + destruct ph; [done|..]; simpl; constructor; apply Permutation_cons_append.
  - rewrite thread_step_begun by (done || by destruct Hcw).
    destruct (System.thread_step now' th ca) as [[[th' ca'] tr]|] eqn:Hs; [|done].
    simpl. intros [= <- <-]. eapply follows_before; [done| | |done|].
    + by apply (system_step_run i (System.mk ca now' ths) th).
    + split; simpl; try done.
      * by rewrite retire_insert.
      * apply Forall_forall. intros k Hk.
        rewrite list_lookup_insert_ne by by intros ->.
        by apply (proj1 (Forall_forall _ _) Hp).
      * by destruct ph.
    + intros _. by autorewrite with begun.
Qed.

(** Time, PortAudio and the network while the callback runs: as before
    the callback.  PortAudio completes no capture after [release]. *)
Lemma fine_step_env pending (a : System.action) sa sc sc' os :
  System.wf sa → Fine.sim pending sa sc →
  Fine.busy (Fine.transport sc) = true →
  (if a is System.Run _ then False else True) →
  Fine.step (Fine.Atomic a) sc = Some (sc', os) →
  Fine.follows pending sa sc [a] sc' os.
Proof.
  intros Hwf [Hc Hn Ht Hnd Hp _] Hb Ha. pose proof Hwf as [Hcw Htw].
  destruct sc as [[cc now thsc] ph], sa as [ca now' ths]; simpl in *; subst.
  unfold Fine.step. simpl. rewrite Hb.
  destruct a as [dt|b|ev|k|i]; try done; simpl.
  - destruct (Qle_bool 0 dt) eqn:Hdt; [|done]. simpl. intros [= <- <-].
    eapply follows_before; [done| | |done|done].
    + simpl. by rewrite Hdt.
    + split; simpl; try done. by destruct ph.
  - destruct (System.capture b _) as [[r a']|] eqn:Hcap; [|done]. simpl.
    intros [= <- <-]. destruct ph as [|code reason|code reason]; try done.
    eapply follows_before; [done| | |done|done].
    + simpl. simpl in Hcap. by rewrite Hcap.
    + by split.
  - intros [= <- <-]. eapply follows_before; [done|done| |done|done].
    split; simpl; try done; [by autorewrite with begun|by destruct ph..].
Qed.

(** [release]: the callback goes on, and [System] waits. *)
Lemma fine_step_release pending sa sc sc' os :
  System.wf sa → Fine.sim pending sa sc →
  Fine.step Fine.CloseRelease sc = Some (sc', os) →
  Fine.follows pending sa sc [] sc' os.
Proof.
  intros Hwf [Hc Hn Ht Hnd Hp _]. pose proof Hwf as [[Ha Hw] Htw].
  destruct sc as [[cc now thsc] ph], sa as [ca now' ths]; simpl in *; subst.
  unfold Fine.step. simpl. destruct ph as [|code reason|]; try done.
  unfold Fine.part. simpl. rewrite fine_release_unfold by done. simpl.
  intros [= <- <-].
  exists pending, [], (System.mk ca now' ths), []. split_and!; try done.
  simpl. by rewrite app_nil_r.
Qed.

(** [ws.close()] and the last record: the callback is over, and
    [System] runs it, and the steps that waited. *)
Lemma fine_step_socket pending sa sc sc' os :
  System.wf sa → Fine.sim pending sa sc →
  Fine.step Fine.CloseSocket sc = Some (sc', os) →
  Fine.follows pending sa sc [] sc' os.
Proof.
  intros Hwf [Hc Hn Ht Hnd Hp _]. pose proof Hwf as [[Ha Hw] Htw].
  destruct sc as [[cc now thsc] ph], sa as [ca now' ths]; simpl in *; subst.
  unfold Fine.step. simpl. destruct ph as [| |code reason]; try done.
  destruct (system_run_commit code reason pending _ Hwf Hnd Hp) as [Hrun Hwf'].
  cbn [System.client System.clock System.threads] in Hrun, Hwf'.
  rewrite client_on_close_unfold in Hrun, Hwf' by done.
  rewrite (cleaned_begun code reason) in Hrun, Hwf' by done.
  unfold Fine.part. simpl. rewrite fine_close_unfold in *. intros [= <- <-].
  eexists [], _, _, _. split_and!; [exact Hrun|exact Hwf'|..].
  - split; simpl; try done. constructor.
  - by autorewrite with begun.
  - by autorewrite with begun.
  - by rewrite !app_nil_r.
Qed.

(** An action while no callback runs. *)
Lemma fine_step_idle a sa sc sc' os :
  System.wf sa → Fine.sim [] sa sc → Fine.transport sc = Fine.Idle →
  Fine.step a sc = Some (sc', os) →
  Fine.follows [] sa sc (Fine.coarse [a]) sc' os.
Proof.
  intros Hwf [Hc Hn Ht _ _ _] Hph.
  destruct sc as [[cc now thsc] ph], sa as [ca now' ths]; simpl in *; subst.
  destruct a as [a|code reason| |]; try done; simpl.
  - destruct (System.step a _) as [[s' os']|] eqn:Hs; [|done]. simpl.
    intros [= <- <-]. eapply follows_before; [done|done| |done|done].
    split; try done; constructor.
  - intros [= <- <-]. exists [], [], (System.mk ca now' ths), [].
    split_and!; try done. split; try done; constructor.
Qed.

(** Every action of [Fine] is followed by [System]. *)
Lemma fine_step_sim pending a sa sc sc' os :
  System.wf sa → Fine.sim pending sa sc → Fine.step a sc = Some (sc', os) →
  Fine.follows pending sa sc (Fine.coarse [a]) sc' os.
Proof.
  intros Hwf Hsim Hs. destruct (Fine.busy (Fine.transport sc)) eqn:Hb.
  - destruct a as [[]| | |].
    1-4: by apply fine_step_env.
    + by apply fine_step_thread.
    + by destruct sc as [? []].
    + by apply fine_step_release.
    + by apply fine_step_socket.
  - assert (Fine.transport sc = Fine.Idle) as Hph by by destruct (Fine.transport sc).
    pose proof (Fine.sim_idle _ _ _ Hsim Hph) as ->. by apply fine_step_idle.
Qed.

End fine_window.

(** ** Runs *)

Section fine_runs.
Context `{OpusLib} `{JsonLib}.
Implicit Types (sa : System.t) (sc : Fine.t) (pending : list nat).

Lemma coarse_cons a macts :
  Fine.coarse (a :: macts) = Fine.coarse [a] ++ Fine.coarse macts.
Proof. unfold Fine.coarse. simpl. by rewrite app_nil_r. Qed.

Lemma sim_idle_refl sa : Fine.sim [] sa (Fine.mk sa Fine.Idle).
Proof. split; try done; constructor. Qed.

(** A state of [Fine] outside the callback stands for itself. *)
Lemma sim_idle_eq pending sa sc :
  Fine.sim pending sa sc → Fine.transport sc = Fine.Idle →
  pending = [] ∧ Fine.sys sc = sa.
Proof.
  intros [Hc Hn Ht _ _ Hi] Hph. rewrite (Hi Hph) in *. split; [done|].
  destruct sc as [[cc now thsc] ph], sa as [ca now' ths]; simpl in *. by subst.
Qed.

Lemma follows_refl pending sa sc :
  System.wf sa → Fine.sim pending sa sc → Fine.follows pending sa sc [] sc [].
Proof.
  intros Hwf Hsim. exists pending, [], sa, [].
  split_and!; try done; by rewrite app_nil_r.
Qed.

Lemma follows_trans pending sa sc acts1 sc1 os1 acts2 sc2 os2 :
  Fine.follows pending sa sc acts1 sc1 os1 →
  (∀ pending1 sa1, System.wf sa1 → Fine.sim pending1 sa1 sc1 →
                   Fine.follows pending1 sa1 sc1 acts2 sc2 os2) →
  Fine.follows pending sa sc (acts1 ++ acts2) sc2 (os1 ++ os2).
Proof.
  intros (p1 & a1 & sa1 & os1' & Hr1 & Hwf1 & Hsim1 & Hth1 & Htr1 & Hp1) Hnext.
  destruct (Hnext _ _ Hwf1 Hsim1)
    as (p2 & a2 & sa2 & os2' & Hr2 & Hwf2 & Hsim2 & Hth2 & Htr2 & Hp2).
  exists p2, (a1 ++ a2), sa2, (os1' ++ os2'). split_and!; try done.
  - rewrite system_run_app, Hr1. simpl. by rewrite Hr2.
  - by rewrite !by_threads_app, Hth1, Hth2.
  - by rewrite !by_transport_app, <- app_assoc, Htr2, !app_assoc, Htr1.
  - by rewrite <- app_assoc, Hp2, !app_assoc, Hp1.
Qed.

(** Every run of [Fine] is followed by [System]. *)
Lemma fine_run_sim macts pending sa sc sc' os :
  System.wf sa → Fine.sim pending sa sc →
  Fine.run macts sc = Some (sc', os) →
  Fine.follows pending sa sc (Fine.coarse macts) sc' os.
Proof.
  revert pending sa sc sc' os.
  induction macts as [|a macts IH]; intros pending sa sc sc' os Hwf Hsim.
  { intros [= <- <-]. by apply follows_refl. }
  rewrite coarse_cons. cbn [Fine.run].
  destruct (Fine.step a sc) as [[sc1 os1]|] eqn:Hs; [|done].
  cbn [mbind option_bind].
  destruct (Fine.run macts sc1) as [[sc2 os2]|] eqn:Hr; [|done].
  cbn [mbind option_bind]. intros [= <- <-].
  eapply follows_trans; [by apply fine_step_sim|]. intros p1 sa1 Hwf1 Hsim1.
  by apply IH.
Qed.

Lemma fine_run_app macts1 macts2 sc :
  Fine.run (macts1 ++ macts2) sc =
  '(sc1, os1) ← Fine.run macts1 sc;
  '(sc2, os2) ← Fine.run macts2 sc1;
  Some (sc2, os1 ++ os2).
Proof.
  revert sc. induction macts1 as [|a macts1 IH]; intros sc; simpl.
  { by destruct (Fine.run macts2 sc) as [[sc2 os2]|]. }
  destruct (Fine.step a sc) as [[sc1 os1]|]; [|done]. simpl. rewrite IH.
  destruct (Fine.run macts1 sc1) as [[sc2 os2]|]; [|done]. simpl.
  destruct (Fine.run macts2 sc2) as [[sc3 os3]|]; [|done]. simpl.
  by rewrite app_assoc.
Qed.

(** A callback that has begun can end: two actions of the transport's
    thread at most lead out of it. *)
Lemma fine_close_ends sc :
  ∃ macts sc' os,
    Fine.run macts sc = Some (sc', os) ∧ Fine.transport sc' = Fine.Idle ∧
    Fine.by_threads os = [] ∧ length macts ≤ 2.
Proof.
  destruct sc as [s [|code reason|code reason]].
  - exists [], (Fine.mk s Fine.Idle), []. split_and!; [done..|simpl; lia].
  - destruct (result_of (Fine.release (System.client s))) eqn:Hrel.
    + eexists [Fine.CloseRelease; Fine.CloseSocket], _, _.
      cbn -[Fine.release Fine.close]. unfold Fine.part.
      rewrite Hrel, fine_close_unfold.
      split_and!; [done..|by autorewrite with begun|done].
    + eexists [Fine.CloseRelease], _, _.
      cbn -[Fine.release Fine.close]. rewrite Hrel.
      split_and!; [done..|by autorewrite with begun|lia].
  - eexists [Fine.CloseSocket], _, _. cbn -[Fine.close]. unfold Fine.part.
    rewrite fine_close_unfold.
    split_and!; [done..|by autorewrite with begun|lia].
Qed.

(** C16: the close callback is atomic.  In the system in which
    [_on_close] is three actions of the transport's thread (the flag is
    lowered, the audio is released, the socket is closed) and the
    threads, PortAudio and the clock run between them, every run that
    ends outside the callback is matched by a run of the system in which
    a callback is one action: a schedule of the same actions in another
    order, with each callback in the place of its first part, leads from
    the same state to the same state; every thread has the same effects
    at the same times, and the callbacks log the same records in the
    same order. *)
Theorem close_callback_atomic macts sa sc' os :
  System.wf sa →
  Fine.run macts (Fine.mk sa Fine.Idle) = Some (sc', os) →
  Fine.transport sc' = Fine.Idle →
  ∃ acts os',
    System.run acts sa = Some (Fine.sys sc', os') ∧
    acts ≡ₚ Fine.coarse macts ∧
    Fine.by_threads os' = Fine.by_threads os ∧
    Fine.by_transport os' = Fine.by_transport os.
Proof.
  intros Hwf Hr Hph.
  destruct (fine_run_sim _ _ _ _ _ _ Hwf (sim_idle_refl sa) Hr)
    as (p & acts & sa' & os' & Hr' & _ & Hsim & Hth & Htr & Hp).
  destruct (sim_idle_eq _ _ _ Hsim Hph) as [-> <-].
  rewrite Hph in *. simpl in *. rewrite app_nil_r in *.
  by exists acts, os'.
Qed.

(** C17: pacing holds with the close callback in parts.  Along every run
    of [Fine] from a well-formed state, whether or not it ends inside
    the callback, the times at which one send thread has a frame
    accepted by [ws.send] are a period or more apart: the pacing of the
    send loop does not rest on the callbacks being atomic. *)
Theorem fine_sends_paced i macts sa sc' os p :
  System.wf sa → System.threads sa !! i = Some (System.SendT p) →
  Fine.run macts (Fine.mk sa Fine.Idle) = Some (sc', os) →
  System.paced SendLoop.period (System.sends_of i os).
Proof.
  intros Hwf Hi Hr.
  destruct (fine_close_ends sc') as (more & sc2 & os2 & Hr2 & Hph & Hth2 & _).
  assert (Fine.run (macts ++ more) (Fine.mk sa Fine.Idle)
          = Some (sc2, os ++ os2)) as Hrun
    by (rewrite fine_run_app, Hr; simpl; by rewrite Hr2).
  destruct (fine_run_sim _ _ _ _ _ _ Hwf (sim_idle_refl sa) Hrun)
    as (_ & acts & sa' & os' & Hr' & _ & _ & Hth & _).
  rewrite by_threads_app, Hth2, app_nil_r in Hth.
  rewrite <- sends_of_by_threads, <- Hth, sends_of_by_threads.
  by eapply system_run_paced.
Qed.

End fine_runs.

(** ** Concrete runs with [toy_opus] and [toy_json] *)

(** A send thread that holds a packet and a keepalive thread at its
    test, at second 1. *)
Definition sys_closing : System.t :=
  sys_with SockConnected [] 1 (SendLoop.Encoded 0 [Byte.x01]) Keepalive.Test.

Lemma sys_closing_wf : System.wf sys_closing.
Proof. apply sys_with_wf; [simpl; lia|]. split; [done|]. by vm_compute. Qed.

(** The connection closes.  Between the flag and [release] the send
    thread sends its packet and the keepalive thread leaves its loop;
    between [release] and [ws.close()] the send thread reads the clock;
    after the callback it leaves its loop. *)
Definition sched_close : list Fine.action :=
  [Fine.CloseFlag None None; Fine.Atomic (System.Run 0);
   Fine.Atomic (System.Run 1); Fine.CloseRelease;
   Fine.Atomic (System.Run 0); Fine.CloseSocket; Fine.Atomic (System.Run 0)].

(** The packet is sent although the callback has begun. *)
Example close_run :
  ∃ sc os,
    Fine.run sched_close (Fine.mk sys_closing Fine.Idle) = Some (sc, os) ∧
    Fine.transport sc = Fine.Idle ∧
    System.threads (Fine.sys sc) =
      [System.SendT SendLoop.Exit; System.PingT Keepalive.Exit] ∧
    System.outbox os = [[Byte.x01]] ∧
    Fine.by_transport os =
      [Log INFO (ConnClosed None None); Log INFO AudioReleased;
       Log INFO ResourcesReleased].
Proof. eexists _, _. split; [by vm_compute|]. by vm_compute. Qed.

(** With the callback as one action in the place of its first part, the
    same actions in the same order are no run of [System]: the send fails
    on the closed socket and the thread has no second step.  The run that
    matches has the callback after the two steps of the send thread. *)
Example close_coarse_run :
  System.run (Fine.coarse sched_close) sys_closing = None ∧
  ∃ s os,
    System.run
      [System.Run 0; System.Run 0; System.Callback (OnClose None None);
       System.Run 1; System.Run 0] sys_closing = Some (s, os) ∧
    System.threads s =
      [System.SendT SendLoop.Exit; System.PingT Keepalive.Exit] ∧
    System.outbox os = [[Byte.x01]].
Proof.
  split; [by vm_compute|]. eexists _, _. split; [by vm_compute|].
  by vm_compute.
Qed.

Lemma close_callback_atomic_witness :
  System.wf sys_closing ∧
  ∃ sc os acts os',
    Fine.run sched_close (Fine.mk sys_closing Fine.Idle) = Some (sc, os) ∧
    Fine.transport sc = Fine.Idle ∧
    System.run acts sys_closing = Some (Fine.sys sc, os') ∧
    acts ≡ₚ Fine.coarse sched_close ∧
    Fine.by_threads os' = Fine.by_threads os ∧
    Fine.by_transport os' = Fine.by_transport os.
Proof.
  split; [exact sys_closing_wf|].
  destruct (Fine.run sched_close (Fine.mk sys_closing Fine.Idle))
    as [[sc os]|] eqn:Hr; [|by vm_compute in Hr].
  assert (Fine.transport sc = Fine.Idle) as Hend.
  { pose proof Hr as Hv. vm_compute in Hv. by injection Hv as <- _. }
  destruct (close_callback_atomic sched_close _ sc os sys_closing_wf Hr Hend)
    as (acts & os' & Hrun & Hperm & Hth & Htr).
  exists sc, os, acts, os'. split; [reflexivity|]. split; [exact Hend|].
  split; [exact Hrun|]. split; [exact Hperm|]. split; [exact Hth|exact Htr].
Defined.

(** A send thread that holds a packet, with a block in the queue. *)
Definition sys_sending : System.t :=
  sys_with SockConnected [frame0] 1 (SendLoop.Encoded 0 [Byte.x01])
    Keepalive.Test.

Lemma sys_sending_wf : System.wf sys_sending.
Proof. apply sys_with_wf; [simpl; lia|]. split; [done|]. by vm_compute. Qed.

(** The thread sends its packet and is past the test of its loop when
    the callback lowers the flag; it takes the queued block, encodes it
    and sends the packet before the callback goes on. *)
Definition sched_late : list Fine.action :=
  [Fine.Atomic (System.Run 0); Fine.Atomic (System.Run 0);
   Fine.Atomic (System.Tick (3 # 50)); Fine.Atomic (System.Run 0);
   Fine.CloseFlag None None; Fine.Atomic (System.Run 0);
   Fine.Atomic (System.Run 0); Fine.Atomic (System.Run 0)].

Lemma fine_sends_paced_witness :
  System.wf sys_sending ∧
  ∃ sc os,
    Fine.run sched_late (Fine.mk sys_sending Fine.Idle) = Some (sc, os) ∧
    Fine.transport sc = Fine.Flagged None None ∧
    System.outbox os = [[Byte.x01]; take 720 frame0] ∧
    length (System.sends_of 0 os) = 2 ∧
    System.paced SendLoop.period (System.sends_of 0 os).
Proof.
  split; [exact sys_sending_wf|].
  destruct (Fine.run sched_late (Fine.mk sys_sending Fine.Idle))
    as [[sc os]|] eqn:Hr; [|by vm_compute in Hr].
  exists sc, os. split; [reflexivity|].
  split_and!.
  - pose proof Hr as Hv. vm_compute in Hv. by injection Hv as <- _.
  - pose proof Hr as Hv. vm_compute in Hv. injection Hv as _ <-.
    by vm_compute.
  - pose proof Hr as Hv. vm_compute in Hv. injection Hv as _ <-.
    by vm_compute.
  - exact (fine_sends_paced 0 sched_late _ _ _ _ sys_sending_wf eq_refl Hr).
Defined.
